(* ===== verification/_CoqProject ===== *)
-Q . S2P
Prelude.v
Bytes.v
Crc.v
Device.v
Superblock.v
Bgd.v
Bitmap.v
GoLib.v
Extent.v
Limits.v
Inode.v
Inline.v
FileRead.v
BlockMap.v
Dir.v
DirTail.v
Alloc.v
Journal.v
Image.v
Lookup.v
Namespace.v
WriteFile.v
OnDisk.v
AllocSpec.v
JournalSpec.v
JournalWrite.v
NamespaceSpec.v
InodeMap.v
Fsck.v
FsInv.v
Fs.v
FileWrite.v
FileWriteSpec.v
WriteAtSpec.v
TruncateSpec.v
WriteFileSpec.v
Resize.v
ResizeSpec.v
ResizeImage.v
Locks.v
Dispatch.v
Format.v
FormatSpec.v
FormatCorrect.v
