(* ===== verification/Prelude.v ===== *)
(** Verification of the ext4 driver: prelude. *)

From stdpp Require Export base list gmap strings.
From Stdlib Require Export ZArith Lia.

#[global] Open Scope Z_scope.

(** * Errors, results and the panic outcome

    A Go function that returns [(T, error)] becomes a function into [res T].
    [Panic] is the run-time panic of an out-of-range index, a slice
    expression out of bounds or a division by zero: it is kept apart from the
    errors so that "never panics on a hostile image" is a statement.  [OutOfFuel]
    is not an error of the code: a loop modelled with fuel returns it when the
    fuel runs out, and a theorem shows that it does not.  [Blocked] stands for a
    call that waits for a condition no one is left to establish. *)

Inductive error : Type :=
| Errorf (msg : string)
| ErrWrap (msg : string) (e : error)
| EOF
| ErrUnexpectedEOF
| ErrClosed
| ErrTooLarge
| ErrNotExist
| ErrDevice (code : Z)
| Blocked
| OutOfFuel.

#[global] Instance error_eq_dec : EqDecision error.
Proof. solve_decision. Defined.

(** [errors.Is]: the wrapped error at the end of the chain. *)
Fixpoint errors_cause (e : error) : error :=
  match e with ErrWrap _ e => errors_cause e | _ => e end.

Inductive res (A : Type) : Type :=
| Ok (a : A)
| Err (e : error)
| Panic.
Arguments Ok {A} a.
Arguments Err {A} e.
Arguments Panic {A}.

Definition rbind {A B : Type} (m : res A) (k : A -> res B) : res B :=
  match m with
  | Ok a => k a
  | Err e => Err e
  | Panic => Panic
  end.

(** [fmt.Errorf("...: %w", err)]. *)
Definition rwrap {A : Type} (msg : string) (m : res A) : res A :=
  match m with
  | Ok a => Ok a
  | Err e => Err (ErrWrap msg e)
  | Panic => Panic
  end.

Definition is_ok {A : Type} (m : res A) : bool :=
  match m with Ok _ => true | _ => false end.

Declare Scope go_scope.
Delimit Scope go_scope with go.
Notation "'let!' x ':=' m 'in' k" := (rbind m (fun x => k))
  (at level 10, x pattern, m at level 100, k at level 200,
   format "'[v' 'let!'  x  ':='  m  'in' '/' k ']'") : go_scope.
#[global] Open Scope go_scope.

Lemma rbind_Ok {A B} (m : res A) (k : A -> res B) (b : B) :
  rbind m k = Ok b <-> exists a, m = Ok a /\ k a = Ok b.
Proof. destruct m; simpl; naive_solver. Qed.

Lemma rbind_not_panic {A B} (m : res A) (k : A -> res B) :
  m <> Panic -> (forall a, m = Ok a -> k a <> Panic) -> rbind m k <> Panic.
Proof. destruct m; simpl; naive_solver. Qed.

Lemma rbind_assoc {A B C} (m : res A) (k : A -> res B) (h : B -> res C) :
  rbind (rbind m k) h = rbind m (fun a => rbind (k a) h).
Proof. by destruct m. Qed.

Lemma rwrap_Ok {A} msg (m : res A) a : rwrap msg m = Ok a <-> m = Ok a.
Proof. destruct m; simpl; naive_solver. Qed.

(** Inversion of a successful sequence, one binding at a time. *)
Ltac res_inv :=
  repeat match goal with
  | H : rbind _ _ = Ok _ |- _ =>
      let x := fresh "x" in let Hx := fresh "Hx" in
      apply rbind_Ok in H; destruct H as (x & Hx & H)
  | H : rwrap _ _ = Ok _ |- _ => apply rwrap_Ok in H
  | H : Ok _ = Ok _ |- _ => injection H as H; try subst
  | H : Err _ = Ok _ |- _ => discriminate H
  | H : Panic = Ok _ |- _ => discriminate H
  | H : (if ?b then _ else _) = Ok _ |- _ =>
      let E := fresh "E" in destruct b eqn:E; try discriminate H
  | H : (let '(_, _) := ?p in _) = Ok _ |- _ =>
      first [is_var p; destruct p | destruct p eqn:?]
  end.

(** * State and errors

    Code that changes the device or an in-memory structure threads the state
    explicitly; the state survives an error, as it does in Go. *)

Definition M (S A : Type) : Type := S -> res A * S.

Definition ret {S A} (a : A) : M S A := fun s => (Ok a, s).
Definition mfail {S A} (e : error) : M S A := fun s => (Err e, s).
Definition mbnd {S A B} (m : M S A) (k : A -> M S B) : M S B := fun s =>
  match m s with
  | (Ok a, s') => k a s'
  | (Err e, s') => (Err e, s')
  | (Panic, s') => (Panic, s')
  end.
Definition mlift {S A} (r : res A) : M S A := fun s => (r, s).
Definition mget {S} : M S S := fun s => (Ok s, s).
Definition mput {S} (s : S) : M S unit := fun _ => (Ok tt, s).
(** A read-only function of the state. *)
Definition mreads {S A} (f : S -> res A) : M S A := fun s => (f s, s).
Definition mmodify {S} (f : S -> S) : M S unit := fun s => (Ok tt, f s).
Definition mwrap {S A} (msg : string) (m : M S A) : M S A := fun s =>
  let '(r, s') := m s in (rwrap msg r, s').

Notation "'do!' x ':=' m 'in' k" := (mbnd m (fun x => k))
  (at level 10, x pattern, m at level 100, k at level 200,
   format "'[v' 'do!'  x  ':='  m  'in' '/' k ']'") : go_scope.

Lemma mbnd_Ok {S A B} (m : M S A) (k : A -> M S B) s b s' :
  mbnd m k s = (Ok b, s') <->
  exists a s1, m s = (Ok a, s1) /\ k a s1 = (Ok b, s').
Proof.
  unfold mbnd. destruct (m s) as [[a|e|] s1]; split; naive_solver.
Qed.

Lemma mreads_Ok {S A} (f : S -> res A) s a s' :
  mreads f s = (Ok a, s') <-> f s = Ok a /\ s' = s.
Proof.
  unfold mreads. split; [by intros [= -> ->] | by intros [-> ->]].
Qed.

Lemma mwrap_Ok {S A} msg (m : M S A) s a s' :
  mwrap msg m s = (Ok a, s') <-> m s = (Ok a, s').
Proof.
  unfold mwrap. destruct (m s) as [[b|e|] s1]; simpl; naive_solver.
Qed.

(** Running a computation forwards. *)
Lemma mbnd_run {S A B} (m : M S A) (k : A -> M S B) s a s' :
  m s = (Ok a, s') -> mbnd m k s = k a s'.
Proof. unfold mbnd. by intros ->. Qed.
Lemma mwrap_run {S A} msg (m : M S A) s a s' : m s = (Ok a, s') -> mwrap msg m s = (Ok a, s').
Proof. apply mwrap_Ok. Qed.
Lemma mbnd_fail {S A B} (m : M S A) (k : A -> M S B) s e s' :
  m s = (Err e, s') -> mbnd m k s = (Err e, s').
Proof. unfold mbnd. by intros ->. Qed.
Lemma mwrap_fail {S A} msg (m : M S A) s e s' : m s = (Err e, s') -> mwrap msg m s = (Err (ErrWrap msg e), s').
Proof. unfold mwrap. by intros ->. Qed.
Lemma mlift_run {S A} (r : res A) (s : S) a : r = Ok a -> mlift r s = (Ok a, s).
Proof. by intros ->. Qed.


Ltac st_inv :=
  repeat match goal with
  | H : mbnd _ _ _ = (Ok _, _) |- _ =>
      let x := fresh "x" in let s := fresh "s" in let Hx := fresh "Hx" in
      apply mbnd_Ok in H; destruct H as (x & s & Hx & H)
  | H : ret _ _ = (Ok _, _) |- _ => unfold ret in H; injection H as H; subst
  | H : mlift _ _ = (Ok _, _) |- _ => unfold mlift in H; injection H as H; subst
  | H : mreads _ _ = (Ok _, _) |- _ => apply mreads_Ok in H; destruct H as [H ?]; subst
  | H : mwrap _ _ _ = (Ok _, _) |- _ => apply mwrap_Ok in H
  | H : mfail _ _ = (Ok _, _) |- _ => discriminate H
  | H : (if ?b then _ else _) _ = (Ok _, _) |- _ =>
      let E := fresh "E" in destruct b eqn:E; try discriminate H
  end.

(** * Machine integers

    An unsigned w-bit value is a [Z] in [0, 2^w); a conversion or an
    arithmetic operation that may leave the range is followed by the wrap. *)

Definition w8 (x : Z) : Z := x mod 2 ^ 8.
Definition w16 (x : Z) : Z := x mod 2 ^ 16.
Definition w32 (x : Z) : Z := x mod 2 ^ 32.
Definition w64 (x : Z) : Z := x mod 2 ^ 64.
(** Two's complement [int64]. *)
Definition i64 (x : Z) : Z := (x + 2 ^ 63) mod 2 ^ 64 - 2 ^ 63.

Lemma w8_small x : 0 <= x < 256 -> w8 x = x.
Proof. intros. unfold w8. apply Z.mod_small. lia. Qed.
Lemma w16_small x : 0 <= x < 65536 -> w16 x = x.
Proof. intros. unfold w16. apply Z.mod_small. lia. Qed.
Lemma w32_small x : 0 <= x < 4294967296 -> w32 x = x.
Proof. intros. unfold w32. apply Z.mod_small. lia. Qed.
Lemma w64_small x : 0 <= x < 18446744073709551616 -> w64 x = x.
Proof. intros. unfold w64. apply Z.mod_small. lia. Qed.
Lemma i64_small x : - 2 ^ 63 <= x < 2 ^ 63 -> i64 x = x.
Proof. intros. unfold i64. rewrite Z.mod_small; lia. Qed.

Lemma w8_range x : 0 <= w8 x < 256.
Proof. unfold w8. apply (Z.mod_pos_bound x 256). lia. Qed.
Lemma w16_range x : 0 <= w16 x < 65536.
Proof. unfold w16. apply (Z.mod_pos_bound x 65536). lia. Qed.
Lemma w32_range x : 0 <= w32 x < 4294967296.
Proof. unfold w32. apply (Z.mod_pos_bound x 4294967296). lia. Qed.
Lemma w64_range x : 0 <= w64 x < 18446744073709551616.
Proof. unfold w64. apply (Z.mod_pos_bound x 18446744073709551616). lia. Qed.

(** [lia] with [Z.div] and [Z.modulo] by constants. *)
Ltac dlia := Z.to_euclidean_division_equations; lia.

(** * Bits *)

Lemma lt_pow2_testbit x n i :
  0 <= n -> 0 <= x < 2 ^ n -> n <= i -> Z.testbit x i = false.
Proof.
  intros Hn [H0 H1] Hi. destruct (decide (x = 0)) as [->|]; [apply Z.bits_0|].
  apply Z.bits_above_log2; [done|].
  apply Z.lt_le_trans with n; [|done]. apply Z.log2_lt_pow2; lia.
Qed.

Lemma testbit_lt_pow2 x n :
  0 <= n -> 0 <= x -> (forall i, n <= i -> Z.testbit x i = false) -> x < 2 ^ n.
Proof.
  intros Hn H0 Hb. destruct (decide (x < 2 ^ n)) as [|Hge]; [done|]. exfalso.
  assert (0 < x) by (pose proof (Z.pow_pos_nonneg 2 n); lia).
  assert (n <= Z.log2 x) by (apply Z.log2_le_pow2; lia).
  specialize (Hb (Z.log2 x) ltac:(done)).
  by rewrite Z.bit_log2 in Hb.
Qed.

Lemma lxor_range n a b :
  0 <= n -> 0 <= a < 2 ^ n -> 0 <= b < 2 ^ n -> 0 <= Z.lxor a b < 2 ^ n.
Proof.
  intros Hn Ha Hb. assert (0 <= Z.lxor a b) by (apply Z.lxor_nonneg; lia).
  split; [done|]. apply testbit_lt_pow2; [done..|]. intros i Hi.
  by rewrite Z.lxor_spec, (lt_pow2_testbit a n), (lt_pow2_testbit b n).
Qed.

Lemma lor_range n a b :
  0 <= n -> 0 <= a < 2 ^ n -> 0 <= b < 2 ^ n -> 0 <= Z.lor a b < 2 ^ n.
Proof.
  intros Hn Ha Hb. assert (0 <= Z.lor a b) by (apply Z.lor_nonneg; lia).
  split; [done|]. apply testbit_lt_pow2; [done..|]. intros i Hi.
  by rewrite Z.lor_spec, (lt_pow2_testbit a n), (lt_pow2_testbit b n).
Qed.

(** [hi << n | lo] for a [lo] below [2^n]. *)
Lemma lor_shiftl_add hi lo n :
  0 <= n -> 0 <= lo < 2 ^ n -> Z.lor (Z.shiftl hi n) lo = hi * 2 ^ n + lo.
Proof.
  intros Hn Hlo. rewrite <- Z.lxor_lor, <- Z.add_nocarry_lxor.
  - by rewrite Z.shiftl_mul_pow2.
  - apply Z.bits_inj'. intros i Hi. rewrite Z.land_spec, Z.bits_0.
    destruct (decide (i < n)); [by rewrite Z.shiftl_spec_low|].
    by rewrite (lt_pow2_testbit lo n), andb_false_r by lia.
  - apply Z.bits_inj'. intros i Hi. rewrite Z.land_spec, Z.bits_0.
    destruct (decide (i < n)); [by rewrite Z.shiftl_spec_low|].
    by rewrite (lt_pow2_testbit lo n), andb_false_r by lia.
Qed.

(** Boolean tests of the code as propositions. *)
Ltac zbool :=
  repeat match goal with
  | H : (_ && _) = true |- _ => apply andb_true_iff in H as [? ?]
  | H : (_ || _) = false |- _ => apply orb_false_iff in H as [? ?]
  | H : (_ && _) = false |- _ => apply andb_false_iff in H
  | H : (_ || _) = true |- _ => apply orb_true_iff in H
  | H : negb _ = true |- _ => apply negb_true_iff in H
  | H : negb _ = false |- _ => apply negb_false_iff in H
  | H : (_ <? _) = true |- _ => apply Z.ltb_lt in H
  | H : (_ <? _) = false |- _ => apply Z.ltb_ge in H
  | H : (_ <=? _) = true |- _ => apply Z.leb_le in H
  | H : (_ <=? _) = false |- _ => apply Z.leb_gt in H
  | H : (_ =? _) = true |- _ => apply Z.eqb_eq in H
  | H : (_ =? _) = false |- _ => apply Z.eqb_neq in H
  | H : bool_decide _ = true |- _ => apply bool_decide_eq_true in H
  | H : bool_decide _ = false |- _ => apply bool_decide_eq_false in H
  end.

Lemma ltb_true a b : a < b -> (a <? b) = true.
Proof. by rewrite Z.ltb_lt. Qed.
Lemma ltb_false a b : b <= a -> (a <? b) = false.
Proof. by rewrite Z.ltb_ge. Qed.
Lemma leb_true a b : a <= b -> (a <=? b) = true.
Proof. by rewrite Z.leb_le. Qed.
Lemma leb_false a b : b < a -> (a <=? b) = false.
Proof. by rewrite Z.leb_gt. Qed.
Lemma eqb_true a b : a = b -> (a =? b) = true.
Proof. by rewrite Z.eqb_eq. Qed.
Lemma eqb_false a b : a <> b -> (a =? b) = false.
Proof. by rewrite Z.eqb_neq. Qed.

Lemma Forall_filter {A} (P Q : A -> Prop) `{!forall x, Decision (Q x)} (l : list A) :
  Forall P l -> Forall P (filter Q l).
Proof.
  rewrite !Forall_forall. intros Hl x Hx. apply list_elem_of_filter in Hx as [_ Hx]. auto.
Qed.
