(* ===== verification/Bytes.v ===== *)
(** Byte buffers and [encoding/binary].

    A Go [[]byte] is a list of [Z] in [0, 256); an index or a slice expression
    out of range is [Panic].  The little-endian accessors of
    [binary.LittleEndian] come in two forms: the pure field functions [uN] and
    [setN], and the checked [get*]/[put*] the decoders use. *)

From S2P Require Import Prelude.

(** * Lengths, slices and splices at integer offsets *)

Definition zlen {A} (l : list A) : Z := Z.of_nat (length l).

(** [l[off:off+n]], truncated at the end of [l]. *)
Definition zslice {A} (l : list A) (off n : Z) : list A :=
  take (Z.to_nat n) (drop (Z.to_nat off) l).

(** [copy(l[off:], bs)]: what does not fit is cut off, the length of [l] is
    kept. *)
Definition zsplice {A} (l : list A) (off : Z) (bs : list A) : list A :=
  take (Z.to_nat off) l ++ take (length l - Z.to_nat off) bs ++
  drop (Z.to_nat off + length bs) l.

Definition byte_ok (b : Z) : Prop := 0 <= b < 256.
Definition bytes_ok (l : list Z) : Prop := Forall byte_ok l.

Definition zeros (n : Z) : list Z := replicate (Z.to_nat n) 0.

(** [l[i]], zero out of range; the checked form is [get8]. *)
Definition u8 (l : list Z) (i : Z) : Z := default 0 (l !! Z.to_nat i).

(** * Little-endian integers *)

Fixpoint le_decode (l : list Z) : Z :=
  match l with
  | [] => 0
  | b :: l' => b + 256 * le_decode l'
  end.

Fixpoint le_encode (n : nat) (v : Z) : list Z :=
  match n with
  | O => []
  | S n' => v mod 256 :: le_encode n' (v / 256)
  end.

Definition uN (n : nat) (l : list Z) (off : Z) : Z :=
  le_decode (zslice l off (Z.of_nat n)).
Definition setN (n : nat) (l : list Z) (off v : Z) : list Z :=
  zsplice l off (le_encode n v).

Notation u16 := (uN 2).
Notation u32 := (uN 4).
Notation u64 := (uN 8).
Notation set16 := (setN 2).
Notation set32 := (setN 4).
Notation set64 := (setN 8).

Definition in_range (l : list Z) (off n : Z) : bool :=
  (0 <=? off) && (off + n <=? zlen l).

Definition get8 (l : list Z) (i : Z) : res Z :=
  if in_range l i 1 then Ok (u8 l i) else Panic.
Definition put8 (l : list Z) (i v : Z) : res (list Z) :=
  if in_range l i 1 then Ok (zsplice l i [w8 v]) else Panic.
Definition getN (n : nat) (l : list Z) (off : Z) : res Z :=
  if in_range l off (Z.of_nat n) then Ok (uN n l off) else Panic.
Definition putN (n : nat) (l : list Z) (off v : Z) : res (list Z) :=
  if in_range l off (Z.of_nat n) then Ok (setN n l off v) else Panic.

Notation get16 := (getN 2).
Notation get32 := (getN 4).
Notation get64 := (getN 8).
Notation put16 := (putN 2).
Notation put32 := (putN 4).
Notation put64 := (putN 8).

(** [l[a:b]]. *)
Definition subslice (l : list Z) (a b : Z) : res (list Z) :=
  if (0 <=? a) && (a <=? b) && (b <=? zlen l) then Ok (zslice l a (b - a)) else Panic.

(** [copy(l[off:], bs)]: the slice expression may panic. *)
Definition copy_at (l : list Z) (off : Z) (bs : list Z) : res (list Z) :=
  if (0 <=? off) && (off <=? zlen l)
  then Ok (zsplice l off bs) else Panic.

(** * Lengths *)

Create Rewrite HintDb zlen.

Lemma zlen_nonneg {A} (l : list A) : 0 <= zlen l.
Proof. unfold zlen. lia. Qed.
Lemma zlen_nil {A} : zlen (@nil A) = 0.
Proof. done. Qed.
Lemma zlen_cons {A} (x : A) l : zlen (x :: l) = 1 + zlen l.
Proof. unfold zlen. simpl. lia. Qed.
Lemma zlen_app {A} (l1 l2 : list A) : zlen (l1 ++ l2) = zlen l1 + zlen l2.
Proof. unfold zlen. rewrite length_app. lia. Qed.
Lemma zlen_zeros n : 0 <= n -> zlen (zeros n) = n.
Proof. intros. unfold zlen, zeros. rewrite length_replicate. lia. Qed.
Lemma zlen_zslice {A} (l : list A) off n :
  0 <= off -> 0 <= n -> off + n <= zlen l -> zlen (zslice l off n) = n.
Proof. unfold zlen, zslice. intros. rewrite length_take, length_drop. lia. Qed.
Lemma zlen_zslice_le {A} (l : list A) off n :
  0 <= n -> zlen (zslice l off n) <= n.
Proof. unfold zlen, zslice. intros. rewrite length_take. lia. Qed.
Lemma length_zsplice {A} (l : list A) off bs : length (zsplice l off bs) = length l.
Proof. unfold zsplice. rewrite !length_app, !length_take, length_drop. lia. Qed.
Lemma zlen_zsplice {A} (l : list A) off bs : zlen (zsplice l off bs) = zlen l.
Proof. unfold zlen. by rewrite length_zsplice. Qed.
Lemma zsplice_fits {A} (l : list A) off bs :
  0 <= off -> off + zlen bs <= zlen l ->
  zsplice l off bs = take (Z.to_nat off) l ++ bs ++ drop (Z.to_nat off + length bs) l.
Proof. unfold zlen, zsplice. intros. by rewrite (take_ge bs) by lia. Qed.
Lemma length_le_encode n v : length (le_encode n v) = n.
Proof. revert v. induction n; intros; simpl; congruence. Qed.
Lemma zlen_le_encode n v : zlen (le_encode n v) = Z.of_nat n.
Proof. unfold zlen. by rewrite length_le_encode. Qed.
Lemma zlen_setN n l off v : zlen (setN n l off v) = zlen l.
Proof. apply zlen_zsplice. Qed.

#[export] Hint Rewrite @zlen_nil @zlen_cons @zlen_app zlen_le_encode
  @zlen_zsplice zlen_setN : zlen.
#[export] Hint Rewrite zlen_zeros @zlen_zslice
  using (autorewrite with zlen; lia) : zlen.

(** Goals about lengths and offsets. *)
Ltac zl := autorewrite with zlen; try lia.

(** * Slices of spliced buffers *)

Lemma zslice_lookup {A} (l : list A) off n i :
  0 <= off -> (i < Z.to_nat n)%nat ->
  zslice l off n !! i = l !! (Z.to_nat off + i)%nat.
Proof.
  intros. unfold zslice. rewrite lookup_take_lt by lia. by rewrite lookup_drop.
Qed.

Lemma zsplice_lookup_old {A} (l : list A) off bs i :
  0 <= off -> off + zlen bs <= zlen l ->
  (Z.of_nat i < off \/ off + zlen bs <= Z.of_nat i) ->
  zsplice l off bs !! i = l !! i.
Proof.
  intros H1 H2 H. rewrite zsplice_fits by done. unfold zlen in *. destruct H as [H|H].
  - rewrite lookup_app_l by (rewrite length_take; lia). apply lookup_take_lt. lia.
  - rewrite lookup_app_r by (rewrite length_take; lia).
    rewrite lookup_app_r by (rewrite length_take; lia).
    rewrite lookup_drop, length_take. f_equal. lia.
Qed.

Lemma zsplice_lookup_new {A} (l : list A) off bs i :
  0 <= off -> off + zlen bs <= zlen l ->
  off <= Z.of_nat i < off + zlen bs ->
  zsplice l off bs !! i = bs !! (i - Z.to_nat off)%nat.
Proof.
  intros H1 H2 H. rewrite zsplice_fits by done. unfold zlen in *.
  rewrite lookup_app_r by (rewrite length_take; lia).
  rewrite lookup_app_l by (rewrite length_take; lia).
  rewrite length_take. f_equal. lia.
Qed.

Lemma zslice_zsplice_same {A} (l : list A) off bs n :
  0 <= off -> off + zlen bs <= zlen l -> n = zlen bs ->
  zslice (zsplice l off bs) off n = bs.
Proof.
  intros. rewrite zsplice_fits by done. unfold zlen, zslice in *. subst n.
  rewrite drop_app_ge by (rewrite length_take; lia).
  rewrite length_take.
  replace (Z.to_nat off - Z.to_nat off `min` length l)%nat with 0%nat by lia.
  rewrite drop_0, Nat2Z.id. apply take_app_length.
Qed.

Lemma zslice_zsplice_ne {A} (l : list A) off off' bs n :
  0 <= off -> 0 <= n -> 0 <= off' -> off' + zlen bs <= zlen l ->
  (off + n <= off' \/ off' + zlen bs <= off) ->
  zslice (zsplice l off' bs) off n = zslice l off n.
Proof.
  intros Ho Hn Ho' Hb Hd. apply list_eq. intros i.
  destruct (decide (i < Z.to_nat n)%nat) as [Hi|Hi].
  - rewrite !zslice_lookup by lia. apply zsplice_lookup_old; lia.
  - unfold zslice. rewrite !lookup_ge_None_2; [done| |];
      rewrite length_take; lia.
Qed.

Lemma zslice_all {A} (l : list A) n : zlen l <= n -> zslice l 0 n = l.
Proof. unfold zlen, zslice. intros. rewrite drop_0. apply take_ge. lia. Qed.

Lemma zslice_zslice {A} (l : list A) a n b m :
  0 <= a -> 0 <= b -> 0 <= m -> b + m <= n ->
  zslice (zslice l a n) b m = zslice l (a + b) m.
Proof.
  intros. apply list_eq. intros i.
  destruct (decide (i < Z.to_nat m)%nat) as [Hi|Hi].
  - rewrite !zslice_lookup by lia. f_equal. lia.
  - unfold zslice. rewrite !lookup_ge_None_2; [done| |]; rewrite length_take; lia.
Qed.

Lemma zslice_app {A} (l : list A) off n m :
  0 <= off -> 0 <= n -> 0 <= m ->
  zslice l off (n + m) = zslice l off n ++ zslice l (off + n) m.
Proof.
  intros. unfold zslice.
  rewrite Z2Nat.inj_add, Z2Nat.inj_add by lia.
  by rewrite <- drop_drop, take_take_drop.
Qed.

(** * Little-endian round trips *)

Lemma byte_ok_mod v : byte_ok (v mod 256).
Proof. unfold byte_ok. apply Z.mod_pos_bound. lia. Qed.

Lemma bytes_ok_le_encode n v : bytes_ok (le_encode n v).
Proof.
  revert v. induction n as [|n IH]; intros; simpl; constructor;
    [apply byte_ok_mod | apply IH].
Qed.

Lemma le_decode_encode n v : le_decode (le_encode n v) = v mod 256 ^ Z.of_nat n.
Proof.
  revert v. induction n as [|n IH]; intros v.
  - simpl. by rewrite Z.mod_1_r.
  - cbn [le_encode le_decode]. rewrite IH.
    rewrite Nat2Z.inj_succ, Z.pow_succ_r by lia.
    rewrite Z.rem_mul_r by lia. lia.
Qed.

Lemma le_decode_encode_small n v :
  0 <= v < 256 ^ Z.of_nat n -> le_decode (le_encode n v) = v.
Proof. intros. rewrite le_decode_encode. by apply Z.mod_small. Qed.

Lemma le_decode_range l : bytes_ok l -> 0 <= le_decode l < 256 ^ zlen l.
Proof.
  induction 1 as [|b l Hb Hl IH]; [done|].
  cbn [le_decode]. rewrite zlen_cons, Z.pow_add_r, Z.pow_1_r by (auto using zlen_nonneg; lia).
  unfold byte_ok in Hb. nia.
Qed.

Lemma le_encode_decode n l :
  bytes_ok l -> length l = n -> le_encode n (le_decode l) = l.
Proof.
  intros H. revert n. induction H as [|b l Hb Hl IH]; intros n Hn;
    subst n; [done|]. cbn [length le_encode le_decode]. unfold byte_ok in Hb.
  rewrite (Z.mul_comm 256), Z.mod_add, Z.div_add by lia.
  rewrite Z.mod_small, Z.div_small by lia. by rewrite Z.add_0_l, IH.
Qed.

Lemma zslice_zeros n off m : 0 <= off -> 0 <= m -> off + m <= n -> zslice (zeros n) off m = zeros m.
Proof. intros. unfold zslice, zeros. rewrite drop_replicate, take_replicate. f_equal. lia. Qed.

Lemma bytes_ok_zeros n : bytes_ok (zeros n).
Proof. apply Forall_replicate. unfold byte_ok. lia. Qed.

Lemma bytes_ok_app l1 l2 : bytes_ok (l1 ++ l2) <-> bytes_ok l1 /\ bytes_ok l2.
Proof. apply Forall_app. Qed.

Lemma bytes_ok_zslice l off n : bytes_ok l -> bytes_ok (zslice l off n).
Proof. intros. unfold zslice. by apply Forall_take, Forall_drop. Qed.

Lemma bytes_ok_zsplice l off bs :
  bytes_ok l -> bytes_ok bs -> bytes_ok (zsplice l off bs).
Proof.
  intros. unfold zsplice. rewrite !bytes_ok_app.
  split_and!; [by apply Forall_take | by apply Forall_take | by apply Forall_drop].
Qed.

Lemma bytes_ok_setN n l off v : bytes_ok l -> bytes_ok (setN n l off v).
Proof. intros. apply bytes_ok_zsplice; auto using bytes_ok_le_encode. Qed.

Create HintDb bytes discriminated.
#[export] Hint Resolve bytes_ok_le_encode bytes_ok_zeros bytes_ok_zslice
  bytes_ok_zsplice bytes_ok_setN byte_ok_mod : bytes.

Lemma uN_range n l off :
  bytes_ok l -> 0 <= off -> off + Z.of_nat n <= zlen l ->
  0 <= uN n l off < 256 ^ Z.of_nat n.
Proof.
  intros Hl Ho Hn. unfold uN.
  pose proof (le_decode_range (zslice l off (Z.of_nat n))) as H.
  rewrite zlen_zslice in H by lia. auto with bytes.
Qed.

Lemma uN_range_any n l off :
  bytes_ok l -> 0 <= uN n l off < 256 ^ Z.of_nat n.
Proof.
  intros Hl. unfold uN.
  pose proof (le_decode_range (zslice l off (Z.of_nat n)) ltac:(auto with bytes)) as H.
  pose proof (zlen_zslice_le l off (Z.of_nat n) ltac:(lia)).
  pose proof (Z.pow_le_mono_r 256 (zlen (zslice l off (Z.of_nat n))) (Z.of_nat n)).
  lia.
Qed.

Lemma u16_range l off : bytes_ok l -> 0 <= u16 l off < 65536.
Proof. apply (uN_range_any 2). Qed.
Lemma u32_range l off : bytes_ok l -> 0 <= u32 l off < 4294967296.
Proof. apply (uN_range_any 4). Qed.

Lemma u8_range l i : bytes_ok l -> 0 <= u8 l i < 256.
Proof.
  intros H. unfold u8. destruct (l !! Z.to_nat i) as [b|] eqn:E; simpl; [|lia].
  by apply (Forall_lookup_1 _ _ _ _ H E).
Qed.

Lemma uN_zsplice_same n l off bs :
  0 <= off -> off + zlen bs <= zlen l -> Z.of_nat n = zlen bs ->
  uN n (zsplice l off bs) off = le_decode bs.
Proof. intros. unfold uN. by rewrite zslice_zsplice_same. Qed.

Lemma uN_zsplice_ne n l off off' bs :
  0 <= off -> 0 <= off' -> off' + zlen bs <= zlen l ->
  (off + Z.of_nat n <= off' \/ off' + zlen bs <= off) ->
  uN n (zsplice l off' bs) off = uN n l off.
Proof. intros. unfold uN. rewrite zslice_zsplice_ne; auto; lia. Qed.

Lemma uN_setN_same n l off v :
  0 <= off -> off + Z.of_nat n <= zlen l ->
  uN n (setN n l off v) off = v mod 256 ^ Z.of_nat n.
Proof.
  intros. unfold setN.
  rewrite uN_zsplice_same by (rewrite ?zlen_le_encode; lia).
  apply le_decode_encode.
Qed.

Lemma uN_setN_ne n m l off off' v :
  0 <= off -> 0 <= off' -> off' + Z.of_nat m <= zlen l ->
  (off + Z.of_nat n <= off' \/ off' + Z.of_nat m <= off) ->
  uN n (setN m l off' v) off = uN n l off.
Proof.
  intros. unfold setN. apply uN_zsplice_ne; rewrite ?zlen_le_encode; lia.
Qed.

Lemma zslice_setN_ne m l off n off' v :
  0 <= off -> 0 <= n -> 0 <= off' -> off' + Z.of_nat m <= zlen l ->
  (off + n <= off' \/ off' + Z.of_nat m <= off) ->
  zslice (setN m l off' v) off n = zslice l off n.
Proof.
  intros. unfold setN. apply zslice_zsplice_ne; rewrite ?zlen_le_encode; lia.
Qed.

Lemma u8_zsplice_ne l off i bs :
  0 <= i -> 0 <= off -> off + zlen bs <= zlen l ->
  (i < off \/ off + zlen bs <= i) ->
  u8 (zsplice l off bs) i = u8 l i.
Proof. intros. unfold u8. rewrite zsplice_lookup_old; auto; lia. Qed.

Lemma u8_zsplice_new l off i bs :
  0 <= off -> off + zlen bs <= zlen l -> off <= i < off + zlen bs ->
  u8 (zsplice l off bs) i = u8 bs (i - off).
Proof.
  intros. unfold u8. rewrite zsplice_lookup_new by lia. do 2 f_equal. lia.
Qed.

Lemma u8_setN_ne m l off i v :
  0 <= i -> 0 <= off -> off + Z.of_nat m <= zlen l ->
  (i < off \/ off + Z.of_nat m <= i) ->
  u8 (setN m l off v) i = u8 l i.
Proof. intros. apply u8_zsplice_ne; rewrite ?zlen_le_encode; lia. Qed.

(** * Checked accesses *)

Lemma in_range_true l off n : in_range l off n = true <-> 0 <= off /\ off + n <= zlen l.
Proof. unfold in_range. rewrite andb_true_iff, !Z.leb_le. done. Qed.

Lemma get8_ok l i : 0 <= i -> i < zlen l -> get8 l i = Ok (u8 l i).
Proof.
  intros. unfold get8. by rewrite (proj2 (in_range_true l i 1)) by lia.
Qed.
Lemma put8_ok l i v : 0 <= i -> i < zlen l -> put8 l i v = Ok (zsplice l i [w8 v]).
Proof.
  intros. unfold put8. by rewrite (proj2 (in_range_true l i 1)) by lia.
Qed.
Lemma getN_ok n l off :
  0 <= off -> off + Z.of_nat n <= zlen l -> getN n l off = Ok (uN n l off).
Proof.
  intros. unfold getN. by rewrite (proj2 (in_range_true l off _)) by lia.
Qed.
Lemma putN_ok n l off v :
  0 <= off -> off + Z.of_nat n <= zlen l -> putN n l off v = Ok (setN n l off v).
Proof.
  intros. unfold putN. by rewrite (proj2 (in_range_true l off _)) by lia.
Qed.
Lemma subslice_ok l a b :
  0 <= a -> a <= b -> b <= zlen l -> subslice l a b = Ok (zslice l a (b - a)).
Proof.
  intros. unfold subslice.
  rewrite (proj2 (Z.leb_le 0 a)), (proj2 (Z.leb_le a b)), (proj2 (Z.leb_le b _)) by lia.
  done.
Qed.
Lemma copy_at_ok l off bs :
  0 <= off -> off + zlen bs <= zlen l -> copy_at l off bs = Ok (zsplice l off bs).
Proof.
  intros. unfold copy_at. pose proof (zlen_nonneg bs).
  rewrite (proj2 (Z.leb_le 0 off)), (proj2 (Z.leb_le off _)) by lia. done.
Qed.

Create Rewrite HintDb bytes.
#[export] Hint Rewrite @rbind_assoc : bytes.
#[export] Hint Rewrite get8_ok put8_ok getN_ok putN_ok subslice_ok copy_at_ok
  using (zl; done) : bytes.
#[export] Hint Rewrite uN_setN_same uN_setN_ne zslice_setN_ne u8_setN_ne
  u8_zsplice_ne @zslice_zsplice_ne uN_zsplice_ne
  using (zl; done) : bytes.

(** Runs every access that the context shows to be in range. *)
Ltac bytes := repeat (autorewrite with bytes zlen; cbn [rbind]).
Ltac bytes_in H := repeat (autorewrite with bytes zlen in H; cbn [rbind] in H).

(** * Freedom from panics *)

Lemma get8_np l i : 0 <= i -> i < zlen l -> get8 l i <> Panic.
Proof. intros. by rewrite get8_ok. Qed.
Lemma put8_np l i v : 0 <= i -> i < zlen l -> put8 l i v <> Panic.
Proof. intros. by rewrite put8_ok. Qed.
Lemma getN_np n l off : 0 <= off -> off + Z.of_nat n <= zlen l -> getN n l off <> Panic.
Proof. intros. by rewrite getN_ok. Qed.
Lemma putN_np n l off v : 0 <= off -> off + Z.of_nat n <= zlen l -> putN n l off v <> Panic.
Proof. intros. by rewrite putN_ok. Qed.
Lemma subslice_np l a b : 0 <= a -> a <= b -> b <= zlen l -> subslice l a b <> Panic.
Proof. intros. by rewrite subslice_ok. Qed.
Lemma copy_at_np l off bs : 0 <= off -> off <= zlen l -> copy_at l off bs <> Panic.
Proof. intros. unfold copy_at. by rewrite !leb_true by lia. Qed.
Lemma rwrap_np {A} msg (m : res A) : m <> Panic -> rwrap msg m <> Panic.
Proof. by destruct m. Qed.

Create HintDb np discriminated.

(** Walks a sequence of bindings and tests; the accesses are discharged from
    the lengths in context, the calls from the hint database [np]. *)
Ltac np_step :=
  match goal with
  | |- Ok _ <> Panic => discriminate
  | |- Err _ <> Panic => discriminate
  | |- rbind _ _ <> Panic => apply rbind_not_panic; [|intros ? ?]
  | |- rwrap _ _ <> Panic => apply rwrap_np
  | |- get8 _ _ <> Panic => apply get8_np; zl
  | |- put8 _ _ _ <> Panic => apply put8_np; zl
  | |- getN _ _ _ <> Panic => apply getN_np; zl
  | |- putN _ _ _ _ <> Panic => apply putN_np; zl
  | |- subslice _ _ _ <> Panic => apply subslice_np; zl
  | |- copy_at _ _ _ <> Panic => apply copy_at_np; zl
  | |- (if ?b then _ else _) <> Panic => let E := fresh "E" in destruct b eqn:E
  | |- (let '(_, _) := ?p in _) <> Panic => first [is_var p; destruct p | destruct p eqn:?]
  | |- (let _ := _ in _) <> Panic => cbv zeta
  | |- _ => solve [eauto with np]
  end.
Ltac np := repeat np_step.

(** * Pointwise reasoning *)

Lemma zslice_u8_ext l1 l2 off n :
  0 <= off -> off + n <= zlen l1 -> off + n <= zlen l2 ->
  (forall i, off <= i < off + n -> u8 l1 i = u8 l2 i) -> zslice l1 off n = zslice l2 off n.
Proof.
  intros Ho H1 H2 He. unfold zlen in *.
  assert (length (zslice l1 off n) = Z.to_nat n) as L1
    by (unfold zslice; rewrite length_take, length_drop; lia).
  assert (length (zslice l2 off n) = Z.to_nat n) as L2
    by (unfold zslice; rewrite length_take, length_drop; lia).
  apply list_eq_same_length with (Z.to_nat n); [done..|].
  intros i x y Hi Hx Hy. rewrite zslice_lookup in Hx, Hy by lia.
  specialize (He (off + Z.of_nat i) ltac:(lia)). unfold u8 in He.
  replace (Z.to_nat (off + Z.of_nat i)) with (Z.to_nat off + i)%nat in He by lia.
  by rewrite Hx, Hy in He.
Qed.

Lemma uN_u8_ext n l1 l2 off :
  0 <= off -> off + Z.of_nat n <= zlen l1 -> off + Z.of_nat n <= zlen l2 ->
  (forall i, off <= i < off + Z.of_nat n -> u8 l1 i = u8 l2 i) -> uN n l1 off = uN n l2 off.
Proof. intros. unfold uN. f_equal. by apply zslice_u8_ext. Qed.

Lemma u8_zslice l off n i :
  0 <= off -> 0 <= i < n -> u8 (zslice l off n) i = u8 l (off + i).
Proof.
  intros. unfold u8. rewrite zslice_lookup by lia. do 2 f_equal. lia.
Qed.

(** * Concatenations and adjacent writes *)

Lemma zslice_app_l {A} (a b : list A) off n :
  0 <= off -> 0 <= n -> off + n <= zlen a -> zslice (a ++ b) off n = zslice a off n.
Proof.
  intros. unfold zslice, zlen in *. rewrite drop_app_le by lia.
  rewrite take_app_le; [done|]. rewrite length_drop. lia.
Qed.

Lemma zslice_app_r {A} (a b : list A) off n :
  zlen a <= off -> zslice (a ++ b) off n = zslice b (off - zlen a) n.
Proof.
  intros. unfold zslice, zlen in *. rewrite drop_app_ge by lia. do 2 f_equal. lia.
Qed.

Lemma uN_app_l n a b off :
  0 <= off -> off + Z.of_nat n <= zlen a -> uN n (a ++ b) off = uN n a off.
Proof. intros. unfold uN. by rewrite zslice_app_l by lia. Qed.

Lemma uN_app_r n a b off : zlen a <= off -> uN n (a ++ b) off = uN n b (off - zlen a).
Proof. intros. unfold uN. by rewrite zslice_app_r by lia. Qed.

Lemma uN_le_encode n v : uN n (le_encode n v) 0 = v mod 256 ^ Z.of_nat n.
Proof.
  unfold uN. rewrite zslice_all by (rewrite zlen_le_encode; lia). apply le_decode_encode.
Qed.

Lemma uN_zslice n l off m k :
  0 <= off -> 0 <= k -> k + Z.of_nat n <= m -> uN n (zslice l off m) k = uN n l (off + k).
Proof. intros. unfold uN. by rewrite zslice_zslice by lia. Qed.

Lemma zsplice_adjacent {A} (l : list A) off a b off' :
  0 <= off -> off' = off + zlen a -> off + zlen a + zlen b <= zlen l ->
  zsplice (zsplice l off a) off' b = zsplice l off (a ++ b).
Proof.
  intros Ho -> Hl. pose proof (zlen_nonneg a). pose proof (zlen_nonneg b).
  apply list_eq. intros i.
  destruct (decide (Z.of_nat i < off)).
  { rewrite !zsplice_lookup_old by (rewrite ?zlen_zsplice, ?zlen_app; lia). done. }
  destruct (decide (Z.of_nat i < off + zlen a)).
  { rewrite zsplice_lookup_old by (rewrite ?zlen_zsplice; lia).
    rewrite !zsplice_lookup_new by (rewrite ?zlen_app; lia).
    rewrite lookup_app_l; [done|]. unfold zlen in *. lia. }
  destruct (decide (Z.of_nat i < off + zlen a + zlen b)).
  { rewrite !zsplice_lookup_new by (rewrite ?zlen_zsplice, ?zlen_app; lia).
    rewrite lookup_app_r by (unfold zlen in *; lia). f_equal. unfold zlen in *. lia. }
  rewrite !zsplice_lookup_old by (rewrite ?zlen_zsplice, ?zlen_app; lia). done.
Qed.

Lemma zsplice_nil {A} (l : list A) off : 0 <= off -> zsplice l off [] = l.
Proof.
  intros. unfold zsplice. rewrite take_nil. simpl.
  rewrite Nat.add_0_r. apply take_drop.
Qed.

(** * Deciding that a concrete buffer holds bytes *)

Definition all_bytes (l : list Z) : bool := forallb (fun b => (0 <=? b) && (b <? 256)) l.

Lemma all_bytes_ok l : all_bytes l = true -> bytes_ok l.
Proof.
  unfold all_bytes. rewrite forallb_forall. intros Hl. apply Forall_forall. intros x Hx.
  apply list_elem_of_In in Hx. specialize (Hl x Hx). unfold byte_ok. zbool. lia.
Qed.
