(* ===== verification/Crc.v ===== *)
(** CRC-32C ([src/checksum.go]).

    [hash/crc32] is modelled down to its table: [simpleMakeTable] builds the
    entry of a byte by eight reflected shifts, [Update] runs the table over
    the data between two complements, and the package's [crc32c] undoes the
    complements.  The file shows that the result is the kernel's raw running
    CRC, that it chains, and that it detects every single-byte corruption. *)

From S2P Require Import Prelude Bytes.

Definition castagnoli_poly : Z := 0x82f63b78.

(** One shift of [simpleMakeTable]. *)
Definition crc_bit (crc : Z) : Z :=
  if Z.odd crc then Z.lxor (Z.shiftr crc 1) castagnoli_poly else Z.shiftr crc 1.

(** [castagnoli[i]]. *)
Definition castagnoli (i : Z) : Z := Nat.iter 8 crc_bit i.

(** One byte of [crc32.update]: [tab[byte(crc)^v] ^ (crc >> 8)]. *)
Definition crc_step (crc v : Z) : Z :=
  Z.lxor (castagnoli (Z.lxor (w8 crc) v)) (Z.shiftr crc 8).

(** [^x] on [uint32]. *)
Definition not32 (x : Z) : Z := Z.lxor x 0xffffffff.

(** [crc32.Update(crc, castagnoli, data)]. *)
Definition crc32_Update (crc : Z) (data : list Z) : Z :=
  not32 (fold_left crc_step data (not32 crc)).

Definition crc32c (crc : Z) (data : list Z) : Z :=
  not32 (crc32_Update (not32 crc) data).

(** * The raw form and chaining *)

Lemma not32_involutive x : not32 (not32 x) = x.
Proof.
  unfold not32. by rewrite Z.lxor_assoc, Z.lxor_nilpotent, Z.lxor_0_r.
Qed.

Lemma crc32c_raw crc data : crc32c crc data = fold_left crc_step data crc.
Proof. unfold crc32c, crc32_Update. by rewrite !not32_involutive. Qed.

Lemma crc32c_app crc a b : crc32c (crc32c crc a) b = crc32c crc (a ++ b).
Proof. rewrite !crc32c_raw. by rewrite fold_left_app. Qed.

(** * Ranges *)

Lemma crc_bit_range crc : 0 <= crc < 2 ^ 32 -> 0 <= crc_bit crc < 2 ^ 32.
Proof.
  intros H. unfold crc_bit.
  assert (0 <= Z.shiftr crc 1 < 2 ^ 32) by (rewrite Z.shiftr_div_pow2, Z.pow_1_r by lia; dlia).
  destruct (Z.odd crc); [|done]. apply lxor_range; [lia|done|].
  unfold castagnoli_poly. lia.
Qed.

Lemma castagnoli_range i : 0 <= i < 2 ^ 32 -> 0 <= castagnoli i < 2 ^ 32.
Proof.
  intros. unfold castagnoli. generalize 8%nat as n.
  induction n as [|n IH]; simpl; auto using crc_bit_range.
Qed.

Lemma crc_step_range crc v :
  0 <= crc < 2 ^ 32 -> byte_ok v -> 0 <= crc_step crc v < 2 ^ 32.
Proof.
  unfold byte_ok. intros H Hv. unfold crc_step. apply lxor_range; [lia| |].
  - apply castagnoli_range. pose proof (w8_range crc).
    apply lxor_range; lia.
  - rewrite Z.shiftr_div_pow2 by lia. change (2 ^ 8) with 256. dlia.
Qed.

Lemma crc32c_range crc data :
  0 <= crc < 2 ^ 32 -> bytes_ok data -> 0 <= crc32c crc data < 2 ^ 32.
Proof.
  rewrite crc32c_raw. intros H Hd. revert crc H.
  induction Hd as [|v data Hv Hd IH]; intros; simpl; auto using crc_step_range.
Qed.

(** * The table step is eight reflected shifts of the whole register *)

Lemma crc_bit_lxor a b : crc_bit (Z.lxor a b) = Z.lxor (crc_bit a) (crc_bit b).
Proof.
  unfold crc_bit. rewrite <- !Z.bit0_odd, Z.lxor_spec, !Z.bit0_odd, Z.shiftr_lxor.
  destruct (Z.odd a), (Z.odd b); simpl; apply Z.bits_inj'; intros i Hi;
    rewrite !Z.lxor_spec;
    repeat match goal with |- context [Z.testbit ?x ?j] => destruct (Z.testbit x j) end;
    done.
Qed.

Lemma crc_iter_lxor n a b :
  Nat.iter n crc_bit (Z.lxor a b) = Z.lxor (Nat.iter n crc_bit a) (Nat.iter n crc_bit b).
Proof. induction n as [|n IH]; simpl; [done|]. by rewrite IH, crc_bit_lxor. Qed.

Lemma crc_iter_shiftl n y : Nat.iter n crc_bit (Z.shiftl y (Z.of_nat n)) = y.
Proof.
  revert y. induction n as [|n IH]; intros y; [by rewrite Z.shiftl_0_r|].
  rewrite Nat.iter_succ_r.
  replace (crc_bit (Z.shiftl y (Z.of_nat (S n)))) with (Z.shiftl y (Z.of_nat n)).
  - apply IH.
  - unfold crc_bit. rewrite Nat2Z.inj_succ.
    rewrite (Z.shiftl_mul_pow2 y (Z.succ _)), Z.pow_succ_r by lia.
    replace (y * (2 * 2 ^ Z.of_nat n)) with (2 * (y * 2 ^ Z.of_nat n)) by lia.
    rewrite Z.odd_mul. change (Z.odd 2) with false. simpl.
    rewrite Z.shiftr_div_pow2, Z.shiftl_mul_pow2 by lia.
    rewrite Z.pow_1_r, (Z.mul_comm 2), Z.div_mul by lia. done.
Qed.

Lemma split_low_byte x : x = Z.lxor (w8 x) (Z.shiftl (Z.shiftr x 8) 8).
Proof.
  unfold w8. rewrite <- Z.land_ones by lia.
  rewrite <- Z.ldiff_ones_r by lia. apply Z.bits_inj'. intros i Hi.
  rewrite Z.lxor_spec, Z.land_spec, Z.ldiff_spec.
  destruct (Z.testbit x i), (Z.testbit (Z.ones 8) i); done.
Qed.

Lemma crc_step_bits crc v :
  0 <= crc -> byte_ok v -> crc_step crc v = Nat.iter 8 crc_bit (Z.lxor crc v).
Proof.
  intros Hc Hv.
  assert (Z.lxor crc v = Z.lxor (Z.lxor (w8 crc) v) (Z.shiftl (Z.shiftr crc 8) (Z.of_nat 8)))
    as ->.
  { rewrite (split_low_byte crc) at 1.
    rewrite !Z.lxor_assoc. f_equal. apply Z.lxor_comm. }
  by rewrite crc_iter_lxor, crc_iter_shiftl.
Qed.

(** * Reversibility and error detection *)

Lemma crc_bit_msb crc :
  0 <= crc < 2 ^ 32 -> Z.testbit (crc_bit crc) 31 = Z.odd crc.
Proof.
  intros H. unfold crc_bit.
  assert (Z.testbit (Z.shiftr crc 1) 31 = false) as Hs.
  { rewrite Z.shiftr_spec by lia. apply (lt_pow2_testbit crc 32); lia. }
  destruct (Z.odd crc); rewrite ?Z.lxor_spec, Hs; done.
Qed.

Lemma crc_bit_inj a b :
  0 <= a < 2 ^ 32 -> 0 <= b < 2 ^ 32 -> crc_bit a = crc_bit b -> a = b.
Proof.
  intros Ha Hb H. pose proof (crc_bit_msb a Ha) as Ma. pose proof (crc_bit_msb b Hb) as Mb.
  rewrite H, Mb in Ma. unfold crc_bit in H. rewrite Ma in H.
  assert (Z.shiftr a 1 = Z.shiftr b 1) as Hs.
  { destruct (Z.odd a); [|done].
    apply (f_equal (fun z => Z.lxor z castagnoli_poly)) in H.
    by rewrite !Z.lxor_assoc, Z.lxor_nilpotent, !Z.lxor_0_r in H. }
  rewrite !Z.shiftr_div_pow2, !Z.pow_1_r in Hs by lia.
  pose proof (Z.div_mod a 2). pose proof (Z.div_mod b 2).
  rewrite !Zmod_odd, Ma in *. destruct (Z.odd a); lia.
Qed.

Lemma crc_iter_inj n a b :
  0 <= a < 2 ^ 32 -> 0 <= b < 2 ^ 32 ->
  Nat.iter n crc_bit a = Nat.iter n crc_bit b -> a = b.
Proof.
  revert a b. induction n as [|n IH]; intros a b Ha Hb; [done|].
  rewrite !Nat.iter_succ_r. intros H.
  apply crc_bit_inj; [done..|]. apply IH; auto using crc_bit_range.
Qed.

Lemma crc_step_inj a b u v :
  0 <= a < 2 ^ 32 -> 0 <= b < 2 ^ 32 -> byte_ok u -> byte_ok v ->
  crc_step a u = crc_step b v -> Z.lxor a u = Z.lxor b v.
Proof.
  unfold byte_ok. intros Ha Hb Hu Hv. rewrite !crc_step_bits by (unfold byte_ok; lia).
  apply crc_iter_inj; apply lxor_range; lia.
Qed.

Lemma lxor_cancel_r a b c : Z.lxor a c = Z.lxor b c -> a = b.
Proof.
  intros H. apply (f_equal (fun z => Z.lxor z c)) in H.
  by rewrite !Z.lxor_assoc, Z.lxor_nilpotent, !Z.lxor_0_r in H.
Qed.

Lemma crc32c_inj_seed a b data :
  0 <= a < 2 ^ 32 -> 0 <= b < 2 ^ 32 -> bytes_ok data ->
  crc32c a data = crc32c b data -> a = b.
Proof.
  rewrite !crc32c_raw. intros Ha Hb Hd. revert a b Ha Hb.
  induction Hd as [|v data Hv Hd IH]; intros a b Ha Hb; simpl; [done|].
  intros H. apply IH in H; auto using crc_step_range.
  apply crc_step_inj in H; [|done..]. by apply lxor_cancel_r in H.
Qed.

(** A change of one byte anywhere in the data changes the checksum. *)
Lemma crc32c_byte_change seed pre post u v :
  0 <= seed < 2 ^ 32 -> bytes_ok pre -> bytes_ok post -> byte_ok u -> byte_ok v ->
  crc32c seed (pre ++ u :: post) = crc32c seed (pre ++ v :: post) -> u = v.
Proof.
  intros Hs Hpre Hpost Hu Hv. rewrite <- !crc32c_app.
  pose proof (crc32c_range seed pre Hs Hpre) as Hr.
  assert (bytes_ok [u] /\ bytes_ok [v]) as [Hu1 Hv1] by (unfold bytes_ok; by rewrite !Forall_singleton).
  change (u :: post) with ([u] ++ post). change (v :: post) with ([v] ++ post).
  rewrite <- !crc32c_app. intros H.
  apply crc32c_inj_seed in H; [|by apply crc32c_range..|done].
  rewrite !(crc32c_raw _ [_]) in H. simpl in H.
  apply crc_step_inj in H; [|done..].
  rewrite !(Z.lxor_comm (crc32c seed pre)) in H. by apply lxor_cancel_r in H.
Qed.

(** The check value of the CRC-32C catalogue entry, over "123456789". *)
Example crc32_Update_check :
  crc32_Update 0 [0x31; 0x32; 0x33; 0x34; 0x35; 0x36; 0x37; 0x38; 0x39] = 0xe3069283.
Proof. vm_compute. reflexivity. Qed.
