(* ===== verification/Device.v ===== *)
(** The block device under the file system ([src/blockdevice.go],
    [src/openreader.go]).

    [readerWriterAt] and [blockDevice] are interfaces: the implementation is an
    operating-system file or a device of the caller.  The class [BlockDev]
    carries the operations, [BlockDevLaws] what the package relies on: the
    contracts of [io.ReaderAt] and [io.WriterAt] over a byte-addressed store.
    [memdev] is an implementation, used to run the model. *)

From S2P Require Import Prelude Bytes.

Class BlockDev (D : Type) : Type := {
  (** [ReadAt(p, off)] for a [p] of the given length: the bytes read and the
      error. *)
  dev_ReadAt : D -> Z -> Z -> list Z * option error;
  dev_WriteAt : D -> Z -> list Z -> option error * D;
  dev_Sync : D -> option error * D;
  dev_Size : D -> res Z;
  dev_Truncate : D -> Z -> option error * D
}.

(** The [n] bytes of a store from [off] on. *)
Definition bytes_of (v : Z -> Z) (off n : Z) : list Z :=
  (fun i => v (off + i)) <$> seqZ 0 n.

(** A store after [bs] has been written at [off]. *)
Definition upd_bytes (v : Z -> Z) (off : Z) (bs : list Z) : Z -> Z := fun i =>
  if (off <=? i) && (i <? off + zlen bs) then u8 bs (i - off) else v i.

Class BlockDevLaws (D : Type) `{BlockDev D} : Type := {
  dev_byte : D -> Z -> Z;
  dev_byte_ok : forall d i, byte_ok (dev_byte d i);
  (** A read without error fills the buffer. *)
  dev_read_full : forall d off n bs,
    dev_ReadAt d off n = (bs, None) -> bs = bytes_of (dev_byte d) off n;
  (** A read that fails has filled a prefix. *)
  dev_read_short : forall d off n bs e, 0 <= n ->
    dev_ReadAt d off n = (bs, Some e) ->
    zlen bs <= n /\ bs = bytes_of (dev_byte d) off (zlen bs);
  (** A write without error stores exactly the buffer. *)
  dev_write_full : forall d off bs d',
    dev_WriteAt d off bs = (None, d') -> bytes_ok bs ->
    forall i, dev_byte d' i = upd_bytes (dev_byte d) off bs i;
  (** A write that fails touches nothing outside its range. *)
  dev_write_err : forall d off bs e d',
    dev_WriteAt d off bs = (Some e, d') ->
    forall i, i < off \/ off + zlen bs <= i -> dev_byte d' i = dev_byte d i;
  (** A successful write does not make a readable range unreadable. *)
  dev_write_readable : forall d off bs d' off' n,
    dev_WriteAt d off bs = (None, d') ->
    (dev_ReadAt d off' n).2 = None -> (dev_ReadAt d' off' n).2 = None;
  (** Flushing changes nothing a reader can see. *)
  dev_sync_read : forall d r d' off n,
    dev_Sync d = (r, d') -> dev_ReadAt d' off n = dev_ReadAt d off n;
  dev_sync_byte : forall d r d' i, dev_Sync d = (r, d') -> dev_byte d' i = dev_byte d i
}.

Section device.
Context {D : Type} `{BlockDev D}.

(** [f.ReadAt(buf, off)] as the callers use it: the count is discarded. *)
Definition read_at (d : D) (off n : Z) : res (list Z) :=
  match dev_ReadAt d off n with
  | (bs, None) => Ok bs
  | (_, Some e) => Err e
  end.

Definition write_at (off : Z) (bs : list Z) : M D unit := fun d =>
  match dev_WriteAt d off bs with
  | (None, d') => (Ok tt, d')
  | (Some e, d') => (Err e, d')
  end.

Definition sync_dev : M D unit := fun d =>
  match dev_Sync d with
  | (None, d') => (Ok tt, d')
  | (Some e, d') => (Err e, d')
  end.

Lemma read_at_not_panic d off n : read_at d off n <> Panic.
Proof. unfold read_at. by destruct (dev_ReadAt d off n) as [? [?|]]. Qed.

End device.

(** * Views *)

Lemma length_bytes_of v off n : length (bytes_of v off n) = Z.to_nat n.
Proof. unfold bytes_of. by rewrite length_fmap, length_seqZ. Qed.

Lemma zlen_bytes_of v off n : 0 <= n -> zlen (bytes_of v off n) = n.
Proof. intros. unfold zlen. rewrite length_bytes_of. lia. Qed.
#[export] Hint Rewrite zlen_bytes_of using lia : zlen.

Lemma bytes_of_lookup v off n i :
  (i < Z.to_nat n)%nat -> bytes_of v off n !! i = Some (v (off + Z.of_nat i)).
Proof.
  intros. unfold bytes_of. rewrite list_lookup_fmap, lookup_seqZ_lt by lia.
  done.
Qed.

Lemma u8_bytes_of v off n i : 0 <= i < n -> u8 (bytes_of v off n) i = v (off + i).
Proof.
  intros. unfold u8. rewrite bytes_of_lookup by lia. simpl. f_equal. lia.
Qed.

Lemma bytes_of_ext v w off n :
  (forall i, off <= i < off + n -> v i = w i) -> bytes_of v off n = bytes_of w off n.
Proof.
  intros Hvw. apply list_fmap_ext. intros i x Hi. apply lookup_seqZ in Hi.
  apply Hvw. lia.
Qed.

Lemma bytes_ok_bytes_of v off n : (forall i, byte_ok (v i)) -> bytes_ok (bytes_of v off n).
Proof. intros. apply Forall_fmap. apply Forall_true. simpl. auto. Qed.

Lemma bytes_of_app v off n m :
  0 <= n -> 0 <= m -> bytes_of v off (n + m) = bytes_of v off n ++ bytes_of v (off + n) m.
Proof.
  intros. unfold bytes_of. rewrite seqZ_app by lia. rewrite fmap_app. f_equal.
  rewrite Z.add_0_l. apply list_eq. intros i. rewrite !list_lookup_fmap.
  destruct (decide (Z.of_nat i < m)).
  - rewrite !lookup_seqZ_lt by lia. simpl. do 2 f_equal. lia.
  - by rewrite !lookup_seqZ_ge by lia.
Qed.

Lemma zslice_bytes_of v off n a m :
  0 <= a -> 0 <= m -> a + m <= n ->
  zslice (bytes_of v off n) a m = bytes_of v (off + a) m.
Proof.
  intros. apply list_eq. intros i. destruct (decide (i < Z.to_nat m)%nat).
  - rewrite zslice_lookup, !bytes_of_lookup by lia. do 2 f_equal. lia.
  - unfold zslice. rewrite !lookup_ge_None_2; [done|..];
      rewrite ?length_take, ?length_bytes_of; lia.
Qed.

Lemma list_u8_ext l1 l2 :
  length l1 = length l2 -> (forall i, 0 <= i < zlen l1 -> u8 l1 i = u8 l2 i) -> l1 = l2.
Proof.
  intros Hl Hi. apply list_eq_same_length with (length l1); [done..|].
  intros i x y Hlt Hx Hy.
  specialize (Hi (Z.of_nat i) ltac:(unfold zlen; lia)). unfold u8 in Hi.
  rewrite Nat2Z.id, Hx, Hy in Hi. done.
Qed.

Lemma bytes_of_upd_same v off bs : bytes_of (upd_bytes v off bs) off (zlen bs) = bs.
Proof.
  apply list_u8_ext; [rewrite length_bytes_of; unfold zlen; lia|].
  intros i Hi. rewrite zlen_bytes_of in Hi by apply zlen_nonneg.
  rewrite u8_bytes_of by done. unfold upd_bytes.
  rewrite (proj2 (Z.leb_le _ _)), (proj2 (Z.ltb_lt _ _)) by lia. simpl. f_equal. lia.
Qed.

Lemma upd_bytes_ne v off bs i : i < off \/ off + zlen bs <= i -> upd_bytes v off bs i = v i.
Proof.
  intros Hi. unfold upd_bytes. destruct (_ && _) eqn:E; [|done]. zbool. lia.
Qed.

Lemma upd_bytes_app v off l1 l2 i :
  upd_bytes (upd_bytes v off l1) (off + zlen l1) l2 i = upd_bytes v off (l1 ++ l2) i.
Proof.
  pose proof (zlen_nonneg l1). pose proof (zlen_nonneg l2). unfold upd_bytes. rewrite zlen_app.
  destruct (off + zlen l1 <=? i) eqn:E1, (i <? off + zlen l1 + zlen l2) eqn:E2; cbn [andb]; zbool.
  - rewrite leb_true, ltb_true by lia. cbn. unfold u8. rewrite lookup_app_r by (unfold zlen in *; lia).
    do 2 f_equal. unfold zlen in *. lia.
  - rewrite (ltb_false i (off + (_ + _))), (ltb_false i (off + zlen l1)) by lia. by rewrite !andb_false_r.
  - rewrite (ltb_true i (off + (_ + _))), (ltb_true i (off + zlen l1)) by lia.
    destruct (off <=? i) eqn:E3; cbn; [|done]. zbool. unfold u8. by rewrite lookup_app_l by (unfold zlen in *; lia).
  - lia.
Qed.

Lemma bytes_of_upd_ne v off bs off' n :
  off' + n <= off \/ off + zlen bs <= off' ->
  bytes_of (upd_bytes v off bs) off' n = bytes_of v off' n.
Proof.
  intros Hd. apply bytes_of_ext. intros i Hi. unfold upd_bytes.
  destruct (off <=? i) eqn:E1, (i <? off + zlen bs) eqn:E2; try done.
  apply Z.leb_le in E1. apply Z.ltb_lt in E2. lia.
Qed.

Section device_laws.
Context {D : Type} `{BlockDevLaws D}.

Lemma read_at_Ok d off n bs : read_at d off n = Ok bs -> bs = bytes_of (dev_byte d) off n.
Proof.
  unfold read_at. destruct (dev_ReadAt d off n) as [bs' [e|]] eqn:E; intros; [done|].
  simplify_eq. by apply dev_read_full in E.
Qed.

Lemma read_at_bytes_ok d off n bs : read_at d off n = Ok bs -> bytes_ok bs.
Proof.
  intros ->%read_at_Ok. apply bytes_ok_bytes_of. apply dev_byte_ok.
Qed.

Lemma read_at_zlen d off n bs : 0 <= n -> read_at d off n = Ok bs -> zlen bs = n.
Proof. intros ? ->%read_at_Ok. by apply zlen_bytes_of. Qed.

Lemma write_at_Ok d off bs d' :
  write_at off bs d = (Ok tt, d') -> bytes_ok bs ->
  forall i, dev_byte d' i = upd_bytes (dev_byte d) off bs i.
Proof.
  unfold write_at. destruct (dev_WriteAt d off bs) as [[e|] d1] eqn:E; intros; [done|].
  simplify_eq. by eapply dev_write_full.
Qed.

Lemma write_at_readable d off bs d' off' n bs' :
  write_at off bs d = (Ok tt, d') -> read_at d off' n = Ok bs' ->
  exists bs2, read_at d' off' n = Ok bs2.
Proof.
  unfold write_at, read_at.
  destruct (dev_WriteAt d off bs) as [[e|] d1] eqn:E; intros; [done|]. simplify_eq.
  pose proof (dev_write_readable _ _ _ _ off' n E) as Hr.
  destruct (dev_ReadAt d off' n) as [? [?|]]; [done|]. simplify_eq. simpl in Hr.
  specialize (Hr eq_refl). destruct (dev_ReadAt d' off' n) as [? [?|]]; [done|]. eauto.
Qed.

(** Reading back what was written, and reading elsewhere. *)
Lemma write_read_same d off bs d' n bs0 :
  write_at off bs d = (Ok tt, d') -> bytes_ok bs -> n = zlen bs ->
  read_at d off n = Ok bs0 -> read_at d' off n = Ok bs.
Proof.
  intros Hw Hb -> Hr. destruct (write_at_readable _ _ _ _ _ _ _ Hw Hr) as [bs2 Hr2].
  rewrite Hr2. f_equal. apply read_at_Ok in Hr2 as ->.
  rewrite (bytes_of_ext _ (upd_bytes (dev_byte d) off bs)).
  - apply bytes_of_upd_same.
  - intros. by apply write_at_Ok.
Qed.

Lemma write_read_ne d off bs d' off' n bs0 :
  write_at off bs d = (Ok tt, d') -> bytes_ok bs ->
  read_at d off' n = Ok bs0 -> off' + n <= off \/ off + zlen bs <= off' ->
  read_at d' off' n = Ok bs0.
Proof.
  intros Hw Hb Hr Hd. destruct (write_at_readable _ _ _ _ _ _ _ Hw Hr) as [bs2 Hr2].
  rewrite Hr2. f_equal. apply read_at_Ok in Hr2 as ->. apply read_at_Ok in Hr as ->.
  rewrite (bytes_of_ext _ (upd_bytes (dev_byte d) off bs)).
  - by apply bytes_of_upd_ne.
  - intros. by apply write_at_Ok.
Qed.

Lemma sync_read d d' off n :
  sync_dev d = (Ok tt, d') -> read_at d' off n = read_at d off n.
Proof.
  unfold sync_dev, read_at. destruct (dev_Sync d) as [[e|] d1] eqn:E; intros; [done|].
  simplify_eq. by rewrite (dev_sync_read _ _ _ _ _ E).
Qed.

End device_laws.

(** * A device in memory *)

Record memdev : Type := MemDev { md_bytes : list Z }.

Definition mem_ReadAt (d : memdev) (off n : Z) : list Z * option error :=
  if off <? 0 then ([], Some (ErrDevice 22)) else
  let bs := w8 <$> zslice (md_bytes d) off n in
  if zlen bs <? n then (bs, Some EOF) else (bs, None).

(** The capacity is fixed: a write past the end is refused. *)
Definition mem_WriteAt (d : memdev) (off : Z) (bs : list Z) : option error * memdev :=
  if (off <? 0) || (zlen (md_bytes d) <? off + zlen bs) then (Some (ErrDevice 28), d)
  else (None, MemDev (zsplice (md_bytes d) off bs)).

#[global] Instance memdev_BlockDev : BlockDev memdev := {
  dev_ReadAt := mem_ReadAt;
  dev_WriteAt := mem_WriteAt;
  dev_Sync := fun d => (None, d);
  dev_Size := fun d => Ok (zlen (md_bytes d));
  dev_Truncate := fun d n =>
    (None, MemDev (zslice (md_bytes d) 0 n ++ zeros (n - zlen (md_bytes d))))
}.

Definition mem_byte (d : memdev) (i : Z) : Z :=
  if i <? 0 then 0 else w8 (u8 (md_bytes d) i).

Lemma mem_read_slice d off n :
  0 <= off ->
  w8 <$> zslice (md_bytes d) off n =
  bytes_of (mem_byte d) off (zlen (zslice (md_bytes d) off n)).
Proof.
  intros Ho. apply list_u8_ext.
  { rewrite length_fmap, length_bytes_of. unfold zlen. by rewrite Nat2Z.id. }
  intros i Hi. unfold zlen in Hi. rewrite length_fmap in Hi.
  assert (0 <= i < n) as Hin.
  { unfold zslice in Hi. rewrite length_take in Hi. lia. }
  rewrite u8_bytes_of by (unfold zlen; lia). unfold mem_byte.
  rewrite (proj2 (Z.ltb_ge _ _)) by lia. unfold u8.
  rewrite list_lookup_fmap, zslice_lookup by lia. rewrite <- Z2Nat.inj_add by lia.
  by destruct (md_bytes d !! Z.to_nat (off + i)).
Qed.

Lemma zlen_fmap {A B} (f : A -> B) l : zlen (f <$> l) = zlen l.
Proof. unfold zlen. by rewrite length_fmap. Qed.

Lemma mem_read_full d off n bs :
  mem_ReadAt d off n = (bs, None) -> bs = bytes_of (mem_byte d) off n.
Proof.
  unfold mem_ReadAt. destruct (off <? 0) eqn:Eo; [done|]. apply Z.ltb_ge in Eo.
  rewrite zlen_fmap. destruct (_ <? n) eqn:En; [done|]. apply Z.ltb_ge in En. intros [= <-].
  rewrite mem_read_slice by done. unfold bytes_of. f_equal.
  destruct (decide (0 <= n)).
  - pose proof (zlen_zslice_le (md_bytes d) off n). f_equal. lia.
  - assert (zslice (md_bytes d) off n = []) as ->.
    { unfold zslice. by rewrite Z2Nat.nonpos, take_0 by lia. }
    by rewrite (seqZ_nil 0 n) by lia.
Qed.

Lemma mem_read_short d off n bs e :
  0 <= n -> mem_ReadAt d off n = (bs, Some e) ->
  zlen bs <= n /\ bs = bytes_of (mem_byte d) off (zlen bs).
Proof.
  intros Hn. unfold mem_ReadAt. destruct (off <? 0) eqn:Eo; [intros [= <- <-]; done|].
  apply Z.ltb_ge in Eo. rewrite zlen_fmap. destruct (_ <? n) eqn:En; [|done].
  apply Z.ltb_lt in En. intros [= <- <-]. rewrite zlen_fmap.
  split; [lia|]. by apply mem_read_slice.
Qed.

Lemma mem_write_full d off bs d' :
  mem_WriteAt d off bs = (None, d') -> bytes_ok bs ->
  forall i, mem_byte d' i = upd_bytes (mem_byte d) off bs i.
Proof.
  unfold mem_WriteAt. destruct (_ || _) eqn:E; [done|]. intros [= <-] Hb i.
  apply orb_false_iff in E as [E1%Z.ltb_ge E2%Z.ltb_ge].
  unfold mem_byte, upd_bytes. simpl. destruct (i <? 0) eqn:Ei.
  - apply Z.ltb_lt in Ei. by rewrite (proj2 (Z.leb_gt _ _)) by lia.
  - apply Z.ltb_ge in Ei. destruct (off <=? i) eqn:E3, (i <? off + zlen bs) eqn:E4; simpl.
    + apply Z.leb_le in E3. apply Z.ltb_lt in E4.
      rewrite u8_zsplice_new by lia. apply w8_small. by apply u8_range.
    + apply Z.ltb_ge in E4. by rewrite u8_zsplice_ne by lia.
    + apply Z.leb_gt in E3. by rewrite u8_zsplice_ne by lia.
    + apply Z.leb_gt in E3. by rewrite u8_zsplice_ne by lia.
Qed.

Lemma mem_write_readable d off bs d' off' n :
  mem_WriteAt d off bs = (None, d') ->
  (mem_ReadAt d off' n).2 = None -> (mem_ReadAt d' off' n).2 = None.
Proof.
  unfold mem_WriteAt. destruct (_ || _) eqn:E; [done|]. intros [= <-].
  apply orb_false_iff in E as [E1%Z.ltb_ge E2%Z.ltb_ge].
  pose proof (zlen_zsplice (md_bytes d) off bs) as Hl. unfold zlen in Hl.
  unfold mem_ReadAt, zlen, zslice. simpl. rewrite !length_fmap, !length_take, !length_drop.
  assert (length (zsplice (md_bytes d) off bs) = length (md_bytes d)) as -> by lia.
  destruct (off' <? 0); [done|]. by destruct (_ <? n).
Qed.

#[global, refine] Instance memdev_BlockDevLaws : BlockDevLaws memdev := {
  dev_byte := mem_byte
}.
Proof.
  - intros d i. unfold mem_byte. destruct (i <? 0); [unfold byte_ok; lia|]. apply w8_range.
  - apply mem_read_full.
  - apply mem_read_short.
  - apply mem_write_full.
  - intros d off bs e d' Hw i Hi. simpl in Hw. unfold mem_WriteAt in Hw.
    by destruct (_ || _); simplify_eq.
  - apply mem_write_readable.
  - intros d r d' off n [= <- <-]. done.
  - intros d r d' i [= <- <-]. done.
Defined.
