(* ===== verification/Superblock.v ===== *)
(** The superblock ([src/superblock.go], [src/label.go], constants of
    [src/ext4.go]): decoding with its validation, encoding with its checksum,
    the group arithmetic and the sparse_super rule, and the volume label. *)

From S2P Require Import Prelude Bytes Crc Device.

Definition FeatIncompatFiletype : Z := 0x0002.
Definition FeatIncompatExtents : Z := 0x0040.
Definition FeatIncompat64bit : Z := 0x0080.
Definition FeatIncompatFlexBg : Z := 0x0200.
Definition FeatIncompatCsumSeed : Z := 0x2000.
Definition FeatIncompatInlineData : Z := 0x8000.
Definition FeatROCompatSparseSuper : Z := 0x0001.
Definition FeatROCompatMetadataCsum : Z := 0x0400.
Definition RootIno : Z := 2.
Definition superblockSize : Z := 1024.

(** [x&flag != 0]. *)
Definition has_flag (x flag : Z) : bool := negb (Z.land x flag =? 0).

Record superblock : Type := Superblock {
  sb_raw : list Z;
  InodesCount : Z;
  BlocksCount : Z;
  sb_FreeBlocksCount : Z;
  sb_FreeInodesCount : Z;
  FirstDataBlock : Z;
  BlockSize : Z;
  BlocksPerGroup : Z;
  InodesPerGroup : Z;
  Magic : Z;
  FeatureIncompat : Z;
  FeatureROCompat : Z;
  UUID : list Z;
  sb_Label : list Z;
  InodeSize : Z;
  DescSize : Z;
  LogGroupsPerFlex : Z;
  ChecksumSeed : Z;
  ChecksumType : Z;
  maxRead : Z;
  deviceBytes : Z
}.

(** The fields the driver assigns after the decode. *)
Definition with_raw (sb : superblock) (raw : list Z) : superblock :=
  Superblock raw (InodesCount sb) (BlocksCount sb) (sb_FreeBlocksCount sb)
    (sb_FreeInodesCount sb) (FirstDataBlock sb) (BlockSize sb) (BlocksPerGroup sb)
    (InodesPerGroup sb) (Magic sb) (FeatureIncompat sb) (FeatureROCompat sb) (UUID sb)
    (sb_Label sb) (InodeSize sb) (DescSize sb) (LogGroupsPerFlex sb) (ChecksumSeed sb)
    (ChecksumType sb) (maxRead sb) (deviceBytes sb).
Definition with_counts (sb : superblock) (blocks freeBlocks freeInodes : Z) : superblock :=
  Superblock (sb_raw sb) (InodesCount sb) blocks freeBlocks
    freeInodes (FirstDataBlock sb) (BlockSize sb) (BlocksPerGroup sb)
    (InodesPerGroup sb) (Magic sb) (FeatureIncompat sb) (FeatureROCompat sb) (UUID sb)
    (sb_Label sb) (InodeSize sb) (DescSize sb) (LogGroupsPerFlex sb) (ChecksumSeed sb)
    (ChecksumType sb) (maxRead sb) (deviceBytes sb).
Definition with_label (sb : superblock) (raw label : list Z) : superblock :=
  Superblock raw (InodesCount sb) (BlocksCount sb) (sb_FreeBlocksCount sb)
    (sb_FreeInodesCount sb) (FirstDataBlock sb) (BlockSize sb) (BlocksPerGroup sb)
    (InodesPerGroup sb) (Magic sb) (FeatureIncompat sb) (FeatureROCompat sb) (UUID sb)
    label (InodeSize sb) (DescSize sb) (LogGroupsPerFlex sb) (ChecksumSeed sb)
    (ChecksumType sb) (maxRead sb) (deviceBytes sb).
Definition with_FreeBlocks (sb : superblock) (n : Z) : superblock :=
  with_counts sb (BlocksCount sb) n (sb_FreeInodesCount sb).
Definition with_FreeInodes (sb : superblock) (n : Z) : superblock :=
  with_counts sb (BlocksCount sb) (sb_FreeBlocksCount sb) n.

(** [bytes.TrimRight(b, "\x00")]. *)
Fixpoint trim_zeros (l : list Z) : list Z :=
  match l with
  | [] => []
  | b :: l' =>
      match trim_zeros l' with
      | [] => if b =? 0 then [] else [b]
      | t => b :: t
      end
  end.
Definition decodeNullPadded (b : list Z) : list Z := trim_zeros b.

(** The validated geometry: [s_log_block_size], the per-group divisors. *)
Definition check_geometry (raw : list Z) : res (Z * Z * Z) :=
  let! logBlockSize := get32 raw 24 in
  if 6 <? logBlockSize then Err (Errorf "ext4: invalid s_log_block_size") else
  let! bpg := get32 raw 32 in
  let! ipg := get32 raw 40 in
  if bpg =? 0 then Err (Errorf "ext4: invalid s_blocks_per_group 0") else
  if ipg =? 0 then Err (Errorf "ext4: invalid s_inodes_per_group 0") else
  Ok (Z.shiftl 1024 logBlockSize, bpg, ipg).

(** [s_inode_size]: 0 stands for 128; at least 128, a power of two, at most
    one block. *)
Definition check_inode_size (raw : list Z) (blockSize : Z) : res Z :=
  let! isz := get16 raw 88 in
  let isz := if isz =? 0 then 128 else isz in
  if (isz <? 128) || negb (Z.land isz (isz - 1) =? 0) || (blockSize <? isz)
  then Err (Errorf "ext4: invalid s_inode_size") else Ok isz.

(** [readSuperblock] after the read. *)
Definition decodeSuperblock (raw : list Z) : res superblock :=
  let! magic := get16 raw 56 in
  if negb (magic =? 0xEF53) then Err (Errorf "ext4: bad superblock magic") else
  let! inodes := get32 raw 0 in
  let! lo := get32 raw 4 in
  let! hi := get32 raw 0x150 in
  let! flo := get32 raw 12 in
  let! fhi := get32 raw 0x158 in
  let! finodes := get32 raw 16 in
  let! first := get32 raw 20 in
  let! (bs, bpg, ipg) := check_geometry raw in
  let! incompat := get32 raw 96 in
  let! rocompat := get32 raw 100 in
  let! uuid := subslice raw 104 120 in
  let! label := subslice raw 120 136 in
  let! isz := check_inode_size raw bs in
  let! dsz := get16 raw 0xFE in
  let dsz := if (dsz =? 0) || (dsz <? 32) then 32 else dsz in
  let! flex := get8 raw 0x174 in
  let! ctype := get8 raw 0x175 in
  let! seed := get32 raw 0x270 in
  Ok (Superblock raw inodes (Z.lor (Z.shiftl hi 32) lo) (Z.lor (Z.shiftl fhi 32) flo)
        finodes first bs bpg ipg magic incompat rocompat uuid
        (decodeNullPadded label) isz dsz flex seed ctype 0 0).

(** Recomputation of the superblock checksum, seeded with all ones. *)
Definition seal_superblock (rocompat : Z) (raw : list Z) : list Z :=
  if has_flag rocompat FeatROCompatMetadataCsum then
    let raw := set32 raw 0x3FC 0 in
    set32 raw 0x3FC (crc32c 0xffffffff (zslice raw 0 0x3FC))
  else raw.

(** [encodeRaw]: the counts and the checksum into [sb.raw]. *)
Definition encodeRaw (sb : superblock) : superblock :=
  let raw := sb_raw sb in
  let raw := set32 raw 4 (Z.land (BlocksCount sb) 0xFFFFFFFF) in
  let raw := set32 raw 0x150 (w32 (Z.shiftr (BlocksCount sb) 32)) in
  let raw := set32 raw 12 (Z.land (sb_FreeBlocksCount sb) 0xFFFFFFFF) in
  let raw := set32 raw 0x158 (w32 (Z.shiftr (sb_FreeBlocksCount sb) 32)) in
  let raw := set32 raw 16 (sb_FreeInodesCount sb) in
  with_raw sb (seal_superblock (FeatureROCompat sb) raw).

Definition numBlockGroups (sb : superblock) : Z :=
  w32 (w64 (BlocksCount sb + BlocksPerGroup sb - 1) / BlocksPerGroup sb).

Definition bgdTableBlock (sb : superblock) : Z :=
  if 1024 <? BlockSize sb then 1 else 2.

(** The inner loop [for p < g { p *= base }] on [uint32]. *)
Fixpoint power_loop (fuel : nat) (base p g : Z) : option Z :=
  if p <? g then
    match fuel with
    | O => None
    | S fuel' => power_loop fuel' base (w32 (p * base)) g
    end
  else Some p.

(** [None] when a loop has not stopped within the fuel. *)
Definition groupIsSparseBackup (fuel : nat) (g : Z) : option bool :=
  if g <=? 1 then Some true else
  if Z.land g 1 =? 0 then Some false else
  (fix bases (l : list Z) : option bool :=
     match l with
     | [] => Some false
     | base :: l' =>
         match power_loop fuel base base g with
         | None => None
         | Some p => if p =? g then Some true else bases l'
         end
     end) [3; 5; 7].

Definition isSparseSuperGroup (fuel : nat) (sb : superblock) (g : Z) : option bool :=
  if Z.land (FeatureROCompat sb) FeatROCompatSparseSuper =? 0 then Some true
  else groupIsSparseBackup fuel g.

Definition csumSeed (sb : superblock) : Z :=
  if has_flag (FeatureIncompat sb) FeatIncompatCsumSeed then ChecksumSeed sb
  else crc32c 0xffffffff (UUID sb).

Section io.
Context {D : Type} `{BlockDev D}.

Definition readSuperblock (d : D) (fsOffset : Z) : res superblock :=
  let! raw := rwrap "ext4: read superblock" (read_at d (fsOffset + 1024) superblockSize) in
  decodeSuperblock raw.

Definition MaxLabelLen : Z := 16.

(** The new on-disk image of [SetLabel]: zero the field, copy the label,
    recompute the checksum. *)
Definition relabel (raw b : list Z) : list Z :=
  let raw := zsplice raw 120 (zeros MaxLabelLen) in
  let raw := zsplice raw 120 b in
  seal_superblock (u32 raw 100) raw.

(** [SetLabel] over the device; the result is the new in-memory superblock. *)
Definition SetLabel (partOffset : Z) (sb : superblock) (b : list Z) : M D superblock :=
  if MaxLabelLen <? zlen b then mfail (Errorf "ext4: label exceeds maximum") else
  do! raw := mwrap "ext4: read superblock"
    (mreads (fun d => read_at d (partOffset + 1024) superblockSize)) in
  do! magic := mlift (get16 raw 56) in
  if negb (magic =? 0xEF53)
  then mfail (Errorf "ext4: bad superblock magic when relabeling") else
  let raw := relabel raw b in
  do! _ := mwrap "ext4: write superblock" (write_at (partOffset + 1024) raw) in
  do! _ := mwrap "ext4: sync superblock" sync_dev in
  let m := zsplice (sb_raw sb) 120 (zslice raw 120 16) in
  let m := zsplice m 0x3FC (zslice raw 0x3FC 4) in
  ret (with_label sb m (decodeNullPadded (zslice raw 120 16))).

End io.

(** * What the validation establishes *)

Record sb_wf (sb : superblock) : Prop := {
  wf_blocksize : exists k, 0 <= k <= 6 /\ BlockSize sb = 1024 * 2 ^ k;
  wf_bpg : 0 < BlocksPerGroup sb < 2 ^ 32;
  wf_ipg : 0 < InodesPerGroup sb < 2 ^ 32;
  wf_inodesize : exists j, 7 <= j /\ InodeSize sb = 2 ^ j;
  wf_inodesize_le : InodeSize sb <= BlockSize sb;
  wf_descsize : 32 <= DescSize sb < 2 ^ 16;
  wf_blocks : 0 <= BlocksCount sb < 2 ^ 64;
  wf_freeblocks : 0 <= sb_FreeBlocksCount sb < 2 ^ 64;
  wf_freeinodes : 0 <= sb_FreeInodesCount sb < 2 ^ 32;
  wf_inodes : 0 <= InodesCount sb < 2 ^ 32;
  wf_first : 0 <= FirstDataBlock sb < 2 ^ 32;
  wf_uuid : bytes_ok (UUID sb)
}.

Lemma power_of_two_land n :
  0 < n -> Z.land n (n - 1) = 0 -> exists j, 0 <= j /\ n = 2 ^ j.
Proof.
  intros Hn Hl. exists (Z.log2 n). split; [apply Z.log2_nonneg|].
  pose proof (Z.log2_spec n Hn) as [Hlo Hhi].
  destruct (decide (n = 2 ^ Z.log2 n)) as [|Hne]; [done|]. exfalso.
  assert (Z.log2 (n - 1) = Z.log2 n) as He.
  { apply Z.log2_unique; [apply Z.log2_nonneg|]. lia. }
  assert (Z.testbit (Z.land n (n - 1)) (Z.log2 n) = true) as Ht.
  { rewrite Z.land_spec, Z.bit_log2 by done. rewrite <- He, Z.bit_log2; [done|].
    pose proof (Z.pow_pos_nonneg 2 (Z.log2 n)). pose proof (Z.log2_nonneg n). lia. }
  by rewrite Hl, Z.bits_0 in Ht.
Qed.

Lemma check_geometry_spec raw bs bpg ipg :
  bytes_ok raw -> check_geometry raw = Ok (bs, bpg, ipg) ->
  (exists k, 0 <= k <= 6 /\ bs = 1024 * 2 ^ k) /\ 0 < bpg < 2 ^ 32 /\ 0 < ipg < 2 ^ 32.
Proof.
  intros Hb. unfold check_geometry, getN. intros. res_inv.
  pose proof (u32_range raw 24 Hb). pose proof (u32_range raw 32 Hb).
  pose proof (u32_range raw 40 Hb).
  zbool. split_and!; [|lia..]. exists (u32 raw 24). split; [lia|].
  by rewrite Z.shiftl_mul_pow2 by lia.
Qed.

Lemma check_inode_size_spec raw bs isz :
  check_inode_size raw bs = Ok isz ->
  (exists j, 7 <= j /\ isz = 2 ^ j) /\ isz <= bs.
Proof.
  unfold check_inode_size, getN. intros. res_inv.
  set (i := if u16 raw 88 =? 0 then 128 else u16 raw 88) in *. zbool.
  split; [|lia]. destruct (power_of_two_land i) as (j & Hj & ->); [lia|done|].
  exists j. split; [|done]. apply Z.nlt_ge. intros Hlt.
  assert (2 ^ j <= 2 ^ 6) by (apply Z.pow_le_mono_r; lia). lia.
Qed.

Lemma hi_lo_range hi lo :
  0 <= hi < 2 ^ 32 -> 0 <= lo < 2 ^ 32 -> 0 <= Z.lor (Z.shiftl hi 32) lo < 2 ^ 64.
Proof. intros. rewrite lor_shiftl_add by lia. lia. Qed.

Lemma decodeSuperblock_wf raw sb :
  bytes_ok raw -> decodeSuperblock raw = Ok sb -> sb_wf sb /\ sb_raw sb = raw.
Proof.
  intros Hb. unfold decodeSuperblock. intros H. res_inv.
  match goal with H : check_geometry _ = Ok _ |- _ =>
    apply check_geometry_spec in H as (? & ? & ?); [|done] end.
  match goal with H : check_inode_size _ _ = _ |- _ =>
    apply check_inode_size_spec in H as (? & ?) end.
  repeat match goal with H : getN _ _ _ = Ok _ |- _ => unfold getN in H; res_inv end.
  split; [|done].
  pose proof (u16_range raw 0xFE Hb).
  constructor; simpl; try done; try (by apply u32_range);
    try (by apply hi_lo_range; apply u32_range).
  - destruct (_ || _) eqn:Ed; zbool; lia.
  - match goal with H : subslice _ 104 120 = Ok _ |- _ =>
      unfold subslice in H; res_inv end. auto with bytes.
Qed.

Lemma decodeSuperblock_np raw : zlen raw = 1024 -> decodeSuperblock raw <> Panic.
Proof. intros. unfold decodeSuperblock, check_geometry, check_inode_size. np. Qed.

(** * Encoding *)

Section encoding.
Variable sb : superblock.
Hypothesis Hlen : zlen (sb_raw sb) = 1024.

Lemma zlen_seal roc raw : zlen (seal_superblock roc raw) = zlen raw.
Proof. unfold seal_superblock. destruct (has_flag _ _); zl. Qed.

Lemma uN_seal n roc raw off :
  zlen raw = 1024 -> 0 <= off -> off + Z.of_nat n <= 0x3FC ->
  uN n (seal_superblock roc raw) off = uN n raw off.
Proof.
  intros. unfold seal_superblock. destruct (has_flag _ _); [|done].
  rewrite !uN_setN_ne by zl. done.
Qed.

Lemma zslice_seal roc raw off n :
  zlen raw = 1024 -> 0 <= off -> 0 <= n -> off + n <= 0x3FC ->
  zslice (seal_superblock roc raw) off n = zslice raw off n.
Proof.
  intros. unfold seal_superblock. destruct (has_flag _ _); [|done].
  rewrite !zslice_setN_ne by zl. done.
Qed.

Lemma u8_seal roc raw i :
  zlen raw = 1024 -> 0 <= i < 0x3FC -> u8 (seal_superblock roc raw) i = u8 raw i.
Proof.
  intros. unfold seal_superblock. destruct (has_flag _ _); [|done].
  rewrite !u8_setN_ne by zl. done.
Qed.

Lemma bytes_ok_seal roc raw : bytes_ok raw -> bytes_ok (seal_superblock roc raw).
Proof.
  intros. unfold seal_superblock. destruct (has_flag _ _); auto with bytes.
Qed.

(** The stored checksum is the CRC of everything before it. *)
Definition sb_csum_ok (raw : list Z) : Prop :=
  u32 raw 0x3FC = crc32c 0xffffffff (zslice raw 0 0x3FC).

Lemma seal_csum_ok roc raw :
  zlen raw = 1024 -> bytes_ok raw -> has_flag roc FeatROCompatMetadataCsum = true ->
  sb_csum_ok (seal_superblock roc raw).
Proof.
  intros Hl Hb Hf. unfold sb_csum_ok, seal_superblock. rewrite Hf.
  rewrite uN_setN_same by zl. rewrite !zslice_setN_ne by zl.
  apply Z.mod_small. apply crc32c_range; [lia|]. auto with bytes.
Qed.

Lemma encodeRaw_zlen : zlen (sb_raw (encodeRaw sb)) = 1024.
Proof. unfold encodeRaw. simpl. by rewrite zlen_seal, !zlen_setN. Qed.

End encoding.

#[export] Hint Rewrite zlen_seal : zlen.
#[export] Hint Rewrite uN_seal zslice_seal u8_seal using (zl; done) : bytes.

Lemma split_hi_lo v :
  0 <= v < 2 ^ 64 ->
  Z.lor (Z.shiftl (w32 (Z.shiftr v 32) mod 256 ^ 4) 32) (Z.land v 0xFFFFFFFF mod 256 ^ 4) = v.
Proof.
  intros Hv. change (Z.land v 0xFFFFFFFF) with (Z.land v (Z.ones 32)).
  rewrite Z.land_ones, Z.shiftr_div_pow2 by lia. unfold w32.
  change (256 ^ 4) with (2 ^ 32). rewrite !Z.mod_mod by lia.
  rewrite lor_shiftl_add by (lia || (apply Z.mod_pos_bound; lia)).
  rewrite (Z.mod_small (v / 2 ^ 32)) by (split; [apply Z.div_pos|apply Z.div_lt_upper_bound]; lia).
  rewrite (Z.div_mod v (2 ^ 32)) at 3 by lia. lia.
Qed.

(** Writing new counts into a decoded superblock and decoding again gives the
    same superblock with those counts. *)
Lemma encode_decode raw sb blocks free inodes :
  zlen raw = 1024 -> decodeSuperblock raw = Ok sb ->
  0 <= blocks < 2 ^ 64 -> 0 <= free < 2 ^ 64 -> 0 <= inodes < 2 ^ 32 ->
  let sb' := encodeRaw (with_counts sb blocks free inodes) in
  decodeSuperblock (sb_raw sb') = Ok sb'.
Proof.
  intros Hl Hd Hb Hf Hi sb'.
  assert (sb_raw sb = raw) as Hraw.
  { unfold decodeSuperblock in Hd. res_inv. done. }
  assert (zlen (sb_raw sb') = 1024) as Hl' by (apply encodeRaw_zlen; simpl; congruence).
  unfold decodeSuperblock, check_geometry, check_inode_size in Hd |- *.
  bytes. bytes_in Hd. unfold sb', encodeRaw, with_counts. simpl. rewrite Hraw.
  bytes. clear Hl' sb'. res_inv.
  cbn [rbind]. rewrite E3. cbn [rbind].
  change (256 ^ Z.of_nat 4) with (256 ^ 4).
  rewrite !split_hi_lo by done. rewrite (Z.mod_small inodes) by done.
  destruct sb. simpl in *.
  injection Hd as ?. subst. done.
Qed.

(** * The sparse_super rule *)

(** [g] is a power of [base]. *)
Definition is_power_of (base g : Z) : Prop := exists k, 0 <= k /\ g = base ^ k.

Lemma power_loop_spec base K fuel k g :
  2 <= base -> base ^ K < 2 ^ 32 -> g <= base ^ K -> 1 <= k <= K ->
  K - k <= Z.of_nat fuel -> base ^ (k - 1) < g ->
  exists k', power_loop fuel base (base ^ k) g = Some (base ^ k') /\
    1 <= k' /\ base ^ (k' - 1) < g <= base ^ k'.
Proof.
  intros Hb HK Hg. revert k. induction fuel as [|fuel IH]; intros k Hk Hf Hlt; simpl;
    (destruct (base ^ k <? g) eqn:E; zbool; [|exists k; split_and!; auto; lia]).
  - assert (k = K) as -> by lia. lia.
  - assert (k <> K) by (intros ->; lia).
    assert (base ^ k * base = base ^ (k + 1)) as Hp.
    { rewrite Z.pow_add_r, Z.pow_1_r by lia. done. }
    assert (base ^ (k + 1) <= base ^ K) by (apply Z.pow_le_mono_r; lia).
    assert (0 < base ^ (k + 1)) by (apply Z.pow_pos_nonneg; lia).
    rewrite w32_small by lia. rewrite Hp. apply IH; [lia..|].
    by replace (k + 1 - 1) with k by lia.
Qed.

Lemma power_loop_test base K g :
  2 <= base -> 1 <= K <= 32 -> base ^ K < 2 ^ 32 -> 1 < g <= base ^ K ->
  exists p, power_loop 32 base base g = Some p /\ (p = g <-> is_power_of base g).
Proof.
  intros Hb HK1 HK Hg.
  destruct (power_loop_spec base K 32 1 g) as (k' & Hl & Hk' & Hlo & Hhi); [lia..|].
  rewrite Z.pow_1_r in Hl. exists (base ^ k'). split; [done|]. split.
  - intros <-. exists k'. split; [lia|done].
  - intros (m & Hm & ->). f_equal.
    apply Z.pow_lt_mono_r_iff in Hlo; [|lia..].
    apply Z.pow_le_mono_r_iff in Hhi; lia.
Qed.

(** Below [5^13] the [uint32] products do not wrap before they reach [g], and
    the loops compute the documented rule. *)
Lemma groupIsSparseBackup_spec g :
  0 <= g <= 5 ^ 13 ->
  exists r, groupIsSparseBackup 32 g = Some r /\
    (r = true <-> g = 0 \/ is_power_of 3 g \/ is_power_of 5 g \/ is_power_of 7 g).
Proof.
  intros Hg. unfold groupIsSparseBackup. destruct (g <=? 1) eqn:E1; zbool.
  { exists true. split; [done|]. split; [intros _|done].
    destruct (decide (g = 0)); [by left|]. right; left. exists 0. split; [done|].
    rewrite Z.pow_0_r. lia. }
  destruct (Z.land g 1 =? 0) eqn:E2; zbool.
  { exists false. split; [done|]. split; [done|].
    assert (Z.even g = true) as He.
    { change 1 with (Z.ones 1) in E2. rewrite Z.land_ones in E2 by lia.
      rewrite Zeven_mod. change (2 ^ 1) with 2 in E2. by rewrite E2. }
    assert (forall b, Z.even b = false -> ~ is_power_of b g) as Hodd.
    { intros b Hb (k & Hk & ->). destruct (decide (k = 0)) as [->|]; [lia|].
      rewrite Z.even_pow in He by lia. congruence. }
    intros [?|[?|[?|?]]]; [lia|exfalso; by eapply Hodd; [|eassumption]..]. }
  destruct (power_loop_test 3 20 g) as (p3 & -> & H3); [lia..|].
  destruct (power_loop_test 5 13 g) as (p5 & -> & H5); [lia..|].
  destruct (power_loop_test 7 11 g) as (p7 & -> & H7); [lia..|].
  assert (g <> 0) by lia.
  destruct (p3 =? g) eqn:D3; zbool; [exists true; split; [done|]; tauto|].
  destruct (p5 =? g) eqn:D5; zbool; [exists true; split; [done|]; tauto|].
  destruct (p7 =? g) eqn:D7; zbool; [exists true; split; [done|]; tauto|].
  exists false. split; [done|]. split; [done|]. tauto.
Qed.

(** Above that the product wraps: [5^14 mod 2^32] is reported as a backup
    group although it is no power of 3, 5 or 7. *)
Lemma groupIsSparseBackup_wraps : groupIsSparseBackup 32 1808548329 = Some true.
Proof. vm_compute. reflexivity. Qed.

(** The powers of 3 modulo [2^32] are 1 or 3 modulo 8, so the loop never
    reaches a bound that is only met by residues 5 and 7. *)
Lemma power_loop_diverges fuel p :
  0 <= p < 2 ^ 32 -> p mod 8 = 1 \/ p mod 8 = 3 ->
  power_loop fuel 3 p 4294967293 = None.
Proof.
  revert p. induction fuel as [|fuel IH]; intros p Hp Hm; simpl.
  - destruct (p <? 4294967293) eqn:E; [done|]. zbool.
    assert (p = 4294967293 \/ p = 4294967294 \/ p = 4294967295) as [->|[->| ->]] by lia;
      vm_compute in Hm; naive_solver.
  - destruct (p <? 4294967293) eqn:E; zbool.
    + apply IH; [apply w32_range|]. unfold w32.
      change (2 ^ 32) with 4294967296. dlia.
    + assert (p = 4294967293 \/ p = 4294967294 \/ p = 4294967295) as [->|[->| ->]] by lia;
        vm_compute in Hm; naive_solver.
Qed.

Lemma groupIsSparseBackup_diverges fuel : groupIsSparseBackup fuel 4294967293 = None.
Proof.
  unfold groupIsSparseBackup. simpl.
  rewrite power_loop_diverges; [done|lia|right; reflexivity].
Qed.

(** * The volume label *)

Lemma trim_zeros_replicate n : trim_zeros (replicate n 0) = [].
Proof. induction n as [|n IH]; simpl; [done|]. by rewrite IH. Qed.

Lemma trim_zeros_app_zeros b n : trim_zeros (b ++ replicate n 0) = trim_zeros b.
Proof.
  induction b as [|x b IH]; simpl; [apply trim_zeros_replicate|]. by rewrite IH.
Qed.

Lemma trim_zeros_id b : last b <> Some 0 -> trim_zeros b = b.
Proof.
  induction b as [|x b IH]; [done|]. intros Hl. simpl.
  destruct b as [|y b]; simpl in *.
  - destruct (x =? 0) eqn:E; [|done]. zbool. congruence.
  - rewrite IH by done. destruct (trim_zeros b); [by destruct (y =? 0)|done].
Qed.

Section relabel.
Context (raw b : list Z).
Hypothesis Hraw : zlen raw = 1024.
Hypothesis Hb : zlen b <= 16.

Lemma relabel_zlen : zlen (relabel raw b) = 1024.
Proof. unfold relabel. zl. Qed.

Lemma relabel_uN n off :
  0 <= off -> off + Z.of_nat n <= 120 \/ 136 <= off /\ off + Z.of_nat n <= 0x3FC ->
  uN n (relabel raw b) off = uN n raw off.
Proof.
  intros Ho Hr. pose proof (zlen_nonneg b). unfold relabel, MaxLabelLen.
  rewrite uN_seal by (zl). rewrite !uN_zsplice_ne by zl. done.
Qed.

Lemma relabel_u8 i : 136 <= i < 0x3FC -> u8 (relabel raw b) i = u8 raw i.
Proof.
  intros Hr. pose proof (zlen_nonneg b). unfold relabel, MaxLabelLen.
  rewrite u8_seal by zl. by rewrite !u8_zsplice_ne by zl.
Qed.

Lemma relabel_zslice off n :
  0 <= off -> 0 <= n -> off + n <= 120 -> zslice (relabel raw b) off n = zslice raw off n.
Proof.
  intros. pose proof (zlen_nonneg b). unfold relabel, MaxLabelLen.
  rewrite zslice_seal by zl. by rewrite !zslice_zsplice_ne by zl.
Qed.

Lemma relabel_field : zslice (relabel raw b) 120 16 = b ++ zeros (16 - zlen b).
Proof.
  pose proof (zlen_nonneg b). unfold relabel, MaxLabelLen.
  rewrite zslice_seal by zl.
  set (raw0 := zsplice raw 120 (zeros 16)).
  assert (zslice raw0 120 16 = zeros 16) as H0 by (apply zslice_zsplice_same; zl).
  transitivity (zslice (zsplice raw0 120 b) 120 (zlen b + (16 - zlen b))); [f_equal; lia|].
  rewrite zslice_app by lia. unfold raw0 at 1. rewrite zslice_zsplice_same by zl. f_equal.
  rewrite zslice_zsplice_ne by (unfold raw0; zl).
  rewrite <- (zslice_zslice raw0 120 16) by lia. rewrite H0. unfold zslice, zeros.
  rewrite drop_replicate, take_replicate. f_equal. lia.
Qed.

Lemma relabel_decode sb :
  decodeSuperblock raw = Ok sb ->
  decodeSuperblock (relabel raw b) = Ok (with_label sb (relabel raw b) (trim_zeros b)).
Proof.
  intros Hd. pose proof relabel_zlen as Hl.
  unfold decodeSuperblock, check_geometry, check_inode_size in *.
  bytes_in Hd. bytes. change (136 - 120) with 16.
  rewrite !relabel_uN, !relabel_u8, !relabel_zslice, relabel_field by lia.
  res_inv. cbn [rbind]. rewrite E3. cbn [rbind].
  unfold decodeNullPadded, zeros. rewrite trim_zeros_app_zeros. done.
Qed.

Lemma relabel_bytes_ok : bytes_ok raw -> bytes_ok b -> bytes_ok (relabel raw b).
Proof. intros. unfold relabel. apply bytes_ok_seal. auto with bytes. Qed.

Lemma relabel_csum_ok :
  bytes_ok raw -> bytes_ok b -> has_flag (u32 raw 100) FeatROCompatMetadataCsum = true ->
  sb_csum_ok (relabel raw b).
Proof.
  intros ? ? Hf. pose proof (zlen_nonneg b). unfold relabel, MaxLabelLen.
  apply seal_csum_ok; [zl|auto with bytes|]. by rewrite !uN_zsplice_ne by zl.
Qed.

End relabel.

Lemma decode_rocompat raw sb :
  decodeSuperblock raw = Ok sb -> FeatureROCompat sb = u32 raw 100.
Proof.
  unfold decodeSuperblock. intros. res_inv. simpl.
  match goal with H : get32 raw 100 = _ |- _ => unfold getN in H; by res_inv end.
Qed.

Section label_io.
Context {D : Type} `{BlockDevLaws D}.

(** After [SetLabel] the superblock on the device decodes to the old one with
    the new label, its checksum is valid, and the cached label agrees. *)
Lemma SetLabel_spec partOffset sb0 b (d d' : D) sb sb' :
  readSuperblock d partOffset = Ok sb0 -> bytes_ok b ->
  SetLabel partOffset sb b d = (Ok sb', d') ->
  exists raw, readSuperblock d' partOffset = Ok (with_label sb0 raw (trim_zeros b)) /\
    sb_Label sb' = trim_zeros b /\
    (has_flag (FeatureROCompat sb0) FeatROCompatMetadataCsum = true -> sb_csum_ok raw).
Proof.
  intros Hr Hb Hs. unfold SetLabel in Hs. st_inv. unfold readSuperblock in *. res_inv.
  zbool. unfold MaxLabelLen, superblockSize in *.
  match goal with H1 : read_at d ?o ?n = Ok ?a, H2 : read_at d ?o ?n = Ok _ |- _ =>
    rewrite H1 in H2; injection H2 as H2; subst end.
  match goal with H : read_at d _ _ = Ok ?a |- _ => rename a into raw; rename H into Hrd end.
  pose proof (read_at_zlen d _ 1024 _ ltac:(lia) Hrd) as Hl.
  pose proof (read_at_bytes_ok _ _ _ _ Hrd) as Hbr.
  pose proof (relabel_zlen raw b Hl) as Hl'.
  pose proof (relabel_bytes_ok raw b Hbr Hb) as Hb'.
  repeat match goal with u : unit |- _ => destruct u end.
  exists (relabel raw b). split_and!.
  - erewrite sync_read by eassumption.
    erewrite write_read_same by eauto. cbn [rwrap rbind]. by apply relabel_decode.
  - simpl. rewrite relabel_field by done. apply trim_zeros_app_zeros.
  - intros Hf. apply relabel_csum_ok; [done..|]. by rewrite <- (decode_rocompat _ _ Hr).
Qed.
End label_io.

(** * A small file system used to run the model *)

Definition ex_sb : superblock :=
  Superblock (zeros 1024) 32 64 40 20 1 1024 8192 32 0xEF53 FeatIncompatExtents 0 (zeros 16)
    [] 128 32 0 0 0 0 0.
