(* ===== verification/Bgd.v ===== *)
(** Block group descriptors ([src/bgd.go], and the descriptor helpers of
    [src/alloc.go]): decoding, encoding of the counts, the descriptor and
    bitmap checksums, and the merge of two allocators' updates of one
    descriptor. *)

From S2P Require Import Prelude Bytes Crc Device Superblock.

Record bgd : Type := Bgd {
  bgd_raw : list Z;
  BlockBitmapBlock : Z;
  InodeBitmapBlock : Z;
  InodeTableBlock : Z;
  FreeBlocksCount : Z;
  FreeInodesCount : Z;
  UsedDirsCount : Z;
  bgd_Flags : Z
}.

Definition bgd_with_raw (d : bgd) (raw : list Z) : bgd :=
  Bgd raw (BlockBitmapBlock d) (InodeBitmapBlock d) (InodeTableBlock d)
    (FreeBlocksCount d) (FreeInodesCount d) (UsedDirsCount d) (bgd_Flags d).
Definition bgd_with_counts (d : bgd) (fb fi ud : Z) : bgd :=
  Bgd (bgd_raw d) (BlockBitmapBlock d) (InodeBitmapBlock d) (InodeTableBlock d)
    fb fi ud (bgd_Flags d).

(** The descriptor has the 64-bit halves. *)
Definition wide (sb : superblock) : bool :=
  has_flag (FeatureIncompat sb) FeatIncompat64bit && (64 <=? DescSize sb).

Definition decodeBGD (raw : list Z) (sb : superblock) : res bgd :=
  let! blo := get32 raw 0 in
  let! ilo := get32 raw 4 in
  let! tlo := get32 raw 8 in
  let! fblo := get16 raw 12 in
  let! filo := get16 raw 14 in
  let! udlo := get16 raw 16 in
  let! flags := get16 raw 18 in
  if wide sb then
    let! bhi := get32 raw 32 in
    let! ihi := get32 raw 36 in
    let! thi := get32 raw 40 in
    let! fbhi := get16 raw 44 in
    let! fihi := get16 raw 46 in
    let! udhi := get16 raw 48 in
    Ok (Bgd raw (Z.lor (Z.shiftl bhi 32) blo) (Z.lor (Z.shiftl ihi 32) ilo)
          (Z.lor (Z.shiftl thi 32) tlo)
          (Z.lor fblo (Z.shiftl fbhi 16)) (Z.lor filo (Z.shiftl fihi 16))
          (Z.lor udlo (Z.shiftl udhi 16)) flags)
  else Ok (Bgd raw blo ilo tlo fblo filo udlo flags).

(** [(d *bgd) encode]: the counts into [d.raw]. *)
Definition bgd_encode (sb : superblock) (d : bgd) : res bgd :=
  let raw := bgd_raw d in
  if wide sb then
    let! raw := put16 raw 12 (Z.land (FreeBlocksCount d) 0xFFFF) in
    let! raw := put16 raw 44 (w16 (Z.shiftr (FreeBlocksCount d) 16)) in
    let! raw := put16 raw 14 (Z.land (FreeInodesCount d) 0xFFFF) in
    let! raw := put16 raw 46 (w16 (Z.shiftr (FreeInodesCount d) 16)) in
    let! raw := put16 raw 16 (Z.land (UsedDirsCount d) 0xFFFF) in
    let! raw := put16 raw 48 (w16 (Z.shiftr (UsedDirsCount d) 16)) in
    Ok (bgd_with_raw d raw)
  else
    let! raw := put16 raw 12 (w16 (FreeBlocksCount d)) in
    let! raw := put16 raw 14 (w16 (FreeInodesCount d)) in
    let! raw := put16 raw 16 (w16 (UsedDirsCount d)) in
    Ok (bgd_with_raw d raw).

(** The CRC of a descriptor image whose checksum field is zero. *)
Definition bgd_crc (sb : superblock) (g : Z) (raw : list Z) : Z :=
  crc32c (crc32c (csumSeed sb) (le_encode 4 g)) raw.

Definition setBGDChecksum (sb : superblock) (g : Z) (raw : list Z) : res (list Z) :=
  if negb (has_flag (FeatureROCompat sb) FeatROCompatMetadataCsum) then Ok raw else
  let! raw := put16 raw 30 0 in
  let! body := subslice raw 0 (DescSize sb) in
  put16 raw 30 (w16 (bgd_crc sb g body)).

(** The preparation half of [writeBGD]: encode, then the checksum. *)
Definition prepareBGD (sb : superblock) (g : Z) (d : bgd) : res bgd :=
  let! d := bgd_encode sb d in
  let! raw := setBGDChecksum sb g (bgd_raw d) in
  Ok (bgd_with_raw d raw).

Definition bgd_offset (sb : superblock) (g : Z) : Z :=
  bgdTableBlock sb * BlockSize sb + g * DescSize sb.

Definition readBGD {D} `{BlockDev D} (d : D) (fsOffset : Z) (sb : superblock) (g : Z) : res bgd :=
  let! raw := rwrap "ext4: read BGD" (read_at d (fsOffset + bgd_offset sb g) (DescSize sb)) in
  decodeBGD raw sb.

(** Lengths covered by the bitmap checksums; the sum is on [uint32]. *)
Definition blockBitmapCsumLen (sb : superblock) : Z := w32 (BlocksPerGroup sb + 7) / 8.
Definition inodeBitmapCsumLen (sb : superblock) : Z := w32 (InodesPerGroup sb + 7) / 8.

Definition bitmapCsumSeed (sb : superblock) (g : Z) : Z := csumSeed sb.

Definition setBitmapCsum (sb : superblock) (g : Z) (raw : list Z)
    (isBlockBitmap : bool) (bmap : list Z) : res (list Z) :=
  if negb (has_flag (FeatureROCompat sb) FeatROCompatMetadataCsum) then Ok raw else
  let seed := bitmapCsumSeed sb g in
  let n := if isBlockBitmap then blockBitmapCsumLen sb else inodeBitmapCsumLen sb in
  let n := if zlen bmap <? n then zlen bmap else n in
  let csum := crc32c seed (zslice bmap 0 n) in
  let lo := if isBlockBitmap then 24 else 26 in
  let hi := if isBlockBitmap then 56 else 58 in
  let! raw := put16 raw lo (Z.land csum 0xFFFF) in
  if 64 <=? DescSize sb then put16 raw hi (w16 (Z.shiftr csum 16)) else Ok raw.

(** Byte ranges of a descriptor an allocator is authoritative for. *)
Definition blockAllocDescRanges (sb : superblock) : list (Z * Z) :=
  [(0x0C, 0x0E); (0x18, 0x1A)] ++
  (if 64 <=? DescSize sb then [(0x2C, 0x2E); (0x38, 0x3A)] else []).
Definition inodeAllocDescRanges (sb : superblock) : list (Z * Z) :=
  [(0x0E, 0x10); (0x10, 0x12); (0x1A, 0x1C); (0x1C, 0x1E)] ++
  (if 64 <=? DescSize sb
   then [(0x2E, 0x30); (0x30, 0x32); (0x3A, 0x3C); (0x3C, 0x3E)] else []).

(** The overlay of the owned ranges in [stageDescriptorUpdate]. *)
Definition overlay_ranges (ranges : list (Z * Z)) (src merged : list Z) : list Z :=
  fold_left (fun m r => zsplice m r.1 (zslice src r.1 (r.2 - r.1))) ranges merged.

(** The descriptor [stageDescriptorUpdate] stages, from the current bytes in
    the transaction (or on disk) and the allocator's copy. *)
Definition mergeDescriptor (sb : superblock) (g : Z) (cur draw : list Z)
    (ranges : list (Z * Z)) : res (list Z) :=
  setBGDChecksum sb g (overlay_ranges ranges draw cur).

(** * Descriptor round trip *)

(** Descriptors long enough for the layout in use. *)
Definition raw_fits (sb : superblock) (raw : list Z) : Prop :=
  zlen raw = DescSize sb /\ 32 <= DescSize sb.

Lemma decodeBGD_np raw sb : raw_fits sb raw -> decodeBGD raw sb <> Panic.
Proof.
  intros [Hl Hd]. unfold decodeBGD, wide. np; zbool; zl.
Qed.

Lemma bgd_encode_np sb d : raw_fits sb (bgd_raw d) -> bgd_encode sb d <> Panic.
Proof.
  intros [Hl Hd]. unfold bgd_encode, wide.
  destruct (has_flag _ _ && _) eqn:E; zbool; bytes; done.
Qed.

Lemma split16 v :
  0 <= v < 2 ^ 32 ->
  Z.lor (Z.land v 0xFFFF mod 256 ^ 2) (Z.shiftl (w16 (Z.shiftr v 16) mod 256 ^ 2) 16) = v.
Proof.
  intros Hv. rewrite Z.lor_comm. change 0xFFFF with (Z.ones 16).
  rewrite Z.land_ones, Z.shiftr_div_pow2 by lia. unfold w16.
  change (256 ^ 2) with (2 ^ 16). rewrite !Z.mod_mod by lia.
  rewrite lor_shiftl_add by (lia || (apply Z.mod_pos_bound; lia)).
  rewrite (Z.mod_small (v / 2 ^ 16)) by (split; [apply Z.div_pos|apply Z.div_lt_upper_bound]; lia).
  rewrite (Z.div_mod v (2 ^ 16)) at 3 by lia. lia.
Qed.

(** The counts a descriptor can hold. *)
Definition count_max (sb : superblock) : Z := if wide sb then 2 ^ 32 else 2 ^ 16.

Lemma bgd_encode_decode sb raw d fb fi ud :
  raw_fits sb raw -> decodeBGD raw sb = Ok d ->
  0 <= fb < count_max sb -> 0 <= fi < count_max sb -> 0 <= ud < count_max sb ->
  exists d', bgd_encode sb (bgd_with_counts d fb fi ud) = Ok d' /\
    decodeBGD (bgd_raw d') sb = Ok d' /\
    d' = bgd_with_raw (bgd_with_counts d fb fi ud) (bgd_raw d') /\
    zlen (bgd_raw d') = zlen raw.
Proof.
  intros [Hl Hd] Hdec Hfb Hfi Hud. unfold count_max in *.
  assert (bgd_raw d = raw) as Hraw by (unfold decodeBGD in Hdec; res_inv; done).
  unfold bgd_encode, decodeBGD, bgd_with_counts in *. simpl. rewrite Hraw.
  destruct (wide sb) eqn:Hw.
  - unfold wide in Hw. zbool. bytes_in Hdec. bytes. eexists. split; [done|].
    simpl. bytes. change (256 ^ Z.of_nat 2) with (256 ^ 2).
    rewrite !split16 by done. injection Hdec as <-. done.
  - bytes_in Hdec. bytes. eexists. split; [done|]. simpl. bytes.
    unfold w16. change (256 ^ Z.of_nat 2) with (2 ^ 16). rewrite !Z.mod_mod by lia.
    rewrite !Z.mod_small by done. injection Hdec as <-. done.
Qed.

(** * Descriptor checksum *)

(** The stored checksum is the CRC of the group number and the descriptor
    with a zero checksum field. *)
Definition bgd_csum_ok (sb : superblock) (g : Z) (raw : list Z) : Prop :=
  u16 raw 30 = w16 (bgd_crc sb g (set16 raw 30 0)).

Lemma setN_setN_same n l off v w :
  0 <= off -> off + Z.of_nat n <= zlen l -> setN n (setN n l off v) off w = setN n l off w.
Proof.
  intros. apply list_eq. intros i. unfold setN.
  destruct (decide (off <= Z.of_nat i < off + Z.of_nat n)).
  - rewrite !zsplice_lookup_new by (rewrite ?zlen_zsplice, ?zlen_le_encode; lia). done.
  - rewrite !zsplice_lookup_old by (rewrite ?zlen_zsplice, ?zlen_le_encode; lia). done.
Qed.

Section checksum.
Context (sb : superblock) (g : Z).
Hypothesis Hdesc : 32 <= DescSize sb.

Lemma setBGDChecksum_eq raw :
  zlen raw = DescSize sb ->
  setBGDChecksum sb g raw =
  Ok (if has_flag (FeatureROCompat sb) FeatROCompatMetadataCsum
      then set16 raw 30 (w16 (bgd_crc sb g (set16 raw 30 0))) else raw).
Proof.
  intros Hl. unfold setBGDChecksum. destruct (has_flag _ _); simpl; [|done].
  bytes. rewrite setN_setN_same by zl. rewrite zslice_all by zl. done.
Qed.

Lemma setBGDChecksum_zlen raw raw' :
  zlen raw = DescSize sb -> setBGDChecksum sb g raw = Ok raw' -> zlen raw' = DescSize sb.
Proof.
  intros Hl. rewrite setBGDChecksum_eq by done. intros [= <-].
  destruct (has_flag _ _); zl.
Qed.

Lemma setBGDChecksum_ok raw raw' :
  zlen raw = DescSize sb -> bytes_ok raw ->
  has_flag (FeatureROCompat sb) FeatROCompatMetadataCsum = true ->
  setBGDChecksum sb g raw = Ok raw' -> bgd_csum_ok sb g raw'.
Proof.
  intros Hl Hb Hf. rewrite setBGDChecksum_eq, Hf by done. intros [= <-].
  unfold bgd_csum_ok. rewrite setN_setN_same by zl. rewrite uN_setN_same by zl.
  apply Z.mod_small. apply w16_range.
Qed.

Lemma setBGDChecksum_u8 raw raw' i :
  zlen raw = DescSize sb -> setBGDChecksum sb g raw = Ok raw' ->
  0 <= i < 30 \/ 32 <= i -> u8 raw' i = u8 raw i.
Proof.
  intros Hl. rewrite setBGDChecksum_eq by done. intros [= <-] Hi.
  destruct (has_flag _ _); [|done]. rewrite u8_setN_ne by zl. done.
Qed.

End checksum.

(** * Merging two allocators' updates *)

Definition in_ranges (ranges : list (Z * Z)) (i : Z) : bool :=
  existsb (fun r => (r.1 <=? i) && (i <? r.2)) ranges.

Lemma overlay_zlen ranges src m : zlen (overlay_ranges ranges src m) = zlen m.
Proof.
  unfold overlay_ranges. revert m. induction ranges as [|r ranges IH]; intros m; simpl; [done|].
  by rewrite IH, zlen_zsplice.
Qed.

Lemma overlay_u8 ranges src m i :
  0 <= i -> zlen src = zlen m ->
  Forall (fun r => 0 <= r.1 <= r.2 /\ r.2 <= zlen m) ranges ->
  u8 (overlay_ranges ranges src m) i = if in_ranges ranges i then u8 src i else u8 m i.
Proof.
  intros Hi Hs Hr. unfold overlay_ranges.
  revert m Hs Hr. induction ranges as [|r ranges IH]; intros m Hs Hr; simpl; [done|].
  inversion Hr as [|? ? [H1 H2] Hr']; subst.
  rewrite IH by (rewrite ?zlen_zsplice; done).
  destruct (in_ranges ranges i) eqn:E; [by rewrite orb_true_r|]. rewrite orb_false_r.
  destruct (_ && _) eqn:Er.
  - zbool. rewrite u8_zsplice_new by zl. rewrite u8_zslice by lia. f_equal. lia.
  - rewrite u8_zsplice_ne; [done|lia|lia|zl|]. rewrite zlen_zslice by lia. zbool.
    destruct Er; zbool; lia.
Qed.

Section merge.
Context (sb : superblock) (g : Z) (cur dblk dino m1 m2 : list Z).
Hypothesis Hdesc : 32 <= DescSize sb.
Hypothesis Hcur : zlen cur = DescSize sb.
Hypothesis Hblk : zlen dblk = DescSize sb.
Hypothesis Hino : zlen dino = DescSize sb.
Hypothesis H1 : mergeDescriptor sb g cur dblk (blockAllocDescRanges sb) = Ok m1.
Hypothesis H2 : mergeDescriptor sb g m1 dino (inodeAllocDescRanges sb) = Ok m2.

Lemma block_ranges_fit :
  Forall (fun r => 0 <= r.1 <= r.2 /\ r.2 <= DescSize sb) (blockAllocDescRanges sb).
Proof.
  unfold blockAllocDescRanges. destruct (64 <=? DescSize sb) eqn:E; zbool; simpl;
    repeat (constructor; simpl; [lia|]); constructor.
Qed.

Lemma inode_ranges_fit :
  Forall (fun r => 0 <= r.1 <= r.2 /\ r.2 <= DescSize sb) (inodeAllocDescRanges sb).
Proof.
  unfold inodeAllocDescRanges. destruct (64 <=? DescSize sb) eqn:E; zbool; simpl;
    repeat (constructor; simpl; [lia|]); constructor.
Qed.

(** Every byte of the doubly merged descriptor outside the checksum comes
    from the allocator that owns it, or else from the descriptor before. *)
Lemma merge_compounds i :
  0 <= i < 30 \/ 32 <= i < DescSize sb ->
  u8 m2 i = if in_ranges (inodeAllocDescRanges sb) i then u8 dino i
            else if in_ranges (blockAllocDescRanges sb) i then u8 dblk i
            else u8 cur i.
Proof.
  intros Hi. unfold mergeDescriptor in *.
  assert (zlen m1 = DescSize sb) as Hm1.
  { refine (setBGDChecksum_zlen sb g Hdesc _ _ _ H1). by rewrite overlay_zlen. }
  rewrite (fun L => setBGDChecksum_u8 sb g Hdesc _ _ i L H2)
    by (rewrite ?overlay_zlen; done || lia).
  rewrite overlay_u8; [|lia|congruence|rewrite Hm1; apply inode_ranges_fit].
  destruct (in_ranges (inodeAllocDescRanges sb) i); [done|].
  rewrite (fun L => setBGDChecksum_u8 sb g Hdesc _ _ i L H1)
    by (rewrite ?overlay_zlen; done || lia).
  rewrite overlay_u8; [done|lia|congruence|rewrite Hcur; apply block_ranges_fit].
Qed.

End merge.

(** * Fields outside the decoded ones *)

Lemma decodeBGD_raw raw sb bg : decodeBGD raw sb = Ok bg -> bgd_raw bg = raw.
Proof. unfold decodeBGD. intros. res_inv; done. Qed.

Lemma decodeBGD_ext sb raw raw' bg :
  raw_fits sb raw -> zlen raw' = zlen raw ->
  (forall i, 0 <= i < 20 \/ 32 <= i < 50 -> u8 raw' i = u8 raw i) ->
  decodeBGD raw sb = Ok bg -> decodeBGD raw' sb = Ok (bgd_with_raw bg raw').
Proof.
  intros [Hl Hd] Hl' He Hdec. unfold decodeBGD in *.
  assert (forall n off, 0 <= off -> off + Z.of_nat n <= 20 -> uN n raw' off = uN n raw off) as H1.
  { intros n off Ho Hn. apply uN_u8_ext; try lia. intros i Hi. apply He. lia. }
  assert (forall n off, 32 <= off -> off + Z.of_nat n <= 50 -> 50 <= zlen raw ->
    uN n raw' off = uN n raw off) as H2.
  { intros n off Ho Hn Hz. apply uN_u8_ext; try lia. intros i Hi. apply He. lia. }
  bytes_in Hdec. bytes. destruct (wide sb) eqn:Hw.
  - unfold wide in Hw. zbool. bytes_in Hdec. bytes. injection Hdec as <-. unfold bgd_with_raw. simpl.
    repeat first [rewrite H1 by lia | rewrite H2 by lia]. done.
  - injection Hdec as <-. unfold bgd_with_raw. simpl. by rewrite !H1 by lia.
Qed.

Lemma decode_csum sb g raw raw' bg :
  raw_fits sb raw -> decodeBGD raw sb = Ok bg -> setBGDChecksum sb g raw = Ok raw' ->
  raw_fits sb raw' /\ decodeBGD raw' sb = Ok (bgd_with_raw bg raw').
Proof.
  intros [Hl Hd] Hdec Hs.
  pose proof (setBGDChecksum_zlen sb g Hd raw raw' Hl Hs) as Hl'. split; [done|].
  apply (decodeBGD_ext sb raw); [done|lia| |done]. intros i Hi.
  apply (setBGDChecksum_u8 sb g Hd raw raw'); [done..|lia].
Qed.

Lemma setBitmapCsum_ok sb g raw isBlock bmap :
  raw_fits sb raw -> bytes_ok raw ->
  exists raw', setBitmapCsum sb g raw isBlock bmap = Ok raw' /\ raw_fits sb raw' /\ bytes_ok raw' /\
    (forall bg, decodeBGD raw sb = Ok bg -> decodeBGD raw' sb = Ok (bgd_with_raw bg raw')).
Proof.
  intros [Hl Hd] Hb. unfold setBitmapCsum. destruct (negb _).
  { exists raw. split_and!; auto; [done|]. intros bg Hdec. rewrite Hdec. f_equal.
    apply decodeBGD_raw in Hdec. destruct bg. cbn in *. by subst. }
  set (c := crc32c _ _). set (lo := if isBlock then 24 else 26).
  set (hi := if isBlock then 56 else 58).
  assert (24 <= lo <= 26 /\ 56 <= hi <= 58) as [Hlo Hhi] by (destruct isBlock; unfold lo, hi; lia).
  rewrite putN_ok by lia. cbn [rbind]. destruct (64 <=? DescSize sb) eqn:E; zbool.
  - rewrite putN_ok by zl. eexists. split; [done|].
    split_and!; [split; zl|auto with bytes|]. intros bg Hdec.
    apply (decodeBGD_ext sb raw); [done|zl| |done]. intros i Hi. rewrite !u8_setN_ne by zl. done.
  - eexists. split; [done|]. split_and!; [split; zl|auto with bytes|]. intros bg Hdec.
    apply (decodeBGD_ext sb raw); [done|zl| |done]. intros i Hi. rewrite u8_setN_ne by zl. done.
Qed.

Lemma putN_bytes_ok n l off v l' : bytes_ok l -> putN n l off v = Ok l' -> bytes_ok l'.
Proof. intros Hb. unfold putN. destruct (in_range _ _ _); intros; res_inv; auto with bytes. Qed.

Lemma bgd_encode_bytes_ok sb bg bg' :
  bytes_ok (bgd_raw bg) -> bgd_encode sb bg = Ok bg' -> bytes_ok (bgd_raw bg').
Proof.
  intros Hb He. unfold bgd_encode in He. res_inv; simpl; eauto 10 using putN_bytes_ok.
Qed.

Lemma setBGDChecksum_bytes_ok sb g raw raw' :
  bytes_ok raw -> setBGDChecksum sb g raw = Ok raw' -> bytes_ok raw'.
Proof.
  intros Hb He. unfold setBGDChecksum in He. res_inv; eauto using putN_bytes_ok.
Qed.

Lemma decodeBGD_ranges raw sb bg :
  bytes_ok raw -> decodeBGD raw sb = Ok bg ->
  0 <= FreeBlocksCount bg < count_max sb /\ 0 <= FreeInodesCount bg < count_max sb /\
  0 <= UsedDirsCount bg < count_max sb.
Proof.
  intros Hb Hd. unfold decodeBGD in Hd. unfold count_max.
  pose proof (fun o => u16_range raw o Hb) as Hr.
  assert (forall a b, 0 <= Z.lor (u16 raw a) (Z.shiftl (u16 raw b) 16) < 2 ^ 32) as Hl.
  { intros a b. rewrite Z.lor_comm. pose proof (Hr a). pose proof (Hr b).
    rewrite lor_shiftl_add by lia. lia. }
  destruct (wide sb); unfold getN in Hd; res_inv; cbn;
    first [split_and!; apply Hl | split_and!; apply Hr].
Qed.

(** The preparation of a descriptor by an allocator: the bitmap checksum, then
    the counts. *)
Lemma prepare_counts sb g raw bg isBlock bmap fb fi ud :
  raw_fits sb raw -> bytes_ok raw -> decodeBGD raw sb = Ok bg ->
  0 <= fb < count_max sb -> 0 <= fi < count_max sb -> 0 <= ud < count_max sb ->
  exists raw1 bg', setBitmapCsum sb g raw isBlock bmap = Ok raw1 /\
    bgd_encode sb (bgd_with_raw (bgd_with_counts bg fb fi ud) raw1) = Ok bg' /\
    raw_fits sb (bgd_raw bg') /\ bytes_ok (bgd_raw bg') /\ decodeBGD (bgd_raw bg') sb = Ok bg' /\
    bg' = bgd_with_raw (bgd_with_counts bg fb fi ud) (bgd_raw bg').
Proof.
  intros Hf Hb Hd H1 H2 H3.
  destruct (setBitmapCsum_ok sb g raw isBlock bmap Hf Hb) as (raw1 & Hs & Hf1 & Hb1 & Hd1).
  destruct (bgd_encode_decode sb raw1 (bgd_with_raw bg raw1) fb fi ud Hf1 (Hd1 bg Hd) H1 H2 H3)
    as (bg' & He & Hd' & Heq & Hl).
  exists raw1, bg'. split_and!; auto.
  - split; [rewrite Hl|]; apply Hf1.
  - by eapply bgd_encode_bytes_ok; [|exact He].
Qed.
