(* ===== verification/Bitmap.v ===== *)
(** Allocation bitmaps: the bit helpers of [src/alloc.go], [src/fsck.go] and
    [src/resize.go].  Bit [i] of a bitmap is bit [i%8] of byte [i/8]; a set bit
    is an allocated block or inode. *)

From S2P Require Import Prelude Bytes.

(** [bitmap[i/8]&(1<<uint(i%8)) == 0]. *)
Definition bit_clear (bitmap : list Z) (i : Z) : res bool :=
  let! b := get8 bitmap (i / 8) in
  Ok (Z.land b (Z.shiftl 1 (i mod 8)) =? 0).

Fixpoint findFreeBit_from (n : nat) (bitmap : list Z) (i : Z) : res (option Z) :=
  match n with
  | O => Ok None
  | S n' =>
      let! free := bit_clear bitmap i in
      if free : bool then Ok (Some i) else findFreeBit_from n' bitmap (i + 1)
  end.
Definition findFreeBit (bitmap : list Z) (maxBits : Z) : res (option Z) :=
  findFreeBit_from (Z.to_nat maxBits) bitmap 0.

(** The search for a contiguous run: the result is its first bit. *)
Fixpoint findRun_from (k : nat) (bitmap : list Z) (n i runStart runLen : Z) : res (option Z) :=
  match k with
  | O => Ok None
  | S k' =>
      let! free := bit_clear bitmap i in
      if free : bool then
        let runStart := if runLen =? 0 then i else runStart in
        let runLen := runLen + 1 in
        if runLen =? n then Ok (Some runStart)
        else findRun_from k' bitmap n (i + 1) runStart runLen
      else findRun_from k' bitmap n (i + 1) (-1) 0
  end.

(** The fallback: the first [n] free bits, contiguous or not. *)
Fixpoint collectFree_from (k : nat) (bitmap : list Z) (n i : Z) (bits : list Z) : res (list Z) :=
  match k with
  | O => Ok bits
  | S k' =>
      if zlen bits <? n then
        let! free := bit_clear bitmap i in
        collectFree_from k' bitmap n (i + 1) (if free : bool then bits ++ [i] else bits)
      else Ok bits
  end.

Definition findFreeRun (bitmap : list Z) (maxBits n : Z) : res (option (list Z)) :=
  if n =? 0 then Ok (Some []) else
  let! run := findRun_from (Z.to_nat maxBits) bitmap n 0 (-1) 0 in
  match run with
  | Some s => Ok (Some (seqZ s n))
  | None =>
      let! bits := collectFree_from (Z.to_nat maxBits) bitmap n 0 [] in
      Ok (if zlen bits =? n then Some bits else None)
  end.

Fixpoint countClear_from (k : nat) (bitmap : list Z) (i count : Z) : res Z :=
  match k with
  | O => Ok count
  | S k' =>
      let! free := bit_clear bitmap i in
      countClear_from k' bitmap (i + 1) (if free : bool then count + 1 else count)
  end.
Definition countZeroBits (b : list Z) (maxBits : Z) : res Z :=
  countClear_from (Z.to_nat maxBits) b 0 0.

(** The count of [countFreeInBitmap]; the sample is for diagnostics. *)
Definition countFreeInBitmap (bitmap : list Z) (maxBits : Z) : res Z :=
  let max := if zlen bitmap * 8 <? maxBits then zlen bitmap * 8 else maxBits in
  countClear_from (Z.to_nat max) bitmap 0 0.

Fixpoint countSet_from (k : nat) (bitmap : list Z) (i used : Z) : res Z :=
  match k with
  | O => Ok used
  | S k' =>
      let! free := bit_clear bitmap i in
      countSet_from k' bitmap (i + 1) (if free : bool then used else used + 1)
  end.
Definition countUsedBits (bitmap : list Z) (maxBits : Z) : res (Z * Z) :=
  let max := if zlen bitmap * 8 <? maxBits then zlen bitmap * 8 else maxBits in
  let! used := countSet_from (Z.to_nat max) bitmap 0 0 in
  Ok (used, max).

Definition setBit (bitmap : list Z) (i : Z) : res (list Z) :=
  let! b := get8 bitmap (i / 8) in
  put8 bitmap (i / 8) (Z.lor b (Z.shiftl 1 (i mod 8))).

(** [&^=]. *)
Definition clearBit (bitmap : list Z) (i : Z) : res (list Z) :=
  let! b := get8 bitmap (i / 8) in
  put8 bitmap (i / 8) (Z.ldiff b (Z.shiftl 1 (i mod 8))).

(** * The abstract view *)

Definition used (bitmap : list Z) (i : Z) : bool :=
  Z.testbit (u8 bitmap (i / 8)) (i mod 8).

(** The free bits below [m], in order. *)
Definition free_bits (bitmap : list Z) (m : Z) : list Z :=
  filter (fun i => used bitmap i = false) (seqZ 0 m).

Lemma land_bit_zero b k : 0 <= k -> (Z.land b (Z.shiftl 1 k) =? 0) = negb (Z.testbit b k).
Proof.
  intros Hk. rewrite Z.shiftl_1_l. destruct (Z.testbit b k) eqn:E; simpl.
  - apply eqb_false. intros H0.
    assert (Z.testbit (Z.land b (2 ^ k)) k = true) as Ht
      by (rewrite Z.land_spec, E, Z.pow2_bits_true by done; done).
    by rewrite H0, Z.bits_0 in Ht.
  - apply eqb_true. apply Z.bits_inj'. intros i Hi. rewrite Z.land_spec, Z.bits_0.
    destruct (decide (i = k)) as [->|]; [by rewrite E|].
    by rewrite Z.pow2_bits_false, andb_false_r by done.
Qed.

Lemma bit_index_range i m : 0 <= i < 8 * m -> 0 <= i / 8 < m.
Proof. intros. dlia. Qed.

Lemma bit_clear_ok bitmap i :
  0 <= i < 8 * zlen bitmap -> bit_clear bitmap i = Ok (negb (used bitmap i)).
Proof.
  intros Hi. unfold bit_clear. pose proof (bit_index_range i _ Hi).
  rewrite get8_ok by lia. simpl. rewrite land_bit_zero; [done|].
  apply Z.mod_pos_bound. lia.
Qed.

(** * Searching *)

Section search.
Context (bitmap : list Z) (m : Z).
Hypothesis Hm : 0 <= m <= 8 * zlen bitmap.

Lemma findFreeBit_from_spec k i :
  0 <= i -> i + Z.of_nat k = m ->
  match findFreeBit_from k bitmap i with
  | Ok (Some j) => i <= j < m /\ used bitmap j = false /\ forall l, i <= l < j -> used bitmap l = true
  | Ok None => forall l, i <= l < m -> used bitmap l = true
  | _ => False
  end.
Proof.
  revert i. induction k as [|k IH]; intros i Hi Hk; simpl; [intros; lia|].
  rewrite bit_clear_ok by lia. simpl. destruct (used bitmap i) eqn:E; simpl.
  - specialize (IH (i + 1) ltac:(lia) ltac:(lia)).
    destruct (findFreeBit_from k bitmap (i + 1)) as [[j|]|e|]; [..|done|done].
    + destruct IH as (H1 & H2 & H3). split_and!; [lia..|done|]. intros l Hl.
      destruct (decide (l = i)) as [->|]; [done|]. apply H3. lia.
    + intros l Hl. destruct (decide (l = i)) as [->|]; [done|]. apply IH. lia.
  - split_and!; [lia..|done|]. intros; lia.
Qed.

(** [s] starts a run of [n] free bits below [m]. *)
Definition run_at (n s : Z) : Prop :=
  0 <= s /\ s + n <= m /\ forall j, s <= j < s + n -> used bitmap j = false.

Lemma findRun_from_spec n k i runStart runLen :
  0 < n -> 0 <= i -> i + Z.of_nat k = m -> 0 <= runLen < n -> runLen <= i ->
  (runLen <> 0 -> runStart = i - runLen) ->
  (forall j, i - runLen <= j < i -> used bitmap j = false) ->
  (forall s, run_at n s -> i - runLen <= s) ->
  match findRun_from k bitmap n i runStart runLen with
  | Ok (Some s) => run_at n s /\ forall s', run_at n s' -> s <= s'
  | Ok None => forall s, ~ run_at n s
  | _ => False
  end.
Proof.
  intros Hn. revert i runStart runLen.
  induction k as [|k IH]; intros i rs rl Hi Hk Hrl Hrli Hrs Hfree Hmin; simpl.
  - intros s Hs. specialize (Hmin s Hs). destruct Hs as (H1 & H2 & H3). lia.
  - rewrite bit_clear_ok by lia. simpl. destruct (used bitmap i) eqn:E; simpl.
    + apply IH; try lia. intros s Hs. specialize (Hmin s Hs) as Hge.
      destruct Hs as (H1 & H2 & H3). destruct (decide (s <= i)); [|lia].
      exfalso. specialize (H3 i). destruct (decide (i < s + n)); [|lia].
      rewrite E in H3. by specialize (H3 ltac:(lia)).
    + assert ((if rl =? 0 then i else rs) = i - rl) as Hst.
      { destruct (rl =? 0) eqn:Er; zbool; [lia|]. apply Hrs. lia. }
      rewrite Hst. destruct (rl + 1 =? n) eqn:En; zbool.
      * split.
        -- split_and!; [lia..|]. intros j Hj. destruct (decide (j = i)) as [->|]; [done|].
           apply Hfree. lia.
        -- intros s' Hs'. by apply Hmin.
      * apply IH; try lia.
        -- intros j Hj. destruct (decide (j = i)) as [->|]; [done|]. apply Hfree. lia.
        -- intros s Hs. specialize (Hmin s Hs). lia.
Qed.

Lemma seqZ_cons_zlen i k : seqZ i (Z.of_nat (S k)) = i :: seqZ (i + 1) (Z.of_nat k).
Proof. rewrite seqZ_cons by lia. f_equal. f_equal; lia. Qed.

Lemma collectFree_from_spec n k i bits :
  0 < n -> 0 <= i -> i + Z.of_nat k = m -> zlen bits <= n ->
  collectFree_from k bitmap n i bits =
  Ok (zslice (bits ++ filter (fun j => used bitmap j = false) (seqZ i (Z.of_nat k))) 0 n).
Proof.
  intros Hn. revert i bits. induction k as [|k IH]; intros i bits Hi Hk Hb.
  - simpl. rewrite app_nil_r, zslice_all by lia. done.
  - cbn [collectFree_from]. destruct (zlen bits <? n) eqn:E; zbool.
    + rewrite bit_clear_ok by lia. cbn [rbind]. rewrite seqZ_cons_zlen.
      rewrite IH; [|lia..|destruct (used bitmap i); simpl; zl].
      destruct (used bitmap i) eqn:Eu;
        [rewrite filter_cons_False by congruence | rewrite filter_cons_True by done]; [done|].
      cbn [negb].
      by rewrite <- app_assoc.
    + unfold zslice, zlen in *. rewrite drop_0.
      rewrite take_app_le by lia. rewrite take_ge by lia. done.
Qed.

Lemma countClear_from_spec k i c :
  0 <= i -> i + Z.of_nat k = m ->
  countClear_from k bitmap i c =
  Ok (c + zlen (filter (fun j => used bitmap j = false) (seqZ i (Z.of_nat k)))).
Proof.
  revert i c. induction k as [|k IH]; intros i c Hi Hk.
  - simpl. f_equal. unfold zlen. simpl. lia.
  - cbn [countClear_from]. rewrite bit_clear_ok by lia. cbn [rbind].
    rewrite IH by lia. rewrite seqZ_cons_zlen.
    destruct (used bitmap i) eqn:E;
      [rewrite filter_cons_False by congruence | rewrite filter_cons_True by done]; [done|].
    cbn [negb]. rewrite zlen_cons. f_equal. lia.
Qed.

Lemma findFreeBit_spec :
  match findFreeBit bitmap m with
  | Ok (Some j) => 0 <= j < m /\ used bitmap j = false /\ forall l, 0 <= l < j -> used bitmap l = true
  | Ok None => forall l, 0 <= l < m -> used bitmap l = true
  | _ => False
  end.
Proof. apply findFreeBit_from_spec; lia. Qed.

Lemma countZeroBits_spec : countZeroBits bitmap m = Ok (zlen (free_bits bitmap m)).
Proof.
  unfold countZeroBits, free_bits. rewrite countClear_from_spec by lia.
  rewrite Z.add_0_l, Z2Nat.id by lia. done.
Qed.

Lemma elem_of_free_bits i :
  i ∈ free_bits bitmap m <-> used bitmap i = false /\ 0 <= i < m.
Proof. unfold free_bits. rewrite list_elem_of_filter, elem_of_seqZ. done. Qed.

Lemma NoDup_free_bits : NoDup (free_bits bitmap m).
Proof. apply NoDup_filter, NoDup_seqZ. Qed.

(** Bits a successful search may return. *)
Definition free_choice (n : Z) (l : list Z) : Prop :=
  zlen l = n /\ NoDup l /\ forall i, i ∈ l -> used bitmap i = false /\ 0 <= i < m.

Lemma seqZ_free_choice n s : 0 <= n -> run_at n s -> free_choice n (seqZ s n).
Proof.
  intros Hn (H1 & H2 & H3). split_and!.
  - unfold zlen. rewrite length_seqZ. lia.
  - apply NoDup_seqZ.
  - intros i Hi. apply elem_of_seqZ in Hi. split; [apply H3|]; lia.
Qed.

Lemma run_enough n s : 0 <= n -> run_at n s -> n <= zlen (free_bits bitmap m).
Proof.
  intros Hn Hr. destruct (seqZ_free_choice n s Hn Hr) as (Hl & Hd & Hf).
  rewrite <- Hl. unfold zlen. apply inj_le. apply submseteq_length.
  apply NoDup_submseteq; [done|]. intros i Hi. by apply elem_of_free_bits, Hf.
Qed.

(** A search for [n] bits succeeds exactly when [n] bits are free; it returns
    the first contiguous run if there is one, and the first [n] free bits
    otherwise. *)
Lemma findFreeRun_spec n :
  0 <= n ->
  exists r, findFreeRun bitmap m n = Ok r /\
    (r = None <-> zlen (free_bits bitmap m) < n) /\
    (forall l, r = Some l -> free_choice n l) /\
    (forall s, 0 < n -> run_at n s -> exists s', r = Some (seqZ s' n) /\ run_at n s' /\ s' <= s).
Proof.
  intros Hn. unfold findFreeRun. destruct (n =? 0) eqn:E0; zbool.
  { subst n. eexists. split; [done|]. pose proof (zlen_nonneg (free_bits bitmap m)).
    split_and!; [split; [done|lia]| |lia]. intros l [= <-].
    split_and!; [done|constructor|]. intros i Hi. by apply not_elem_of_nil in Hi. }
  pose proof (findRun_from_spec n (Z.to_nat m) 0 (-1) 0) as HR.
  do 5 (specialize (HR ltac:(lia))). specialize (HR ltac:(lia) ltac:(intros; lia)).
  specialize (HR ltac:(intros s Hs; destruct Hs; lia)).
  destruct (findRun_from _ _ _ _ _ _) as [[s|]|e|]; [| |done|done]; cbn [rbind].
  - destruct HR as [Hr Hmin]. eexists. split; [done|].
    pose proof (run_enough n s Hn Hr).
    split_and!; [split; [done|lia]| |].
    + intros l [= <-]. by apply seqZ_free_choice.
    + intros s' _ Hs'. exists s. split_and!; [done..|]. by apply Hmin.
  - rewrite collectFree_from_spec by (rewrite ?zlen_nil; lia). cbn [rbind app].
    rewrite Z2Nat.id by lia. fold (free_bits bitmap m).
    eexists. split; [done|].
    assert (zlen (zslice (free_bits bitmap m) 0 n) = Z.min n (zlen (free_bits bitmap m))) as Hl.
    { unfold zlen, zslice. rewrite drop_0, length_take. lia. }
    rewrite Hl. destruct (_ =? n) eqn:En; zbool.
    + split_and!; [split; [done|lia]| |].
      * intros l [= <-]. split_and!; [by rewrite Hl| |].
        -- unfold zslice. rewrite drop_0.
           eapply sublist_NoDup; [apply NoDup_free_bits|apply sublist_take].
        -- intros i Hi. apply elem_of_free_bits.
           unfold zslice in Hi. rewrite drop_0 in Hi.
           apply elem_of_take in Hi as (k & Hk & _). by eapply list_elem_of_lookup_2.
      * intros s _ Hs. by destruct (HR s).
    + split_and!; [split; [lia|done]|done|]. intros s _ Hs. by destruct (HR s).
Qed.

End search.

(** * Updating one bit *)

Lemma index_split i j : i / 8 = j / 8 -> i mod 8 = j mod 8 -> i = j.
Proof. intros. dlia. Qed.

Lemma u8_write_bit bitmap i j v :
  0 <= i < 8 * zlen bitmap -> 0 <= j -> byte_ok v ->
  u8 (zsplice bitmap (i / 8) [v]) (j / 8) =
  if decide (i / 8 = j / 8) then v else u8 bitmap (j / 8).
Proof.
  intros Hi Hj Hv. pose proof (bit_index_range i _ Hi).
  assert (0 <= j / 8) by (apply Z.div_pos; lia).
  case_decide as He.
  - rewrite <- He. rewrite u8_zsplice_new by zl.
    replace (i / 8 - i / 8) with 0 by lia. done.
  - rewrite u8_zsplice_ne; [done|lia|lia|zl|]. zl.
Qed.

Lemma mod8_range i : 0 <= i mod 8 < 8.
Proof. apply Z.mod_pos_bound. lia. Qed.

Lemma byte_lor_bit b k : byte_ok b -> 0 <= k < 8 -> byte_ok (Z.lor b (Z.shiftl 1 k)).
Proof.
  unfold byte_ok. intros Hb Hk. apply (lor_range 8); [lia..|].
  rewrite Z.shiftl_1_l. split; [lia|]. apply Z.pow_lt_mono_r; lia.
Qed.

Lemma byte_ldiff b c : byte_ok b -> byte_ok (Z.ldiff b c).
Proof.
  unfold byte_ok. intros Hb. assert (0 <= Z.ldiff b c) by (apply Z.ldiff_nonneg; lia).
  split; [done|]. apply (testbit_lt_pow2 _ 8); [lia..|]. intros i Hi.
  rewrite Z.ldiff_spec, (lt_pow2_testbit b 8) by lia. done.
Qed.

Section update.
Context (bitmap : list Z) (i : Z).
Hypothesis Hb : bytes_ok bitmap.
Hypothesis Hi : 0 <= i < 8 * zlen bitmap.

Lemma setBit_spec :
  exists bitmap', setBit bitmap i = Ok bitmap' /\ zlen bitmap' = zlen bitmap /\
    bytes_ok bitmap' /\
    forall j, 0 <= j -> used bitmap' j = if decide (i = j) then true else used bitmap j.
Proof.
  unfold setBit. pose proof (bit_index_range i _ Hi). pose proof (mod8_range i).
  pose proof (u8_range bitmap (i / 8) Hb) as Hr.
  pose proof (byte_lor_bit (u8 bitmap (i / 8)) (i mod 8) Hr ltac:(lia)) as Hv.
  rewrite get8_ok by lia. cbn [rbind]. rewrite put8_ok by lia.
  rewrite w8_small by apply Hv. eexists. split; [done|].
  split_and!; [zl|apply bytes_ok_zsplice; [done|by apply Forall_singleton]|].
  intros j Hj. unfold used. pose proof (mod8_range j). rewrite u8_write_bit by done.
  case_decide as Hd.
  - rewrite Z.lor_spec, Z.shiftl_1_l, <- Hd. case_decide as He.
    + subst j. by rewrite Z.pow2_bits_true, orb_true_r by lia.
    + rewrite Z.pow2_bits_false, orb_false_r; [done|]. intros Hm.
      by apply He, index_split.
  - case_decide; [congruence|done].
Qed.

Lemma clearBit_spec :
  exists bitmap', clearBit bitmap i = Ok bitmap' /\ zlen bitmap' = zlen bitmap /\
    bytes_ok bitmap' /\
    forall j, 0 <= j -> used bitmap' j = if decide (i = j) then false else used bitmap j.
Proof.
  unfold clearBit. pose proof (bit_index_range i _ Hi). pose proof (mod8_range i).
  pose proof (u8_range bitmap (i / 8) Hb) as Hr.
  pose proof (byte_ldiff (u8 bitmap (i / 8)) (Z.shiftl 1 (i mod 8)) Hr) as Hv.
  rewrite get8_ok by lia. cbn [rbind]. rewrite put8_ok by lia.
  rewrite w8_small by apply Hv. eexists. split; [done|].
  split_and!; [zl|apply bytes_ok_zsplice; [done|by apply Forall_singleton]|].
  intros j Hj. unfold used. pose proof (mod8_range j). rewrite u8_write_bit by done.
  case_decide as Hd.
  - rewrite Z.ldiff_spec, Z.shiftl_1_l, <- Hd. case_decide as He.
    + subst j. by rewrite Z.pow2_bits_true, andb_false_r by lia.
    + rewrite Z.pow2_bits_false, andb_true_r; [done|]. intros Hm.
      by apply He, index_split.
  - case_decide; [congruence|done].
Qed.

End update.

Lemma filter_ext_in (f g : Z -> bool) (l : list Z) :
  (forall j, j ∈ l -> f j = g j) ->
  filter (fun j => f j = false) l = filter (fun j => g j = false) l.
Proof.
  induction l as [|x l IH]; intros Heq; [done|].
  rewrite !filter_cons, (Heq x) by set_solver.
  rewrite IH by (intros; apply Heq; set_solver). done.
Qed.

(** Two predicates that differ at one element of a duplicate-free list. *)
Lemma filter_length_flip (f g : Z -> bool) i l :
  NoDup l -> i ∈ l -> f i = false -> g i = true ->
  (forall j, j ∈ l -> j <> i -> f j = g j) ->
  zlen (filter (fun j => f j = false) l) = zlen (filter (fun j => g j = false) l) + 1.
Proof.
  intros Hnd Hin Hf Hg Heq. induction Hnd as [|x l Hx Hnd IH]; [by apply not_elem_of_nil in Hin|].
  destruct (decide (x = i)) as [->|Hne].
  - rewrite filter_cons_True by done. rewrite filter_cons_False by congruence.
    rewrite zlen_cons, (filter_ext_in f g); [lia|].
    intros j Hj. apply Heq; [set_solver|congruence].
  - apply elem_of_cons in Hin as [->|Hin]; [done|].
    specialize (IH Hin ltac:(intros; apply Heq; set_solver)).
    specialize (Heq x ltac:(set_solver) Hne) as Hxe.
    destruct (g x) eqn:Eg.
    + rewrite !filter_cons_False by congruence. done.
    + rewrite !filter_cons_True by congruence. rewrite !zlen_cons. lia.
Qed.

Lemma free_bits_all bmap m : (forall i, 0 <= i < m -> used bmap i = false) -> free_bits bmap m = seqZ 0 m.
Proof.
  intros Hu. unfold free_bits. assert (Forall (fun i => used bmap i = false) (seqZ 0 m)) as Hf.
  { apply Forall_forall. intros i [? ?]%elem_of_seqZ. apply Hu. lia. }
  induction Hf as [|i l Hi Hl IH]; [done|]. rewrite filter_cons_True by done. by rewrite IH.
Qed.

Lemma free_bits_set bitmap bitmap' i m :
  0 <= i < m -> used bitmap i = false -> used bitmap' i = true ->
  (forall j, 0 <= j -> j <> i -> used bitmap' j = used bitmap j) ->
  zlen (free_bits bitmap m) = zlen (free_bits bitmap' m) + 1.
Proof.
  intros Hi Hu Hu' Hne. unfold free_bits.
  apply (filter_length_flip (used bitmap) (used bitmap') i); auto using NoDup_seqZ.
  - apply elem_of_seqZ. lia.
  - intros j Hj Hji. apply elem_of_seqZ in Hj. symmetry. apply Hne; [lia|done].
Qed.

(** Setting every bit of a list, as the allocators do after a search. *)
Fixpoint setBits (bitmap : list Z) (bits : list Z) : res (list Z) :=
  match bits with
  | [] => Ok bitmap
  | i :: bits' => let! bitmap := setBit bitmap i in setBits bitmap bits'
  end.

Lemma setBits_spec bitmap bits m :
  bytes_ok bitmap -> 0 <= m <= 8 * zlen bitmap -> NoDup bits ->
  (forall i, i ∈ bits -> used bitmap i = false /\ 0 <= i < m) ->
  exists bitmap', setBits bitmap bits = Ok bitmap' /\ zlen bitmap' = zlen bitmap /\
    bytes_ok bitmap' /\
    (forall j, 0 <= j -> used bitmap' j = bool_decide (j ∈ bits) || used bitmap j) /\
    zlen (free_bits bitmap m) = zlen (free_bits bitmap' m) + zlen bits.
Proof.
  intros Hb Hm Hnd. revert bitmap Hb Hm.
  induction Hnd as [|i bits Hi Hnd IH]; intros bitmap Hb Hm Hf.
  - exists bitmap. split_and!; [done..| |zl]. intros j Hj.
    by rewrite bool_decide_false by apply not_elem_of_nil.
  - destruct (Hf i ltac:(set_solver)) as [Hui Hri]. simpl.
    destruct (setBit_spec bitmap i Hb ltac:(lia)) as (bm1 & -> & Hl1 & Hb1 & Hu1).
    cbn [rbind].
    destruct (IH bm1 Hb1 ltac:(lia)) as (bm2 & -> & Hl2 & Hb2 & Hu2 & Hc2).
    { intros j Hj. destruct (Hf j ltac:(set_solver)) as [Hj1 Hj2]. split; [|done].
      rewrite Hu1 by lia. case_decide; [by subst|done]. }
    exists bm2. split_and!; [done|lia|done| |].
    + intros j Hj. rewrite Hu2, Hu1 by done. case_decide as He.
      * subst j. rewrite orb_true_r. by rewrite bool_decide_true by set_solver.
      * f_equal. apply bool_decide_ext. set_solver.
    + rewrite zlen_cons. rewrite (free_bits_set bitmap bm1 i); [lia|lia|done|..].
      * rewrite Hu1 by lia. by case_decide.
      * intros j Hj Hne. rewrite Hu1 by done. by case_decide.
Qed.
