(* ===== verification/GoLib.v ===== *)
(** Library code the driver calls: [sort.Search] and [sort.Slice] of the Go
    standard library, and the interface of go-volumes/safeio.

    [sort.Search] is the binary search of the standard library.  [sort.Slice]
    is not stable, so it is any function that returns an ordered permutation.
    safeio is a separate module: [Safeio] carries the operations the driver
    uses with their documented behaviour, a bounded allocation and a set that
    refuses a value seen before. *)

From S2P Require Import Prelude Bytes.
From Stdlib Require Import Sorting.Sorted.

(** * [sort.Search] *)

(** [for i < j { h := (i+j)/2; if !f(h) { i = h+1 } else { j = h } }]. *)
Fixpoint search_loop (fuel : nat) (f : Z -> bool) (i j : Z) : Z :=
  match fuel with
  | O => i
  | S fuel' =>
      if i <? j then
        let h := (i + j) / 2 in
        if f h then search_loop fuel' f i h else search_loop fuel' f (h + 1) j
      else i
  end.
(** The interval shrinks by at least one each round, so [n] rounds suffice. *)
Definition sort_Search (n : Z) (f : Z -> bool) : Z := search_loop (Z.to_nat n) f 0 n.

Lemma search_loop_spec fuel f n i j :
  0 <= i <= j -> j <= n -> j - i <= Z.of_nat fuel ->
  (i = 0 \/ f (i - 1) = false) -> (j = n \/ f j = true) ->
  let r := search_loop fuel f i j in
  i <= r <= j /\ (r = 0 \/ f (r - 1) = false) /\ (r = n \/ f r = true).
Proof.
  revert i j. induction fuel as [|fuel IH]; intros i j Hij Hn Hf Hi Hj; simpl.
  - assert (i = j) as -> by lia. split_and!; auto; lia.
  - destruct (i <? j) eqn:E; zbool; [|assert (i = j) as -> by lia; split_and!; auto; lia].
    assert (i <= (i + j) / 2 < j) by dlia.
    destruct (f ((i + j) / 2)) eqn:Ef.
    + destruct (IH i ((i + j) / 2)) as (H1 & H2 & H3); [lia..|done|by right|].
      split_and!; [lia..|done|done].
    + destruct (IH ((i + j) / 2 + 1) j) as (H1 & H2 & H3); [lia..| |done|].
      { right. by replace ((i + j) / 2 + 1 - 1) with ((i + j) / 2) by lia. }
      split_and!; [lia..|done|done].
Qed.

(** Whatever [f], the result is a boundary; for a monotone [f] it is the first
    index at which [f] holds. *)
Lemma sort_Search_boundary n f :
  0 <= n ->
  let r := sort_Search n f in
  0 <= r <= n /\ (r = 0 \/ f (r - 1) = false) /\ (r = n \/ f r = true).
Proof. intros. apply search_loop_spec; auto; lia. Qed.

Lemma sort_Search_monotone n f :
  0 <= n -> (forall a b, 0 <= a <= b -> b < n -> f a = true -> f b = true) ->
  let r := sort_Search n f in
  0 <= r <= n /\ (forall k, 0 <= k < r -> f k = false) /\ (r < n -> f r = true).
Proof.
  intros Hn Hmono. destruct (sort_Search_boundary n f Hn) as (H1 & H2 & H3).
  split_and!; [lia..| |].
  - intros k Hk. destruct (f k) eqn:E; [|done].
    destruct H2 as [|H2]; [lia|]. rewrite <- H2. symmetry. apply (Hmono k); [lia..|done].
  - intros. destruct H3; [lia|done].
Qed.

(** * [sort.Slice] by a key *)

Class SortSlice : Type := {
  sort_by : forall {A : Type}, (A -> Z) -> list A -> list A;
  sort_by_perm : forall {A} (key : A -> Z) (l : list A), Permutation (sort_by key l) l;
  sort_by_sorted : forall {A} (key : A -> Z) (l : list A),
    StronglySorted (fun x y => key x <= key y) (sort_by key l)
}.

Fixpoint insert_by {A} (key : A -> Z) (x : A) (l : list A) : list A :=
  match l with
  | [] => [x]
  | y :: l' => if key y <=? key x then y :: insert_by key x l' else x :: l
  end.
Definition insertion_sort {A} (key : A -> Z) (l : list A) : list A :=
  fold_left (fun acc x => insert_by key x acc) l [].

Lemma insert_by_perm {A} (key : A -> Z) x l : Permutation (insert_by key x l) (x :: l).
Proof.
  induction l as [|y l IH]; simpl; [done|]. destruct (key y <=? key x); [|done].
  rewrite IH. apply Permutation_swap.
Qed.

Lemma insert_by_sorted {A} (key : A -> Z) x l :
  StronglySorted (fun x y => key x <= key y) l ->
  StronglySorted (fun x y => key x <= key y) (insert_by key x l).
Proof.
  induction 1 as [|y l Hs IH Hy]; simpl; [repeat constructor|].
  destruct (key y <=? key x) eqn:E; zbool.
  - constructor; [done|]. rewrite insert_by_perm. by constructor.
  - constructor; [by constructor|]. constructor; [lia|].
    eapply Forall_impl; [done|]. simpl. intros. lia.
Qed.

Lemma insertion_sort_perm_acc {A} (key : A -> Z) (l acc : list A) :
  Permutation (fold_left (fun a x => insert_by key x a) l acc) (l ++ acc).
Proof.
  revert acc. induction l as [|x l IH]; intros acc; simpl; [done|].
  rewrite IH, insert_by_perm. symmetry. apply Permutation_middle.
Qed.

Lemma insertion_sort_sorted_acc {A} (key : A -> Z) (l acc : list A) :
  StronglySorted (fun x y => key x <= key y) acc ->
  StronglySorted (fun x y => key x <= key y) (fold_left (fun a x => insert_by key x a) l acc).
Proof.
  revert acc. induction l as [|x l IH]; intros acc Ha; simpl; [done|].
  by apply IH, insert_by_sorted.
Qed.

#[global] Instance insertion_SortSlice : SortSlice := {
  sort_by A key l := insertion_sort key l;
  sort_by_perm A key l := ltac:(unfold insertion_sort;
    rewrite insertion_sort_perm_acc; by rewrite app_nil_r);
  sort_by_sorted A key l := insertion_sort_sorted_acc key l [] (SSorted_nil _)
}.

(** * safeio *)

Class Safeio : Type := {
  VisitSet : Type;
  vs_empty : VisitSet;
  vs_mem : VisitSet -> Z -> bool;
  (** [visited.Check(x)]: records [x], or fails when it was recorded before. *)
  vs_check : VisitSet -> Z -> option VisitSet;
  vs_empty_mem : forall x, vs_mem vs_empty x = false;
  vs_check_fresh : forall v x, vs_mem v x = false ->
    exists v', vs_check v x = Some v' /\
      forall y, vs_mem v' y = (x =? y) || vs_mem v y;
  vs_check_seen : forall v x, vs_mem v x = true -> vs_check v x = None;
  (** [safeio.MakeBytes(n, max)]: a zeroed buffer of [n] bytes, refused when
      [n] is negative or above [max]. *)
  MakeBytes : Z -> Z -> res (list Z);
  MakeBytes_ok : forall n max, 0 <= n <= max -> MakeBytes n max = Ok (zeros n);
  MakeBytes_err : forall n max, n < 0 \/ max < n -> MakeBytes n max = Err ErrTooLarge;
  (** [safeio.CheckBounds(off, n, len) == nil]. *)
  CheckBounds : Z -> Z -> Z -> bool;
  CheckBounds_spec : forall off n len,
    CheckBounds off n len = true <-> 0 <= off /\ 0 <= n /\ off + n <= len
}.

#[global, refine] Instance gset_Safeio : Safeio := {
  VisitSet := gset Z;
  vs_empty := ∅;
  vs_mem v x := bool_decide (x ∈ v);
  vs_check v x := if decide (x ∈ v) then None else Some ({[ x ]} ∪ v);
  MakeBytes n max := if (n <? 0) || (max <? n) then Err ErrTooLarge else Ok (zeros n);
  CheckBounds off n len := (0 <=? off) && (0 <=? n) && (off + n <=? len)
}.
Proof.
  - intros x. apply bool_decide_eq_false. set_solver.
  - intros v x Hx%bool_decide_eq_false. rewrite decide_False by done. eexists. split; [done|].
    intros y. destruct (x =? y) eqn:E; zbool; simpl.
    + apply bool_decide_eq_true. set_solver.
    + apply bool_decide_ext. set_solver.
  - intros v x Hx%bool_decide_eq_true. by rewrite decide_True.
  - intros n max Hn. rewrite (ltb_false n), (ltb_false max) by lia. done.
  - intros n max [Hn|Hn]; rewrite ?(ltb_true n), ?(ltb_true max), ?orb_true_r by lia; done.
  - intros off n len. rewrite !andb_true_iff, !Z.leb_le. tauto.
Defined.
