(* ===== verification/Extent.v ===== *)
(** Extents as values ([extentLeaf] of [src/inode.go], the builders of
    [src/write.go] and [src/writeat.go], the validation of [src/limits.go]):
    the leaf and node encodings, the block list a leaf list stands for, and the
    overlap check. *)

From S2P Require Import Prelude Bytes GoLib.
From Stdlib Require Import Sorting.Sorted.

Definition ExtentMagic : Z := 0xF30A.
Definition maxExtentDepth : Z := 5.
Definition InodeFlagExtents : Z := 0x00080000.
Definition InodeFlagInlineData : Z := 0x10000000.

Record extentLeaf : Type := Leaf {
  LogBlock : Z;
  PhysBlock : Z;
  Count : Z
}.

#[global] Instance extentLeaf_eq_dec : EqDecision extentLeaf.
Proof. solve_decision. Defined.

(** * Encoding *)

(** A leaf entry at offset [off] of a node, as the parser reads it. *)
Definition decode_leaf (buf : list Z) (off : Z) : res extentLeaf :=
  let! logBlock := get32 buf off in
  let! count := get16 buf (off + 4) in
  let count := if 32768 <? count then Z.land count 0x7FFF else count in
  let! physHi := get16 buf (off + 6) in
  let! physLo := get32 buf (off + 8) in
  Ok (Leaf logBlock (Z.lor (Z.shiftl physHi 32) physLo) count).

Definition put_leaf (buf : list Z) (off : Z) (e : extentLeaf) : res (list Z) :=
  let! buf := put32 buf off (LogBlock e) in
  let! buf := put16 buf (off + 4) (Count e) in
  let! buf := put16 buf (off + 6) (w16 (Z.shiftr (PhysBlock e) 32)) in
  put32 buf (off + 8) (Z.land (PhysBlock e) 0xFFFFFFFF).

(** [for i, e := range exts { off := 12 + i*12; ... }]. *)
Fixpoint put_leaves (buf : list Z) (i : Z) (exts : list extentLeaf) : res (list Z) :=
  match exts with
  | [] => Ok buf
  | e :: exts' =>
      let! buf := put_leaf buf (12 + i * 12) e in
      put_leaves buf (i + 1) exts'
  end.

(** The four 16-bit header fields; [eh_generation] stays as it is. *)
Definition put_header (buf : list Z) (entries max depth : Z) : res (list Z) :=
  let! buf := put16 buf 0 ExtentMagic in
  let! buf := put16 buf 2 entries in
  let! buf := put16 buf 4 max in
  put16 buf 6 depth.

(** The 60 bytes of [i_block] that [setInlineExtents] writes. *)
Definition inline_node (exts : list extentLeaf) : res (list Z) :=
  let! buf := put_header (zeros 60) (w16 (zlen exts)) 4 0 in
  let! buf := put32 buf 8 0 in
  put_leaves buf 0 exts.

Definition leafCap (blockSize : Z) : Z := (blockSize - 12) / 12.

(** The child block that [writeExtentTree] and [prepareExtentChild] build. *)
Definition child_node (blockSize : Z) (exts : list extentLeaf) : res (list Z) :=
  let! buf := put_header (zeros blockSize) (w16 (zlen exts)) (w16 (leafCap blockSize)) 0 in
  put_leaves buf 0 exts.

(** The single index entry in [i_block] that points to the child. *)
Definition index_node (logBlock childBlock : Z) : res (list Z) :=
  let! buf := put_header (zeros 60) 1 4 1 in
  let! buf := put32 buf 8 0 in
  let! buf := put32 buf 12 logBlock in
  let! buf := put32 buf (12 + 4) (Z.land childBlock 0xFFFFFFFF) in
  put16 buf (12 + 8) (w16 (Z.shiftr childBlock 32)).

(** * Building leaf lists *)

(** The loop of [buildExtents] with its accumulators. *)
Fixpoint buildExtents_from (prev start count logBase : Z) (rest : list Z) : list extentLeaf :=
  match rest with
  | [] => [Leaf logBase start count]
  | p :: rest' =>
      if (p =? w64 (prev + 1)) && (count <? 0x7FFF)
      then buildExtents_from p start (w16 (count + 1)) logBase rest'
      else Leaf logBase start count
           :: buildExtents_from p p 1 (w32 (logBase + count)) rest'
  end.
Definition buildExtents (physBlocks : list Z) : list extentLeaf :=
  match physBlocks with
  | [] => []
  | p :: rest => buildExtents_from p p 1 0 rest
  end.

(** The merge loop of [coalesceExtents]; [last] is the last leaf of [out]. *)
Fixpoint coalesce_from (last : extentLeaf) (rest : list extentLeaf) : list extentLeaf :=
  match rest with
  | [] => [last]
  | e :: rest' =>
      if (w64 (LogBlock last + Count last) =? LogBlock e) &&
         (w64 (PhysBlock last + Count last) =? PhysBlock e) &&
         (w64 (Count last + Count e) <=? 0x7FFF)
      then coalesce_from (Leaf (LogBlock last) (PhysBlock last) (w16 (Count last + Count e))) rest'
      else last :: coalesce_from e rest'
  end.

(** * Overlap check *)

(** One pass over the non-empty leaves: are they in order and disjoint? *)
Fixpoint runs_ordered (start : extentLeaf -> Z) (prevEnd : option Z)
    (leaves : list extentLeaf) : bool :=
  match leaves with
  | [] => true
  | l :: leaves' =>
      if Count l =? 0 then runs_ordered start prevEnd leaves'
      else
        let bad := match prevEnd with Some pe => start l <? pe | None => false end in
        if bad then false
        else runs_ordered start (Some (w64 (start l + Count l))) leaves'
  end.

(** The adjacent test over the sorted copy. *)
Fixpoint adjacent_disjoint (start : extentLeaf -> Z) (l : list extentLeaf) : bool :=
  match l with
  | a :: ((b :: _) as l') =>
      if start b <? w64 (start a + Count a) then false else adjacent_disjoint start l'
  | _ => true
  end.

Section sorting.
Context `{SortSlice}.

Definition checkRuns (kind : string) (start : extentLeaf -> Z) (leaves : list extentLeaf) : res unit :=
  if runs_ordered start None leaves then Ok tt
  else
    let cp := sort_by start (filter (fun l => Count l <> 0) leaves) in
    if adjacent_disjoint start cp then Ok tt
    else Err (Errorf kind).

Definition validateExtents (leaves : list extentLeaf) : res unit :=
  if zlen leaves <? 2 then Ok tt else
  let! _ := checkRuns "ext4: overlapping logical extents" LogBlock leaves in
  checkRuns "ext4: overlapping physical extents" PhysBlock leaves.

Definition coalesceExtents (exts : list extentLeaf) : list extentLeaf :=
  if zlen exts <? 2 then exts else
  match sort_by LogBlock exts with
  | [] => []
  | e :: rest => coalesce_from e rest
  end.

End sorting.

(** * What a leaf list means *)

(** The physical block a leaf list maps a logical block to: the first leaf
    that covers it. *)
Definition covers (e : extentLeaf) (lb : Z) : bool :=
  (LogBlock e <=? lb) && (lb <? LogBlock e + Count e).
Fixpoint block_at (exts : list extentLeaf) (lb : Z) : option Z :=
  match exts with
  | [] => None
  | e :: exts' =>
      if covers e lb then Some (PhysBlock e + (lb - LogBlock e)) else block_at exts' lb
  end.

(** The values the on-disk entry can hold. *)
Definition leaf_ok (e : extentLeaf) : Prop :=
  0 <= LogBlock e < 2 ^ 32 /\ 0 <= PhysBlock e < 2 ^ 48 /\ 0 <= Count e <= 32768.
#[global] Instance leaf_ok_dec e : Decision (leaf_ok e).
Proof. unfold leaf_ok. apply _. Defined.

(** Two leaves map disjoint ranges of the blocks [start] counts. *)
Definition disjoint_on (start : extentLeaf -> Z) (a b : extentLeaf) : Prop :=
  Count a = 0 \/ Count b = 0 \/
  start a + Count a <= start b \/ start b + Count b <= start a.
Definition runs_disjoint (start : extentLeaf -> Z) (leaves : list extentLeaf) : Prop :=
  ForallOrdPairs (disjoint_on start) leaves.

(** * Leaf entries round trip *)

Definition leaf_bytes (e : extentLeaf) : list Z :=
  le_encode 4 (LogBlock e) ++ le_encode 2 (Count e) ++
  le_encode 2 (w16 (Z.shiftr (PhysBlock e) 32)) ++
  le_encode 4 (Z.land (PhysBlock e) 0xFFFFFFFF).

Lemma zlen_leaf_bytes e : zlen (leaf_bytes e) = 12.
Proof. unfold leaf_bytes. zl. Qed.
#[local] Hint Rewrite zlen_leaf_bytes : zlen.

Lemma put_leaf_ok buf off e :
  0 <= off -> off + 12 <= zlen buf ->
  put_leaf buf off e = Ok (zsplice buf off (leaf_bytes e)).
Proof.
  intros. unfold put_leaf. bytes. unfold setN, leaf_bytes.
  by rewrite !zsplice_adjacent by zl.
Qed.

Lemma zlen_concat_leaves exts : zlen (concat (leaf_bytes <$> exts)) = 12 * zlen exts.
Proof.
  induction exts as [|e exts IH]; [done|].
  rewrite fmap_cons. cbn [concat]. rewrite zlen_app, zlen_cons, zlen_leaf_bytes, IH. lia.
Qed.

Lemma put_leaves_ok buf i exts :
  0 <= i -> 12 + i * 12 + 12 * zlen exts <= zlen buf ->
  put_leaves buf i exts = Ok (zsplice buf (12 + i * 12) (concat (leaf_bytes <$> exts))).
Proof.
  revert buf i. induction exts as [|e exts IH]; intros buf i Hi Hl; cbn [put_leaves].
  - simpl. by rewrite zsplice_nil by lia.
  - rewrite zlen_cons in Hl. pose proof (zlen_nonneg exts).
    rewrite put_leaf_ok by lia. cbn [rbind]. rewrite IH by zl.
    rewrite zsplice_adjacent; [done|lia|zl|]. rewrite zlen_concat_leaves. zl.
Qed.

Lemma phys_split v :
  0 <= v < 2 ^ 48 ->
  Z.lor (Z.shiftl (w16 (Z.shiftr v 32) mod 256 ^ 2) 32) (Z.land v 0xFFFFFFFF mod 256 ^ 4) = v.
Proof.
  intros Hv. change (Z.land v 0xFFFFFFFF) with (Z.land v (Z.ones 32)).
  rewrite Z.land_ones, Z.shiftr_div_pow2 by lia. unfold w16.
  change (256 ^ 4) with (2 ^ 32). change (256 ^ 2) with (2 ^ 16). rewrite !Z.mod_mod by lia.
  rewrite lor_shiftl_add by (lia || (apply Z.mod_pos_bound; lia)).
  rewrite (Z.mod_small (v / 2 ^ 32)) by (split; [apply Z.div_pos|apply Z.div_lt_upper_bound]; lia).
  rewrite (Z.div_mod v (2 ^ 32)) at 3 by lia. lia.
Qed.

Lemma decode_leaf_bytes buf off e :
  0 <= off -> off + 12 <= zlen buf -> leaf_ok e ->
  zslice buf off 12 = leaf_bytes e -> decode_leaf buf off = Ok e.
Proof.
  intros Ho Hl (Hlog & Hphys & Hc) Hs. unfold decode_leaf. bytes.
  replace (u32 buf off) with (u32 (zslice buf off 12) 0)
    by (rewrite uN_zslice by lia; f_equal; lia).
  rewrite <- (uN_zslice 2 buf off 12 4), <- (uN_zslice 2 buf off 12 6),
    <- (uN_zslice 4 buf off 12 8) by lia.
  rewrite Hs. unfold leaf_bytes.
  rewrite (uN_app_l 4 _ _ 0) by zl. rewrite uN_le_encode.
  rewrite (uN_app_r 2 _ _ 4), (uN_app_r 2 _ _ 6), (uN_app_r 4 _ _ 8) by zl.
  rewrite zlen_le_encode. cbn [Z.of_nat]. change (4 - Z.of_nat 4) with 0.
  change (6 - Z.of_nat 4) with 2. change (8 - Z.of_nat 4) with 4.
  rewrite (uN_app_l 2 _ _ 0) by zl.
  rewrite (uN_app_r 2 _ _ 2), (uN_app_r 4 _ _ 4) by zl.
  rewrite zlen_le_encode. change (2 - Z.of_nat 2) with 0. change (4 - Z.of_nat 2) with 2.
  rewrite (uN_app_l 2 _ _ 0) by zl. rewrite (uN_app_r 4 _ _ 2) by zl.
  rewrite zlen_le_encode. change (2 - Z.of_nat 2) with 0. rewrite !uN_le_encode.
  change (256 ^ Z.of_nat 4) with (256 ^ 4). change (256 ^ Z.of_nat 2) with (256 ^ 2).
  rewrite (Z.mod_small (LogBlock e)) by lia. rewrite (Z.mod_small (Count e)) by lia.
  rewrite ltb_false by lia. rewrite phys_split by done. by destruct e.
Qed.

(** * Nodes *)

(** [buf] is a depth-0 node that holds [exts]. *)
Record leaf_node (buf : list Z) (exts : list extentLeaf) : Prop := {
  ln_fits : 12 + 12 * zlen exts <= zlen buf;
  ln_magic : u16 buf 0 = ExtentMagic;
  ln_entries : u16 buf 2 = zlen exts;
  ln_depth : u16 buf 6 = 0;
  ln_leaf : forall i e, exts !! i = Some e ->
    zslice buf (12 + 12 * Z.of_nat i) 12 = leaf_bytes e
}.

Lemma concat_leaves_slice exts i e :
  exts !! i = Some e ->
  zslice (concat (leaf_bytes <$> exts)) (12 * Z.of_nat i) 12 = leaf_bytes e.
Proof.
  revert i. induction exts as [|x exts IH]; intros i Hi; [done|].
  rewrite fmap_cons. cbn [concat]. destruct i as [|i]; simpl in Hi; simplify_eq.
  - rewrite zslice_app_l by zl. apply zslice_all. zl.
  - rewrite zslice_app_r by (zl). rewrite zlen_leaf_bytes.
    rewrite <- (IH i Hi). f_equal. lia.
Qed.

Lemma put_leaves_node buf exts :
  12 + 12 * zlen exts <= zlen buf -> u16 buf 0 = ExtentMagic ->
  u16 buf 2 = zlen exts -> u16 buf 6 = 0 ->
  exists buf', put_leaves buf 0 exts = Ok buf' /\ zlen buf' = zlen buf /\ leaf_node buf' exts.
Proof.
  intros Hl Hm He Hd. pose proof (zlen_nonneg exts).
  rewrite put_leaves_ok by lia. eexists. split; [done|]. split; [zl|].
  replace (12 + 0 * 12) with 12 by lia.
  pose proof (zlen_concat_leaves exts) as Hc.
  constructor; [zl|rewrite uN_zsplice_ne by lia; done..|].
  intros i e Hi. pose proof (lookup_lt_Some _ _ _ Hi). unfold zlen in *.
  rewrite <- (concat_leaves_slice exts i e Hi).
  rewrite <- (zslice_zsplice_same buf 12 (concat (leaf_bytes <$> exts)) (12 * zlen exts)) at 2
    by (unfold zlen; lia).
  rewrite zslice_zslice by (unfold zlen; lia). done.
Qed.

Lemma put_header_ok buf entries max depth :
  12 <= zlen buf -> 0 <= entries < 65536 -> 0 <= depth < 65536 ->
  exists buf', put_header buf entries max depth = Ok buf' /\ zlen buf' = zlen buf /\
    u16 buf' 0 = ExtentMagic /\ u16 buf' 2 = entries /\ u16 buf' 6 = depth /\
    forall off n, 8 <= off -> 0 <= n -> zslice buf' off n = zslice buf off n.
Proof.
  intros Hl He Hd. unfold put_header. bytes. eexists. split; [done|].
  split_and!; [zl|bytes..|].
  - done.
  - by apply Z.mod_small.
  - by apply Z.mod_small.
  - intros off n Ho Hn. bytes. done.
Qed.

Lemma inline_node_ok exts :
  zlen exts <= 4 ->
  exists buf, inline_node exts = Ok buf /\ zlen buf = 60 /\ leaf_node buf exts.
Proof.
  intros Hl. pose proof (zlen_nonneg exts). unfold inline_node.
  rewrite w16_small by lia.
  destruct (put_header_ok (zeros 60) (zlen exts) 4 0) as (b & -> & Hb & Hm & He & Hd & _);
    [zl|lia..|]. cbn [rbind]. rewrite zlen_zeros in Hb by lia.
  rewrite putN_ok by lia. cbn [rbind].
  destruct (put_leaves_node (set32 b 8 0) exts) as (b' & -> & Hb' & Hn);
    [zl|bytes; done..|]. exists b'. split_and!; [done|rewrite Hb'; zl|done].
Qed.

Lemma child_node_ok blockSize exts :
  1024 <= blockSize <= 65536 -> zlen exts <= leafCap blockSize ->
  exists buf, child_node blockSize exts = Ok buf /\ zlen buf = blockSize /\ leaf_node buf exts.
Proof.
  intros Hbs Hl. pose proof (zlen_nonneg exts). unfold leafCap in Hl. unfold child_node.
  assert (12 + 12 * zlen exts <= blockSize) by dlia.
  rewrite w16_small by lia.
  destruct (put_header_ok (zeros blockSize) (zlen exts) (w16 (leafCap blockSize)) 0)
    as (b & -> & Hb & Hm & He & Hd & _); [zl|lia..|]. cbn [rbind].
  rewrite zlen_zeros in Hb by lia.
  destruct (put_leaves_node b exts) as (b' & -> & Hb' & Hn); [lia|done..|].
  exists b'. split_and!; [done|lia|done].
Qed.

(** * Lists of leaves from lists of blocks *)

Definition expand (exts : list extentLeaf) : list Z :=
  concat ((fun e => seqZ (PhysBlock e) (Count e)) <$> exts).

(** The leaves cover the logical blocks from [base] on without a gap. *)
Fixpoint contiguous (base : Z) (exts : list extentLeaf) : Prop :=
  match exts with
  | [] => True
  | e :: exts' => LogBlock e = base /\ 0 < Count e <= 0x7FFF /\ contiguous (base + Count e) exts'
  end.

Lemma buildExtents_from_spec prev start count logBase rest :
  0 <= logBase -> 1 <= count <= 0x7FFF -> prev = start + count - 1 ->
  0 <= start -> prev < 2 ^ 64 - 1 -> Forall (fun p => 0 <= p < 2 ^ 64 - 1) rest ->
  logBase + count + zlen rest < 2 ^ 32 ->
  let exts := buildExtents_from prev start count logBase rest in
  expand exts = seqZ start count ++ rest /\ contiguous logBase exts.
Proof.
  intros Hb. revert prev start count logBase Hb.
  induction rest as [|p rest IH]; intros prev start count logBase Hb Hc Hp Hs Hlt Hr Hlen;
    cbn [buildExtents_from].
  - split; [|simpl; split_and!; auto; lia]. unfold expand. simpl. by rewrite !app_nil_r.
  - rewrite zlen_cons in Hlen. pose proof (zlen_nonneg rest).
    inversion Hr as [|? ? Hp0 Hr']; subst. rewrite w64_small by lia.
    destruct (_ && _) eqn:E.
    + zbool. rewrite w16_small by lia.
      destruct (IH p start (count + 1) logBase) as [He Hc']; [lia..|done|lia|].
      split; [|done]. rewrite He. rewrite seqZ_app by lia. rewrite <- app_assoc.
      do 2 f_equal. simpl. f_equal. lia.
    + rewrite w32_small by lia.
      destruct (IH p p 1 (logBase + count)) as [He Hc']; [lia..|done|lia|].
      split; [|simpl; split_and!; auto; lia].
      unfold expand in *. rewrite fmap_cons. cbn [concat]. rewrite He. done.
Qed.

Lemma buildExtents_spec blocks :
  Forall (fun p => 0 <= p < 2 ^ 64 - 1) blocks -> zlen blocks < 2 ^ 32 ->
  expand (buildExtents blocks) = blocks /\ contiguous 0 (buildExtents blocks).
Proof.
  intros Hb Hl. destruct blocks as [|p rest]; [done|]. inversion Hb; subst.
  rewrite zlen_cons in Hl. unfold buildExtents.
  by apply (buildExtents_from_spec p p 1 0 rest); [lia..| |lia].
Qed.

(** A gap-free leaf list maps logical block [base + i] to the [i]th block of
    its expansion, and nothing beyond. *)
Lemma block_at_contiguous base exts i :
  contiguous base exts -> base <= i -> block_at exts i = expand exts !! Z.to_nat (i - base).
Proof.
  revert base. induction exts as [|e exts IH]; intros base Hc Hi; simpl in *; [done|].
  destruct Hc as (Hlog & Hcount & Hc). unfold covers, expand. rewrite fmap_cons. cbn [concat].
  rewrite (leb_true (LogBlock e)) by lia. simpl. destruct (_ <? _) eqn:E; zbool.
  - rewrite lookup_app_l by (rewrite length_seqZ; lia).
    rewrite lookup_seqZ_lt by lia. f_equal. lia.
  - rewrite lookup_app_r by (rewrite length_seqZ; lia). rewrite length_seqZ.
    rewrite (IH (base + Count e)) by (done || lia). unfold expand. f_equal. lia.
Qed.

(** * The overlap check decides disjointness *)

Lemma FOP_perm {A} (R : A -> A -> Prop) (l l' : list A) :
  (forall x y, R x y -> R y x) -> Permutation l l' ->
  ForallOrdPairs R l -> ForallOrdPairs R l'.
Proof.
  intros Hsym Hp. induction Hp as [|x l l' Hp IH|x y l|l1 l2 l3 H1 IH1 H2 IH2]; intros HF.
  - done.
  - inversion HF as [|? ? Hx HF']; subst. constructor; [by rewrite <- Hp|auto].
  - inversion HF as [|? ? Hx HF']; subst. inversion HF' as [|? ? Hy HF'']; subst.
    inversion Hx; subst. constructor; [constructor; auto|]. by constructor.
  - auto.
Qed.

Lemma disjoint_on_sym start a b : disjoint_on start a b -> disjoint_on start b a.
Proof. unfold disjoint_on. tauto. Qed.

Section overlap.
Context (start : extentLeaf -> Z).
(** Starts are block numbers of at most 48 bits and counts of 16 bits, so the
    [uint64] sums do not wrap. *)
Definition run_ok (e : extentLeaf) : Prop := 0 <= start e < 2 ^ 48 /\ 0 <= Count e < 2 ^ 16.

Lemma runs_ordered_sound pe leaves :
  Forall run_ok leaves -> runs_ordered start pe leaves = true ->
  runs_disjoint start leaves /\
  match pe with
  | Some p => Forall (fun e => Count e <> 0 -> p <= start e) leaves
  | None => True
  end.
Proof.
  intros Hok. revert pe. induction Hok as [|e leaves [Hs Hc] Hok IH]; intros pe Ho; simpl in Ho.
  - split; [constructor|]. destruct pe; [constructor|done].
  - destruct (Count e =? 0) eqn:E; zbool.
    + destruct (IH _ Ho) as [Hd Hp]. split.
      * constructor; [|done]. apply Forall_true. intros. by left.
      * destruct pe; [|done]. by constructor.
    + destruct (match pe with Some p => start e <? p | None => false end) eqn:Ebad; [done|].
      destruct (IH _ Ho) as [Hd Hp]. rewrite w64_small in Hp by lia. split.
      * constructor; [|done]. eapply Forall_impl; [exact Hp|].
        intros x Hx. unfold disjoint_on. destruct (decide (Count x = 0)); [tauto|].
        right; right; left. auto.
      * destruct pe as [p|]; [|done]. zbool. constructor; [done|].
        eapply Forall_impl; [exact Hp|]. simpl. intros x Hx Hx0. specialize (Hx Hx0). lia.
Qed.

Lemma adjacent_disjoint_sound l :
  Forall run_ok l -> Forall (fun e => Count e <> 0) l ->
  StronglySorted (fun x y => start x <= start y) l ->
  adjacent_disjoint start l = true -> runs_disjoint start l.
Proof.
  intros Hok Hnz Hs. induction Hs as [|a l Hs IH Ha]; intros Hadj; [constructor|].
  inversion Hok as [|? ? [Hsa Hca] Hok']; subst. inversion Hnz; subst.
  destruct l as [|b l]; [repeat constructor|].
  cbn [adjacent_disjoint] in Hadj. destruct (_ <? _) eqn:E; [done|]. zbool.
  rewrite w64_small in E by lia. constructor; [|by apply IH].
  inversion Hs as [|? ? Hs' Hb]; subst. constructor.
  - right; right; left. lia.
  - eapply Forall_impl; [exact Hb|]. simpl. intros x Hx. right; right; left. lia.
Qed.

Lemma adjacent_disjoint_complete l :
  Forall run_ok l -> Forall (fun e => Count e <> 0) l ->
  StronglySorted (fun x y => start x <= start y) l ->
  runs_disjoint start l -> adjacent_disjoint start l = true.
Proof.
  intros Hok Hnz Hs. induction Hs as [|a l Hs IH Ha]; intros Hd; [done|].
  inversion Hok as [|? ? [Hsa Hca] Hok']; subst. inversion Hnz; subst.
  destruct l as [|b l]; [done|]. cbn [adjacent_disjoint].
  inversion Hd as [|? ? Hab Hd']; subst. inversion Hab as [|? ? Hb _]; subst.
  inversion Ha; subst. inversion Hnz as [|? ? _ Hnz']; subst. inversion Hnz' as [|? ? Hb0 _]; subst.
  inversion Hok' as [|? ? [? ?] _]; subst.
  rewrite w64_small by lia. rewrite ltb_false; [by apply IH|].
  unfold disjoint_on in Hb. lia.
Qed.

Lemma runs_disjoint_filter leaves :
  runs_disjoint start leaves <-> runs_disjoint start (filter (fun l => Count l <> 0) leaves).
Proof.
  induction leaves as [|e leaves IH]; [done|]. destruct (decide (Count e = 0)) as [H0|H0].
  - rewrite filter_cons_False by (intros Hn; by apply Hn). rewrite <- IH. split.
    + by inversion 1.
    + intros. constructor; [|done]. apply Forall_true. intros. by left.
  - rewrite filter_cons_True by done. split; inversion 1 as [|? ? He Hd]; subst; constructor.
    + apply Forall_filter. done.
    + by apply IH.
    + rewrite Forall_forall in He |- *. intros x Hx.
      destruct (decide (Count x = 0)); [by right; left|].
      apply He, list_elem_of_filter. done.
    + by apply IH.
Qed.

End overlap.

Section validate.
Context `{SortSlice}.

Lemma checkRuns_spec kind start leaves :
  Forall (run_ok start) leaves ->
  (checkRuns kind start leaves = Ok tt <-> runs_disjoint start leaves) /\
  (checkRuns kind start leaves = Ok tt \/ checkRuns kind start leaves = Err (Errorf kind)).
Proof.
  intros Hok. unfold checkRuns. destruct (runs_ordered start None leaves) eqn:Eo.
  { split; [|by left]. split; [intros _|done]. by eapply runs_ordered_sound. }
  set (nz := filter (fun l => Count l <> 0) leaves).
  assert (Forall (run_ok start) (sort_by start nz)) as Hok'.
  { rewrite sort_by_perm. by apply Forall_filter. }
  assert (Forall (fun e => Count e <> 0) (sort_by start nz)) as Hnz.
  { rewrite sort_by_perm. apply Forall_forall. intros x Hx.
    by apply list_elem_of_filter in Hx as [? _]. }
  pose proof (sort_by_sorted start nz) as Hs.
  assert (runs_disjoint start leaves <-> runs_disjoint start (sort_by start nz)) as Heq.
  { rewrite runs_disjoint_filter. fold nz. split; apply FOP_perm; auto using disjoint_on_sym.
    - by rewrite sort_by_perm.
    - apply sort_by_perm. }
  destruct (adjacent_disjoint start (sort_by start nz)) eqn:Ea.
  - split; [|by left]. split; [intros _|done]. apply Heq. by apply adjacent_disjoint_sound.
  - split; [|by right]. split; [done|]. intros Hd%Heq.
    apply adjacent_disjoint_complete in Hd; [congruence|done..].
Qed.

Lemma leaf_ok_runs leaves :
  Forall leaf_ok leaves -> Forall (run_ok LogBlock) leaves /\ Forall (run_ok PhysBlock) leaves.
Proof.
  intros Hok. split; (eapply Forall_impl; [exact Hok|]); intros e (H1 & H2 & H3);
    unfold run_ok; lia.
Qed.

(** A leaf list is accepted exactly when no two of its non-empty leaves share
    a logical or a physical block. *)
Lemma validateExtents_spec leaves :
  Forall leaf_ok leaves ->
  (validateExtents leaves = Ok tt <->
   runs_disjoint LogBlock leaves /\ runs_disjoint PhysBlock leaves) /\
  validateExtents leaves <> Panic.
Proof.
  intros Hok. destruct (leaf_ok_runs leaves Hok) as [Hl Hp]. unfold validateExtents.
  destruct (zlen leaves <? 2) eqn:E; zbool.
  { split; [|done]. split; [intros _|done].
    destruct leaves as [|a [|b leaves]]; [split; constructor|split; repeat constructor|].
    rewrite !zlen_cons in E. pose proof (zlen_nonneg leaves). lia. }
  destruct (checkRuns_spec "ext4: overlapping logical extents" LogBlock leaves Hl) as [HL [EL|EL]];
    rewrite EL in *; cbn [rbind].
  - destruct (checkRuns_spec "ext4: overlapping physical extents" PhysBlock leaves Hp)
      as [HP [EP|EP]]; rewrite EP in *; (split; [|done]); tauto.
  - split; [|done]. split; [done|]. intros [HH _]. by apply HL in HH.
Qed.

End validate.

(** * Coalescing preserves the mapping *)

Lemma block_at_Some exts lb p :
  block_at exts lb = Some p ->
  exists e, e ∈ exts /\ covers e lb = true /\ p = PhysBlock e + (lb - LogBlock e).
Proof.
  induction exts as [|e exts IH]; simpl; [done|]. destruct (covers e lb) eqn:E.
  - intros [= <-]. exists e. split_and!; [set_solver|done..].
  - intros Hb. destruct (IH Hb) as (e' & ? & ? & ?). exists e'. split_and!; [set_solver|done..].
Qed.

Lemma block_at_None exts lb :
  block_at exts lb = None <-> forall e, e ∈ exts -> covers e lb = false.
Proof.
  induction exts as [|e exts IH]; simpl; [split; [set_solver|done]|].
  destruct (covers e lb) eqn:E.
  - split; [done|]. intros He. specialize (He e ltac:(set_solver)). congruence.
  - rewrite IH. set_solver.
Qed.

Lemma disjoint_covers e1 e2 lb :
  disjoint_on LogBlock e1 e2 -> covers e1 lb = true -> covers e2 lb = true -> False.
Proof. unfold disjoint_on, covers. intros. zbool. lia. Qed.

Lemma block_at_covers exts e lb :
  runs_disjoint LogBlock exts -> e ∈ exts -> covers e lb = true ->
  block_at exts lb = Some (PhysBlock e + (lb - LogBlock e)).
Proof.
  intros Hd. induction Hd as [|x exts Hx Hd IH]; intros He Hc; [set_solver|]. simpl.
  apply elem_of_cons in He as [->|He]; [by rewrite Hc|].
  destruct (covers x lb) eqn:E; [|auto]. exfalso.
  rewrite Forall_forall in Hx. by eapply disjoint_covers; [apply Hx|..].
Qed.

Lemma block_at_perm exts exts' lb :
  runs_disjoint LogBlock exts -> Permutation exts exts' -> block_at exts lb = block_at exts' lb.
Proof.
  intros Hd Hp.
  assert (runs_disjoint LogBlock exts') as Hd'
    by (eapply FOP_perm; eauto using disjoint_on_sym).
  destruct (block_at exts lb) as [p|] eqn:E.
  - apply block_at_Some in E as (e & He & Hc & ->). symmetry.
    apply block_at_covers; [done| |done]. by rewrite <- Hp.
  - symmetry. apply block_at_None. intros e He. eapply block_at_None; [done|]. by rewrite Hp.
Qed.

Lemma coalesce_from_block_at last rest lb :
  leaf_ok last -> Forall leaf_ok rest ->
  block_at (coalesce_from last rest) lb = block_at (last :: rest) lb.
Proof.
  revert last. induction rest as [|e rest IH]; intros last Hl Hr; [done|].
  inversion Hr as [|? ? He Hr']; subst. cbn [coalesce_from].
  destruct Hl as (H1 & H2 & H3). destruct He as (H4 & H5 & H6).
  rewrite !w64_small by lia. destruct (_ && _) eqn:E.
  - zbool. rewrite w16_small by lia. rewrite IH; [|unfold leaf_ok; simpl; lia|done].
    cbn [block_at]. unfold covers. simpl.
    destruct (LogBlock last <=? lb) eqn:E1, (lb <? LogBlock last + Count last) eqn:E2,
      (LogBlock e <=? lb) eqn:E3, (lb <? LogBlock e + Count e) eqn:E4,
      (lb <? LogBlock last + (Count last + Count e)) eqn:E5; simpl; zbool; try done; try lia;
      f_equal; lia.
  - cbn [block_at]. by rewrite IH by (unfold leaf_ok; auto).
Qed.

Lemma coalesceExtents_block_at `{SortSlice} exts lb :
  Forall leaf_ok exts -> runs_disjoint LogBlock exts ->
  block_at (coalesceExtents exts) lb = block_at exts lb.
Proof.
  intros Hok Hd. unfold coalesceExtents. destruct (zlen exts <? 2); [done|].
  pose proof (sort_by_perm LogBlock exts) as Hp.
  transitivity (block_at (sort_by LogBlock exts) lb).
  - assert (Forall leaf_ok (sort_by LogBlock exts)) as Hok' by (by rewrite Hp).
    destruct (sort_by LogBlock exts); [done|]. inversion Hok'; subst.
    by apply coalesce_from_block_at.
  - symmetry. by apply block_at_perm.
Qed.

Lemma coalesce_from_length last rest :
  zlen (coalesce_from last rest) <= 1 + zlen rest.
Proof.
  revert last. induction rest as [|e rest IH]; intros last; cbn [coalesce_from]; [zl|].
  rewrite zlen_cons. destruct (_ && _).
  - specialize (IH (Leaf (LogBlock last) (PhysBlock last) (w16 (Count last + Count e)))). lia.
  - rewrite zlen_cons. specialize (IH e). lia.
Qed.
