(* ===== verification/Limits.v ===== *)
(** Read limits and budgets ([src/limits.go]): the ceilings that keep the work
    and memory of a read proportional to the image.  Go's [int] is [int64]. *)

From S2P Require Import Prelude Bytes Superblock.

Definition MaxInt64 : Z := 2 ^ 63 - 1.
Definition DefaultMaxReadSize : Z := 2 ^ 30.

Definition maxReadLimit (sb : superblock) : Z :=
  if 0 <? maxRead sb then maxRead sb else DefaultMaxReadSize.

Definition declaredBytes (sb : superblock) : Z * bool :=
  if (BlocksCount sb =? 0) || (BlockSize sb =? 0) then (0, false) else
  if MaxInt64 / BlockSize sb <? BlocksCount sb then (MaxInt64, true) else
  (BlocksCount sb * BlockSize sb, true).

Definition fileSizeCeiling (sb : superblock) (fallback : Z) : Z :=
  let '(max, ok) := declaredBytes sb in
  let max := if ok : bool then max else fallback in
  let lim := maxReadLimit sb in
  if (lim <? max) || (max <=? 0) then lim else max.

Definition blockBudget (sb : superblock) : Z :=
  let bs := if BlockSize sb =? 0 then 1024 else BlockSize sb in
  let declared := if BlocksCount sb =? 0 then None else Some (BlocksCount sb) in
  let device := if 0 <? deviceBytes sb then Some (deviceBytes sb / bs) else None in
  match declared, device with
  | Some b, Some d => if d <? b then d else b
  | Some b, None => b
  | None, Some d => d
  | None, None => maxReadLimit sb / bs
  end.

(** The part of [SetMaxReadSize] that computes the stored value. *)
Definition SetMaxReadSize (n : Z) : Z := if n <? 0 then 0 else n.

Definition clampInt64 (v : Z) : Z := if MaxInt64 <? v then MaxInt64 else v.

(** * The ceilings *)

Lemma maxReadLimit_pos sb : 0 < maxReadLimit sb.
Proof. unfold maxReadLimit, DefaultMaxReadSize. destruct (0 <? maxRead sb) eqn:E; zbool; lia. Qed.

(** A buffer is never larger than the read limit, nor than the declared size
    of the file system when that is known. *)
Lemma fileSizeCeiling_bound sb fallback :
  0 < fileSizeCeiling sb fallback <= maxReadLimit sb.
Proof.
  unfold fileSizeCeiling. pose proof (maxReadLimit_pos sb).
  destruct (declaredBytes sb) as [m ok]. destruct (_ || _) eqn:E; [lia|]. zbool. lia.
Qed.

Lemma fileSizeCeiling_declared sb fallback :
  0 < BlocksCount sb -> 0 < BlockSize sb -> BlocksCount sb * BlockSize sb <= MaxInt64 ->
  fileSizeCeiling sb fallback = Z.min (BlocksCount sb * BlockSize sb) (maxReadLimit sb).
Proof.
  intros Hc Hb Hm. unfold fileSizeCeiling, declaredBytes.
  rewrite !eqb_false by lia. cbn [orb].
  rewrite ltb_false by (apply Z.div_le_lower_bound; lia).
  destruct (_ || _) eqn:E; zbool; [destruct E; zbool; nia|lia].
Qed.

(** The budget never exceeds the blocks the superblock declares or the device
    holds. *)
Lemma blockBudget_bound sb :
  0 < BlockSize sb ->
  (BlocksCount sb <> 0 -> blockBudget sb <= BlocksCount sb) /\
  (0 < deviceBytes sb -> blockBudget sb * BlockSize sb <= deviceBytes sb).
Proof.
  intros Hb. unfold blockBudget. rewrite (eqb_false (BlockSize sb)) by lia.
  pose proof (Z.mul_div_le (deviceBytes sb) (BlockSize sb) ltac:(lia)).
  destruct (BlocksCount sb =? 0) eqn:E1, (0 <? deviceBytes sb) eqn:E2; zbool;
    try (split; intros; lia).
  destruct (_ <? BlocksCount sb) eqn:E3; zbool; split; intros; nia.
Qed.
