(* ===== verification/Inode.v ===== *)
(** Inodes and their block maps ([src/inode.go], [src/blockmap.go], the raw
    block reads of [src/fs.go]): decoding, the extent tree with its depth and
    cycle checks, the ext2/ext3 indirect map, the setters and the checksum. *)

From S2P Require Import Prelude Bytes Crc Device Superblock Bgd GoLib Extent Limits.

Definition inodeOffFlags : Z := 32.
Definition inodeOffBlock : Z := 40.
Definition inodeOffCsumLo : Z := 124.
Definition inodeOffExtraIsize : Z := 128.
Definition inodeOffCsumHi : Z := 130.

Record inode : Type := Inode {
  in_raw : list Z;
  in_num : Z;
  in_size : Z;
  in_mode : Z
}.

Definition in_with_raw (i : inode) (raw : list Z) : inode :=
  Inode raw (in_num i) (in_size i) (in_mode i).

Definition decodeInode (num : Z) (raw : list Z) : res inode :=
  let! mode := get16 raw 0 in
  let! lo := get32 raw 4 in
  let! hi := get32 raw 108 in
  Ok (Inode raw num (Z.lor (Z.shiftl hi 32) lo) mode).

Definition flags (i : inode) : res Z := get32 (in_raw i) inodeOffFlags.
Definition isDir (i : inode) : bool := Z.land (in_mode i) 0xF000 =? 0x4000.
Definition isRegular (i : inode) : bool := Z.land (in_mode i) 0xF000 =? 0x8000.
Definition isSymlink (i : inode) : bool := Z.land (in_mode i) 0xF000 =? 0xA000.

(** Group and index in the group of an inode number, on [uint32]. *)
Definition inode_group (sb : superblock) (num : Z) : res (Z * Z) :=
  if InodesPerGroup sb =? 0 then Panic else
  Ok (w32 (num - 1) / InodesPerGroup sb, w32 (num - 1) mod InodesPerGroup sb).

Section io.
Context {D : Type} `{BlockDev D} `{SortSlice} `{Safeio}.
Context (d : D) (fsOffset : Z) (sb : superblock).

Definition readRawBlock (blockNum : Z) : res (list Z) :=
  rwrap "ext4: read block" (read_at d (i64 (fsOffset + blockNum * BlockSize sb)) (BlockSize sb)).

(** One attempt reads the descriptor, takes the inode-table lock, reads the
    descriptor again and retries when the table moved. *)
Fixpoint readInode_attempts (attempts : nat) (num g localIdx : Z) : res inode :=
  match attempts with
  | O => Err (Errorf "ext4: unstable BGD mapping reading inode")
  | S attempts' =>
      let! d1 := readBGD d fsOffset sb g in
      let off := InodeTableBlock d1 * BlockSize sb + localIdx * InodeSize sb in
      let! d2 := readBGD d fsOffset sb g in
      if negb (InodeTableBlock d1 =? InodeTableBlock d2)
      then readInode_attempts attempts' num g localIdx
      else
        let! raw := rwrap "ext4: read inode" (read_at d (i64 (fsOffset + off)) (InodeSize sb)) in
        decodeInode num raw
  end.

Definition readInode (num : Z) : res inode :=
  if num =? 0 then Err (Errorf "ext4: inode 0 is invalid") else
  if InodesCount sb <? num then Err (Errorf "ext4: inode out of range") else
  let! (g, localIdx) := inode_group sb num in
  readInode_attempts 8 num g localIdx.

Definition inodeDiskOffset (num : Z) : res Z :=
  if num =? 0 then Err (Errorf "ext4: inode 0 is invalid") else
  let! (g, localIdx) := inode_group sb num in
  let! bg := readBGD d fsOffset sb g in
  Ok (i64 (InodeTableBlock bg * BlockSize sb + localIdx * InodeSize sb)).

(** * Extent trees *)

(** The entry loop of a depth-0 node; it stops at the end of the buffer. *)
Fixpoint parse_leaf_entries (n : nat) (buf : list Z) (i : Z) : res (list extentLeaf) :=
  match n with
  | O => Ok []
  | S n' =>
      let entOff := 12 + i * 12 in
      if zlen buf <? entOff + 12 then Ok [] else
      let! e := decode_leaf buf entOff in
      let! rest := parse_leaf_entries n' buf (i + 1) in
      Ok (e :: rest)
  end.

(** The entry loop of an index node; [child] parses the block an entry points
    to and threads the set of visited blocks. *)
Fixpoint parse_index_entries
    (child : list Z -> VisitSet -> res (list extentLeaf * VisitSet))
    (n : nat) (buf : list Z) (i : Z) (visited : VisitSet) : res (list extentLeaf * VisitSet) :=
  match n with
  | O => Ok ([], visited)
  | S n' =>
      let entOff := 12 + i * 12 in
      if zlen buf <? entOff + 12 then Ok ([], visited) else
      let! leafLo := get32 buf (entOff + 4) in
      let! leafHi := get16 buf (entOff + 8) in
      let childBlock := Z.lor (Z.shiftl leafHi 32) leafLo in
      if (childBlock =? 0) ||
         (negb (BlocksCount sb =? 0) && (BlocksCount sb <=? childBlock))
      then Err (Errorf "ext4: extent index block out of range") else
      match vs_check visited childBlock with
      | None => Err (Errorf "ext4: cyclic extent index block")
      | Some visited =>
          let! childBuf := rwrap "ext4: read extent index block" (readRawBlock childBlock) in
          let! (sub, visited) := child childBuf visited in
          let! (rest, visited) := parse_index_entries child n' buf (i + 1) visited in
          Ok (sub ++ rest, visited)
      end
  end.

(** [parseExtentNode] for a node that must declare depth [expectDepth]; the
    children must declare one less, so the recursion is on that depth. *)
Fixpoint parseExtentNode (expectDepth : nat) (buf : list Z) (visited : VisitSet)
    : res (list extentLeaf * VisitSet) :=
  if zlen buf <? 12 then Err (Errorf "ext4: extent node too small") else
  let! magic := get16 buf 0 in
  if negb (magic =? ExtentMagic) then Err (Errorf "ext4: bad extent magic") else
  let! entries := get16 buf 2 in
  let! depth := get16 buf 6 in
  if negb (depth =? Z.of_nat expectDepth)
  then Err (Errorf "ext4: extent node depth unexpected") else
  if maxExtentDepth <? depth then Err (Errorf "ext4: extent node depth exceeds max") else
  match expectDepth with
  | O =>
      let! leaves := parse_leaf_entries (Z.to_nat entries) buf 0 in
      Ok (leaves, visited)
  | S depth' =>
      parse_index_entries (parseExtentNode depth') (Z.to_nat entries) buf 0 visited
  end.

Definition parseExtentRoot (buf : list Z) : res (list extentLeaf) :=
  if zlen buf <? 12 then Err (Errorf "ext4: extent node too small") else
  let! rootDepth := get16 buf 6 in
  if maxExtentDepth <? rootDepth then Err (Errorf "ext4: extent tree depth exceeds max") else
  let! (leaves, _) := parseExtentNode (Z.to_nat rootDepth) buf vs_empty in
  let! _ := validateExtents leaves in
  Ok leaves.

(** [extents], for the callers that change the map. *)
Definition extents (i : inode) : res (list extentLeaf) :=
  let! fl := flags i in
  if has_flag fl InodeFlagInlineData then Err (Errorf "ext4: inline data not supported") else
  if negb (has_flag fl InodeFlagExtents)
  then Err (Errorf "ext4: old-style block map not supported") else
  let! buf := subslice (in_raw i) inodeOffBlock (inodeOffBlock + 60) in
  parseExtentRoot buf.

(** * Indirect block maps (ext2/ext3) *)

(** The accumulators of [blockMapExtents]. *)
Record bmstate : Type := BmState {
  bm_used : Z;
  bm_visited : VisitSet;
  bm_out : list extentLeaf
}.

Definition charge (st : bmstate) : res bmstate :=
  let used := w64 (bm_used st + 1) in
  if blockBudget sb <? used
  then Err (ErrWrap "ext4: block map names more than the device holds" ErrTooLarge)
  else Ok (BmState used (bm_visited st) (bm_out st)).

(** Extend the last leaf when the block continues it, append one otherwise. *)
Fixpoint emit_leaf (out : list extentLeaf) (lbn phys : Z) : list extentLeaf :=
  match out with
  | [] => [Leaf (w32 lbn) phys 1]
  | last :: out' =>
      match out' with
      | [] =>
          if (Count last <? 0xFFFF) && (w64 (PhysBlock last + Count last) =? phys) &&
             (w64 (LogBlock last + Count last) =? lbn)
          then [Leaf (LogBlock last) (PhysBlock last) (w16 (Count last + 1))]
          else [last; Leaf (w32 lbn) phys 1]
      | _ => last :: emit_leaf out' lbn phys
      end
  end.

Definition emit (lbn phys : Z) (st : bmstate) : res bmstate :=
  let! st := charge st in
  if 2 ^ 32 - 1 <? lbn then Err (Errorf "ext4: block map reaches logical block") else
  Ok (BmState (bm_used st) (bm_visited st) (emit_leaf (bm_out st) lbn phys)).

(** Pointers in one block, and the logical blocks one pointer at a level
    covers. *)
Definition bm_ptrs : Z := BlockSize sb / 4.
Definition span (level : nat) : Z := bm_ptrs ^ Z.of_nat level.

(** The pointer loop of [walk]; [sub] handles a non-zero pointer. *)
Fixpoint walk_entries (sub : Z -> Z -> bmstate -> res bmstate) (n : nat)
    (buf : list Z) (i base sp nblocks : Z) (st : bmstate) : res bmstate :=
  match n with
  | O => Ok st
  | S n' =>
      let lbn := base + i * sp in
      if nblocks <=? lbn then Ok st else
      let! p := get32 buf (i * 4) in
      if p =? 0 then walk_entries sub n' buf (i + 1) base sp nblocks st else
      let! st := sub lbn p st in
      walk_entries sub n' buf (i + 1) base sp nblocks st
  end.

(** [walk(level+1, blk, base)]. *)
Fixpoint walk (level : nat) (nblocks blk base : Z) (st : bmstate) : res bmstate :=
  let! st := charge st in
  match vs_check (bm_visited st) blk with
  | None => Err (Errorf "ext4: block map reuses indirect block")
  | Some visited =>
      let st := BmState (bm_used st) visited (bm_out st) in
      let! buf := readRawBlock blk in
      let sub := match level with
                 | O => emit
                 | S level' => fun lbn p st => walk level' nblocks p lbn st
                 end in
      walk_entries sub (Z.to_nat bm_ptrs) buf 0 base (span level) nblocks st
  end.

(** The twelve direct pointers. *)
Fixpoint direct_entries (n : nat) (iblock : list Z) (i nblocks : Z) (st : bmstate) : res bmstate :=
  match n with
  | O => Ok st
  | S n' =>
      if nblocks <=? i then Ok st else
      let! p := get32 iblock (i * 4) in
      if p =? 0 then direct_entries n' iblock (i + 1) nblocks st else
      let! st := emit i p st in
      direct_entries n' iblock (i + 1) nblocks st
  end.

(** The single, double and triple indirect pointers. *)
Fixpoint indirect_levels (levels : list nat) (iblock : list Z) (base nblocks : Z)
    (st : bmstate) : res bmstate :=
  match levels with
  | [] => Ok st
  | level :: levels' =>
      if nblocks <=? base then Ok st else
      let! p := get32 iblock ((12 + Z.of_nat level) * 4) in
      let! st := if p =? 0 then Ok st else walk level nblocks p base st in
      indirect_levels levels' iblock (base + span (S level)) nblocks st
  end.

(** The blocks an [i_size] needs. *)
Definition size_blocks (size : Z) : Z :=
  let bs := BlockSize sb in
  if size mod bs =? 0 then size / bs else size / bs + 1.

Definition blockMapExtents (i : inode) : res (list extentLeaf) :=
  if BlockSize sb <? 4 then Err (Errorf "ext4: blockMap: invalid block size") else
  if in_size i =? 0 then Ok [] else
  let nblocks := size_blocks (in_size i) in
  let! iblock := subslice (in_raw i) inodeOffBlock (inodeOffBlock + 60) in
  let! st := direct_entries 12 iblock 0 nblocks (BmState 0 vs_empty []) in
  let! st := indirect_levels [0; 1; 2]%nat iblock 12 nblocks st in
  Ok (bm_out st).

(** [readExtents], for the readers. *)
Definition readExtents (i : inode) : res (list extentLeaf) :=
  let! fl := flags i in
  if has_flag fl InodeFlagInlineData then Err (Errorf "ext4: inline data not supported") else
  if negb (has_flag fl InodeFlagExtents) then blockMapExtents i else
  let! buf := subslice (in_raw i) inodeOffBlock (inodeOffBlock + 60) in
  parseExtentRoot buf.

(** * The block map one block at a time

    The reference the tree walk is compared with: follow the pointers for one
    logical block; 0 is a hole. *)

Fixpoint probe (level : nat) (blk idx : Z) : res Z :=
  if blk =? 0 then Ok 0 else
  match level with
  | O => Ok blk
  | S level' =>
      let! buf := readRawBlock blk in
      let! p := get32 buf (idx / span level' * 4) in
      probe level' p (idx mod span level')
  end.

Fixpoint probe_levels (levels : list nat) (iblock : list Z) (idx : Z) : res Z :=
  match levels with
  | [] => Ok 0
  | level :: levels' =>
      if idx <? span (S level) then
        let! p := get32 iblock ((12 + Z.of_nat level) * 4) in
        probe (S level) p idx
      else probe_levels levels' iblock (idx - span (S level))
  end.

Definition probe_block (iblock : list Z) (lbn : Z) : res Z :=
  if lbn <? 12 then get32 iblock (lbn * 4) else probe_levels [0; 1; 2]%nat iblock (lbn - 12).

End io.

(** * Setters and the checksum *)

Definition setSize (i : inode) (size : Z) : res inode :=
  let! raw := put32 (in_raw i) 4 (Z.land size 0xFFFFFFFF) in
  let! raw := put32 raw 108 (w32 (Z.shiftr size 32)) in
  Ok (Inode raw (in_num i) size (in_mode i)).

Definition setBlocks512 (i : inode) (n : Z) : res inode :=
  let! raw := put32 (in_raw i) 28 n in Ok (in_with_raw i raw).

Definition setMode (i : inode) (mode links : Z) : res inode :=
  let! raw := put16 (in_raw i) 0 mode in
  let! raw := put16 raw 26 links in
  Ok (Inode raw (in_num i) (in_size i) mode).

Definition generation (i : inode) : res Z := get32 (in_raw i) 100.

(** [flags |= InodeFlagExtents]. *)
Definition setExtentsFlag (raw : list Z) : res (list Z) :=
  let! fl := get32 raw inodeOffFlags in
  put32 raw inodeOffFlags (Z.lor fl InodeFlagExtents).

Definition setInlineExtents (i : inode) (exts : list extentLeaf) : res inode :=
  if 4 <? zlen exts then Err (Errorf "ext4: too many extents for inline tree") else
  let! _ := subslice (in_raw i) inodeOffBlock (inodeOffBlock + 60) in
  let! node := inline_node exts in
  let! raw := setExtentsFlag (zsplice (in_raw i) inodeOffBlock node) in
  Ok (in_with_raw i raw).

(** The inode part of [writeExtentTree] for a list that needs a child block. *)
Definition setExtentIndex (i : inode) (logBlock childBlock : Z) : res inode :=
  let! _ := subslice (in_raw i) inodeOffBlock (inodeOffBlock + 60) in
  let! node := index_node logBlock childBlock in
  let! raw := setExtentsFlag (zsplice (in_raw i) inodeOffBlock node) in
  Ok (in_with_raw i raw).

Definition inode_crc (sb : superblock) (num gen : Z) (raw : list Z) : Z :=
  crc32c (crc32c (crc32c (csumSeed sb) (le_encode 4 num)) (le_encode 4 gen)) raw.

Definition computeInodeCsum (sb : superblock) (i : inode) : res inode :=
  let! raw := put16 (in_raw i) inodeOffCsumLo 0 in
  let big := inodeOffCsumHi + 2 <? zlen raw in
  let! raw := if big then put16 raw inodeOffCsumHi 0 else Ok raw in
  let! gen := generation (in_with_raw i raw) in
  let csum := inode_crc sb (in_num i) gen raw in
  let! raw := put16 raw inodeOffCsumLo (Z.land csum 0xFFFF) in
  let! raw := if big then put16 raw inodeOffCsumHi (w16 (Z.shiftr csum 16)) else Ok raw in
  Ok (in_with_raw i raw).

(** [singleExtentChild] of [src/writeat.go]. *)
Definition singleExtentChild (i : inode) : res (option Z) :=
  let! buf := subslice (in_raw i) inodeOffBlock (inodeOffBlock + 60) in
  let! magic := get16 buf 0 in
  if negb (magic =? ExtentMagic) then Ok None else
  let! depth := get16 buf 6 in
  let! entries := get16 buf 2 in
  if negb (depth =? 1) || negb (entries =? 1) then Ok None else
  let! lo := get32 buf 16 in
  let! hi := get16 buf 20 in
  Ok (Some (Z.lor lo (Z.shiftl hi 32))).

(** * Parsing never panics, whatever the device returns *)

Section safety.
Context {D : Type} `{BlockDev D} `{SortSlice} `{Safeio}.
Context (d : D) (fsOffset : Z) (sb : superblock).

Lemma readRawBlock_np b : readRawBlock d fsOffset sb b <> Panic.
Proof. unfold readRawBlock. apply rwrap_np, read_at_not_panic. Qed.

Lemma decode_leaf_np buf off : 0 <= off -> off + 12 <= zlen buf -> decode_leaf buf off <> Panic.
Proof. intros. unfold decode_leaf. np. Qed.

Lemma parse_leaf_entries_np n buf i : 0 <= i -> parse_leaf_entries n buf i <> Panic.
Proof.
  revert i. induction n as [|n IH]; intros i Hi; simpl; [done|].
  destruct (_ <? _) eqn:E; [done|]. zbool.
  apply rbind_not_panic; [apply decode_leaf_np; lia|]. intros e _.
  apply rbind_not_panic; [apply IH; lia|]. done.
Qed.

Lemma parse_index_entries_np child n buf i v :
  (forall b v, child b v <> Panic) -> 0 <= i ->
  parse_index_entries d fsOffset sb child n buf i v <> Panic.
Proof.
  intros Hc. revert i v. induction n as [|n IH]; intros i v Hi; simpl; [done|].
  destruct (_ <? _) eqn:E; [done|]. zbool.
  rewrite !getN_ok by lia. cbn [rbind]. destruct (_ || _); [done|].
  destruct (vs_check v _) as [v'|]; [|done].
  apply rbind_not_panic; [apply rwrap_np, readRawBlock_np|]. intros b _.
  apply rbind_not_panic; [apply Hc|]. intros [sub v2] _.
  apply rbind_not_panic; [apply IH; lia|]. by intros [rest v3] _.
Qed.

Lemma parseExtentNode_np depth buf v : parseExtentNode d fsOffset sb depth buf v <> Panic.
Proof.
  revert buf v. induction depth as [|depth IH]; intros buf v; simpl;
    (destruct (zlen buf <? 12) eqn:E; [done|]); zbool; rewrite !getN_ok by lia; cbn [rbind];
    (destruct (negb _); [done|]); (destruct (negb _); [done|]); (destruct (_ <? _); [done|]).
  - apply rbind_not_panic; [by apply parse_leaf_entries_np|done].
  - by apply parse_index_entries_np.
Qed.

(** Results of a parse hold field values that fit the on-disk entry. *)
Lemma decode_leaf_ok buf off e : bytes_ok buf -> decode_leaf buf off = Ok e -> leaf_ok e.
Proof.
  intros Hb. unfold decode_leaf, getN. intros. res_inv.
  pose proof (u32_range buf off Hb). pose proof (u16_range buf (off + 6) Hb).
  pose proof (u32_range buf (off + 8) Hb). pose proof (u16_range buf (off + 4) Hb).
  unfold leaf_ok. simpl. split_and!; try lia.
  - rewrite lor_shiftl_add by lia. lia.
  - rewrite lor_shiftl_add by lia. lia.
  - destruct (_ <? _); [|lia]. apply Z.land_nonneg. lia.
  - destruct (_ <? _) eqn:Ec; zbool; [|lia]. change 0x7FFF with (Z.ones 15).
    rewrite Z.land_ones by lia. pose proof (Z.mod_pos_bound (u16 buf (off + 4)) (2 ^ 15)). lia.
Qed.

Lemma parse_leaf_entries_ok n buf i leaves :
  bytes_ok buf -> parse_leaf_entries n buf i = Ok leaves -> Forall leaf_ok leaves.
Proof.
  intros Hb. revert i leaves. induction n as [|n IH]; intros i leaves Hp; simpl in Hp; res_inv.
  - constructor.
  - constructor.
  - constructor; [by eapply decode_leaf_ok|by eapply IH].
Qed.

End safety.

Section parsed.
Context {D : Type} `{BlockDevLaws D} `{SortSlice} `{Safeio}.
Context (d : D) (fsOffset : Z) (sb : superblock).

Lemma parse_index_entries_ok child n buf i v leaves v' :
  (forall b v leaves v', bytes_ok b -> child b v = Ok (leaves, v') -> Forall leaf_ok leaves) ->
  parse_index_entries d fsOffset sb child n buf i v = Ok (leaves, v') -> Forall leaf_ok leaves.
Proof.
  intros Hc. revert i v leaves v'.
  induction n as [|n IH]; intros i v leaves v' Hp; simpl in Hp; res_inv; try constructor.
  destruct (vs_check v _) as [v1|]; res_inv. apply Forall_app. split.
  - eapply Hc; [|done]. unfold readRawBlock in *. res_inv. by eapply read_at_bytes_ok.
  - by eapply IH.
Qed.

Lemma parseExtentNode_ok depth buf v leaves v' :
  bytes_ok buf -> parseExtentNode d fsOffset sb depth buf v = Ok (leaves, v') ->
  Forall leaf_ok leaves.
Proof.
  revert buf v leaves v'. induction depth as [|depth IH]; intros buf v leaves v' Hb Hp;
    simpl in Hp; res_inv.
  - by eapply parse_leaf_entries_ok.
  - by eapply parse_index_entries_ok.
Qed.

(** An accepted extent tree maps no logical block twice and no physical block
    twice, and its fields fit the format. *)
Lemma parseExtentRoot_disjoint buf leaves :
  bytes_ok buf -> parseExtentRoot d fsOffset sb buf = Ok leaves ->
  Forall leaf_ok leaves /\ runs_disjoint LogBlock leaves /\ runs_disjoint PhysBlock leaves.
Proof.
  intros Hb Hp. unfold parseExtentRoot in Hp. res_inv.
  match goal with H : parseExtentNode _ _ _ _ _ _ = _ |- _ =>
    apply parseExtentNode_ok in H; [|done]; rename H into Hok end.
  split; [done|]. destruct (validateExtents_spec leaves Hok) as [Hv _].
  repeat match goal with u : unit |- _ => destruct u end. by apply Hv.
Qed.

Lemma parseExtentRoot_np buf :
  bytes_ok buf -> parseExtentRoot d fsOffset sb buf <> Panic.
Proof.
  intros Hb. unfold parseExtentRoot. destruct (_ <? _) eqn:E; [done|]. zbool.
  rewrite getN_ok by lia. cbn [rbind]. destruct (_ <? _); [done|].
  apply rbind_not_panic; [apply parseExtentNode_np|]. intros [leaves v] Hp.
  apply rbind_not_panic; [|done].
  apply validateExtents_spec. by eapply parseExtentNode_ok.
Qed.

End parsed.

(** * Round trips of the extent encodings *)

Section roundtrip.
Context {D : Type} `{BlockDev D} `{SortSlice} `{Safeio}.
Context (d : D) (fsOffset : Z) (sb : superblock).

Lemma parse_leaf_entries_node buf exts pre i :
  leaf_node buf (pre ++ exts) -> Forall leaf_ok exts -> i = zlen pre ->
  parse_leaf_entries (length exts) buf i = Ok exts.
Proof.
  intros Hn Hok. revert pre i Hn. induction Hok as [|e exts He Hok IH]; intros pre i Hn ->; [done|].
  simpl. pose proof (ln_fits _ _ Hn) as Hf. rewrite zlen_app, zlen_cons in Hf.
  pose proof (zlen_nonneg pre). pose proof (zlen_nonneg exts).
  rewrite ltb_false by lia.
  rewrite (decode_leaf_bytes _ _ e); [|lia|lia|done|].
  - cbn [rbind]. rewrite (IH (pre ++ [e])); [done| |].
    + by rewrite <- app_assoc.
    + rewrite zlen_app, zlen_cons. change (zlen (@nil extentLeaf)) with 0. lia.
  - rewrite <- (ln_leaf _ _ Hn (length pre) e).
    + f_equal. unfold zlen. lia.
    + by rewrite lookup_app_r, Nat.sub_diag by lia.
Qed.

Lemma parseExtentNode_leaf_node buf exts v :
  leaf_node buf exts -> Forall leaf_ok exts ->
  parseExtentNode d fsOffset sb 0 buf v = Ok (exts, v).
Proof.
  intros Hn Hok. pose proof (ln_fits _ _ Hn). pose proof (zlen_nonneg exts).
  simpl. rewrite ltb_false by lia. rewrite !getN_ok by lia. cbn [rbind].
  rewrite (ln_magic _ _ Hn), (ln_entries _ _ Hn), (ln_depth _ _ Hn). simpl.
  unfold zlen. rewrite Nat2Z.id. by rewrite (parse_leaf_entries_node buf exts [] 0).
Qed.

Lemma parseExtentRoot_leaf_node buf exts :
  leaf_node buf exts -> Forall leaf_ok exts ->
  runs_disjoint LogBlock exts -> runs_disjoint PhysBlock exts ->
  parseExtentRoot d fsOffset sb buf = Ok exts.
Proof.
  intros Hn Hok Hl Hp. pose proof (ln_fits _ _ Hn). pose proof (zlen_nonneg exts).
  unfold parseExtentRoot. rewrite ltb_false by lia. rewrite getN_ok by lia. cbn [rbind].
  rewrite (ln_depth _ _ Hn). simpl Z.to_nat. rewrite ltb_false by (unfold maxExtentDepth; lia).
  rewrite (parseExtentNode_leaf_node buf exts) by done. cbn [rbind].
  destruct (validateExtents_spec exts Hok) as [Hv _]. rewrite (proj2 Hv) by done. done.
Qed.

(** The index node: one entry that points to the child block. *)
Lemma index_node_ok logBlock childBlock :
  0 <= childBlock < 2 ^ 48 ->
  exists buf, index_node logBlock childBlock = Ok buf /\ zlen buf = 60 /\
    u16 buf 0 = ExtentMagic /\ u16 buf 2 = 1 /\ u16 buf 6 = 1 /\
    Z.lor (Z.shiftl (u16 buf 20) 32) (u32 buf 16) = childBlock.
Proof.
  intros Hc. unfold index_node.
  destruct (put_header_ok (zeros 60) 1 4 1) as (b & -> & Hb & Hm & He & Hd & _); [zl|lia..|].
  cbn [rbind]. rewrite zlen_zeros in Hb by lia. change (12 + 4) with 16. change (12 + 8) with 20.
  bytes. eexists. split; [done|]. split_and!; [zl|bytes; try done..].
  change (256 ^ Z.of_nat 4) with (256 ^ 4). change (256 ^ Z.of_nat 2) with (256 ^ 2).
  by apply phys_split.
Qed.

Lemma parseExtentRoot_index buf childBlock childBuf exts :
  zlen buf = 60 -> u16 buf 0 = ExtentMagic -> u16 buf 2 = 1 -> u16 buf 6 = 1 ->
  Z.lor (Z.shiftl (u16 buf 20) 32) (u32 buf 16) = childBlock ->
  childBlock <> 0 -> BlocksCount sb = 0 \/ childBlock < BlocksCount sb ->
  readRawBlock d fsOffset sb childBlock = Ok childBuf ->
  leaf_node childBuf exts -> Forall leaf_ok exts ->
  runs_disjoint LogBlock exts -> runs_disjoint PhysBlock exts ->
  parseExtentRoot d fsOffset sb buf = Ok exts.
Proof.
  intros Hb Hm He Hdp Hcb Hnz Hrange Hread Hn Hok Hl Hp.
  unfold parseExtentRoot. rewrite ltb_false by lia. rewrite getN_ok by lia. cbn [rbind].
  rewrite Hdp. change (maxExtentDepth <? 1) with false. change (Z.to_nat 1) with 1%nat.
  cbn [parseExtentNode]. rewrite ltb_false by lia. rewrite !getN_ok by lia. cbn [rbind].
  rewrite Hm, He, Hdp. simpl. change (12 + 0 * 12 + 12) with 24.
  rewrite ltb_false by lia. change (12 + 0 * 12 + 4) with 16. change (12 + 0 * 12 + 8) with 20.
  rewrite !getN_ok by lia. cbn [rbind]. rewrite Hcb, eqb_false by done. cbn [orb].
  assert (negb (BlocksCount sb =? 0) && (BlocksCount sb <=? childBlock) = false) as ->.
  { destruct Hrange as [->|]; [done|]. by rewrite leb_false, andb_false_r. }
  destruct (vs_check_fresh vs_empty childBlock (vs_empty_mem _)) as (v' & -> & _).
  rewrite Hread. cbn [rwrap rbind]. fold (parseExtentNode d fsOffset sb 0 childBuf v').
  rewrite (parseExtentNode_leaf_node childBuf exts) by done. cbn [rbind]. rewrite app_nil_r.
  destruct (validateExtents_spec exts Hok) as [Hv _]. rewrite (proj2 Hv) by done. done.
Qed.

(** Inode images with the extents flag set over a given node. *)
Lemma extents_over_node i node i' exts :
  100 <= zlen (in_raw i) -> bytes_ok (in_raw i) -> zlen node = 60 -> bytes_ok node ->
  has_flag (u32 (in_raw i) inodeOffFlags) InodeFlagInlineData = false ->
  setExtentsFlag (zsplice (in_raw i) inodeOffBlock node) = Ok (in_raw i') ->
  parseExtentRoot d fsOffset sb node = Ok exts ->
  extents d fsOffset sb i' = Ok exts.
Proof.
  intros Hl Hbi Hnl Hbn Hinl Hset Hparse. unfold inodeOffBlock, inodeOffFlags in *.
  unfold setExtentsFlag, inodeOffFlags in Hset.
  rewrite getN_ok in Hset by zl. cbn [rbind] in Hset. rewrite putN_ok in Hset by zl.
  injection Hset as Hset.
  rewrite uN_zsplice_ne in Hset by zl.
  pose proof (u32_range (in_raw i) 32 Hbi) as Hfl. set (fl := u32 (in_raw i) 32) in *.
  assert (0 <= Z.lor fl InodeFlagExtents < 2 ^ 32) as Hr.
  { apply lor_range; unfold InodeFlagExtents; lia. }
  unfold extents, flags, inodeOffFlags, inodeOffBlock. rewrite <- Hset.
  rewrite getN_ok by zl. cbn [rbind]. rewrite uN_setN_same by zl.
  rewrite Z.mod_small by done.
  assert (has_flag (Z.lor fl InodeFlagExtents) InodeFlagInlineData = false) as ->.
  { unfold has_flag in *. rewrite Z.land_lor_distr_l.
    change (Z.land InodeFlagExtents InodeFlagInlineData) with 0. by rewrite Z.lor_0_r. }
  assert (has_flag (Z.lor fl InodeFlagExtents) InodeFlagExtents = true) as ->.
  { unfold has_flag. rewrite Z.land_lor_distr_l.
    change (Z.land InodeFlagExtents InodeFlagExtents) with InodeFlagExtents.
    apply negb_true_iff, eqb_false. intros Hz. apply Z.lor_eq_0_iff in Hz as [_ ?]. done. }
  cbn [negb]. rewrite subslice_ok by zl. cbn [rbind].
  change (40 + 60 - 40) with 60. rewrite zslice_setN_ne by zl.
  rewrite zslice_zsplice_same by zl. done.
Qed.

End roundtrip.

(** * The tree walk of a block map agrees with the pointer chase *)

Section blockmap.
Context {D : Type} `{BlockDevLaws D} `{SortSlice} `{Safeio}.
Context (d : D) (fsOffset : Z) (sb : superblock) (nblocks : Z).
Hypothesis Hbs : 4 <= BlockSize sb.

Definition bm_leaf_ok (e : extentLeaf) : Prop :=
  0 <= LogBlock e /\ 0 <= PhysBlock e < 2 ^ 32 /\ 1 <= Count e <= 0xFFFF /\
  LogBlock e + Count e <= 2 ^ 32.

Lemma emit_leaf_spec out lbn phys :
  Forall bm_leaf_ok out -> 0 <= lbn < 2 ^ 32 -> 0 <= phys < 2 ^ 32 -> block_at out lbn = None ->
  Forall bm_leaf_ok (emit_leaf out lbn phys) /\
  forall lb, block_at (emit_leaf out lbn phys) lb =
    if decide (lb = lbn) then Some phys else block_at out lb.
Proof.
  intros Hok Hl Hp.
  assert (bm_leaf_ok (Leaf lbn phys 1)) as Hnew by (unfold bm_leaf_ok; simpl; lia).
  assert (forall lb, block_at [Leaf lbn phys 1] lb = if decide (lb = lbn) then Some phys else None)
    as Hnewb.
  { intros lb. simpl. unfold covers. simpl. case_decide.
    - rewrite leb_true, ltb_true by lia. simpl. f_equal. lia.
    - destruct (lbn <=? lb) eqn:E1, (lb <? lbn + 1) eqn:E2; zbool; try done; lia. }
  induction Hok as [|e out He Hok IH]; intros Hn; cbn [emit_leaf]; rewrite ?w32_small by lia.
  - split; [by apply Forall_singleton|]. apply Hnewb.
  - cbn [block_at] in Hn. destruct (covers e lbn) eqn:Ec; [done|]. specialize (IH Hn).
    destruct out as [|e2 out].
    + destruct He as (H1' & H2' & H3' & H4'). rewrite !w64_small by lia.
      destruct (_ && _) eqn:E.
      * zbool. subst lbn. rewrite w16_small by lia.
        split; [apply Forall_singleton; unfold bm_leaf_ok; simpl; lia|].
        intros lb. cbn [block_at]. unfold covers. simpl.
        destruct (LogBlock e <=? lb) eqn:E1, (lb <? LogBlock e + (Count e + 1)) eqn:E2,
          (lb <? LogBlock e + Count e) eqn:E3; zbool; simpl; case_decide; try done; try lia;
          f_equal; lia.
      * split; [repeat (apply Forall_cons; split); auto; unfold bm_leaf_ok; auto|].
        intros lb. change (block_at [e; Leaf lbn phys 1] lb)
          with (if covers e lb then Some (PhysBlock e + (lb - LogBlock e))
                else block_at [Leaf lbn phys 1] lb).
        rewrite Hnewb. cbn [block_at]. destruct (covers e lb) eqn:Ecl, (decide (lb = lbn)); try done.
        subst. congruence.
    + destruct IH as [IH1 IH2]. split; [by apply Forall_cons|].
      intros lb. cbn [block_at] in *. rewrite IH2.
      destruct (covers e lb) eqn:Ecl, (decide (lb = lbn)); try done. subst. congruence.
Qed.

(** 0 is a hole. *)
Definition nz (p : Z) : option Z := if p =? 0 then None else Some p.

(** The leaves emitted so far are below [hi]. *)
Definition bm_inv (st : bmstate) (hi : Z) : Prop :=
  Forall bm_leaf_ok (bm_out st) /\ forall lb, hi <= lb -> block_at (bm_out st) lb = None.

(** The step from [st] to [st'] has added exactly the blocks [f] names in
    [lo, hi) that lie below [nblocks]. *)
Record covered (st st' : bmstate) (lo hi : Z) (f : Z -> res Z) : Prop := {
  cov_inv : bm_inv st' hi;
  cov_old : forall lb, lb < lo -> block_at (bm_out st') lb = block_at (bm_out st) lb;
  cov_new : forall lb, lo <= lb < hi -> lb < nblocks ->
    exists p, f lb = Ok p /\ block_at (bm_out st') lb = nz p;
  cov_beyond : forall lb, lo <= lb -> nblocks <= lb -> block_at (bm_out st') lb = None
}.

Lemma covered_same st lo hi f :
  bm_inv st lo -> lo <= hi ->
  (forall lb, lo <= lb < hi -> lb < nblocks -> f lb = Ok 0) ->
  covered st st lo hi f.
Proof.
  intros [Hok Hn] Hle Hf. constructor.
  - split; [done|]. intros. apply Hn. lia.
  - done.
  - intros lb Hlb Hnb. exists 0. split; [auto|]. apply Hn. lia.
  - intros. apply Hn. lia.
Qed.

Lemma covered_trans st st1 st2 lo mid hi f :
  lo <= mid <= hi -> covered st st1 lo mid f -> covered st1 st2 mid hi f ->
  covered st st2 lo hi f.
Proof.
  intros Hm [I1 O1 N1 B1] [I2 O2 N2 B2]. constructor; [done|..].
  - intros lb Hlb. rewrite O2, O1 by lia. done.
  - intros lb Hlb Hnb. destruct (decide (lb < mid)); [|apply N2; lia].
    destruct (N1 lb) as (p & ? & Hp); [lia..|]. exists p. split; [done|]. by rewrite O2.
  - intros lb Hlb Hnb. destruct (decide (lb < mid)); [|by apply B2; lia].
    rewrite O2 by done. by apply B1.
Qed.

Lemma covered_ext st st' lo hi f g :
  (forall lb, lo <= lb < hi -> f lb = g lb) -> covered st st' lo hi f -> covered st st' lo hi g.
Proof.
  intros He [I O N B]. constructor; [done..| |done].
  intros lb Hlb Hnb. rewrite <- He by done. auto.
Qed.

Lemma covered_out st st0 st' lo hi f :
  bm_out st0 = bm_out st -> covered st0 st' lo hi f -> covered st st' lo hi f.
Proof. intros He [I O N B]. constructor; try done. intros. by rewrite O, He. Qed.

Lemma emit_covered lbn p st st' :
  0 <= lbn -> lbn < nblocks -> 0 < p < 2 ^ 32 -> bm_inv st lbn ->
  emit sb lbn p st = Ok st' -> covered st st' lbn (lbn + 1) (fun _ => Ok p).
Proof.
  intros Hl Hnb Hp [Hok Hn] He. unfold emit, charge in He. res_inv. zbool.
  destruct (emit_leaf_spec (bm_out st) lbn p) as [Hok' Hb]; [done|lia|lia|by apply Hn|].
  constructor; simpl.
  - split; [done|]. intros lb Hlb. simpl. rewrite Hb, decide_False by lia. apply Hn. lia.
  - intros lb Hlb. by rewrite Hb, decide_False by lia.
  - intros lb Hlb _. exists p. split; [done|]. assert (lb = lbn) as -> by lia.
    rewrite Hb, decide_True by done. unfold nz. by rewrite eqb_false by lia.
  - intros lb Hlb Hnlb. rewrite Hb, decide_False by lia. by apply Hn.
Qed.

(** The pointer loop, for a handler that covers the span of one pointer. *)
Lemma walk_entries_covered sub g buf sp base n i st st' :
  0 < sp -> 0 <= base -> 0 <= i -> bytes_ok buf ->
  (forall lbn p st st', 0 <= lbn -> lbn < nblocks -> 0 < p < 2 ^ 32 -> bm_inv st lbn ->
     sub lbn p st = Ok st' -> covered st st' lbn (lbn + sp) (fun lb => g p (lb - lbn))) ->
  (forall idx, g 0 idx = Ok 0) ->
  bm_inv st (base + i * sp) ->
  walk_entries sub n buf i base sp nblocks st = Ok st' ->
  covered st st' (base + i * sp) (base + (i + Z.of_nat n) * sp)
    (fun lb => let! p := get32 buf ((lb - base) / sp * 4) in g p ((lb - base) mod sp)).
Proof.
  intros Hsp Hbase Hi Hbuf Hsub Hg0. revert i st Hi.
  induction n as [|n IH]; intros i st Hi Hinv Hw; simpl in Hw.
  { res_inv. apply covered_same; [done|lia|lia]. }
  destruct (nblocks <=? base + i * sp) eqn:E; zbool.
  { res_inv. apply covered_same; [done|nia|lia]. }
  apply rbind_Ok in Hw as (x & Hx & Hw).
  assert (forall st1, covered st st1 (base + i * sp) (base + i * sp + sp)
      (fun lb => g x (lb - (base + i * sp))) ->
    walk_entries sub n buf (i + 1) base sp nblocks st1 = Ok st' ->
    covered st st' (base + i * sp) (base + (i + Z.of_nat (S n)) * sp)
      (fun lb => let! p := get32 buf ((lb - base) / sp * 4) in g p ((lb - base) mod sp))) as Hstep.
  { intros st1 Hc1 Hw1. apply covered_trans with st1 (base + (i + 1) * sp); [nia|..].
    - replace (base + (i + 1) * sp) with (base + i * sp + sp) by lia.
      eapply covered_ext; [|exact Hc1]. intros lb Hlb. simpl.
      assert ((lb - base) / sp = i /\ (lb - base) mod sp = lb - (base + i * sp)) as [-> ->].
      { assert (lb - base = sp * i + (lb - (base + i * sp))) as Heq by lia.
        split; [symmetry; eapply Z.div_unique_pos | symmetry; eapply Z.mod_unique_pos];
          try exact Heq; lia. }
      by rewrite Hx.
    - replace (i + Z.of_nat (S n)) with (i + 1 + Z.of_nat n) by lia.
      apply IH; [lia| |done]. replace (base + (i + 1) * sp) with (base + i * sp + sp) by lia.
      apply Hc1. }
  destruct (x =? 0) eqn:E0; zbool; res_inv.
  - subst x. apply (Hstep st); [|done]. apply covered_same; [done|lia|]. intros. apply Hg0.
  - unfold getN in Hx. res_inv. pose proof (u32_range buf (i * 4) Hbuf).
    apply (Hstep x0); [|done]. apply Hsub; try done; lia.
Qed.

Lemma bm_ptrs_pos : 0 < bm_ptrs sb.
Proof. unfold bm_ptrs. apply Z.div_str_pos. lia. Qed.

Lemma span_pos level : 0 < span sb level.
Proof. unfold span. apply Z.pow_pos_nonneg; [apply bm_ptrs_pos|lia]. Qed.

Lemma span_S level : span sb (S level) = bm_ptrs sb * span sb level.
Proof. unfold span. rewrite Nat2Z.inj_succ, Z.pow_succ_r by lia. done. Qed.

Lemma probe_zero level idx : probe d fsOffset sb level 0 idx = Ok 0.
Proof. by destruct level. Qed.

Lemma walk_node_covered level sub blk base st st' used visited buf :
  0 <= base -> 0 < blk -> bm_inv st base -> readRawBlock d fsOffset sb blk = Ok buf ->
  (forall lbn p st st', 0 <= lbn -> lbn < nblocks -> 0 < p < 2 ^ 32 -> bm_inv st lbn ->
     sub lbn p st = Ok st' ->
     covered st st' lbn (lbn + span sb level)
       (fun lb => probe d fsOffset sb level p (lb - lbn))) ->
  walk_entries sub (Z.to_nat (bm_ptrs sb)) buf 0 base (span sb level) nblocks
    (BmState used visited (bm_out st)) = Ok st' ->
  covered st st' base (base + span sb (S level))
    (fun lb => probe d fsOffset sb (S level) blk (lb - base)).
Proof.
  intros Hb Hblk Hinv Hread Hsub Hw.
  assert (bytes_ok buf) as Hbuf.
  { unfold readRawBlock in Hread. res_inv. by eapply read_at_bytes_ok. }
  pose proof (span_pos level). pose proof bm_ptrs_pos.
  apply (walk_entries_covered _ (probe d fsOffset sb level)) in Hw;
    [|done|done|lia|done|done|apply probe_zero|by rewrite Z.mul_0_l, Z.add_0_r].
  rewrite span_S. rewrite Z.mul_0_l, Z.add_0_r, Z.add_0_l, Z2Nat.id in Hw by lia.
  eapply (covered_out st (BmState used visited (bm_out st))); [done|].
  eapply covered_ext; [|exact Hw]. intros lb Hlb. cbn [probe].
  rewrite eqb_false by lia. rewrite Hread. done.
Qed.

Lemma walk_covered level blk base st st' :
  0 <= base -> 0 < blk -> bm_inv st base ->
  walk d fsOffset sb level nblocks blk base st = Ok st' ->
  covered st st' base (base + span sb (S level))
    (fun lb => probe d fsOffset sb (S level) blk (lb - base)).
Proof.
  revert blk base st st'. induction level as [|level IH]; intros blk base st st' Hb Hblk Hinv Hw;
    cbn [walk] in Hw; res_inv; unfold charge in *; res_inv; cbn [bm_visited bm_used bm_out] in *;
    destruct (vs_check _ blk) as [v|]; res_inv; eapply walk_node_covered; try done.
  - intros lbn p s s' Hl Hn Hp Hi He. change (span sb 0) with 1.
    eapply covered_ext; [|by apply emit_covered]. intros. simpl. by rewrite eqb_false by lia.
  - intros lbn p s s' Hl Hn Hp Hi He. apply IH; try done. lia.
Qed.

Lemma direct_entries_covered n iblock i st st' :
  0 <= i -> bytes_ok iblock -> bm_inv st i ->
  direct_entries sb n iblock i nblocks st = Ok st' ->
  covered st st' i (i + Z.of_nat n) (fun lb => get32 iblock (lb * 4)).
Proof.
  intros Hi Hb. revert i st Hi. induction n as [|n IH]; intros i st Hi Hinv Hd; simpl in Hd.
  { res_inv. apply covered_same; [done|lia..]. }
  destruct (nblocks <=? i) eqn:E; zbool.
  { res_inv. apply covered_same; [done|lia..]. }
  apply rbind_Ok in Hd as (x & Hx & Hd).
  assert (forall st1, covered st st1 i (i + 1) (fun lb => get32 iblock (lb * 4)) ->
    direct_entries sb n iblock (i + 1) nblocks st1 = Ok st' ->
    covered st st' i (i + Z.of_nat (S n)) (fun lb => get32 iblock (lb * 4))) as Hstep.
  { intros st1 Hc1 Hd1. apply covered_trans with st1 (i + 1); [lia|done|].
    replace (i + Z.of_nat (S n)) with (i + 1 + Z.of_nat n) by lia.
    apply IH; [lia|apply Hc1|done]. }
  destruct (x =? 0) eqn:E0; zbool; res_inv.
  - apply (Hstep st); [|done]. apply covered_same; [done|lia|].
    intros lb Hlb _. replace lb with i by lia. by rewrite Hx, E0.
  - eapply Hstep; [|done]. unfold getN in Hx. res_inv.
    pose proof (u32_range iblock (i * 4) Hb).
    eapply covered_ext; [|eapply (emit_covered i); [done|done| |done|done]; lia].
    intros lb Hlb. replace lb with i by lia. unfold getN. by rewrite E1.
Qed.

(** The logical blocks the levels cover together. *)
Fixpoint spans (levels : list nat) : Z :=
  match levels with
  | [] => 0
  | level :: levels' => span sb (S level) + spans levels'
  end.

Lemma spans_nonneg levels : 0 <= spans levels.
Proof. induction levels as [|l ls IH]; simpl; [lia|]. pose proof (span_pos (S l)). lia. Qed.

Lemma indirect_levels_covered levels iblock base st st' :
  0 <= base -> bytes_ok iblock -> bm_inv st base ->
  indirect_levels d fsOffset sb levels iblock base nblocks st = Ok st' ->
  covered st st' base (base + spans levels) (fun lb => probe_levels d fsOffset sb levels iblock (lb - base)).
Proof.
  intros Hbase Hb. revert base st Hbase.
  induction levels as [|level levels IH]; intros base st Hbase Hinv Hd; simpl in Hd.
  { res_inv. simpl. apply covered_same; [done|lia..]. }
  cbn [spans]. pose proof (span_pos (S level)). pose proof (spans_nonneg levels).
  destruct (nblocks <=? base) eqn:E; zbool.
  { res_inv. apply covered_same; [done|lia|lia]. }
  apply rbind_Ok in Hd as (p & Hp & Hd). apply rbind_Ok in Hd as (st1 & Hst1 & Hd).
  assert (covered st st1 base (base + span sb (S level))
    (fun lb => probe d fsOffset sb (S level) p (lb - base))) as Hc1.
  { destruct (p =? 0) eqn:E0; zbool; res_inv.
    - apply covered_same; [done|lia|]. intros. apply probe_zero.
    - unfold getN in Hp. res_inv.
      pose proof (u32_range iblock ((12 + Z.of_nat level) * 4) Hb).
      apply walk_covered; [done|lia|done|done]. }
  apply covered_trans with st1 (base + span sb (S level)); [lia|..].
  - eapply covered_ext; [|exact Hc1]. intros lb Hlb. cbn [probe_levels].
    rewrite ltb_true by lia. by rewrite Hp.
  - replace (base + (span sb (S level) + spans levels))
      with (base + span sb (S level) + spans levels) by lia.
    eapply covered_ext; [|apply IH; [lia|apply Hc1|exact Hd]].
    intros lb Hlb. cbn [probe_levels]. rewrite ltb_false by lia. f_equal. lia.
Qed.

End blockmap.

(** The leaves of a block map are what following the pointers block by block
    gives: holes included, nothing past the end of the file. *)
Lemma blockMapExtents_probe {D} `{BlockDevLaws D} `{SortSlice} `{Safeio}
    (d : D) fsOffset sb i leaves lb :
  4 <= BlockSize sb -> 100 <= zlen (in_raw i) -> bytes_ok (in_raw i) -> 0 < in_size i ->
  blockMapExtents d fsOffset sb i = Ok leaves -> 0 <= lb ->
  if lb <? size_blocks sb (in_size i)
  then lb < 12 + spans sb [0; 1; 2]%nat ->
    exists p, probe_block d fsOffset sb (zslice (in_raw i) 40 60) lb = Ok p /\
      block_at leaves lb = nz p
  else block_at leaves lb = None.
Proof.
  intros Hbs Hl Hb Hsz Hm Hlb. unfold blockMapExtents in Hm.
  rewrite ltb_false, eqb_false in Hm by lia. unfold inodeOffBlock in Hm.
  rewrite subslice_ok in Hm by lia. change (40 + 60 - 40) with 60 in Hm. cbn [rbind] in Hm.
  res_inv. set (iblock := zslice (in_raw i) 40 60) in *.
  assert (bytes_ok iblock) by (unfold iblock; auto with bytes).
  pose proof (spans_nonneg sb Hbs [0; 1; 2]%nat).
  assert (bm_inv (BmState 0 vs_empty []) 0) as Hinit by (split; [constructor|done]).
  apply (direct_entries_covered sb (size_blocks sb (in_size i))) in Hx as C1; [|lia|done|done].
  change (0 + Z.of_nat 12) with 12 in C1.
  apply (indirect_levels_covered d fsOffset sb (size_blocks sb (in_size i)) Hbs) in Hx0 as C2;
    [|lia|done|apply C1].
  set (f := fun lb => probe_block d fsOffset sb iblock lb).
  assert (covered (size_blocks sb (in_size i)) (BmState 0 vs_empty []) x0 0
    (12 + spans sb [0; 1; 2]%nat) f) as C.
  { apply covered_trans with x 12; [lia|..].
    - eapply covered_ext; [|exact C1]. intros b Hbb. unfold f, probe_block.
      by rewrite ltb_true by lia.
    - eapply covered_ext; [|exact C2]. intros b Hbb. unfold f, probe_block.
      by rewrite ltb_false by lia. }
  destruct (lb <? _) eqn:E; zbool.
  - intros Hcap. destruct (cov_new _ _ _ _ _ _ C lb) as (p & Hp & ?); [lia..|].
    exists p. done.
  - by apply (cov_beyond _ _ _ _ _ _ C).
Qed.

(** * Inode checksum and size *)

(** The inode image with both checksum halves zero. *)
Definition csum_zeroed (raw : list Z) : list Z :=
  let raw0 := set16 raw inodeOffCsumLo 0 in
  if inodeOffCsumHi + 2 <? zlen raw then set16 raw0 inodeOffCsumHi 0 else raw0.

(** The stored halves are those of the CRC over number, generation and
    zeroed image. *)
Definition inode_csum_ok (sb : superblock) (i : inode) : Prop :=
  let csum := inode_crc sb (in_num i) (u32 (in_raw i) 100) (csum_zeroed (in_raw i)) in
  u16 (in_raw i) inodeOffCsumLo = csum mod 2 ^ 16 /\
  (inodeOffCsumHi + 2 < zlen (in_raw i) -> u16 (in_raw i) inodeOffCsumHi = csum / 2 ^ 16).

Lemma inode_crc_range sb num gen raw :
  0 <= csumSeed sb < 2 ^ 32 -> bytes_ok raw -> 0 <= inode_crc sb num gen raw < 2 ^ 32.
Proof.
  intros Hs Hb. unfold inode_crc.
  repeat (apply crc32c_range; [|by auto with bytes]). done.
Qed.

Lemma setN_setN_comm n m l o1 o2 v1 v2 :
  0 <= o1 -> 0 <= o2 -> o1 + Z.of_nat n <= zlen l -> o2 + Z.of_nat m <= zlen l ->
  (o1 + Z.of_nat n <= o2 \/ o2 + Z.of_nat m <= o1) ->
  setN n (setN m l o2 v2) o1 v1 = setN m (setN n l o1 v1) o2 v2.
Proof.
  intros. apply list_eq. intros i. unfold setN.
  destruct (decide (o1 <= Z.of_nat i < o1 + Z.of_nat n)).
  - rewrite zsplice_lookup_new by (rewrite ?zlen_zsplice, ?zlen_le_encode; lia).
    rewrite zsplice_lookup_old by (rewrite ?zlen_zsplice, ?zlen_le_encode; lia).
    by rewrite zsplice_lookup_new by (rewrite ?zlen_le_encode; lia).
  - rewrite zsplice_lookup_old by (rewrite ?zlen_zsplice, ?zlen_le_encode; lia).
    destruct (decide (o2 <= Z.of_nat i < o2 + Z.of_nat m)).
    + by rewrite !zsplice_lookup_new by (rewrite ?zlen_zsplice, ?zlen_le_encode; lia).
    + by rewrite !zsplice_lookup_old by (rewrite ?zlen_zsplice, ?zlen_le_encode; lia).
Qed.

Lemma csum_rezero raw lo hi :
  132 <= zlen raw ->
  let raw0 := set16 (set16 raw 124 0) 130 0 in
  set16 (set16 (set16 (set16 raw0 124 lo) 130 hi) 124 0) 130 0 = raw0.
Proof.
  intros Hl raw0. unfold raw0.
  rewrite (setN_setN_comm 2 2 (set16 (set16 (set16 raw 124 0) 130 0) 124 lo) 124 130) by zl.
  rewrite !setN_setN_same by zl.
  rewrite (setN_setN_comm 2 2 (set16 raw 124 0) 124 130) by zl.
  by rewrite !setN_setN_same by zl.
Qed.

Lemma computeInodeCsum_ok sb i :
  128 <= zlen (in_raw i) -> bytes_ok (in_raw i) -> 0 <= csumSeed sb < 2 ^ 32 ->
  exists i', computeInodeCsum sb i = Ok i' /\ inode_csum_ok sb i' /\
    in_num i' = in_num i /\ in_size i' = in_size i /\ in_mode i' = in_mode i /\
    zlen (in_raw i') = zlen (in_raw i) /\
    forall n off, 0 <= off ->
      (off + Z.of_nat n <= 124 \/ 126 <= off /\ off + Z.of_nat n <= 130 \/ 132 <= off) ->
      uN n (in_raw i') off = uN n (in_raw i) off.
Proof.
  intros Hl Hb Hs. unfold computeInodeCsum, generation, inodeOffCsumLo, inodeOffCsumHi.
  rewrite putN_ok by lia. cbn [rbind]. rewrite zlen_setN. change (130 + 2) with 132.
  destruct (132 <? zlen (in_raw i)) eqn:Eb; zbool; cbn [in_raw in_with_raw].
  - bytes. set (raw0 := set16 (set16 (in_raw i) 124 0) 130 0).
    pose proof (inode_crc_range sb (in_num i) (u32 (in_raw i) 100) raw0 Hs ltac:(unfold raw0; auto with bytes)) as Hr.
    set (c := inode_crc _ _ _ raw0) in *.
    eexists. split; [done|]. split_and!; [|done|done|done|unfold raw0; simpl; zl|].
    + unfold inode_csum_ok, csum_zeroed, inodeOffCsumLo, inodeOffCsumHi. simpl.
      unfold raw0. bytes. change (130 + 2) with 132. rewrite (ltb_true 132) by lia.
      rewrite csum_rezero by lia. fold raw0. fold c. change 0xFFFF with (Z.ones 16). rewrite Z.land_ones by lia.
      rewrite Z.shiftr_div_pow2 by lia. unfold w16.
      change (256 ^ Z.of_nat 2) with (2 ^ 16). rewrite !Z.mod_mod by lia.
      split; [done|]. intros _. apply Z.mod_small.
      split; [apply Z.div_pos; lia|]. apply Z.div_lt_upper_bound; lia.
    + intros n off Ho Hd. simpl. unfold raw0. rewrite !uN_setN_ne by zl. done.
  - bytes. set (raw0 := set16 (in_raw i) 124 0).
    pose proof (inode_crc_range sb (in_num i) (u32 (in_raw i) 100) raw0 Hs ltac:(unfold raw0; auto with bytes)) as Hr.
    set (c := inode_crc _ _ _ raw0) in *.
    eexists. split; [done|]. split_and!; [|done|done|done|unfold raw0; simpl; zl|].
    + unfold inode_csum_ok, csum_zeroed, inodeOffCsumLo, inodeOffCsumHi. simpl.
      unfold raw0. bytes. change (130 + 2) with 132. rewrite (ltb_false 132) by lia.
      rewrite !setN_setN_same by zl. fold raw0. fold c.
      change 0xFFFF with (Z.ones 16). rewrite Z.land_ones by lia.
      change (256 ^ Z.of_nat 2) with (2 ^ 16). rewrite !Z.mod_mod by lia.
      split; [done|]. intros; lia.
    + intros n off Ho Hd. simpl. unfold raw0. rewrite !uN_setN_ne by zl. done.
Qed.

Lemma csumSeed_range sb :
  bytes_ok (UUID sb) -> 0 <= ChecksumSeed sb < 2 ^ 32 -> 0 <= csumSeed sb < 2 ^ 32.
Proof.
  intros. unfold csumSeed. destruct (has_flag _ _); [done|]. apply crc32c_range; [lia|done].
Qed.

Lemma setSize_decode i size :
  112 <= zlen (in_raw i) -> 0 <= size < 2 ^ 64 -> u16 (in_raw i) 0 = in_mode i ->
  exists i', setSize i size = Ok i' /\ decodeInode (in_num i) (in_raw i') = Ok i' /\
    in_size i' = size.
Proof.
  intros Hl Hs Hm. unfold setSize. bytes. eexists. split; [done|]. split; [|done].
  simpl. unfold decodeInode. bytes. rewrite split_hi_lo by done. by rewrite Hm.
Qed.
