(* ===== verification/Inline.v ===== *)
(** Inline data ([src/inline.go]): file contents kept in the inode's [i_block]
    area and in the system.data extended attribute. *)

From S2P Require Import Prelude Bytes Device Superblock Bgd GoLib Extent Limits Inode.

Definition xattrMagic : Z := 0xEA020000.
Definition xattrIndexSystem : Z := 7.
Definition inlineIBlockMax : Z := 60.
Definition xattrEntrySize : Z := 16.
(** "data". *)
Definition name_data : list Z := [100; 97; 116; 97].

Definition inodeExtraIsize (i : inode) : res Z :=
  if zlen (in_raw i) <=? inodeOffExtraIsize + 1 then Ok 0 else
  let! extra := get16 (in_raw i) inodeOffExtraIsize in
  if extra <? 0 then Ok 0 else
  if zlen (in_raw i) <? 128 + extra then Ok (zlen (in_raw i) - 128) else Ok extra.

Definition isInline (i : inode) : res bool :=
  let! fl := flags i in Ok (has_flag fl InodeFlagInlineData).

(** The entry loop; an entry is at least [xattrEntrySize] bytes, so the length
    of the buffer is enough fuel. *)
Fixpoint find_xattr (fuel : nat) (buf : list Z) (off valueBase : Z) : res (option (list Z)) :=
  match fuel with
  | O => Err OutOfFuel
  | S fuel' =>
      if zlen buf <? off + 4 then Ok None else
      let! nameLen := get8 buf off in
      let! nameIndex := get8 buf (off + 1) in
      if (nameLen =? 0) && (nameIndex =? 0) then Ok None else
      if zlen buf <? off + xattrEntrySize then Ok None else
      let! valueOffs := get16 buf (off + 2) in
      let! valueInum := get32 buf (off + 4) in
      let! valueSize := get32 buf (off + 8) in
      let nameOff := off + xattrEntrySize in
      if zlen buf <? nameOff + nameLen then Ok None else
      let! name := subslice buf nameOff (nameOff + nameLen) in
      if (nameIndex =? xattrIndexSystem) && bool_decide (name = name_data) then
        if negb (valueInum =? 0)
        then Err (Errorf "ext4: system.data xattr stored in EA inode (unsupported)") else
        let vstart := valueBase + valueOffs in
        if (vstart <? 0) || (valueSize <? 0) || (zlen buf <? vstart + valueSize)
        then Err (Errorf "ext4: system.data xattr value out of range") else
        let! v := subslice buf vstart (vstart + valueSize) in
        Ok (Some v)
      else find_xattr fuel' buf (nameOff + Z.ldiff (nameLen + 3) 3) valueBase
  end.
Definition findSystemDataXattr (buf : list Z) (entriesStart valueBase : Z) : res (option (list Z)) :=
  find_xattr (S (length buf)) buf entriesStart valueBase.

Section io.
Context {D : Type} `{BlockDev D}.
Context (d : D) (fsOffset : Z) (sb : superblock).

(** The search in the inode's own attribute area. *)
Definition systemDataInInode (i : inode) : res (option (list Z)) :=
  let! extra := inodeExtraIsize i in
  let hdr := 128 + extra in
  if hdr + 4 <=? zlen (in_raw i) then
    let! magic := get32 (in_raw i) hdr in
    if magic =? xattrMagic then findSystemDataXattr (in_raw i) (hdr + 4) (hdr + 4) else Ok None
  else Ok None.

(** The search in the external attribute block. *)
Definition systemDataInBlock (i : inode) : res (option (list Z)) :=
  if 104 + 4 <=? zlen (in_raw i) then
    let! aclBlock := get32 (in_raw i) 104 in
    if aclBlock =? 0 then Ok None else
    let! buf := rwrap "ext4: read xattr block" (readRawBlock d fsOffset sb aclBlock) in
    if 4 <=? zlen buf then
      let! magic := get32 buf 0 in
      if magic =? xattrMagic then findSystemDataXattr buf 32 0 else Ok None
    else Ok None
  else Ok None.

Definition systemDataValue (i : inode) : res (option (list Z)) :=
  let! v := systemDataInInode i in
  match v with
  | Some v => Ok (Some v)
  | None => systemDataInBlock i
  end.

Definition inlineData (i : inode) : res (list Z) :=
  let size := i64 (in_size i) in
  if size <? 0 then Err (Errorf "ext4: inode has negative size") else
  let! iblock := subslice (in_raw i) inodeOffBlock (inodeOffBlock + inlineIBlockMax) in
  if size <=? inlineIBlockMax then Ok (zslice iblock 0 size) else
  let! val := systemDataValue i in
  match val with
  | None => Err (Errorf "ext4: system.data xattr is missing")
  | Some val =>
      let overflow := size - inlineIBlockMax in
      if zlen val <? overflow then Err (Errorf "ext4: inline overflow exceeds system.data value")
      else
        let! v := subslice val 0 overflow in
        Ok (iblock ++ v)
  end.

(** * Termination and safety *)

(** Neither a panic nor a loop that has not ended. *)
Definition finishes {A} (r : res A) : Prop := r <> Panic /\ r <> Err OutOfFuel.

Lemma ldiff3_bound n : 0 <= n -> 0 <= Z.ldiff (n + 3) 3.
Proof. intros. apply Z.ldiff_nonneg. lia. Qed.

Lemma find_xattr_finishes fuel buf off valueBase :
  bytes_ok buf -> 0 <= off -> 0 <= valueBase -> (0 < fuel)%nat ->
  zlen buf - off < Z.of_nat fuel ->
  finishes (find_xattr fuel buf off valueBase).
Proof.
  intros Hb. revert off. induction fuel as [|fuel IH]; intros off Ho Hv H0 Hf; [lia|].
  unfold finishes in *. cbn [find_xattr]. unfold xattrEntrySize.
  destruct (_ <? off + 4) eqn:E1; zbool; [done|].
  rewrite !get8_ok by lia. cbn [rbind]. pose proof (u8_range buf off Hb).
  destruct (_ && _); [done|]. destruct (_ <? off + 16) eqn:E2; zbool; [done|].
  rewrite !getN_ok by lia. cbn [rbind].
  destruct (_ <? off + 16 + _) eqn:E3; zbool; [done|].
  rewrite subslice_ok by lia. cbn [rbind].
  pose proof (u16_range buf (off + 2) Hb). pose proof (u32_range buf (off + 8) Hb).
  destruct (_ && _).
  - destruct (negb _); [done|]. destruct (_ || _) eqn:E4; [done|]. zbool.
    rewrite subslice_ok by lia. done.
  - pose proof (ldiff3_bound (u8 buf off)). apply IH; lia.
Qed.

Lemma findSystemDataXattr_finishes buf start base :
  bytes_ok buf -> 0 <= start -> 0 <= base -> finishes (findSystemDataXattr buf start base).
Proof. intros. apply find_xattr_finishes; auto; unfold zlen; lia. Qed.

Lemma inodeExtraIsize_range i :
  bytes_ok (in_raw i) -> 128 <= zlen (in_raw i) ->
  exists e, inodeExtraIsize i = Ok e /\ 0 <= e /\ 128 + e <= zlen (in_raw i).
Proof.
  intros Hb Hl. unfold inodeExtraIsize, inodeOffExtraIsize.
  pose proof (u16_range (in_raw i) 128 Hb).
  destruct (_ <=? _) eqn:E; zbool; [exists 0; split_and!; [done|lia..]|].
  rewrite getN_ok by lia. cbn [rbind]. rewrite ltb_false by lia.
  destruct (_ <? _) eqn:E2; zbool; eexists; (split; [done|]); lia.
Qed.

Lemma finishes_bind {A B} (m : res A) (k : A -> res B) :
  finishes m -> (forall a, m = Ok a -> finishes (k a)) -> finishes (rbind m k).
Proof.
  intros [H1 H2] Hk. destruct m as [a|e|]; simpl; [by apply Hk| |done].
  split; [done|]. congruence.
Qed.

Lemma finishes_ok {A} (a : A) : finishes (Ok a).
Proof. done. Qed.

Lemma finishes_read off n : finishes (read_at d off n) \/ exists e, read_at d off n = Err e.
Proof.
  unfold read_at. destruct (dev_ReadAt d off n) as [? [e|]]; [right; eauto|left; done].
Qed.

End io.

Section inline_laws.
Context {D : Type} `{BlockDevLaws D}.
Context (d : D) (fsOffset : Z) (sb : superblock).

Lemma readRawBlock_finishes b : finishes (rwrap "ext4: read xattr block" (readRawBlock d fsOffset sb b)).
Proof.
  unfold readRawBlock, finishes.
  destruct (finishes_read d (i64 (fsOffset + b * BlockSize sb)) (BlockSize sb)) as [[? ?]|[e ->]];
    [|done]. destruct (read_at _ _ _); done.
Qed.

Lemma systemDataValue_finishes i :
  bytes_ok (in_raw i) -> 128 <= zlen (in_raw i) -> finishes (systemDataValue d fsOffset sb i).
Proof.
  intros Hb Hl. unfold systemDataValue. apply finishes_bind.
  - unfold systemDataInInode. destruct (inodeExtraIsize_range i Hb Hl) as (e & -> & He & Hfit).
    cbn [rbind]. destruct (_ <=? _) eqn:E; zbool; [|done]. rewrite getN_ok by lia. cbn [rbind].
    destruct (_ =? _); [|done]. apply findSystemDataXattr_finishes; [done|lia..].
  - intros [v|] _; [done|]. unfold systemDataInBlock.
    rewrite leb_true, getN_ok by lia. cbn [rbind]. destruct (_ =? 0); [done|].
    apply finishes_bind; [apply readRawBlock_finishes|]. intros buf Hr.
    unfold readRawBlock in Hr. res_inv. pose proof (read_at_bytes_ok _ _ _ _ Hr) as Hbb.
    destruct (4 <=? zlen buf) eqn:E; zbool; [|done]. rewrite getN_ok by lia. cbn [rbind].
    destruct (_ =? _); [|done]. apply findSystemDataXattr_finishes; [done|lia..].
Qed.

(** The inline contents have exactly [i_size] bytes and start with the
    [i_block] area; reading them neither panics nor loops. *)
Lemma inlineData_spec i :
  bytes_ok (in_raw i) -> 128 <= zlen (in_raw i) -> 0 <= in_size i < 2 ^ 63 ->
  finishes (inlineData d fsOffset sb i) /\
  forall data, inlineData d fsOffset sb i = Ok data ->
    zlen data = in_size i /\
    zslice data 0 (Z.min 60 (in_size i)) = zslice (in_raw i) 40 (Z.min 60 (in_size i)).
Proof.
  intros Hb Hl Hs. unfold inlineData, inodeOffBlock, inlineIBlockMax.
  rewrite i64_small by lia. rewrite ltb_false by lia. rewrite subslice_ok by lia.
  change (40 + 60 - 40) with 60. cbn [rbind]. destruct (_ <=? 60) eqn:E; zbool.
  - split; [done|]. intros data [= <-]. rewrite !Z.min_r by lia.
    split; [rewrite zlen_zslice; zl|]. rewrite !zslice_zslice by lia. f_equal. 
  - split.
    + apply finishes_bind; [by apply systemDataValue_finishes|]. intros [v|] _; [|done].
      destruct (_ <? _) eqn:E2; zbool; [done|]. rewrite subslice_ok by lia. done.
    + intros data Hd. res_inv. destruct x as [v|]; res_inv. zbool.
      rewrite subslice_ok in Hx0 by lia. res_inv. rewrite Z.sub_0_r.
      rewrite Z.min_l by lia. split; [zl|].
      rewrite zslice_app_l by zl. rewrite zslice_zslice by lia. f_equal.
Qed.

End inline_laws.
