(* ===== verification/FileRead.v ===== *)
(** Reading regular files ([readFileData] of [src/inode.go], [blockMapData] and
    [copyLeaves] of [src/blockmap.go], [newFile] and [ReadAt] of
    [src/open.go]), against one reference: the contents a block map gives a
    file, with zeros in the holes. *)

From S2P Require Import Prelude Bytes Device Superblock Bgd GoLib Extent Limits Inode Inline.
From Stdlib Require Import Sorting.Sorted.

Section read.
Context {D : Type} `{BlockDev D} `{SortSlice} `{Safeio}.
Context (d : D) (fsOffset : Z) (sb : superblock).

(** * Whole files *)

(** The re-read under the inode lock: the on-disk inode when it can be read,
    the caller's otherwise. *)
Definition rereadInode (i : inode) : res inode :=
  if (InodesPerGroup sb =? 0) || (BlockSize sb =? 0) || (InodeSize sb =? 0) then Ok i else
  let g := w32 (in_num i - 1) / InodesPerGroup sb in
  let localIdx := w32 (in_num i - 1) mod InodesPerGroup sb in
  match readBGD d fsOffset sb g with
  | Ok bg =>
      let off := InodeTableBlock bg * BlockSize sb + localIdx * InodeSize sb in
      match read_at d (i64 (fsOffset + off)) (InodeSize sb) with
      | Ok raw => decodeInode (in_num i) raw
      | _ => Ok i
      end
  | Err _ => Ok i
  | Panic => Panic
  end.

(** One extent, block by block, to its logical offset. *)
Fixpoint copy_extent (n : nat) (e : extentLeaf) (blk size : Z) (out : list Z) : res (list Z) :=
  match n with
  | O => Ok out
  | S n' =>
      let bs := BlockSize sb in
      let physBlock := w64 (PhysBlock e + blk) in
      if negb (BlocksCount sb =? 0) && (BlocksCount sb <=? physBlock)
      then Err (Errorf "ext4: data block out of range") else
      let logOff := (LogBlock e + blk) * bs in
      if size <=? logOff then copy_extent n' e (blk + 1) size out else
      let len := if size <? logOff + bs then size - logOff else bs in
      let! data := rwrap "ext4: read data block"
        (read_at d (i64 (fsOffset + physBlock * bs)) len) in
      let! _ := subslice out logOff (logOff + len) in
      copy_extent n' e (blk + 1) size (zsplice out logOff data)
  end.

Fixpoint copy_extents (exts : list extentLeaf) (size : Z) (out : list Z) : res (list Z) :=
  match exts with
  | [] => Ok out
  | e :: exts' =>
      let! out := copy_extent (Z.to_nat (Count e)) e 0 size out in
      copy_extents exts' size out
  end.

(** The highest logical byte the extents can address, for a superblock that
    declares no size. *)
Definition extents_end (exts : list extentLeaf) : Z :=
  fold_left (fun m e => Z.max m ((LogBlock e + Count e) * BlockSize sb)) exts 0.

(** The extent-mapped branch of [readFileData]. *)
Definition readExtentData (i : inode) : res (list Z) :=
  let! ext := extents d fsOffset sb i in
  let fallback := if (declaredBytes sb).2 then 0 else extents_end ext in
  let! out := rwrap "ext4: inode size invalid"
    (MakeBytes (clampInt64 (in_size i)) (fileSizeCeiling sb fallback)) in
  if (0 <? i64 (in_size i)) && (zlen ext =? 0)
  then Err (Errorf "ext4: inode has size but no extents") else
  copy_extents ext (i64 (in_size i)) out.

(** [copyLeaves]: whole runs, for block maps. *)
Fixpoint copyLeaves (leaves : list extentLeaf) (out : list Z) : res (list Z) :=
  match leaves with
  | [] => Ok out
  | e :: leaves' =>
      let bs := BlockSize sb in
      let size := zlen out in
      let logOff := LogBlock e * bs in
      if size <=? logOff then copyLeaves leaves' out else
      let n := if size <? logOff + Count e * bs then size - logOff else Count e * bs in
      let! data := rwrap "ext4: read data block"
        (read_at d (i64 (fsOffset + i64 (w64 (PhysBlock e * bs)))) n) in
      let! _ := subslice out logOff (logOff + n) in
      copyLeaves leaves' (zsplice out logOff data)
  end.

Definition blockMapData (i : inode) : res (list Z) :=
  let! out := rwrap "ext4: inode size invalid"
    (MakeBytes (clampInt64 (in_size i)) (fileSizeCeiling sb 0)) in
  if zlen out =? 0 then Ok out else
  let! leaves := blockMapExtents d fsOffset sb i in
  copyLeaves leaves out.

Definition readFileData (i : inode) : res (list Z) :=
  let! i := rereadInode i in
  let! inlined := isInline i in
  if inlined : bool then inlineData d fsOffset sb i else
  let! fl := flags i in
  if negb (has_flag fl InodeFlagExtents) && negb (has_flag fl InodeFlagInlineData)
  then blockMapData i
  else readExtentData i.

(** * Open files *)

Record ext4File : Type := File {
  f_inline : option (list Z);
  f_extents : list extentLeaf;
  f_size : Z;
  f_blockSize : Z;
  f_inodeNum : Z;
  f_closed : bool;
  (** Wrapped in [readOnlyFile]: no positional writes. *)
  f_readonly : bool
}.

Definition newFile (i : inode) : res ext4File :=
  let! inlined := isInline i in
  if inlined : bool then
    let! data := inlineData d fsOffset sb i in
    Ok (File (Some data) [] (zlen data) (BlockSize sb) (in_num i) false true)
  else
  let! ext := readExtents d fsOffset sb i in
  let max := let '(m, known) := declaredBytes sb in
    if known : bool then m else extents_end ext in
  if (max <? 0) || (max <? in_size i)
  then Err (ErrWrap "ext4: inode size invalid" ErrTooLarge) else
  let size := i64 (in_size i) in
  let! fl := flags i in
  if (0 <? size) && (zlen ext =? 0) && has_flag fl InodeFlagExtents
  then Err (Errorf "ext4: inode has size but no extents") else
  let sorted := sort_by LogBlock ext in
  Ok (File None sorted size (BlockSize sb) (in_num i) false
        (negb (has_flag fl InodeFlagExtents))).

(** The search of [ReadAt]: the first extent that ends after the block. *)
Definition locate (exts : list extentLeaf) (logBlock : Z) : Z :=
  sort_Search (zlen exts) (fun k =>
    match exts !! Z.to_nat k with
    | Some e => logBlock <? LogBlock e + Count e
    | None => false
    end).

(** The loop of [ReadAt]: [acc] is what has been read so far.  Every round
    makes progress, so the length of the buffer is enough fuel. *)
Fixpoint readAt_loop (fuel : nat) (f : ext4File) (off plen : Z) (acc : list Z)
    : list Z * option error :=
  match fuel with
  | O => if zlen acc <? plen then (acc, Some OutOfFuel) else (acc, None)
  | S fuel' =>
      if plen <=? zlen acc then (acc, None) else
      let bs := f_blockSize f in
      let cur := off + zlen acc in
      if f_size f <=? cur then (acc, Some EOF) else
      let want := if f_size f - cur <? plen - zlen acc then f_size f - cur else plen - zlen acc in
      let logBlock := cur / bs in
      let within := cur mod bs in
      let i := locate (f_extents f) logBlock in
      let hole (lim : option Z) :=
        let chunk := match lim with
                     | Some l => if l <? want then l else want
                     | None => want
                     end in
        readAt_loop fuel' f off plen (acc ++ zeros chunk) in
      match f_extents f !! Z.to_nat i with
      | None => hole None
      | Some e =>
          if logBlock <? LogBlock e then hole (Some (LogBlock e * bs - cur)) else
          let skip := logBlock - LogBlock e in
          let physBlock := w64 (PhysBlock e + skip) in
          let avail := (Count e - skip) * bs - within in
          let chunk := if avail <? want then avail else want in
          let lastBlock := w64 (physBlock + (within + chunk - 1) / bs) in
          if negb (BlocksCount sb =? 0) && (BlocksCount sb <=? lastBlock)
          then (acc, Some (Errorf "ext4: data block out of range")) else
          let '(data, err) :=
            dev_ReadAt d (i64 (fsOffset + physBlock * bs + within)) chunk in
          match err with
          | Some e => (acc ++ data, Some (ErrWrap "ext4: read data block" e))
          | None => readAt_loop fuel' f off plen (acc ++ data)
          end
      end
  end.

Definition ReadAt (f : ext4File) (plen off : Z) : list Z * option error :=
  if f_closed f then ([], Some ErrClosed) else
  if off <? 0 then ([], Some (Errorf "ext4: ReadAt: negative offset")) else
  if f_size f <=? off then ([], Some EOF) else
  match f_inline f with
  | Some data =>
      let out := zslice data off plen in
      if zlen out <? plen then (out, Some EOF) else (out, None)
  | None => readAt_loop (Z.to_nat plen) f off plen []
  end.

End read.

(** * The reference contents *)

Section content.
Context {D : Type} `{BlockDevLaws D} `{SortSlice} `{Safeio}.
Context (d : D) (fsOffset : Z) (sb : superblock).
Hypothesis Hbs : 0 < BlockSize sb.

(** Byte [pos] of a file with the leaves [exts]: the device byte of the block
    the position is mapped to, zero in a hole. *)
Definition content (exts : list extentLeaf) (pos : Z) : Z :=
  match block_at exts (pos / BlockSize sb) with
  | Some p => dev_byte d (fsOffset + p * BlockSize sb + pos mod BlockSize sb)
  | None => 0
  end.

Lemma bytes_of_zeros v off n :
  0 <= n -> (forall i, off <= i < off + n -> v i = 0) -> bytes_of v off n = zeros n.
Proof.
  intros Hn Hz. apply list_u8_ext.
  - rewrite length_bytes_of. unfold zeros. by rewrite length_replicate.
  - intros i Hi. rewrite zlen_bytes_of in Hi by done. rewrite u8_bytes_of by done.
    rewrite Hz by lia. unfold u8, zeros. by rewrite lookup_replicate_2 by lia.
Qed.

Lemma bytes_of_shift v w off off' n :
  (forall i, 0 <= i < n -> v (off + i) = w (off' + i)) -> bytes_of v off n = bytes_of w off' n.
Proof.
  intros He. apply list_fmap_ext. intros k x Hk. apply lookup_seqZ in Hk. apply He. lia.
Qed.

Lemma content_hole exts cur n :
  0 <= n -> (forall lb, cur / BlockSize sb <= lb -> lb * BlockSize sb < cur + n -> block_at exts lb = None) ->
  bytes_of (content exts) cur n = zeros n.
Proof.
  intros Hn Hh. apply bytes_of_zeros; [done|]. intros pos Hp. unfold content.
  rewrite Hh; [done| |].
  - apply Z.div_le_mono; lia.
  - pose proof (Z.mul_div_le pos (BlockSize sb) Hbs). lia.
Qed.

(** A run of bytes inside one extent is contiguous on the device. *)
Lemma content_run exts e cur n :
  0 <= n -> 0 <= cur ->
  (forall lb, covers e lb = true -> block_at exts lb = Some (PhysBlock e + (lb - LogBlock e))) ->
  LogBlock e <= cur / BlockSize sb -> cur + n <= (LogBlock e + Count e) * BlockSize sb ->
  bytes_of (dev_byte d)
    (fsOffset + (PhysBlock e + (cur / BlockSize sb - LogBlock e)) * BlockSize sb
     + cur mod BlockSize sb) n =
  bytes_of (content exts) cur n.
Proof.
  intros Hn Hc Hcov Hlo Hhi. set (bs := BlockSize sb) in *. apply bytes_of_shift.
  intros i Hi. unfold content. fold bs.
  pose proof (Z.div_mod (cur + i) bs ltac:(lia)) as Hd.
  pose proof (Z.mod_pos_bound (cur + i) bs Hbs) as Hm.
  pose proof (Z.div_mod cur bs ltac:(lia)) as Hd0.
  assert (cur / bs <= (cur + i) / bs) by (apply Z.div_le_mono; lia).
  assert ((cur + i) / bs < LogBlock e + Count e) by (apply Z.div_lt_upper_bound; lia).
  rewrite Hcov by (unfold covers; rewrite leb_true, ltb_true by lia; done).
  f_equal. nia.
Qed.

End content.

(** * The binary search finds the extent *)

(** The block map of an open file: ascending, disjoint, no empty leaf. *)
Record map_ok (exts : list extentLeaf) : Prop := {
  mo_leaf : Forall leaf_ok exts;
  mo_nonempty : Forall (fun e => 0 < Count e) exts;
  mo_sorted : StronglySorted (fun a b => LogBlock a <= LogBlock b) exts;
  mo_disjoint : runs_disjoint LogBlock exts
}.

Lemma StronglySorted_lookup {A} (R : A -> A -> Prop) l i j x y :
  StronglySorted R l -> (i < j)%nat -> l !! i = Some x -> l !! j = Some y -> R x y.
Proof.
  intros Hs. revert i j. induction Hs as [|a l Hs IH Ha]; intros i j Hij Hx Hy; [done|].
  destruct j as [|j]; [lia|]. simpl in Hy. destruct i as [|i]; simpl in Hx.
  - simplify_eq. rewrite Forall_forall in Ha. apply Ha. by eapply list_elem_of_lookup_2.
  - apply (IH i j); [lia|done..].
Qed.

Lemma FOP_lookup {A} (R : A -> A -> Prop) l i j x y :
  ForallOrdPairs R l -> (i < j)%nat -> l !! i = Some x -> l !! j = Some y -> R x y.
Proof.
  intros Hs. revert i j. induction Hs as [|a l Ha Hs IH]; intros i j Hij Hx Hy; [done|].
  destruct j as [|j]; [lia|]. simpl in Hy. destruct i as [|i]; simpl in Hx.
  - simplify_eq. rewrite Forall_forall in Ha. apply Ha. by eapply list_elem_of_lookup_2.
  - apply (IH i j); [lia|done..].
Qed.

Lemma map_ok_ends exts i j a b :
  map_ok exts -> (i < j)%nat -> exts !! i = Some a -> exts !! j = Some b ->
  LogBlock a + Count a <= LogBlock b.
Proof.
  intros [_ Hne Hs Hd] Hij Ha Hb.
  pose proof (StronglySorted_lookup _ _ _ _ _ _ Hs Hij Ha Hb).
  pose proof (FOP_lookup _ _ _ _ _ _ Hd Hij Ha Hb) as Hdj.
  rewrite Forall_forall in Hne.
  pose proof (Hne a ltac:(by eapply list_elem_of_lookup_2)).
  pose proof (Hne b ltac:(by eapply list_elem_of_lookup_2)).
  unfold disjoint_on in Hdj. simpl in *. lia.
Qed.

(** Either the extent found covers the block, or no extent covers any block
    from it up to the start of the extent found. *)
Lemma locate_spec exts lb :
  map_ok exts ->
  match exts !! Z.to_nat (locate exts lb) with
  | Some e => e ∈ exts /\ lb < LogBlock e + Count e /\
      (lb < LogBlock e -> forall lb', lb <= lb' < LogBlock e -> block_at exts lb' = None)
  | None => forall lb', lb <= lb' -> block_at exts lb' = None
  end.
Proof.
  intros Hok. unfold locate.
  set (f := fun k => match exts !! Z.to_nat k with
                     | Some e => lb <? LogBlock e + Count e | None => false end).
  destruct (sort_Search_monotone (zlen exts) f (zlen_nonneg exts)) as (Hr & Hlow & Hhigh).
  { intros a b Hab Hb Hfa. unfold f in *.
    destruct (exts !! Z.to_nat a) as [ea|] eqn:Ea; [|done].
    destruct (lookup_lt_is_Some_2 exts (Z.to_nat b)) as [eb Eb]; [unfold zlen in Hb; lia|].
    rewrite Eb. destruct (decide (a = b)) as [->|]; [congruence|].
    pose proof (map_ok_ends exts (Z.to_nat a) (Z.to_nat b) ea eb Hok ltac:(lia) Ea Eb).
    zbool. apply ltb_true. pose proof (mo_nonempty _ Hok) as Hne. rewrite Forall_forall in Hne.
    pose proof (Hne eb ltac:(by eapply list_elem_of_lookup_2)). simpl in *. lia. }
  set (r := sort_Search (zlen exts) f) in *.
  assert (forall k e, exts !! k = Some e -> (k < Z.to_nat r)%nat -> LogBlock e + Count e <= lb) as Hbelow.
  { intros k e Hk Hlt. specialize (Hlow (Z.of_nat k) ltac:(lia)). unfold f in Hlow.
    rewrite Nat2Z.id, Hk in Hlow. by zbool. }
  destruct (exts !! Z.to_nat r) as [e|] eqn:Ee.
  - assert (r < zlen exts) as Hlt by (apply lookup_lt_Some in Ee; unfold zlen; lia).
    specialize (Hhigh Hlt). unfold f in Hhigh. rewrite Ee in Hhigh. zbool.
    split_and!; [by eapply list_elem_of_lookup_2|lia|]. intros Hle lb' Hlb'.
    apply block_at_None. intros e' He'. apply list_elem_of_lookup in He' as [k Hk].
    unfold covers. destruct (decide (k < Z.to_nat r)%nat).
    + specialize (Hbelow k e' Hk ltac:(done)). rewrite (ltb_false lb') by lia. apply andb_false_r.
    + rewrite leb_false; [done|]. destruct (decide (k = Z.to_nat r)) as [->|]; [simplify_eq; lia|].
      pose proof (map_ok_ends exts (Z.to_nat r) k e e' Hok ltac:(lia) Ee Hk).
      pose proof (mo_nonempty _ Hok) as Hne. rewrite Forall_forall in Hne.
      pose proof (Hne e ltac:(by eapply list_elem_of_lookup_2)). simpl in *. lia.
  - intros lb' Hlb'. apply block_at_None. intros e' He'.
    apply list_elem_of_lookup in He' as [k Hk]. unfold covers.
    apply lookup_ge_None in Ee. apply lookup_lt_Some in Hk as Hk'.
    specialize (Hbelow k e' Hk ltac:(unfold zlen in *; lia)).
    rewrite (ltb_false lb') by lia. apply andb_false_r.
Qed.

(** * Positional reads *)

Section readat.
Context {D : Type} `{BlockDevLaws D}.
Context (d : D) (fsOffset : Z) (sb : superblock) (f : ext4File).
Hypothesis Hbs : 0 < BlockSize sb.
Hypothesis Hfbs : f_blockSize f = BlockSize sb.
Hypothesis Hmap : map_ok (f_extents f).
(** The file system lies within the offsets an [int64] can express. *)
Hypothesis Hoff : 0 <= fsOffset.
Hypothesis Hcount : 0 < BlocksCount sb < 2 ^ 63.
Hypothesis Hend : fsOffset + BlocksCount sb * BlockSize sb < 2 ^ 63.

Definition fcontent : Z -> Z := content d fsOffset sb (f_extents f).

Lemma covers_block_at e lb :
  e ∈ f_extents f -> covers e lb = true ->
  block_at (f_extents f) lb = Some (PhysBlock e + (lb - LogBlock e)).
Proof. intros. apply block_at_covers; auto. apply Hmap. Qed.

(** What a read has produced, and why it stopped. *)
Definition read_result (off plen : Z) (r : list Z * option error) : Prop :=
  let '(out, err) := r in
  out = bytes_of fcontent off (zlen out) /\ zlen out <= plen /\ off + zlen out <= f_size f /\
  match err with
  | None => zlen out = plen
  | Some EOF => off + zlen out = f_size f /\ zlen out < plen
  | Some (ErrWrap _ e) => exists o n data, dev_ReadAt d o n = (data, Some e)
  | Some (Errorf _) => exists e, e ∈ f_extents f /\ BlocksCount sb < PhysBlock e + Count e
  | Some _ => False
  end.

Lemma extend_acc off acc data :
  acc = bytes_of fcontent off (zlen acc) ->
  data = bytes_of fcontent (off + zlen acc) (zlen data) ->
  acc ++ data = bytes_of fcontent off (zlen acc + zlen data).
Proof.
  intros Ha Hd. pose proof (zlen_nonneg acc). pose proof (zlen_nonneg data).
  rewrite bytes_of_app by lia. by f_equal.
Qed.

(** The device bytes of a chunk inside an extent are file contents: nothing
    wraps once the last block has been checked against the file system. *)
Lemma extent_chunk e cur chunk :
  e ∈ f_extents f -> 0 <= cur -> LogBlock e <= cur / BlockSize sb -> 0 < chunk ->
  cur + chunk <= (LogBlock e + Count e) * BlockSize sb ->
  let pb := w64 (PhysBlock e + (cur / BlockSize sb - LogBlock e)) in
  w64 (pb + (cur mod BlockSize sb + chunk - 1) / BlockSize sb) < BlocksCount sb ->
  forall n, 0 <= n <= chunk ->
  bytes_of (dev_byte d) (i64 (fsOffset + pb * BlockSize sb + cur mod BlockSize sb)) n =
  bytes_of fcontent cur n.
Proof.
  intros Hin Hc Hlo Hch Hhi pb Hlast n Hn. unfold pb in *. clear pb.
  pose proof (mo_leaf _ Hmap) as Hl. rewrite Forall_forall in Hl.
  destruct (Hl e Hin) as (L1 & L2 & L3). set (bs := BlockSize sb) in *.
  pose proof (Z.div_mod cur bs ltac:(lia)) as Hdm. pose proof (Z.mod_pos_bound cur bs Hbs) as Hmod.
  assert (cur / bs < LogBlock e + Count e) by (apply Z.div_lt_upper_bound; lia).
  assert (0 <= (cur mod bs + chunk - 1) / bs) by (apply Z.div_pos; lia).
  assert ((cur mod bs + chunk - 1) / bs <= Count e) by (apply Z.div_le_upper_bound; nia).
  rewrite (w64_small (PhysBlock e + _)) in Hlast |- * by lia.
  rewrite w64_small in Hlast by lia. rewrite i64_small by nia.
  apply content_run; [done|lia|lia| |done|fold bs; lia].
  intros lb Hcv. by apply covers_block_at.
Qed.

(** A chunk refused because it ends past the file system. *)
Lemma beyond_end e cur chunk :
  e ∈ f_extents f -> 0 <= cur -> LogBlock e <= cur / BlockSize sb -> 0 < chunk ->
  cur + chunk <= (LogBlock e + Count e) * BlockSize sb ->
  BlocksCount sb <= w64 (w64 (PhysBlock e + (cur / BlockSize sb - LogBlock e)) +
                         (cur mod BlockSize sb + chunk - 1) / BlockSize sb) ->
  BlocksCount sb < PhysBlock e + Count e.
Proof.
  intros Hin Hc Hlo Hch Hhi Hlast.
  pose proof (mo_leaf _ Hmap) as Hl. rewrite Forall_forall in Hl.
  destruct (Hl e Hin) as (L1 & L2 & L3). set (bs := BlockSize sb) in *.
  pose proof (Z.div_mod cur bs ltac:(lia)) as Hdm. pose proof (Z.mod_pos_bound cur bs Hbs) as Hmod.
  assert (cur / bs < LogBlock e + Count e) by (apply Z.div_lt_upper_bound; lia).
  assert (0 <= (cur mod bs + chunk - 1) / bs) by (apply Z.div_pos; lia).
  assert ((cur mod bs + chunk - 1) / bs < LogBlock e + Count e - cur / bs)
    by (apply Z.div_lt_upper_bound; nia).
  rewrite (w64_small (PhysBlock e + _)) in Hlast by lia. rewrite w64_small in Hlast by lia. lia.
Qed.

Lemma readAt_loop_correct fuel off plen acc :
  0 <= off -> plen - zlen acc <= Z.of_nat fuel -> zlen acc <= plen ->
  acc = bytes_of fcontent off (zlen acc) -> off + zlen acc <= f_size f ->
  read_result off plen (readAt_loop d fsOffset sb fuel f off plen acc).
Proof.
  intros Ho. revert acc. induction fuel as [|fuel IH]; intros acc Hf Hle Hacc Hsz; cbn [readAt_loop].
  { rewrite ltb_false by lia. simpl. split_and!; [done|lia..]. }
  destruct (plen <=? zlen acc) eqn:E1; zbool; [simpl; split_and!; [done|lia..]|].
  pose proof (zlen_nonneg acc) as Hz. rewrite Hfbs. set (cur := off + zlen acc) in *.
  destruct (f_size f <=? cur) eqn:E2; zbool; [simpl; split_and!; [done|lia..]|].
  set (want := if f_size f - cur <? plen - zlen acc then _ else _).
  assert (0 < want /\ want <= plen - zlen acc /\ cur + want <= f_size f) as Hw.
  { unfold want. destruct (_ <? _) eqn:E; zbool; lia. }
  clearbody want.
  assert (forall data, 0 < zlen data <= want -> data = bytes_of fcontent cur (zlen data) ->
    read_result off plen (readAt_loop d fsOffset sb fuel f off plen (acc ++ data))) as Hgo.
  { intros data Hd Heq. apply IH; rewrite ?zlen_app; try lia. by apply extend_acc. }
  assert (forall n, 0 < n <= want -> bytes_of fcontent cur n = zeros n ->
    read_result off plen (readAt_loop d fsOffset sb fuel f off plen (acc ++ zeros n))) as Hzero.
  { intros n Hn Heq. apply Hgo; rewrite zlen_zeros by lia; [lia|done]. }
  pose proof (Z.div_mod cur (BlockSize sb) ltac:(lia)) as Hdm.
  pose proof (Z.mod_pos_bound cur (BlockSize sb) Hbs) as Hmod.
  pose proof (locate_spec (f_extents f) (cur / BlockSize sb) Hmap) as Hloc.
  destruct (f_extents f !! _) as [e|] eqn:Ee.
  2:{ apply Hzero; [lia|]. apply content_hole; [done|lia|]. intros. by apply Hloc. }
  destruct Hloc as (Hin & Hup & Hhole). destruct (cur / _ <? LogBlock e) eqn:E3; zbool;
    set (chunk := if _ <? want then _ else want).
  - assert (0 < chunk <= want /\ cur + chunk <= LogBlock e * BlockSize sb) as Hch
      by (unfold chunk; destruct (_ <? want) eqn:E; zbool; nia).
    apply Hzero; [lia|]. apply content_hole; [done|lia|]. intros lb Hlb Hlt.
    apply Hhole; [done|]. split; [done|]. nia.
  - assert (0 < chunk <= want /\ cur + chunk <= (LogBlock e + Count e) * BlockSize sb) as Hch
      by (unfold chunk; destruct (_ <? want) eqn:E; zbool; nia).
    rewrite (eqb_false (BlocksCount sb)) by lia. cbn [negb andb].
    destruct (BlocksCount sb <=? _) eqn:E4; zbool.
    { simpl. split_and!; [done|lia|lia|]. exists e. split; [done|].
      apply (beyond_end e cur chunk); auto; lia. }
    pose proof (extent_chunk e cur chunk Hin ltac:(lia) E3 ltac:(lia) ltac:(lia) E4) as Hrun.
    destruct (dev_ReadAt d _ chunk) as [data [err|]] eqn:Er.
    + pose proof Er as Er0.
      apply dev_read_short in Er as [Hlen Heq]; [|lia]. pose proof (zlen_nonneg data).
      rewrite Hrun in Heq by lia. simpl. rewrite zlen_app.
      split_and!; [by apply extend_acc|lia|lia|by eauto].
    + apply dev_read_full in Er. rewrite Hrun in Er by lia.
      assert (zlen data = chunk) as Hlen by (rewrite Er; zl).
      apply Hgo; rewrite Hlen; [lia|done].
Qed.

(** [ReadAt] delivers the reference contents at the offset: all of it without
    an error, or up to the end of the file with [io.EOF]. *)
Lemma ReadAt_correct plen off :
  f_closed f = false -> f_inline f = None -> 0 <= plen -> 0 <= off ->
  read_result off plen (ReadAt d fsOffset sb f plen off) \/
  (f_size f <= off /\ ReadAt d fsOffset sb f plen off = ([], Some EOF)).
Proof.
  intros Hcl Hin Hp Ho. unfold ReadAt. rewrite Hcl, Hin. rewrite (ltb_false off) by lia.
  destruct (f_size f <=? off) eqn:E; zbool; [by right|]. left.
  apply readAt_loop_correct; try done; rewrite zlen_nil; lia.
Qed.

End readat.

(** * Whole-file reads *)

Section readall.
Context {D : Type} `{BlockDevLaws D} `{SortSlice} `{Safeio}.
Context (d : D) (fsOffset : Z) (sb : superblock).
Hypothesis Hbs : 0 < BlockSize sb.
Hypothesis Hoff : 0 <= fsOffset.
Hypothesis Hcount : 0 < BlocksCount sb < 2 ^ 63.
Hypothesis Hend : fsOffset + BlocksCount sb * BlockSize sb < 2 ^ 63.

(** The device byte an extent gives a position. *)
Definition ext_byte (e : extentLeaf) (pos : Z) : Z :=
  dev_byte d (fsOffset + (PhysBlock e + (pos / BlockSize sb - LogBlock e)) * BlockSize sb
    + pos mod BlockSize sb).

Lemma in_block pos lb :
  0 <= lb -> lb * BlockSize sb <= pos < (lb + 1) * BlockSize sb <-> pos / BlockSize sb = lb.
Proof.
  intros Hlb. split.
  - intros Hp. symmetry. apply Z.div_unique with (pos - lb * BlockSize sb); [left; lia|lia].
  - intros <-. pose proof (Z.div_mod pos (BlockSize sb) ltac:(lia)).
    pose proof (Z.mod_pos_bound pos (BlockSize sb) Hbs). lia.
Qed.

Lemma copy_extent_spec n e blk size out out' :
  leaf_ok e -> 0 <= blk -> blk + Z.of_nat n <= 65536 -> zlen out = size ->
  copy_extent d fsOffset sb n e blk size out = Ok out' ->
  zlen out' = size /\
  forall pos, 0 <= pos < size ->
    u8 out' pos =
    if (LogBlock e + blk <=? pos / BlockSize sb) &&
       (pos / BlockSize sb <? LogBlock e + blk + Z.of_nat n)
    then ext_byte e pos else u8 out pos.
Proof.
  intros (L1 & L2 & L3) Hblk. revert blk out Hblk.
  induction n as [|n IH]; intros blk out Hblk Hn Hlen Hc; cbn [copy_extent] in Hc.
  { res_inv. split; [done|]. intros pos Hpos. rewrite Z.add_0_r.
    destruct (_ <=? _) eqn:E1, (_ <? _) eqn:E2; zbool; try done; lia. }
  rewrite w64_small in Hc by lia.
  rewrite (eqb_false (BlocksCount sb)) in Hc by lia. cbn [negb andb] in Hc.
  destruct (_ <=? PhysBlock e + blk) eqn:Eb; [done|]. zbool.
  destruct (size <=? _) eqn:Es; zbool.
  - apply IH in Hc as [Hl Hp]; [|lia..]. split; [done|]. intros pos Hpos. rewrite Hp by done.
    assert (pos / BlockSize sb < LogBlock e + blk).
    { apply Z.div_lt_upper_bound; lia. }
    rewrite !leb_false by lia. done.
  - res_inv. set (len := if _ <? _ then _ else _) in *.
    assert (0 < len <= BlockSize sb /\ (LogBlock e + blk) * BlockSize sb + len <= size /\
      ((LogBlock e + blk) * BlockSize sb + len = size \/ len = BlockSize sb)) as Hlen'.
    { unfold len. destruct (_ <? _) eqn:E; zbool; lia. }
    apply read_at_Ok in Hx as Hdata. rewrite i64_small in Hdata by nia.
    assert (zlen x = len) as Hxl by (rewrite Hdata; zl).
    assert (0 <= (LogBlock e + blk) * BlockSize sb) by nia.
    apply IH in Hc as [Hl Hp]; [|lia|lia|zl]. split; [done|]. intros pos Hpos. rewrite Hp by done.
    destruct (decide (pos / BlockSize sb = LogBlock e + blk)) as [Heq|Hne].
    + rewrite leb_false by lia. cbn [andb]. rewrite leb_true, ltb_true by lia. cbn [andb].
      apply in_block in Heq as Hin; [|lia].
      rewrite u8_zsplice_new by lia. rewrite Hdata, u8_bytes_of by lia. unfold ext_byte.
      f_equal. rewrite Heq. pose proof (Z.div_mod pos (BlockSize sb) ltac:(lia)). nia.
    + assert (u8 (zsplice out ((LogBlock e + blk) * BlockSize sb) x) pos = u8 out pos) as ->.
      { apply u8_zsplice_ne; [lia|lia|lia|].
        destruct (decide (pos < (LogBlock e + blk) * BlockSize sb)); [by left|]. right.
        apply Z.nlt_ge. intros Hlt. apply Hne.
        apply in_block; lia. }
      destruct (LogBlock e + (blk + 1) <=? pos / BlockSize sb) eqn:E1,
        (LogBlock e + blk <=? pos / BlockSize sb) eqn:E2,
        (pos / BlockSize sb <? LogBlock e + (blk + 1) + Z.of_nat n) eqn:E3,
        (pos / BlockSize sb <? LogBlock e + blk + Z.of_nat (S n)) eqn:E4;
        zbool; cbn [andb]; try done; lia.
Qed.

Lemma copy_extents_spec exts size out out' :
  Forall leaf_ok exts -> runs_disjoint LogBlock exts -> zlen out = size ->
  copy_extents d fsOffset sb exts size out = Ok out' ->
  zlen out' = size /\
  forall pos, 0 <= pos < size ->
    u8 out' pos = match block_at exts (pos / BlockSize sb) with
                  | Some _ => content d fsOffset sb exts pos
                  | None => u8 out pos
                  end.
Proof.
  intros Hok Hd. revert out. induction Hd as [|e exts He Hd IH]; intros out Hlen Hc; simpl in Hc.
  { res_inv. done. }
  inversion Hok as [|? ? Hle Hok']; subst. res_inv.
  destruct Hle as (L1 & L2 & L3) eqn:Hle'.
  apply copy_extent_spec in Hx as [Hl Hp]; [|done|lia|lia|done].
  apply (IH Hok') in Hc as [Hl' Hp']; [|done]. split; [done|]. intros pos Hpos.
  rewrite Hp', Hp by done. unfold content. cbn [block_at]. unfold covers.
  replace (LogBlock e + 0 + Z.of_nat (Z.to_nat (Count e))) with (LogBlock e + Count e) by lia.
  rewrite Z.add_0_r. destruct (_ && _) eqn:Ec; [|done].
  destruct (block_at exts (pos / BlockSize sb)) as [p|] eqn:Eb; [|done].
  apply block_at_Some in Eb as (e' & Hin & Hc' & _). exfalso.
  rewrite Forall_forall in He. by eapply (disjoint_covers e e'); [apply He|..].
Qed.

(** [readFileData] on an extent-mapped file returns [i_size] bytes: the
    reference contents. *)
Lemma readExtentData_correct i out :
  bytes_ok (in_raw i) -> 0 <= in_size i < 2 ^ 63 ->
  readExtentData d fsOffset sb i = Ok out ->
  exists exts, extents d fsOffset sb i = Ok exts /\
    out = bytes_of (content d fsOffset sb exts) 0 (in_size i).
Proof.
  intros Hb Hs Hr. unfold readExtentData in Hr. res_inv.
  exists x. split; [done|]. unfold extents in Hx. res_inv.
  apply parseExtentRoot_disjoint in Hx as (Hok & Hl & _).
  2:{ match goal with H : subslice _ _ _ = Ok _ |- _ => unfold subslice in H; res_inv end.
      auto with bytes. }
  assert (x0 = zeros (in_size i)) as ->.
  { unfold clampInt64, MaxInt64 in Hx0. rewrite ltb_false in Hx0 by lia.
    set (m := fileSizeCeiling _ _) in Hx0.
    destruct (decide (in_size i <= m)) as [|].
    - rewrite MakeBytes_ok in Hx0 by lia. by res_inv.
    - rewrite MakeBytes_err in Hx0 by lia. done. }
  rewrite i64_small in Hr by lia.
  apply copy_extents_spec in Hr as [Hlen Hp]; [|done|done|by rewrite zlen_zeros by lia].
  apply list_u8_ext; [rewrite length_bytes_of; unfold zlen in Hlen; lia|].
  intros pos Hpos. rewrite Hlen in Hpos. rewrite u8_bytes_of, Hp by lia.
  rewrite Z.add_0_l. destruct (block_at x _) eqn:Eb; [done|].
  unfold content. rewrite Eb. unfold u8, zeros. by rewrite lookup_replicate_2 by lia.
Qed.

End readall.

(** * Open files and whole-file reads agree *)

Section agree.
Context {D : Type} `{BlockDevLaws D} `{SortSlice} `{Safeio}.
Context (d : D) (fsOffset : Z) (sb : superblock).

(** The file system fits the offsets an [int64] can express. *)
Definition fs_fits : Prop :=
  0 < BlockSize sb /\ 0 <= fsOffset /\ 0 < BlocksCount sb < 2 ^ 63 /\
  fsOffset + BlocksCount sb * BlockSize sb < 2 ^ 63.

(** An extent-mapped inode: the layout with positional reads and writes. *)
Definition extent_mapped (i : inode) : Prop :=
  bytes_ok (in_raw i) /\ 128 <= zlen (in_raw i) /\ 0 <= in_size i < 2 ^ 63 /\
  has_flag (u32 (in_raw i) inodeOffFlags) InodeFlagInlineData = false /\
  has_flag (u32 (in_raw i) inodeOffFlags) InodeFlagExtents = true.

Lemma extent_mapped_flags i : extent_mapped i -> flags i = Ok (u32 (in_raw i) inodeOffFlags).
Proof. intros (_ & Hl & _). unfold flags. by rewrite getN_ok by (unfold inodeOffFlags; lia). Qed.

Lemma newFile_map i f :
  extent_mapped i -> newFile d fsOffset sb i = Ok f ->
  exists exts, extents d fsOffset sb i = Ok exts /\ f_extents f = sort_by LogBlock exts /\
    f_inline f = None /\ f_closed f = false /\ f_readonly f = false /\
    f_size f = in_size i /\ f_blockSize f = BlockSize sb.
Proof.
  intros Hm Hn. pose proof (extent_mapped_flags i Hm) as Hf.
  destruct Hm as (_ & Hl & Hs & Hi & He).
  unfold newFile, isInline in Hn. rewrite Hf in Hn. cbn [rbind] in Hn. rewrite Hi in Hn.
  apply rbind_Ok in Hn as (exts & Hx & Hn). exists exts.
  assert (extents d fsOffset sb i = Ok exts) as ->.
  { unfold extents, readExtents in *. rewrite Hf in *. cbn [rbind] in *.
    by rewrite Hi, He in *. }
  rewrite He in Hn. cbn [negb] in Hn. destruct (declaredBytes sb) as [m known].
  destruct (_ || _); [done|]. destruct (_ && _); [done|]. injection Hn as <-. simpl.
  rewrite i64_small by lia. done.
Qed.

(** The leaves of an accepted tree, sorted, are a searchable map. *)
Lemma sorted_map_ok i exts :
  bytes_ok (in_raw i) -> extents d fsOffset sb i = Ok exts ->
  Forall (fun e => 0 < Count e) exts ->
  map_ok (sort_by LogBlock exts) /\
  forall lb, block_at (sort_by LogBlock exts) lb = block_at exts lb.
Proof.
  intros Hb Hx Hne. unfold extents in Hx. res_inv.
  apply parseExtentRoot_disjoint in Hx as (Hok & Hl & _).
  2:{ match goal with H : subslice _ _ _ = Ok _ |- _ => unfold subslice in H; res_inv end.
      auto with bytes. }
  pose proof (sort_by_perm LogBlock exts) as Hp.
  split; [split|].
  - by rewrite Hp.
  - by rewrite Hp.
  - apply sort_by_sorted.
  - eapply FOP_perm; [|symmetry; exact Hp|done]. apply disjoint_on_sym.
  - intros lb. symmetry. apply block_at_perm; [done|by symmetry].
Qed.

(** What a read of an opened file returns. *)
Lemma open_ReadAt i f exts plen off :
  fs_fits -> extent_mapped i -> newFile d fsOffset sb i = Ok f ->
  extents d fsOffset sb i = Ok exts -> Forall (fun e => 0 < Count e) exts ->
  0 <= plen -> 0 <= off < in_size i ->
  let '(out, err) := ReadAt d fsOffset sb f plen off in
  out = bytes_of (content d fsOffset sb exts) off (zlen out) /\ zlen out <= plen /\
  off + zlen out <= in_size i /\
  match err with
  | None => zlen out = plen
  | Some EOF => off + zlen out = in_size i /\ zlen out < plen
  | Some (ErrWrap _ e) => exists o n data, dev_ReadAt d o n = (data, Some e)
  | Some (Errorf _) => exists e, e ∈ exts /\ BlocksCount sb < PhysBlock e + Count e
  | Some _ => False
  end.
Proof.
  intros (Hbs & Ho & Hc & Hend) Hm Hn Hx Hne Hp Hoff.
  destruct (newFile_map i f Hm Hn) as (exts' & Hx' & He & Hin & Hcl & _ & Hsz & Hfb).
  assert (exts' = exts) as -> by congruence.
  destruct (sorted_map_ok i exts) as [Hmap Hblk]; [apply Hm|done..|].
  rewrite <- He in Hmap.
  destruct (ReadAt_correct d fsOffset sb f Hbs Hfb Hmap Ho Hc Hend plen off Hcl Hin Hp
    ltac:(lia)) as [Hr|[? _]]; [|lia].
  unfold read_result in Hr. destruct (ReadAt _ _ _ _ _ _) as [out err].
  destruct Hr as (H1' & H2' & H4' & H3'). split_and!; [|done|lia|].
  - rewrite H1' at 1. apply bytes_of_shift. intros k _. unfold fcontent, content.
    by rewrite He, Hblk.
  - rewrite <- Hsz. destruct err as [[]|]; auto. destruct H3' as (e & Hin' & Hlt).
    exists e. split; [|done]. rewrite He in Hin'. by rewrite (sort_by_perm LogBlock) in Hin'.
Qed.

End agree.

(** * Properties *)

Section properties.
Context {D : Type} `{BlockDevLaws D} `{SortSlice} `{Safeio}.

(** C7: a file opened on an extent-mapped inode reads, at every offset and for
    every length, the bytes the accepted extent tree maps there, zeros in the
    holes: all of them with no error, or those up to the end of the file with
    [io.EOF]; any other error is a read the device failed or an extent that
    ends past the file system, and the bytes before it are right. *)
Theorem open_ReadAt_contents (d : D) fsOffset sb i f exts plen off :
  fs_fits fsOffset sb -> extent_mapped i -> newFile d fsOffset sb i = Ok f ->
  extents d fsOffset sb i = Ok exts -> Forall (fun e => 0 < Count e) exts ->
  0 <= plen -> 0 <= off < in_size i ->
  let '(out, err) := ReadAt d fsOffset sb f plen off in
  out = bytes_of (content d fsOffset sb exts) off (zlen out) /\ zlen out <= plen /\
  off + zlen out <= in_size i /\
  match err with
  | None => zlen out = plen
  | Some EOF => off + zlen out = in_size i /\ zlen out < plen
  | Some (ErrWrap _ e) => exists o n data, dev_ReadAt d o n = (data, Some e)
  | Some (Errorf _) => exists e, e ∈ exts /\ BlocksCount sb < PhysBlock e + Count e
  | Some _ => False
  end.
Proof.
  apply open_ReadAt.
Qed.

(** reading a whole extent-mapped file returns exactly [i_size] bytes: the
    device bytes the accepted extent tree maps, zeros in the holes. *)
Theorem readExtentData_contents (d : D) fsOffset sb i out :
  fs_fits fsOffset sb -> extent_mapped i -> readExtentData d fsOffset sb i = Ok out ->
  exists exts, extents d fsOffset sb i = Ok exts /\
    out = bytes_of (content d fsOffset sb exts) 0 (in_size i).
Proof.
  intros (Hbs & Ho & Hc & Hend) (Hb & _ & Hs & _) Hr. by apply readExtentData_correct.
Qed.

(** Positional reads agree with whole-file reads: whatever [ReadAt] returns
    on an extent-mapped file without empty leaves is the slice of what reading
    the whole file returns. *)
Theorem ReadAt_agrees_with_readExtentData (d : D) fsOffset sb i f exts data plen off :
  fs_fits fsOffset sb -> extent_mapped i -> newFile d fsOffset sb i = Ok f ->
  extents d fsOffset sb i = Ok exts -> Forall (fun e => 0 < Count e) exts ->
  readExtentData d fsOffset sb i = Ok data -> 0 <= plen -> 0 <= off < in_size i ->
  let '(out, err) := ReadAt d fsOffset sb f plen off in
  out = zslice data off (zlen out) /\ (err = None -> zlen out = plen) /\
  (err = Some EOF -> off + zlen out = zlen data).
Proof.
  intros Hfit Hm Hn Hx Hne Hd Hp Hoff.
  pose proof (open_ReadAt d fsOffset sb i f exts plen off Hfit Hm Hn Hx Hne Hp Hoff) as Hr.
  destruct (ReadAt _ _ _ _ _ _) as [out err]. destruct Hr as (H1' & H2' & H3' & H4').
  destruct Hfit as (Hbs & Ho & Hc & Hend).
  destruct (readExtentData_correct d fsOffset sb Hbs Ho Hc Hend i data) as (exts' & Hx2 & ->);
    [apply Hm..|done|]. assert (exts' = exts) as -> by congruence. pose proof (zlen_nonneg out).
  rewrite zlen_bytes_of, zslice_bytes_of by lia. split_and!; [done|by intros ->|].
  intros ->. by destruct H4'.
Qed.

End properties.

(** A file of eight blocks and a hole, and the device it is on. *)
Definition ex_leaves : list extentLeaf := [Leaf 2 17 1; Leaf 5 20 2].
Definition ex_inode (leaves : list extentLeaf) (size : Z) : inode :=
  Inode (zslice (set32 (zeros 128) inodeOffFlags InodeFlagExtents) 0 inodeOffBlock ++
         match inline_node leaves with Ok b => b | _ => [] end ++ zeros 28) 12 size 0x81A4.
Definition ex_dev : memdev :=
  MemDev (zeros (17 * 1024) ++ replicate 1024 42 ++ zeros (46 * 1024)).
Definition ex_open (i : inode) : ext4File :=
  match newFile ex_dev 0 ex_sb i with Ok f => f | _ => File None [] 0 0 0 true true end.

Lemma ex_fits : fs_fits 0 ex_sb.
Proof. by vm_compute. Qed.
Lemma ex_mapped : extent_mapped (ex_inode ex_leaves 8000).
Proof. split_and!; [apply all_bytes_ok|..]; vm_compute; done. Qed.

Lemma open_ReadAt_contents_witness :
  let '(out, err) := ReadAt ex_dev 0 ex_sb (ex_open (ex_inode ex_leaves 8000)) 3000 2000 in
  out = bytes_of (content ex_dev 0 ex_sb ex_leaves) 2000 (zlen out) /\ zlen out <= 3000 /\
  2000 + zlen out <= in_size (ex_inode ex_leaves 8000) /\
  match err with
  | None => zlen out = 3000
  | Some EOF => 2000 + zlen out = in_size (ex_inode ex_leaves 8000) /\ zlen out < 3000
  | Some (ErrWrap _ e) => exists o n data, dev_ReadAt ex_dev o n = (data, Some e)
  | Some (Errorf _) => exists e, e ∈ ex_leaves /\ BlocksCount ex_sb < PhysBlock e + Count e
  | Some _ => False
  end.
Proof.
  apply (open_ReadAt_contents ex_dev 0 ex_sb (ex_inode ex_leaves 8000)
    (ex_open (ex_inode ex_leaves 8000)) ex_leaves 3000 2000 ex_fits ex_mapped);
    [vm_compute; reflexivity..|repeat constructor|lia|cbn; lia].
Defined.

Definition ex_data (i : inode) : list Z :=
  match readExtentData ex_dev 0 ex_sb i with Ok b => b | _ => [] end.

Lemma readExtentData_contents_witness :
  exists exts, extents ex_dev 0 ex_sb (ex_inode ex_leaves 8000) = Ok exts /\
    ex_data (ex_inode ex_leaves 8000) = bytes_of (content ex_dev 0 ex_sb exts) 0 8000.
Proof.
  apply (readExtentData_contents ex_dev 0 ex_sb (ex_inode ex_leaves 8000) _ ex_fits ex_mapped).
  vm_compute. reflexivity.
Defined.

Lemma ReadAt_agrees_with_readExtentData_witness :
  let '(out, err) := ReadAt ex_dev 0 ex_sb (ex_open (ex_inode ex_leaves 8000)) 3000 6000 in
  out = zslice (ex_data (ex_inode ex_leaves 8000)) 6000 (zlen out) /\
  (err = None -> zlen out = 3000) /\
  (err = Some EOF -> 6000 + zlen out = zlen (ex_data (ex_inode ex_leaves 8000))).
Proof.
  apply (ReadAt_agrees_with_readExtentData ex_dev 0 ex_sb (ex_inode ex_leaves 8000)
    (ex_open (ex_inode ex_leaves 8000)) ex_leaves _ 3000 6000 ex_fits ex_mapped);
    [vm_compute; reflexivity..|repeat constructor|vm_compute; reflexivity|lia|cbn; lia].
Defined.

(** the binary search of [ReadAt] relies on every leaf being non-empty, which
    the tree checks do not ensure: with an accepted leaf of length zero in the
    middle, block 7 is reported as a hole by the positional read, though it is
    mapped and the whole-file read returns its bytes. *)
Theorem ReadAt_empty_leaf_hides_block :
  let i := ex_inode [Leaf 0 10 10; Leaf 5 30 0; Leaf 20 31 1] 8192 in
  extents ex_dev 0 ex_sb i = Ok [Leaf 0 10 10; Leaf 5 30 0; Leaf 20 31 1] /\
  zslice (ex_data i) (7 * 1024) 4 = [42; 42; 42; 42] /\
  ReadAt ex_dev 0 ex_sb (ex_open i) 4 (7 * 1024) = ([0; 0; 0; 0], None).
Proof. vm_compute. repeat split. Qed.
