(* ===== verification/BlockMap.v ===== *)
(** Block maps as the writers of a file build them: new blocks are appended, the
    leaves are sorted and merged ([coalesceExtents] of [src/alloc.go]), and the
    result is again a map in ascending order. *)

From S2P Require Import Prelude Bytes Crc Device Superblock GoLib Extent Limits Inode Inline FileRead.
From Stdlib Require Import Sorting.Sorted.

Lemma FOP_intro {A} (R : A -> A -> Prop) l :
  (forall i j x y, (i < j)%nat -> l !! i = Some x -> l !! j = Some y -> R x y) -> ForallOrdPairs R l.
Proof.
  induction l as [|a l IH]; intros Hp; constructor.
  - apply Forall_forall. intros y [k Hk]%list_elem_of_lookup. apply (Hp 0%nat (S k)); [lia|done..].
  - apply IH. intros i j x y Hij Hx Hy. apply (Hp (S i) (S j)); [lia|done..].
Qed.

(** Two leaves that share a block are the same leaf. *)
Lemma overlap_same start exts e1 e2 b :
  runs_disjoint start exts -> e1 ∈ exts -> e2 ∈ exts ->
  start e1 <= b < start e1 + Count e1 -> start e2 <= b < start e2 + Count e2 -> e1 = e2.
Proof.
  intros Hd He1 He2 H1 H2. apply list_elem_of_lookup in He1 as [i Hi], He2 as [j Hj].
  destruct (lt_eq_lt_dec i j) as [[Hij| ->]|Hij]; [|congruence|].
  - pose proof (FOP_lookup _ _ _ _ _ _ Hd Hij Hi Hj) as Hx. unfold disjoint_on in Hx. lia.
  - pose proof (FOP_lookup _ _ _ _ _ _ Hd Hij Hj Hi) as Hx. unfold disjoint_on in Hx. lia.
Qed.

Lemma covers_iff e lb : covers e lb = true <-> LogBlock e <= lb < LogBlock e + Count e.
Proof. unfold covers. rewrite andb_true_iff, Z.leb_le, Z.ltb_lt. done. Qed.

Lemma block_at_app l1 l2 lb :
  block_at (l1 ++ l2) lb = match block_at l1 lb with Some p => Some p | None => block_at l2 lb end.
Proof. induction l1 as [|e l1 IH]; [done|]. cbn. by destruct (covers e lb). Qed.

(** * Maps as chains *)

Definition before (a b : extentLeaf) : Prop := LogBlock a + Count a <= LogBlock b.
Definition leaf_in (e : extentLeaf) : Prop := leaf_ok e /\ 0 < Count e.

Lemma map_ok_chain exts : map_ok exts <-> Forall leaf_in exts /\ ForallOrdPairs before exts.
Proof.
  split.
  - intros Hm. split.
    + apply Forall_and. split; apply Hm.
    + apply FOP_intro. intros i j x y. by apply map_ok_ends.
  - intros [Hl Hc]. apply Forall_and in Hl as [Hl Hn]. split; auto.
    + induction Hc as [|a l Ha Hc IH]; constructor.
      * apply IH; [by inversion Hl|by inversion Hn].
      * apply Forall_cons in Hn as [Hn _]. eapply Forall_impl; [exact Ha|]. unfold before. cbn in *. lia.
    + eapply FOP_intro. intros i j x y Hij Hx Hy. pose proof (FOP_lookup _ _ _ _ _ _ Hc Hij Hx Hy) as Hb.
      unfold before, disjoint_on in *. lia.
Qed.

(** A leaf before every leaf of a list is before every leaf of the merged list. *)
Lemma coalesce_from_map last rest :
  map_ok (last :: rest) -> map_ok (coalesce_from last rest) /\
  (forall a, before a last -> Forall (before a) (coalesce_from last rest)).
Proof.
  revert last. induction rest as [|e rest IH]; intros last Hm; cbn [coalesce_from].
  { split; [done|]. auto. }
  pose proof Hm as [Hl Hc]%map_ok_chain. apply Forall_cons in Hl as [[(H1 & H2 & H3) H0] Hl].
  pose proof Hl as [[(H4 & H5 & H6) H7] Hr]%Forall_cons.
  inversion Hc as [|? ? Ha Hc']; subst. pose proof Ha as [Hb Hbr]%Forall_cons.
  inversion Hc' as [|? ? Hce _]; subst. rewrite !w64_small by lia. unfold before in *.
  destruct (_ && _) eqn:E.
  - zbool. rewrite w16_small by lia. refine (IH (Leaf _ _ _) _). apply map_ok_chain. split.
    + constructor; [|done]. unfold leaf_in, leaf_ok. cbn. lia.
    + inversion Hc'; subst. constructor; [|done]. eapply Forall_impl; [exact Hce|]. unfold before. cbn. lia.
  - assert (map_ok (e :: rest)) as Hme by (by apply map_ok_chain).
    destruct (IH e Hme) as [Hm' Hbef]. apply map_ok_chain in Hm' as [Hl' Hc2]. split.
    + apply map_ok_chain. split; constructor; auto; [unfold leaf_in, leaf_ok; lia|by apply Hbef].
    + intros a Hal. constructor; [done|]. apply Hbef. cbn in *. lia.
Qed.

Section coalesce.
Context `{SortSlice}.

Lemma coalesceExtents_map exts :
  Forall leaf_in exts -> runs_disjoint LogBlock exts -> map_ok (coalesceExtents exts).
Proof.
  intros Hl Hd. unfold coalesceExtents. destruct (zlen exts <? 2) eqn:E; zbool.
  { apply map_ok_chain. split; [done|]. destruct exts as [|a [|b exts]]; [repeat constructor..|].
    rewrite !zlen_cons in E. pose proof (zlen_nonneg exts). lia. }
  pose proof (sort_by_perm LogBlock exts) as Hp. pose proof (sort_by_sorted LogBlock exts) as Hs.
  assert (map_ok (sort_by LogBlock exts)) as Hm.
  { assert (Forall leaf_in (sort_by LogBlock exts)) as Hl' by (by rewrite Hp).
    apply Forall_and in Hl' as [? ?]. split; auto. eapply FOP_perm; [|symmetry; exact Hp|done]. apply disjoint_on_sym. }
  destruct (sort_by LogBlock exts) as [|e rest]; [done|]. by apply coalesce_from_map.
Qed.

(** Sorting changes nothing. *)
Lemma sorted_unique {A} (key : A -> Z) (l l' : list A) :
  Permutation l l' -> StronglySorted (fun x y => key x <= key y) l ->
  StronglySorted (fun x y => key x < key y) l' -> l = l'.
Proof.
  revert l'. induction l as [|x l IH]; intros l' Hp Hs Hs'.
  { by apply Permutation_nil in Hp as ->. }
  destruct l' as [|y l']; [symmetry in Hp; by apply Permutation_nil_cons in Hp|].
  inversion Hs as [|? ? Hs1 Hx]; inversion Hs' as [|? ? Hs2 Hy]; subst. rewrite Forall_forall in Hx, Hy.
  assert (x = y) as ->.
  { assert (x ∈ y :: l') as [->|Hin]%elem_of_cons by (rewrite <- Hp; left); [done|].
    assert (y ∈ x :: l) as [->|Hin']%elem_of_cons by (rewrite Hp; left); [done|].
    specialize (Hx y Hin'). specialize (Hy x Hin). cbn in *. lia. }
  f_equal. apply IH; [by apply Permutation_cons_inv in Hp|done..].
Qed.

Lemma sort_by_map exts : map_ok exts -> sort_by LogBlock exts = exts.
Proof.
  intros [Hl Hc]%map_ok_chain. apply (sorted_unique LogBlock); [apply sort_by_perm|apply sort_by_sorted|].
  induction Hc as [|a l Ha Hc IH]; constructor.
  - apply IH. by apply Forall_cons in Hl as [_ ?].
  - apply Forall_cons in Hl as [[_ Hn] _]. eapply Forall_impl; [exact Ha|]. unfold before. cbn. lia.
Qed.

End coalesce.

(** * From the mapping back to the leaves *)

Lemma leaf_maps exts e k :
  map_ok exts -> e ∈ exts -> 0 <= k < Count e -> block_at exts (LogBlock e + k) = Some (PhysBlock e + k).
Proof.
  intros Hm He Hk. rewrite (block_at_covers exts e); [f_equal; lia|apply Hm|done|]. apply covers_iff. lia.
Qed.

Lemma leaves_nonempty exts e : map_ok exts -> e ∈ exts -> leaf_ok e /\ 0 < Count e.
Proof. intros [Hl _]%map_ok_chain. rewrite Forall_forall in Hl. apply Hl. Qed.

(** A map that gives no block twice has disjoint runs. *)
Lemma injective_disjoint exts :
  map_ok exts -> (forall l1 l2 p, block_at exts l1 = Some p -> block_at exts l2 = Some p -> l1 = l2) ->
  runs_disjoint PhysBlock exts.
Proof.
  intros Hm Hinj. apply FOP_intro. intros i j x y Hij Hx Hy. pose proof (map_ok_ends _ _ _ _ _ Hm Hij Hx Hy) as Hb.
  apply list_elem_of_lookup_2 in Hx, Hy. destruct (leaves_nonempty _ _ Hm Hx), (leaves_nonempty _ _ Hm Hy).
  unfold disjoint_on. destruct (decide (PhysBlock x + Count x <= PhysBlock y \/ PhysBlock y + Count y <= PhysBlock x)); [lia|].
  exfalso. set (p := Z.max (PhysBlock x) (PhysBlock y)).
  pose proof (leaf_maps exts x (p - PhysBlock x) Hm Hx ltac:(lia)) as Bx.
  pose proof (leaf_maps exts y (p - PhysBlock y) Hm Hy ltac:(lia)) as By.
  replace (PhysBlock x + (p - PhysBlock x)) with p in Bx by lia.
  replace (PhysBlock y + (p - PhysBlock y)) with p in By by lia.
  pose proof (Hinj _ _ _ Bx By). lia.
Qed.

Lemma blocks_range exts n :
  map_ok exts -> (forall lb p, block_at exts lb = Some p -> p < n) ->
  Forall (fun e => PhysBlock e + Count e <= n) exts.
Proof.
  intros Hm Hb. apply Forall_forall. intros e He. destruct (leaves_nonempty _ _ Hm He).
  pose proof (Hb _ _ (leaf_maps exts e (Count e - 1) Hm He ltac:(lia))). lia.
Qed.

(** * New leaves *)

Definition one_leaf (b p : Z) : extentLeaf := Leaf b p 1.

Lemma block_at_new bs ps lb p :
  NoDup bs -> length ps = length bs ->
  block_at (zip_with one_leaf bs ps) lb = Some p <-> exists k, bs !! k = Some lb /\ ps !! k = Some p.
Proof.
  revert ps. induction bs as [|b bs IH]; intros [|q ps] Hnd Hlen; try done.
  { split; [done|]. intros (k & ? & _). done. }
  apply NoDup_cons in Hnd as [Hni Hnd]. injection Hlen as Hlen. cbn [zip_with block_at].
  destruct (covers (one_leaf b q) lb) eqn:E.
  - apply covers_iff in E. cbn in *. assert (lb = b) as -> by lia. rewrite Z.sub_diag, Z.add_0_r. split.
    + intros [= ->]. by exists 0%nat.
    + intros ([|k] & Hk & Hp); [cbn in *; congruence|]. exfalso. apply Hni. by eapply list_elem_of_lookup_2.
  - rewrite IH by done. split.
    + intros (k & ? & ?). by exists (S k).
    + intros ([|k] & Hk & Hp); [|by exists k]. injection Hk as ->. exfalso. apply not_true_iff_false in E.
      apply E, covers_iff. cbn. lia.
Qed.

Lemma block_at_new_None bs ps lb :
  NoDup bs -> length ps = length bs -> lb ∉ bs -> block_at (zip_with one_leaf bs ps) lb = None.
Proof.
  intros Hnd Hl Hni. destruct (block_at _ lb) as [p|] eqn:E; [|done].
  apply block_at_new in E as (k & Hk & _); [|done..]. exfalso. apply Hni. by eapply list_elem_of_lookup_2.
Qed.

(** Leaves for unmapped blocks, next to the leaves there are. *)
Lemma merged_leaves exts bs ps :
  map_ok exts -> NoDup bs -> length ps = length bs ->
  Forall (fun b => 0 <= b < 2 ^ 32 /\ block_at exts b = None) bs -> Forall (fun p => 0 <= p < 2 ^ 48) ps ->
  Forall leaf_in (exts ++ zip_with one_leaf bs ps) /\ runs_disjoint LogBlock (exts ++ zip_with one_leaf bs ps).
Proof.
  intros Hm Hnd Hlen Hb Hp. rewrite Forall_lookup in Hb, Hp. split.
  - apply Forall_app. split; [by apply map_ok_chain in Hm as [? _]|]. apply Forall_lookup. intros k e.
    rewrite lookup_zip_with_Some. intros (b & p & -> & Eb & Ep). destruct (Hb _ _ Eb). specialize (Hp _ _ Ep).
    unfold leaf_in, leaf_ok. cbn in *. lia.
  - apply FOP_intro. intros i j x y Hij Hx Hy. unfold disjoint_on. apply lookup_app_Some in Hx as [Hx|[Hi Hx]], Hy as [Hy|[Hj Hy]].
    + pose proof (map_ok_ends _ _ _ _ _ Hm Hij Hx Hy). lia.
    + rewrite lookup_zip_with_Some in Hy. destruct Hy as (b & p & -> & Eb & _). destruct (Hb _ _ Eb) as [_ Hn].
      rewrite block_at_None in Hn. specialize (Hn x ltac:(by eapply list_elem_of_lookup_2)).
      apply not_true_iff_false in Hn. rewrite covers_iff in Hn. cbn. lia.
    + apply lookup_lt_Some in Hy. lia.
    + rewrite lookup_zip_with_Some in Hx, Hy. destruct Hx as (b & p & -> & Eb & _), Hy as (b' & p' & -> & Eb' & _).
      cbn. assert (b <> b'); [|lia]. intros ->. pose proof (NoDup_lookup _ _ _ _ Hnd Eb Eb'). lia.
Qed.
