(* ===== verification/Dir.v ===== *)
(** Directory blocks ([src/dir.go], [zeroEntryInBlock] of [src/delete.go],
    [updateDotDot] of [src/rename.go]): parsing, insertion by splitting slack,
    removal, and the checksum tail. *)

From S2P Require Import Prelude Bytes Crc Device Superblock Bgd GoLib Extent Limits Inode Inline.

Definition FtRegFile : Z := 1.
Definition FtDir : Z := 2.
Definition FtSymlink : Z := 7.
Definition FtDirTail : Z := 0xDE.

Record DirEntry : Type := Dirent {
  de_Inode : Z;
  de_Name : list Z;
  de_FileType : Z
}.

#[global] Instance DirEntry_eq_dec : EqDecision DirEntry.
Proof. solve_decision. Defined.

(** [(8 + nameLen + 3) &^ 3]. *)
Definition minDirentSize (nameLen : Z) : Z := Z.ldiff (8 + nameLen + 3) 3.

(** The record loop of [parseDirBlock]; a record is at least eight bytes. *)
Fixpoint parseDir_from `{Safeio} (fuel : nat) (buf : list Z) (off : Z) : res (list DirEntry) :=
  match fuel with
  | O => Err OutOfFuel
  | S fuel' =>
      if zlen buf <? off + 8 then Ok [] else
      let! ino := get32 buf off in
      let! recLen := get16 buf (off + 4) in
      let! nameLen := get8 buf (off + 6) in
      let! fileType := get8 buf (off + 7) in
      if (recLen <? 8) || (zlen buf <? off + recLen) then Ok [] else
      let! here :=
        if negb (ino =? 0) && negb (fileType =? FtDirTail) && (0 <? nameLen) &&
           (nameLen <=? recLen - 8) && CheckBounds (off + 8) nameLen (zlen buf)
        then let! name := subslice buf (off + 8) (off + 8 + nameLen) in
             Ok [Dirent ino name fileType]
        else Ok [] in
      let! rest := parseDir_from fuel' buf (off + recLen) in
      Ok (here ++ rest)
  end.
Definition parseDirBlock `{Safeio} (buf : list Z) : res (list DirEntry) :=
  parseDir_from (S (length buf)) buf 0.

Definition writeDirEntry (buf : list Z) (off ino recLen : Z) (name : list Z) (fileType : Z)
    : res (list Z) :=
  let! buf := put32 buf off ino in
  let! buf := put16 buf (off + 4) recLen in
  let! buf := put8 buf (off + 6) (w8 (zlen name)) in
  let! buf := put8 buf (off + 7) fileType in
  copy_at buf (off + 8) name.

(** The result is the new block, or [None] when there is no room. *)
Fixpoint tryInsert_from (fuel : nat) (buf : list Z) (off childIno : Z) (name : list Z)
    (fileType needed : Z) : res (option (list Z)) :=
  match fuel with
  | O => Err OutOfFuel
  | S fuel' =>
      if zlen buf <? off + 8 then Ok None else
      let! ino := get32 buf off in
      let! recLen := get16 buf (off + 4) in
      if (recLen <? 8) || (zlen buf <? off + recLen) then Ok None else
      let! ft := get8 buf (off + 7) in
      if ft =? FtDirTail then Ok None else
      if ino =? 0 then
        if needed <=? recLen then
          let! buf := writeDirEntry buf off childIno (w16 recLen) name fileType in
          Ok (Some buf)
        else tryInsert_from fuel' buf (off + recLen) childIno name fileType needed
      else
      let! nameLen := get8 buf (off + 6) in
      let minLen := minDirentSize nameLen in
      if recLen <? minLen then Ok None else
      let slack := recLen - minLen in
      if needed <=? slack then
        let newOff := off + minLen in
        if (zlen buf <? newOff + 8) || (zlen buf <? newOff + slack) ||
           (zlen buf <? newOff + 8 + zlen name)
        then Ok None else
        let! buf := put16 buf (off + 4) (w16 minLen) in
        let! buf := writeDirEntry buf newOff childIno (w16 slack) name fileType in
        Ok (Some buf)
      else tryInsert_from fuel' buf (off + recLen) childIno name fileType needed
  end.
Definition tryInsertDirEntry (buf : list Z) (childIno : Z) (name : list Z)
    (fileType needed : Z) : res (option (list Z)) :=
  tryInsert_from (S (length buf)) buf 0 childIno name fileType needed.

(** The result is the new block, or [None] when no entry was modified. *)
Fixpoint zeroEntry_from (fuel : nat) (buf : list Z) (off : Z) (name : list Z)
    : res (option (list Z)) :=
  match fuel with
  | O => Err OutOfFuel
  | S fuel' =>
      if zlen buf <? off + 8 then Ok None else
      let! recLen := get16 buf (off + 4) in
      if recLen <? 8 then Ok None else
      let! ft := get8 buf (off + 7) in
      if ft =? FtDirTail then Ok None else
      let! nameLen := get8 buf (off + 6) in
      let! hit :=
        if 0 <? nameLen then
          let! n := subslice buf (off + 8) (off + 8 + nameLen) in
          Ok (bool_decide (n = name))
        else Ok false in
      if hit : bool then
        let! buf := put32 buf off 0 in Ok (Some buf)
      else zeroEntry_from fuel' buf (off + recLen) name
  end.
Definition zeroEntryInBlock (buf : list Z) (name : list Z) : res (option (list Z)) :=
  zeroEntry_from (S (length buf)) buf 0 name.

(** The scan of one block in [updateDotDot]. *)
Fixpoint dotdot_from (fuel : nat) (buf : list Z) (off newParent : Z) : res (option (list Z)) :=
  match fuel with
  | O => Err OutOfFuel
  | S fuel' =>
      if zlen buf <? off + 8 then Ok None else
      let! recLen := get16 buf (off + 4) in
      if recLen <? 8 then Ok None else
      let! ft := get8 buf (off + 7) in
      if ft =? FtDirTail then Ok None else
      let! nameLen := get8 buf (off + 6) in
      if (nameLen =? 2) && (off + 10 <=? zlen buf) &&
         (u8 buf (off + 8) =? 46) && (u8 buf (off + 9) =? 46)
      then let! buf := put32 buf off newParent in Ok (Some buf)
      else dotdot_from fuel' buf (off + recLen) newParent
  end.

Definition dir_crc (sb : superblock) (num gen : Z) (body : list Z) : Z :=
  crc32c (crc32c (crc32c (csumSeed sb) (le_encode 4 num)) (le_encode 4 gen)) body.

Definition updateDirBlockCsum (sb : superblock) (dirIno : inode) (buf : list Z) : res (list Z) :=
  if negb (has_flag (FeatureROCompat sb) FeatROCompatMetadataCsum) then Ok buf else
  let tailOff := zlen buf - 12 in
  let! buf := put32 buf tailOff 0 in
  let! buf := put16 buf (tailOff + 4) 12 in
  let! buf := put8 buf (tailOff + 6) 0 in
  let! buf := put8 buf (tailOff + 7) FtDirTail in
  let! buf := put32 buf (tailOff + 8) 0 in
  let! gen := generation dirIno in
  let! body := subslice buf 0 (tailOff + 8) in
  put32 buf (tailOff + 8) (dir_crc sb (in_num dirIno) gen body).

(** The block [addDirEntryWithTx] builds when no block has room. *)
Definition newDirBlock (sb : superblock) (dirIno : inode) (childIno : Z) (name : list Z)
    (fileType : Z) : res (list Z) :=
  let! buf := writeDirEntry (zeros (BlockSize sb)) 0 childIno (w16 (BlockSize sb - 12)) name fileType in
  updateDirBlockCsum sb dirIno buf.

Section io.
Context {D : Type} `{BlockDev D} `{SortSlice} `{Safeio}.
Context (d : D) (fsOffset : Z) (sb : superblock).

Definition inlineDirEntries (i : inode) : res (list DirEntry) :=
  let! iblock := subslice (in_raw i) inodeOffBlock (inodeOffBlock + inlineIBlockMax) in
  let! parent := get32 iblock 0 in
  let! body := subslice iblock 4 (zlen iblock) in
  let! named := parseDirBlock body in
  let entries := Dirent (in_num i) [46] FtDir :: Dirent parent [46; 46] FtDir :: named in
  if inlineIBlockMax <? i64 (in_size i) then
    let! val := systemDataValue d fsOffset sb i in
    match val with
    | Some v => let! more := parseDirBlock v in Ok (entries ++ more)
    | None => Ok entries
    end
  else Ok entries.

(** The blocks of one extent, parsed in order. *)
Fixpoint readDir_blocks (n : nat) (phys : Z) : res (list DirEntry) :=
  match n with
  | O => Ok []
  | S n' =>
      let! buf := rwrap "ext4: read dir block" (readRawBlock d fsOffset sb (w64 phys)) in
      let! here := parseDirBlock buf in
      let! rest := readDir_blocks n' (phys + 1) in
      Ok (here ++ rest)
  end.
Fixpoint readDir_extents (exts : list extentLeaf) : res (list DirEntry) :=
  match exts with
  | [] => Ok []
  | e :: exts' =>
      let! here := readDir_blocks (Z.to_nat (Count e)) (PhysBlock e) in
      let! rest := readDir_extents exts' in
      Ok (here ++ rest)
  end.

Definition readDir (i : inode) : res (list DirEntry) :=
  let! inlined := isInline i in
  if inlined : bool then inlineDirEntries i else
  let! exts := readExtents d fsOffset sb i in
  readDir_extents exts.

End io.

(** * The records of a block *)

Record drec : Type := DRec {
  r_off : Z; r_ino : Z; r_len : Z; r_nlen : Z; r_ft : Z; r_name : list Z
}.

Definition rec_at (buf : list Z) (off : Z) : drec :=
  DRec off (u32 buf off) (u16 buf (off + 4)) (u8 buf (off + 6)) (u8 buf (off + 7))
       (zslice buf (off + 8) (u8 buf (off + 6))).

Fixpoint recs_fuel (fuel : nat) (buf : list Z) (off : Z) : list drec :=
  match fuel with
  | O => []
  | S fuel' =>
      if zlen buf <? off + 8 then [] else
      let r := rec_at buf off in
      if (r_len r <? 8) || (zlen buf <? off + r_len r) then [] else
      r :: recs_fuel fuel' buf (off + r_len r)
  end.
Definition recs (buf : list Z) (off : Z) : list drec :=
  recs_fuel (Z.to_nat (zlen buf - off)) buf off.

Definition entry_of (r : drec) : option DirEntry :=
  if negb (r_ino r =? 0) && negb (r_ft r =? FtDirTail) && (0 <? r_nlen r) &&
     (r_nlen r <=? r_len r - 8)
  then Some (Dirent (r_ino r) (r_name r) (r_ft r)) else None.
Definition entry_at (buf : list Z) (off : Z) : option DirEntry :=
  if negb (u32 buf off =? 0) && negb (u8 buf (off + 7) =? FtDirTail) &&
     (0 <? u8 buf (off + 6)) && (u8 buf (off + 6) <=? u16 buf (off + 4) - 8)
  then Some (Dirent (u32 buf off) (zslice buf (off + 8) (u8 buf (off + 6))) (u8 buf (off + 7)))
  else None.
Definition entries (buf : list Z) : list DirEntry := omap entry_of (recs buf 0).

(** The bytes a record can give to a new entry. *)
Definition room (r : drec) : Z :=
  if r_ino r =? 0 then r_len r else r_len r - minDirentSize (r_nlen r).

(** A well-formed block: records that tile it, names inside their records, and
    possibly a checksum tail or an unused remainder at the end. *)
Inductive dir_chain (buf : list Z) : Z -> Prop :=
| chain_end off : zlen buf < off + 8 -> dir_chain buf off
| chain_gap off : off + 8 <= zlen buf -> u16 buf (off + 4) < 8 -> dir_chain buf off
| chain_tail off :
    off + 8 <= zlen buf -> 8 <= u16 buf (off + 4) -> u8 buf (off + 7) = FtDirTail ->
    off + u16 buf (off + 4) = zlen buf -> dir_chain buf off
| chain_rec off :
    off + 8 <= zlen buf -> 8 <= u16 buf (off + 4) -> off + u16 buf (off + 4) <= zlen buf ->
    u8 buf (off + 7) <> FtDirTail -> minDirentSize (u8 buf (off + 6)) <= u16 buf (off + 4) ->
    dir_chain buf (off + u16 buf (off + 4)) -> dir_chain buf off.

Lemma minDirentSize_bounds n : 0 <= n -> 8 + n <= minDirentSize n <= 8 + n + 3.
Proof.
  intros Hn. unfold minDirentSize. rewrite (Z.ldiff_ones_r _ 2), Z.shiftl_mul_pow2, Z.shiftr_div_pow2 by lia. dlia.
Qed.

Lemma recs_fuel_enough f1 f2 buf off :
  zlen buf - off <= Z.of_nat f1 -> zlen buf - off <= Z.of_nat f2 ->
  recs_fuel f1 buf off = recs_fuel f2 buf off.
Proof.
  revert f2 off. induction f1 as [|f1 IH]; intros [|f2] off H1 H2; cbn [recs_fuel]; auto;
    destruct (Z.ltb_spec (zlen buf) (off + 8)); auto; try lia.
  destruct (_ || _) eqn:E; auto. zbool. f_equal. apply IH; cbn in *; lia.
Qed.

Lemma recs_unfold buf off :
  recs buf off =
  if zlen buf <? off + 8 then [] else
  if (u16 buf (off + 4) <? 8) || (zlen buf <? off + u16 buf (off + 4)) then [] else
  rec_at buf off :: recs buf (off + u16 buf (off + 4)).
Proof.
  unfold recs at 1. destruct (Z.ltb_spec (zlen buf) (off + 8)).
  - destruct (Z.to_nat _); cbn [recs_fuel]; [done|]. by rewrite ltb_true.
  - destruct (Z.to_nat _) eqn:E; [lia|]. cbn [recs_fuel]. rewrite ltb_false by lia.
    cbn [r_len rec_at]. destruct (_ || _) eqn:E2; [done|]. zbool. f_equal.
    apply recs_fuel_enough; lia.
Qed.

Lemma parseDir_from_recs `{Safeio} fuel buf off :
  0 <= off <= zlen buf -> zlen buf - off < Z.of_nat fuel ->
  parseDir_from fuel buf off = Ok (omap entry_of (recs buf off)).
Proof.
  revert off. induction fuel as [|fuel IH]; intros off Ho Hf; [lia|].
  rewrite recs_unfold. cbn [parseDir_from].
  destruct (Z.ltb_spec (zlen buf) (off + 8)); [done|]. bytes.
  destruct (_ || _) eqn:E; [done|]. zbool. rewrite IH by lia. cbn [omap list_omap].
  replace (entry_of (rec_at buf off)) with (entry_at buf off) by done. unfold entry_at.
  set (c := _ && (u8 buf (off + 6) <=? _)). destruct c eqn:Hc; subst c; cbn [andb]; [|done].
  zbool. rewrite (proj2 (CheckBounds_spec _ _ _)) by lia.
  bytes. by rewrite Z.add_simpl_l.
Qed.

Lemma parseDirBlock_recs `{Safeio} buf : parseDirBlock buf = Ok (entries buf).
Proof.
  apply parseDir_from_recs; [pose proof (zlen_nonneg buf); lia|unfold zlen; lia].
Qed.

(** * Blocks that agree on a range *)

Lemma rec_at_ext buf buf' off :
  zlen buf = zlen buf' -> 0 <= off -> off + 8 <= zlen buf ->
  (forall i, off <= i < off + 8 -> u8 buf i = u8 buf' i) ->
  u32 buf off = u32 buf' off /\ u16 buf (off + 4) = u16 buf' (off + 4).
Proof.
  intros Hl Ho Hb He. split; apply uN_u8_ext; auto; try lia; intros; apply He; lia.
Qed.

Lemma zslice_tail_ext (buf buf' : list Z) off n :
  zlen buf = zlen buf' -> 0 <= off -> (forall i, off <= i -> u8 buf i = u8 buf' i) ->
  zslice buf off n = zslice buf' off n.
Proof.
  intros Hl Ho He. unfold zslice. f_equal. apply list_u8_ext.
  - unfold zlen in Hl. rewrite !length_drop. lia.
  - intros i Hi. unfold u8 in *. rewrite !lookup_drop.
    specialize (He (off + i) ltac:(lia)).
    by replace (Z.to_nat (off + i)) with (Z.to_nat off + Z.to_nat i)%nat in He by lia.
Qed.

Lemma recs_ext_fuel fuel buf buf' off :
  zlen buf = zlen buf' -> 0 <= off -> (forall i, off <= i -> u8 buf i = u8 buf' i) ->
  recs_fuel fuel buf off = recs_fuel fuel buf' off.
Proof.
  intros Hl. revert off. induction fuel as [|fuel IH]; intros off Ho He; [done|].
  cbn [recs_fuel]. rewrite <- Hl. destruct (Z.ltb_spec (zlen buf) (off + 8)); [done|].
  destruct (rec_at_ext buf buf' off) as [H1 H2]; [auto..|intros; apply He; lia|].
  cbn [r_len rec_at]. rewrite <- H2. destruct (_ || _) eqn:E; [done|]. zbool.
  f_equal; [|apply IH; [lia|intros; apply He; lia]].
  unfold rec_at. rewrite H1, H2, !(He (off + 6)), (He (off + 7)) by lia. f_equal.
  apply zslice_tail_ext; [done|lia|intros; apply He; lia].
Qed.

(** * Insertion *)

Definition dirent_bytes (ino recLen : Z) (name : list Z) (fileType : Z) : list Z :=
  le_encode 4 ino ++ le_encode 2 recLen ++ [w8 (zlen name)] ++ [w8 fileType] ++ name.

Lemma zlen_dirent_bytes ino recLen name ft : zlen (dirent_bytes ino recLen name ft) = 8 + zlen name.
Proof. unfold dirent_bytes. zl. Qed.
#[export] Hint Rewrite zlen_dirent_bytes : zlen.

Lemma recs_ext buf buf' off :
  zlen buf = zlen buf' -> 0 <= off -> (forall i, off <= i -> u8 buf i = u8 buf' i) ->
  recs buf off = recs buf' off.
Proof. intros Hl Ho He. unfold recs. rewrite Hl. by apply recs_ext_fuel. Qed.

Lemma writeDirEntry_ok buf off ino recLen name ft :
  0 <= off -> off + 8 + zlen name <= zlen buf ->
  writeDirEntry buf off ino recLen name ft =
  Ok (zsplice buf off (dirent_bytes ino recLen name ft)).
Proof.
  intros Ho Hb. pose proof (zlen_nonneg name). unfold writeDirEntry. bytes.
  unfold setN, dirent_bytes.
  rewrite !zsplice_adjacent by zl. rewrite <- ?app_assoc. by rewrite (w8_small (w8 _)) by apply w8_range.
Qed.

Lemma dir_chain_ext buf buf' off :
  zlen buf = zlen buf' -> 0 <= off -> (forall i, off <= i -> u8 buf i = u8 buf' i) ->
  dir_chain buf off -> dir_chain buf' off.
Proof.
  intros Hl Ho He Hc. induction Hc as [off ?|off ??|off ????|off ?????? IH];
    [by apply chain_end; lia|..];
    destruct (rec_at_ext buf buf' off) as [H1' H2']; auto; try (intros; apply He; lia);
    rewrite ?H2', ?He in * by lia.
  - by apply chain_gap; [lia|].
  - apply chain_tail; auto; lia.
  - apply chain_rec; auto; try lia. apply IH; [lia|]. intros; apply He; lia.
Qed.

(** What a record written over [buf] reads back as. *)
Lemma written_rec buf off ino recLen name ft :
  0 <= off -> off + 8 + zlen name <= zlen buf -> 0 <= ino < 2 ^ 32 -> 0 <= recLen < 2 ^ 16 ->
  zlen name < 256 -> 0 <= ft < 256 ->
  let buf' := zsplice buf off (dirent_bytes ino recLen name ft) in
  u32 buf' off = ino /\ u16 buf' (off + 4) = recLen /\ u8 buf' (off + 6) = zlen name /\
  u8 buf' (off + 7) = ft /\ zslice buf' (off + 8) (zlen name) = name.
Proof.
  intros Ho Hb Hi Hr Hn Hf buf'. pose proof (zlen_nonneg name).
  assert (buf' = zsplice (zsplice (zsplice (set16 (set32 buf off ino) (off + 4) recLen)
     (off + 6) [w8 (zlen name)]) (off + 7) [w8 ft]) (off + 8) name) as ->.
  { unfold setN. rewrite !zsplice_adjacent by zl. by rewrite <- ?app_assoc. }
  split_and!.
  - rewrite !uN_zsplice_ne, uN_setN_ne, uN_setN_same by zl. by apply Z.mod_small.
  - rewrite !uN_zsplice_ne, uN_setN_same by zl. by apply Z.mod_small.
  - rewrite !u8_zsplice_ne, u8_zsplice_new by zl. rewrite Z.sub_diag. by apply w8_small.
  - rewrite u8_zsplice_ne, u8_zsplice_new by zl. rewrite Z.sub_diag. by apply w8_small.
  - apply zslice_zsplice_same; zl.
Qed.

Definition new_entry_ok (ino : Z) (name : list Z) (ft : Z) : Prop :=
  0 < ino < 2 ^ 32 /\ 0 < zlen name < 256 /\ bytes_ok name /\ 0 <= ft < 256 /\ ft <> FtDirTail.

(** [buf'] is [buf] from [off] on with one more entry, and nothing before
    [off] changed. *)
Definition inserted (buf buf' : list Z) (off : Z) (e : DirEntry) : Prop :=
  zlen buf' = zlen buf /\ bytes_ok buf' /\ (forall i, 0 <= i < off -> u8 buf' i = u8 buf i) /\
  dir_chain buf' off /\
  exists l1 l2, omap entry_of (recs buf off) = l1 ++ l2 /\
                omap entry_of (recs buf' off) = l1 ++ e :: l2.

Lemma bytes_ok_dirent ino recLen name ft : bytes_ok name -> bytes_ok (dirent_bytes ino recLen name ft).
Proof.
  intros. unfold dirent_bytes. rewrite !bytes_ok_app.
  split_and!; auto with bytes; apply Forall_singleton; apply w8_range.
Qed.

(** A record followed by its successors. *)
Lemma recs_step buf off :
  off + 8 <= zlen buf -> 8 <= u16 buf (off + 4) -> off + u16 buf (off + 4) <= zlen buf ->
  recs buf off = rec_at buf off :: recs buf (off + u16 buf (off + 4)).
Proof. intros. by rewrite recs_unfold, !ltb_false by lia. Qed.

(** The record written at [off] with length [recLen], in front of a chain. *)
Lemma written_chain buf off ino recLen name ft :
  new_entry_ok ino name ft -> 0 <= off -> minDirentSize (zlen name) <= recLen < 2 ^ 16 ->
  off + recLen <= zlen buf -> dir_chain buf (off + recLen) ->
  let buf' := zsplice buf off (dirent_bytes ino recLen name ft) in
  dir_chain buf' off /\
  omap entry_of (recs buf' off) =
    Dirent ino name ft :: omap entry_of (recs buf (off + recLen)).
Proof.
  intros (Hi & Hn & Hnb & Hf & Hft) Ho Hr Hb Hc buf'.
  pose proof (minDirentSize_bounds (zlen name) ltac:(lia)) as Hm.
  destruct (written_rec buf off ino recLen name ft) as (H1 & H2 & H3 & H4 & H5); try lia.
  fold buf' in H1, H2, H3, H4, H5.
  assert (zlen buf' = zlen buf) as Hl by (subst buf'; zl).
  assert (forall i, off + recLen <= i -> u8 buf i = u8 buf' i) as He.
  { intros i Hge. subst buf'. rewrite u8_zsplice_ne; zl. }
  split.
  - apply chain_rec; rewrite ?H2, ?H3, ?H4, ?Hl; try lia.
    by apply (dir_chain_ext buf); try lia.
  - rewrite recs_step by (rewrite ?H2; lia).
    rewrite (recs_ext buf buf' (off + recLen)), H2 by (auto; lia).
    cbn. unfold entry_of at 1. cbn. rewrite H1, H2, H3, H4, H5.
    rewrite !eqb_false, ltb_true, leb_true by lia. done.
Qed.

Lemma insert_reuse buf off ino name ft :
  new_entry_ok ino name ft -> bytes_ok buf -> 0 <= off -> off + 8 <= zlen buf ->
  u32 buf off = 0 -> minDirentSize (zlen name) <= u16 buf (off + 4) ->
  off + u16 buf (off + 4) <= zlen buf -> dir_chain buf (off + u16 buf (off + 4)) ->
  exists buf', writeDirEntry buf off ino (w16 (u16 buf (off + 4))) name ft = Ok buf' /\
    inserted buf buf' off (Dirent ino name ft).
Proof.
  intros Hok Hbo Ho Hh Hi0 Hr Hb Hc.
  pose proof (u16_range buf (off + 4) Hbo). pose proof Hok as (_ & Hn & Hnb & _).
  pose proof (minDirentSize_bounds (zlen name) ltac:(lia)).
  rewrite w16_small, writeDirEntry_ok by lia. eexists; split; [done|].
  destruct (written_chain buf off ino (u16 buf (off + 4)) name ft) as [Hc' He']; auto; try lia.
  split_and!; [zl| |intros; rewrite u8_zsplice_ne; zl|done|].
  - apply bytes_ok_zsplice; [done|by apply bytes_ok_dirent].
  - exists [], (omap entry_of (recs buf (off + u16 buf (off + 4)))). split; [|done].
    rewrite recs_step by lia. cbn. unfold entry_of at 1. cbn. by rewrite Hi0.
Qed.

Lemma omap_rec_cons r l : omap entry_of (r :: l) = omap entry_of [r] ++ omap entry_of l.
Proof. cbn. by destruct (entry_of r). Qed.

(** The record at [off] cut down to [minLen], its freed bytes overwritten. *)
Lemma shrunk_rec buf off minLen bs :
  0 <= off -> 8 + u8 buf (off + 6) <= minLen < 2 ^ 16 -> 0 <= u8 buf (off + 6) ->
  off + minLen + zlen bs <= zlen buf ->
  let buf' := zsplice (set16 buf (off + 4) minLen) (off + minLen) bs in
  rec_at buf' off = DRec off (u32 buf off) minLen (u8 buf (off + 6)) (u8 buf (off + 7))
    (zslice buf (off + 8) (u8 buf (off + 6))).
Proof.
  intros Ho Hm H8 Hb buf'. subst buf'. pose proof (zlen_nonneg bs). unfold rec_at. bytes.
  f_equal. apply Z.mod_small. lia.
Qed.

Lemma insert_split buf off ino name ft :
  let minLen := minDirentSize (u8 buf (off + 6)) in
  let slack := u16 buf (off + 4) - minLen in
  new_entry_ok ino name ft -> bytes_ok buf -> 0 <= off -> off + 8 <= zlen buf ->
  u8 buf (off + 7) <> FtDirTail -> minDirentSize (zlen name) <= slack ->
  off + u16 buf (off + 4) <= zlen buf -> dir_chain buf (off + u16 buf (off + 4)) ->
  exists buf', writeDirEntry (set16 buf (off + 4) (w16 minLen)) (off + minLen) ino
                 (w16 slack) name ft = Ok buf' /\
    inserted buf buf' off (Dirent ino name ft).
Proof.
  intros minLen slack Hok Hbo Ho Hh Hft Hs Hb Hc.
  pose proof (u16_range buf (off + 4) Hbo) as H16. pose proof (u8_range buf (off + 6) Hbo) as H8.
  pose proof Hok as (_ & Hn & Hnb & _).
  pose proof (minDirentSize_bounds (zlen name) ltac:(lia)) as Hmn.
  pose proof (minDirentSize_bounds (u8 buf (off + 6)) ltac:(lia)) as Hml. fold minLen in Hml.
  rewrite !w16_small, writeDirEntry_ok by zl. eexists; split; [done|].
  pose proof (shrunk_rec buf off minLen (dirent_bytes ino slack name ft)) as Hrec.
  destruct (written_chain (set16 buf (off + 4) minLen) (off + minLen) ino slack name ft)
    as [Hc' He']; auto; try (zl; done).
  { apply (dir_chain_ext buf);
      [zl..|by replace (off + minLen + slack) with (off + u16 buf (off + 4)) by lia].
    intros. by rewrite u8_setN_ne by zl. }
  rewrite <- (recs_ext buf (set16 buf (off + 4) minLen)) in He' by (zl; intros; by rewrite u8_setN_ne by zl).
  set (buf' := zsplice _ _ _) in *. specialize (Hrec ltac:(lia) ltac:(lia) ltac:(lia) ltac:(zl)).
  assert (zlen buf' = zlen buf) as Hl by (subst buf'; zl).
  injection Hrec as R1 R2 R3 R4 R5.
  split_and!; [done| |intros; subst buf'; rewrite u8_zsplice_ne, u8_setN_ne; zl| |].
  - apply bytes_ok_zsplice; [auto with bytes|by apply bytes_ok_dirent].
  - apply chain_rec; rewrite ?Hl, ?R2, ?R3, ?R4; auto; lia.
  - clearbody buf' minLen.
    exists (omap entry_of [rec_at buf off]), (omap entry_of (recs buf (off + u16 buf (off + 4)))).
    rewrite (recs_step buf), (recs_step buf') by (rewrite ?R2; lia).
    rewrite R2, (omap_rec_cons _ (recs buf _)), (omap_rec_cons _ (recs buf' _)), He'. replace (off + minLen + slack) with (off + u16 buf (off + 4)) by lia.
    split; [reflexivity|]. f_equal. unfold omap, list_omap, entry_of. cbn [r_ino r_len r_nlen r_ft r_name rec_at]. rewrite R5, R1, R2, R3, R4.
    rewrite !(leb_true (u8 buf (off + 6))) by lia.
    done.
Qed.

Lemma rec_at_same buf buf' off n :
  0 <= off -> zlen buf' = zlen buf -> off + 8 <= n <= zlen buf ->
  off + 8 + u8 buf (off + 6) <= n ->
  (forall i, 0 <= i < n -> u8 buf' i = u8 buf i) -> rec_at buf' off = rec_at buf off.
Proof.
  intros Ho Hl Hb Hn Hpre.
  destruct (rec_at_ext buf' buf off) as [R1 R2]; auto; try lia; [intros; apply Hpre; lia|].
  unfold rec_at. rewrite R1, R2, !Hpre by lia. f_equal.
  apply zslice_u8_ext; try lia. intros; apply Hpre; lia.
Qed.

(** Records before the change keep their place in the listing. *)
Lemma inserted_step buf buf' off e :
  0 <= off -> off + 8 <= zlen buf -> 8 <= u16 buf (off + 4) ->
  off + u16 buf (off + 4) <= zlen buf -> u8 buf (off + 7) <> FtDirTail ->
  minDirentSize (u8 buf (off + 6)) <= u16 buf (off + 4) -> 0 <= u8 buf (off + 6) ->
  inserted buf buf' (off + u16 buf (off + 4)) e -> inserted buf buf' off e.
Proof.
  intros Ho Hh Hr Hb Hft Hm H8 (Hl & Hbo & Hpre & Hc & l1 & l2 & H1 & H2).
  pose proof (minDirentSize_bounds (u8 buf (off + 6)) ltac:(lia)) as Hml.
  assert (rec_at buf' off = rec_at buf off) as Hrec 
    by (apply (rec_at_same _ _ _ (off + u16 buf (off + 4))); auto; lia).
  injection Hrec as R1 R2 R3 R4 R5.
  split_and!; auto; [intros; apply Hpre; lia|apply chain_rec; rewrite ?R2, ?R3, ?R4, ?Hl; auto; lia|].
  exists (omap entry_of [rec_at buf off] ++ l1), l2.
  rewrite (recs_step buf), (recs_step buf') by (rewrite ?R2, ?Hl; lia).
  rewrite (omap_rec_cons _ (recs buf _)), (omap_rec_cons _ (recs buf' _)), R2, H1, H2.
  rewrite <- !app_assoc. split; [done|]. f_equal. unfold rec_at. by rewrite R5, R1, R2, R3, R4.
Qed.

Lemma tryInsert_from_spec fuel buf off ino name ft :
  new_entry_ok ino name ft -> bytes_ok buf -> 0 <= off <= zlen buf ->
  zlen buf - off < Z.of_nat fuel -> dir_chain buf off ->
  let needed := minDirentSize (zlen name) in
  match tryInsert_from fuel buf off ino name ft needed with
  | Ok (Some buf') => inserted buf buf' off (Dirent ino name ft)
  | Ok None => Forall (fun r => r_ft r = FtDirTail \/ room r < needed) (recs buf off)
  | _ => False
  end.
Proof.
  intros Hok Hbo Ho Hf Hc needed. revert off Ho Hf Hc.
  induction fuel as [|fuel IH]; intros off Ho Hf Hc; [lia|]. cbn [tryInsert_from].
  destruct (Z.ltb_spec (zlen buf) (off + 8)) as [Hh|Hh].
  { rewrite recs_unfold, ltb_true by lia. constructor. }
  rewrite !getN_ok by zl. cbn [rbind].
  inversion Hc as [? Hx|? ? Hx|? ? H8 Hx1 Hx2|? ? H8 Hx1 Hx2 Hx3 Hx4]; subst; [lia|..].
  { rewrite (ltb_true _ 8) by lia. cbn [orb].
    rewrite recs_unfold, ltb_false, (ltb_true _ 8) by lia. constructor. }
  { rewrite !ltb_false by lia. cbn [orb]. rewrite get8_ok by lia. cbn [rbind].
    rewrite eqb_true by done. rewrite recs_step by lia. constructor; [by left|].
    rewrite Hx2, recs_unfold, ltb_true by lia. constructor. }
  rewrite !ltb_false by lia. cbn [orb]. rewrite !get8_ok by lia. cbn [rbind].
  rewrite (eqb_false (u8 buf (off + 7))) by done.
  pose proof (u8_range buf (off + 6) Hbo). specialize (IH (off + u16 buf (off + 4)) ltac:(lia) ltac:(lia) Hx4).
  assert (room (rec_at buf off) < needed ->
    match tryInsert_from fuel buf (off + u16 buf (off + 4)) ino name ft needed with
    | Ok (Some buf') => inserted buf buf' off (Dirent ino name ft)
    | Ok None => Forall (fun r => r_ft r = FtDirTail \/ room r < needed) (recs buf off)
    | _ => False
    end) as Hskip.
  { intros Hroom. destruct (tryInsert_from _ _ _ _ _ _ _) as [[buf'|]|?|]; try done.
    - apply inserted_step; auto; lia.
    - rewrite recs_step by lia. constructor; auto. }
  destruct (Z.eqb_spec (u32 buf off) 0) as [Hi|Hi].
  - destruct (Z.leb_spec needed (u16 buf (off + 4))) as [Hn|Hn].
    + destruct (insert_reuse buf off ino name ft) as (buf' & -> & Hins); auto; lia.
    + apply Hskip. unfold room. cbn. by rewrite Hi.
  - pose proof (minDirentSize_bounds (u8 buf (off + 6)) ltac:(lia)) as Hml.
    pose proof Hok as (_ & Hn' & _).
    pose proof (minDirentSize_bounds (zlen name) ltac:(lia)) as Hmn.
    rewrite (ltb_false _ (minDirentSize (u8 buf (off + 6)))) by lia.
    destruct (Z.leb_spec needed (u16 buf (off + 4) - minDirentSize (u8 buf (off + 6)))) as [Hn|Hn].
    + rewrite !ltb_false by lia. cbn [orb]. rewrite putN_ok by lia. cbn [rbind].
      destruct (insert_split buf off ino name ft) as (buf' & -> & Hins); auto; lia.
    + apply Hskip. unfold room. cbn. by rewrite eqb_false.
Qed.

(** * Removal *)

Definition named (name : list Z) (r : drec) : Prop :=
  r_ft r <> FtDirTail /\ 0 < r_nlen r /\ r_name r = name.

Definition free_rec (r : drec) : drec :=
  DRec (r_off r) 0 (r_len r) (r_nlen r) (r_ft r) (r_name r).

(** [buf'] is [buf] from [off] on with the first record named [name] freed. *)
Definition removed (buf buf' : list Z) (off : Z) (name : list Z) : Prop :=
  zlen buf' = zlen buf /\ bytes_ok buf' /\ (forall i, 0 <= i < off -> u8 buf' i = u8 buf i) /\
  dir_chain buf' off /\
  exists l1 r l2, recs buf off = l1 ++ r :: l2 /\ named name r /\
    Forall (fun r => ~ named name r) l1 /\ recs buf' off = l1 ++ free_rec r :: l2.

Lemma removed_here buf off name :
  bytes_ok buf -> 0 <= off -> off + 8 <= zlen buf -> 8 <= u16 buf (off + 4) ->
  off + u16 buf (off + 4) <= zlen buf -> minDirentSize (u8 buf (off + 6)) <= u16 buf (off + 4) ->
  dir_chain buf (off + u16 buf (off + 4)) -> named name (rec_at buf off) ->
  removed buf (set32 buf off 0) off name.
Proof.
  intros Hbo Ho Hh Hr Hb Hm Hc Hn. pose proof Hn as (Hft & Hnl & _). cbn in Hft, Hnl.
  set (buf' := set32 buf off 0). assert (zlen buf' = zlen buf) as Hl by (subst buf'; zl).
  assert (rec_at buf' off = free_rec (rec_at buf off)) as Hrec.
  { unfold rec_at, free_rec. cbn. subst buf'. bytes. done. }
  assert (forall i, off + u16 buf (off + 4) <= i -> u8 buf i = u8 buf' i) as He.
  { intros. subst buf'. rewrite u8_setN_ne; zl. }
  pose proof Hrec as Hrec'. injection Hrec' as R1 R2 R3 R4 R5.
  split_and!; [done|subst buf'; auto with bytes|intros; subst buf'; rewrite u8_setN_ne; zl| |].
  - apply chain_rec; rewrite ?R2, ?R3, ?R4; auto; try lia.
    apply (dir_chain_ext buf); auto; lia.
  - exists [], (rec_at buf off), (recs buf (off + u16 buf (off + 4))).
    rewrite (recs_step buf), (recs_step buf') by (rewrite ?R2; lia).
    rewrite R2, Hrec, (recs_ext buf buf') by (auto; lia). split_and!; auto.
Qed.

Lemma removed_step buf buf' off name :
  0 <= off -> off + 8 <= zlen buf -> 8 <= u16 buf (off + 4) ->
  off + u16 buf (off + 4) <= zlen buf -> u8 buf (off + 7) <> FtDirTail ->
  minDirentSize (u8 buf (off + 6)) <= u16 buf (off + 4) -> 0 <= u8 buf (off + 6) ->
  ~ named name (rec_at buf off) ->
  removed buf buf' (off + u16 buf (off + 4)) name -> removed buf buf' off name.
Proof.
  intros Ho Hh Hr Hb Hft Hm H8 Hn (Hl & Hbo & Hpre & Hc & l1 & r & l2 & H1 & H2 & H3 & H4).
  pose proof (minDirentSize_bounds (u8 buf (off + 6)) ltac:(lia)) as Hml.
  assert (rec_at buf' off = rec_at buf off) as Hrec 
    by (apply (rec_at_same _ _ _ (off + u16 buf (off + 4))); auto; lia).
  pose proof Hrec as Hrec'. injection Hrec' as R1 R2 R3 R4 R5.
  split_and!; auto; [intros; apply Hpre; lia|apply chain_rec; rewrite ?R2, ?R3, ?R4, ?Hl; auto; lia|].
  exists (rec_at buf off :: l1), r, l2.
  rewrite (recs_step buf), (recs_step buf') by (rewrite ?R2, ?Hl; lia).
  rewrite R2, H1, H4, Hrec. split_and!; auto.
Qed.

Lemma zeroEntry_from_spec fuel buf off name :
  bytes_ok buf -> 0 <= off <= zlen buf -> zlen buf - off < Z.of_nat fuel -> dir_chain buf off ->
  match zeroEntry_from fuel buf off name with
  | Ok (Some buf') => removed buf buf' off name
  | Ok None => Forall (fun r => ~ named name r) (recs buf off)
  | _ => False
  end.
Proof.
  intros Hbo. revert off. induction fuel as [|fuel IH]; intros off Ho Hf Hc; [lia|].
  cbn [zeroEntry_from]. destruct (Z.ltb_spec (zlen buf) (off + 8)) as [Hh|Hh].
  { rewrite recs_unfold, ltb_true by lia. constructor. }
  rewrite !getN_ok by zl. cbn [rbind].
  inversion Hc as [? Hx|? ? Hx|? ? H8 Hx1 Hx2|? ? H8 Hx1 Hx2 Hx3 Hx4]; subst; [lia|..].
  { rewrite (ltb_true _ 8) by lia. cbn [orb].
    rewrite recs_unfold, ltb_false, (ltb_true _ 8) by lia. constructor. }
  { rewrite !ltb_false by lia. rewrite get8_ok by lia. cbn [rbind].
    rewrite eqb_true by done. rewrite recs_step by lia. constructor; [by intros [? _]|].
    rewrite Hx2, recs_unfold, ltb_true by lia. constructor. }
  rewrite !ltb_false by lia. rewrite !get8_ok by lia. cbn [rbind].
  rewrite (eqb_false (u8 buf (off + 7))) by done.
  pose proof (u8_range buf (off + 6) Hbo).
  pose proof (minDirentSize_bounds (u8 buf (off + 6)) ltac:(lia)) as Hml.
  specialize (IH (off + u16 buf (off + 4)) ltac:(lia) ltac:(lia) Hx4).
  assert (~ named name (rec_at buf off) ->
    match zeroEntry_from fuel buf (off + u16 buf (off + 4)) name with
    | Ok (Some buf') => removed buf buf' off name
    | Ok None => Forall (fun r => ~ named name r) (recs buf off)
    | _ => False
    end) as Hskip.
  { intros Hno. destruct (zeroEntry_from _ _ _ _) as [[buf'|]|?|]; try done.
    - apply removed_step; auto; lia.
    - rewrite recs_step by lia. constructor; auto. }
  destruct (Z.ltb_spec 0 (u8 buf (off + 6))) as [Hn|Hn]; cbn [rbind].
  - rewrite subslice_ok, Z.add_simpl_l by lia. cbn [rbind]. case_bool_decide as Heq.
    + rewrite putN_ok by lia. apply removed_here; auto; try lia. by split_and!.
    + apply Hskip. intros (_ & _ & ?). done.
  - apply Hskip. intros (_ & ? & _). cbn in *. lia.
Qed.

(** Blocks whose freed records do not carry [name]. *)
Definition no_stale (name : list Z) (buf : list Z) : Prop :=
  Forall (fun r => named name r -> r_ino r <> 0) (recs buf 0).

Lemma entry_of_name r e : entry_of r = Some e -> named (de_Name e) r.
Proof.
  unfold entry_of. destruct (_ && _) eqn:E; [|done]. intros [= <-]. zbool. by split_and!.
Qed.

Lemma entry_of_unnamed name l :
  Forall (fun r => ~ named name r) l -> name ∉ (de_Name <$> omap entry_of l).
Proof.
  intros Hl (e & -> & (r & Hr & He)%list_elem_of_omap)%list_elem_of_fmap.
  rewrite Forall_forall in Hl. apply (Hl r Hr). by apply entry_of_name.
Qed.

Lemma recs_names buf off :
  dir_chain buf off -> bytes_ok buf -> 0 <= off ->
  Forall (fun r => r_ft r <> FtDirTail -> r_nlen r <= r_len r - 8) (recs buf off).
Proof.
  intros Hc Hbo. induction Hc as [off ?|off ??|off ? ? ? He|off ?????? IH]; intros Ho.
  - rewrite recs_unfold, ltb_true by lia. constructor.
  - rewrite recs_unfold, ltb_false, ltb_true by lia. constructor.
  - rewrite recs_step by lia. constructor; [done|].
    rewrite He, recs_unfold, ltb_true by lia. constructor.
  - rewrite recs_step by lia. constructor; [|apply IH; lia]. intros _. cbn.
    pose proof (u8_range buf (off + 6) Hbo).
    pose proof (minDirentSize_bounds (u8 buf (off + 6)) ltac:(lia)). lia.
Qed.

Lemma zeroEntryInBlock_spec buf name :
  bytes_ok buf -> dir_chain buf 0 ->
  match zeroEntryInBlock buf name with
  | Ok (Some buf') => removed buf buf' 0 name
  | Ok None => name ∉ (de_Name <$> entries buf)
  | _ => False
  end.
Proof.
  intros Hbo Hc.
  pose proof (zeroEntry_from_spec (S (length buf)) buf 0 name Hbo
    ltac:(pose proof (zlen_nonneg buf); lia) ltac:(unfold zlen; lia) Hc) as Hs.
  unfold zeroEntryInBlock. destruct (zeroEntry_from _ _ _ _) as [[buf'|]|?|]; auto.
  by apply entry_of_unnamed.
Qed.

Lemma removed_entries buf buf' name :
  bytes_ok buf -> dir_chain buf 0 -> no_stale name buf -> removed buf buf' 0 name ->
  exists e1 e e2, entries buf = e1 ++ e :: e2 /\ de_Name e = name /\
    (name ∉ (de_Name <$> e1)) /\ entries buf' = e1 ++ e2.
Proof.
  intros Hbo Hc Hst (_ & _ & _ & _ & l1 & r & l2 & H1 & H2 & H3 & H4).
  pose proof (recs_names buf 0 Hc Hbo ltac:(lia)) as Hln.
  unfold no_stale in Hst. rewrite H1 in Hst, Hln.
  apply Forall_app in Hst as [_ [Hr _]%Forall_cons], Hln as [_ [Hn _]%Forall_cons].
  pose proof H2 as (Ht & Hp & Hname).
  assert (entry_of r = Some (Dirent (r_ino r) name (r_ft r))) as He.
  { unfold entry_of. rewrite !eqb_false, ltb_true, leb_true by auto. by rewrite Hname. }
  exists (omap entry_of l1), (Dirent (r_ino r) name (r_ft r)), (omap entry_of l2).
  unfold entries. rewrite H1, H4, !omap_app. split_and!; auto.
  - f_equal. cbn. by rewrite He.
  - by apply entry_of_unnamed.
Qed.

(** * The checksum tail *)

(** Records from [off] that end exactly at [t]. *)
Inductive reaches (buf : list Z) (t : Z) : Z -> Prop :=
| reach_here : reaches buf t t
| reach_rec off :
    0 <= off -> off + 8 <= t -> 8 <= u16 buf (off + 4) -> off + u16 buf (off + 4) <= t ->
    minDirentSize (u8 buf (off + 6)) <= u16 buf (off + 4) ->
    reaches buf t (off + u16 buf (off + 4)) -> reaches buf t off.

(** The last twelve bytes are a checksum tail, or still unused. *)
Definition tail_slot (buf : list Z) : Prop :=
  let t := zlen buf - 12 in
  reaches buf t 0 /\
  (u16 buf (t + 4) < 8 \/ u16 buf (t + 4) = 12 /\ u8 buf (t + 7) = FtDirTail).

Definition dir_csum_ok (sb : superblock) (num gen : Z) (buf : list Z) : Prop :=
  let t := zlen buf - 12 in
  u32 buf t = 0 /\ u16 buf (t + 4) = 12 /\ u8 buf (t + 7) = FtDirTail /\
  u32 buf (t + 8) = dir_crc sb num gen (zslice buf 0 (t + 8)).

Lemma reaches_recs buf buf' t off :
  bytes_ok buf -> zlen buf' = zlen buf -> 0 <= t <= zlen buf ->
  (forall i, 0 <= i < t -> u8 buf' i = u8 buf i) -> reaches buf t off ->
  reaches buf' t off /\
  exists l, recs buf off = l ++ recs buf t /\ recs buf' off = l ++ recs buf' t.
Proof.
  intros Hbo Hl Ht Hpre. induction 1 as [|off Ho Hh Hr Hb Hm _ (IH & l & H1 & H2)].
  - split; [constructor|]. by exists [].
  - pose proof (u8_range buf (off + 6) Hbo).
    pose proof (minDirentSize_bounds (u8 buf (off + 6)) ltac:(lia)).
    assert (rec_at buf' off = rec_at buf off) as Hrec by (apply (rec_at_same _ _ _ t); auto; lia).
    pose proof Hrec as Hrec'. injection Hrec' as R1 R2 R3 R4 R5.
    split; [apply reach_rec; rewrite ?R2, ?R3; auto; lia|].
    exists (rec_at buf off :: l). rewrite (recs_step buf), (recs_step buf') by (rewrite ?R2; lia).
    by rewrite R2, H1, H2, Hrec.
Qed.

(** No entry is listed at the tail. *)
Lemma tail_entries buf :
  12 <= zlen buf ->
  let t := zlen buf - 12 in
  u16 buf (t + 4) < 8 \/ u16 buf (t + 4) = 12 /\ u8 buf (t + 7) = FtDirTail ->
  omap entry_of (recs buf t) = [].
Proof.
  intros Hl t [Hg|[H12 Hft]].
  - by rewrite recs_unfold, ltb_false, ltb_true by lia.
  - rewrite recs_step by lia. rewrite H12. rewrite (recs_unfold buf (t + 12)), ltb_true by lia.
    cbn. unfold entry_of. cbn. rewrite Hft. by rewrite !andb_false_r.
Qed.

Lemma dir_crc_range sb num gen body :
  0 <= csumSeed sb < 2 ^ 32 -> bytes_ok body -> 0 <= dir_crc sb num gen body < 2 ^ 32.
Proof.
  intros Hs Hb. unfold dir_crc. repeat (apply crc32c_range; [|by auto with bytes]). done.
Qed.

Lemma updateDirBlockCsum_ok sb i buf :
  has_flag (FeatureROCompat sb) FeatROCompatMetadataCsum = true ->
  0 <= csumSeed sb < 2 ^ 32 -> bytes_ok buf -> 12 <= zlen buf -> 104 <= zlen (in_raw i) ->
  exists buf', updateDirBlockCsum sb i buf = Ok buf' /\ zlen buf' = zlen buf /\ bytes_ok buf' /\
    dir_csum_ok sb (in_num i) (u32 (in_raw i) 100) buf' /\
    (forall k, 0 <= k < zlen buf - 12 -> u8 buf' k = u8 buf k).
Proof.
  intros Hc Hs Hb Hl Hr. unfold updateDirBlockCsum, generation. rewrite Hc. cbn [negb].
  set (t := zlen buf - 12). bytes. rewrite Z.sub_0_r.
  set (b4 := zsplice _ (t + 7) _). set (c := dir_crc _ _ _ _).
  assert (zlen b4 = zlen buf) as Hl4 by (subst b4; zl).
  assert (bytes_ok b4) as Hb4.
  { subst b4. repeat apply bytes_ok_zsplice; auto with bytes; apply Forall_singleton; vm_compute; done. }
  assert (0 <= c < 2 ^ 32) as Hcr by (apply dir_crc_range; auto with bytes).
  eexists. split; [done|]. split_and!; [zl|auto with bytes| |].
  - unfold dir_csum_ok. rewrite !zlen_setN, Hl4. fold t. split_and!.
    + subst b4. bytes. done.
    + subst b4. bytes. done.
    + subst b4. bytes. rewrite u8_zsplice_new by zl. by rewrite Z.sub_diag.
    + rewrite uN_setN_same, !zslice_setN_ne by zl. by apply Z.mod_small.
  - intros k Hk. subst b4. by bytes.
Qed.

Lemma updateDirBlockCsum_entries sb i buf :
  has_flag (FeatureROCompat sb) FeatROCompatMetadataCsum = true ->
  0 <= csumSeed sb < 2 ^ 32 -> bytes_ok buf -> 12 <= zlen buf -> 104 <= zlen (in_raw i) ->
  tail_slot buf ->
  exists buf', updateDirBlockCsum sb i buf = Ok buf' /\ entries buf' = entries buf /\
    dir_csum_ok sb (in_num i) (u32 (in_raw i) 100) buf' /\ tail_slot buf'.
Proof.
  intros Hc Hs Hb Hl Hr [Hre Ht].
  destruct (updateDirBlockCsum_ok sb i buf Hc Hs Hb Hl Hr) as (buf' & H1 & H2 & H3 & H4 & H5).
  pose proof H4 as (_ & K2 & K3 & _).
  destruct (reaches_recs buf buf' (zlen buf - 12) 0) as (Hre' & l & L1 & L2); auto; [lia|].
  exists buf'. split_and!; auto.
  - unfold entries. rewrite L1, L2, !omap_app.
    pose proof (tail_entries buf' ltac:(lia) (or_intror (conj K2 K3))) as T2.
    rewrite H2 in T2. by rewrite T2, (tail_entries buf).
  - split; rewrite H2; [done|]. right. by rewrite <- H2.
Qed.

(** * Properties *)

Lemma recs_nlen buf off :
  bytes_ok buf -> 0 <= off ->
  Forall (fun r => r_nlen r <= r_len r - 8 -> zlen (r_name r) = r_nlen r /\ r_nlen r < 256)
    (recs buf off).
Proof.
  intros Hb. unfold recs. generalize (Z.to_nat (zlen buf - off)) as fuel. intros fuel.
  revert off. induction fuel as [|fuel IH]; intros off Ho; cbn [recs_fuel]; [constructor|].
  destruct (Z.ltb_spec (zlen buf) (off + 8)); [constructor|]. cbn [r_len rec_at].
  destruct (_ || _) eqn:E; [constructor|]. zbool. constructor; [|apply IH; lia].
  cbn. pose proof (u8_range buf (off + 6) Hb). intros. split; [|lia]. zl.
Qed.


(** C8: inserting into a well-formed block never panics.  When a record has
    room the block stays well-formed, keeps its size and lists the old entries
    in their order with the new one among them; when the code reports no room,
    no record has any. *)
Theorem tryInsertDirEntry_correct `{Safeio} buf ino name ft :
  new_entry_ok ino name ft -> bytes_ok buf -> dir_chain buf 0 ->
  let needed := minDirentSize (zlen name) in
  match tryInsertDirEntry buf ino name ft needed with
  | Ok (Some buf') =>
      zlen buf' = zlen buf /\ bytes_ok buf' /\ dir_chain buf' 0 /\
      exists l1 l2, parseDirBlock buf = Ok (l1 ++ l2) /\
                    parseDirBlock buf' = Ok (l1 ++ Dirent ino name ft :: l2)
  | Ok None => Forall (fun r => r_ft r = FtDirTail \/ room r < needed) (recs buf 0)
  | _ => False
  end.
Proof.
  intros Hok Hbo Hc needed. unfold tryInsertDirEntry.
  pose proof (tryInsert_from_spec (S (length buf)) buf 0 ino name ft Hok Hbo
    ltac:(pose proof (zlen_nonneg buf); lia) ltac:(unfold zlen; lia) Hc) as Hs.
  cbv zeta in Hs. fold needed in Hs. destruct (tryInsert_from _ _ _ _ _ _ _) as [[buf'|]|?|]; auto.
  destruct Hs as (H1' & H2' & _ & H4' & l1 & l2 & H5' & H6'). split_and!; auto.
  exists l1, l2. rewrite !parseDirBlock_recs. unfold entries. by rewrite H5', H6'.
Qed.

(** C20: removing a name from a well-formed block never panics, and the block
    stays well-formed.  If the freed records do not carry the name, the listing
    loses its first entry of that name and nothing else; if nothing was
    modified, the name was not listed. *)
Theorem zeroEntryInBlock_correct `{Safeio} buf name :
  bytes_ok buf -> dir_chain buf 0 -> no_stale name buf ->
  match zeroEntryInBlock buf name with
  | Ok (Some buf') =>
      zlen buf' = zlen buf /\ dir_chain buf' 0 /\
      exists l1 e l2, parseDirBlock buf = Ok (l1 ++ e :: l2) /\ de_Name e = name /\
        (name ∉ (de_Name <$> l1)) /\ parseDirBlock buf' = Ok (l1 ++ l2)
  | Ok None => exists es, parseDirBlock buf = Ok es /\ (name ∉ (de_Name <$> es))
  | _ => False
  end.
Proof.
  intros Hbo Hc Hst. pose proof (zeroEntryInBlock_spec buf name Hbo Hc) as Hs.
  rewrite parseDirBlock_recs. destruct (zeroEntryInBlock buf name) as [[buf'|]|?|]; auto.
  - destruct (removed_entries buf buf' name Hbo Hc Hst Hs) as (e1 & e & e2 & H1' & H2' & H3' & H4').
    destruct Hs as (Hl & _ & _ & Hc' & _). split_and!; auto. exists e1, e, e2.
    by rewrite parseDirBlock_recs, H1', H4'.
  - eauto.
Qed.

(** Sealing a directory block writes a tail whose checksum covers the
    block, the directory's number and its generation, and changes no listed
    entry. *)
Theorem updateDirBlockCsum_correct `{Safeio} sb i buf :
  has_flag (FeatureROCompat sb) FeatROCompatMetadataCsum = true ->
  0 <= csumSeed sb < 2 ^ 32 -> bytes_ok buf -> 12 <= zlen buf -> 104 <= zlen (in_raw i) ->
  tail_slot buf ->
  exists buf', updateDirBlockCsum sb i buf = Ok buf' /\
    parseDirBlock buf' = parseDirBlock buf /\
    dir_csum_ok sb (in_num i) (u32 (in_raw i) 100) buf' /\ tail_slot buf'.
Proof.
  intros Hc Hs Hb Hl Hr Ht.
  destruct (updateDirBlockCsum_entries sb i buf Hc Hs Hb Hl Hr Ht) as (buf' & H1' & H2' & H3').
  exists buf'. by rewrite !parseDirBlock_recs, H2'.
Qed.

(** A directory block of 64 bytes: dot, dot-dot, and a reserved tail. *)
Definition ex_dirblock : list Z :=
  zsplice (zsplice (zeros 64) 0 (dirent_bytes 2 12 [46] FtDir)) 12
    (dirent_bytes 2 40 [46; 46] FtDir).


Lemma ex_dirblock_chain : dir_chain ex_dirblock 0.
Proof.
  do 2 (apply chain_rec; [by vm_compute..|]). apply chain_gap; by vm_compute.
Qed.

Definition run {A} (dflt : A) (r : res (option A)) : A :=
  match r with Ok (Some a) => a | _ => dflt end.

Lemma tryInsertDirEntry_correct_witness :
  exists l1 l2, parseDirBlock ex_dirblock = Ok (l1 ++ l2) /\
    parseDirBlock (run [] (tryInsertDirEntry ex_dirblock 12 [97] FtRegFile (minDirentSize 1))) =
    Ok (l1 ++ Dirent 12 [97] FtRegFile :: l2).
Proof.
  assert (new_entry_ok 12 [97] FtRegFile) as Hn
    
    by (unfold new_entry_ok; split_and!; first [by apply all_bytes_ok | by vm_compute]).
  pose proof (tryInsertDirEntry_correct ex_dirblock 12 [97] FtRegFile Hn
    (all_bytes_ok ex_dirblock eq_refl) ex_dirblock_chain) as Hw. cbv zeta in Hw.
  change (minDirentSize (zlen [97])) with (minDirentSize 1) in Hw.
  destruct (tryInsertDirEntry _ _ _ _ _) as [[buf'|]|?|] eqn:E; [apply Hw|vm_compute in E; discriminate..].
Defined.

Lemma zeroEntryInBlock_correct_witness :
  exists l1 e l2, parseDirBlock ex_dirblock = Ok (l1 ++ e :: l2) /\ de_Name e = [46; 46] /\
    ([46; 46] ∉ (de_Name <$> l1)) /\
    parseDirBlock (run [] (zeroEntryInBlock ex_dirblock [46; 46])) = Ok (l1 ++ l2).
Proof.
  assert (no_stale [46; 46] ex_dirblock) as Hst.
  { unfold no_stale. vm_compute. repeat constructor; intros; discriminate. }
  pose proof (zeroEntryInBlock_correct ex_dirblock [46; 46]
    (all_bytes_ok ex_dirblock eq_refl) ex_dirblock_chain Hst) as Hw.
  destruct (zeroEntryInBlock _ _) as [[buf'|]|?|] eqn:E; [apply Hw|vm_compute in E; discriminate..].
Defined.

Definition ex_sb_csum : superblock :=
  Superblock (zeros 1024) 32 64 40 20 1 1024 8192 32 0xEF53 FeatIncompatExtents
    FeatROCompatMetadataCsum (zeros 16) [] 128 32 0 0 1 0 0.

Lemma updateDirBlockCsum_correct_witness :
  exists buf', updateDirBlockCsum ex_sb_csum (Inode (zeros 128) 2 64 0x41ED) ex_dirblock = Ok buf' /\
    parseDirBlock buf' = parseDirBlock ex_dirblock.
Proof.
  destruct (updateDirBlockCsum_correct ex_sb_csum (Inode (zeros 128) 2 64 0x41ED) ex_dirblock)
    as (buf' & H1 & H2 & _); [first [by apply all_bytes_ok | by vm_compute]..| |eauto].
  split; [|by left]. do 2 (apply reach_rec; [by vm_compute..|]). apply reach_here.
Defined.

(** on blocks that are not well-formed the removal scan is unsafe where the
    parser is not: a record whose name runs past the block makes it panic, and a
    freed record that still carries the name hides the live one, so that the
    entry reported as removed is still listed. *)
Theorem zeroEntryInBlock_unsafe :
  (exists buf, bytes_ok buf /\ parseDirBlock buf = Ok [] /\ zeroEntryInBlock buf [97] = Panic) /\
  (exists buf buf', bytes_ok buf /\ dir_chain buf 0 /\
     zeroEntryInBlock buf [97] = Ok (Some buf') /\
     parseDirBlock buf' = Ok [Dirent 12 [97] FtRegFile]).
Proof.
  split.
  - exists (zsplice (zeros 16) 0 [5; 0; 0; 0; 16; 0; 200; 1]).
    split; [by apply all_bytes_ok|]. by vm_compute.
  - exists (dirent_bytes 0 12 [97] FtRegFile ++ zeros 3 ++ dirent_bytes 12 12 [97] FtRegFile ++ zeros 3).
    eexists. split_and!; [by apply all_bytes_ok| |vm_compute; reflexivity|vm_compute; reflexivity].
    do 2 (apply chain_rec; [by vm_compute..|]). apply chain_end. by vm_compute.
Qed.
