(* ===== verification/DirTail.v ===== *)
(** The checksum tail of a directory block survives insertion and removal
    ([tryInsertDirEntry] of [src/dir.go], [zeroEntryInBlock] of
    [src/delete.go]): the records still end exactly where the tail begins, and
    the bytes of the tail are untouched. *)

From S2P Require Import Prelude Bytes Crc Superblock GoLib Extent Inode Dir.

Lemma reaches_ext buf buf' t off :
  bytes_ok buf -> zlen buf' = zlen buf -> t <= zlen buf -> 0 <= off ->
  (forall i, off <= i -> u8 buf' i = u8 buf i) -> reaches buf t off -> reaches buf' t off.
Proof.
  intros Hbo Hl Ht Ho He Hr. induction Hr as [|off Ho' Hh Hr Hb Hm _ IH]; [constructor|].
  destruct (rec_at_ext buf' buf off) as [_ R2]; auto; [lia|intros; apply He; lia|].
  apply reach_rec; rewrite ?R2, ?He; auto; try lia.
  apply IH; [lia|]. intros. apply He. lia.
Qed.

(** A record with no free space before the tail keeps its place. *)
Lemma reaches_step buf buf' t off :
  bytes_ok buf -> zlen buf' = zlen buf -> 0 <= off -> off + 8 <= t -> t <= zlen buf ->
  8 <= u16 buf (off + 4) -> off + u16 buf (off + 4) <= t ->
  minDirentSize (u8 buf (off + 6)) <= u16 buf (off + 4) ->
  (forall i, 0 <= i < off + u16 buf (off + 4) -> u8 buf' i = u8 buf i) ->
  reaches buf' t (off + u16 buf (off + 4)) -> reaches buf' t off.
Proof.
  intros Hbo Hl Ho Hh Ht Hr Hb Hm Hpre Hre.
  destruct (rec_at_ext buf' buf off) as [_ R2]; auto; [lia|intros; apply Hpre; lia|].
  apply reach_rec; rewrite ?R2, ?Hpre; auto; lia.
Qed.

(** What an edit of a block with a tail at [t] keeps from [off] on. *)
Definition keeps_tail (buf buf' : list Z) (t off : Z) : Prop :=
  reaches buf' t off /\ (forall i, t <= i -> u8 buf' i = u8 buf i) /\
  (forall i, 0 <= i < off -> u8 buf' i = u8 buf i) /\ zlen buf' = zlen buf.

Lemma keeps_tail_step buf buf' t off :
  bytes_ok buf -> 0 <= off -> off + 8 <= t -> t <= zlen buf ->
  8 <= u16 buf (off + 4) -> off + u16 buf (off + 4) <= t ->
  minDirentSize (u8 buf (off + 6)) <= u16 buf (off + 4) ->
  keeps_tail buf buf' t (off + u16 buf (off + 4)) -> keeps_tail buf buf' t off.
Proof.
  intros Hbo Ho Hh Ht Hr Hb Hm (H1 & H2 & H3 & H4). split_and!; auto.
  - by apply (reaches_step buf).
  - intros. apply H3. lia.
Qed.

Lemma keeps_tail_reuse buf t off ino name ft :
  new_entry_ok ino name ft -> bytes_ok buf -> 0 <= off -> off + 8 <= t -> t <= zlen buf ->
  8 <= u16 buf (off + 4) -> off + u16 buf (off + 4) <= t ->
  minDirentSize (zlen name) <= u16 buf (off + 4) -> reaches buf t (off + u16 buf (off + 4)) ->
  keeps_tail buf (zsplice buf off (dirent_bytes ino (u16 buf (off + 4)) name ft)) t off.
Proof.
  intros (Hi & Hn & Hnb & Hf & Hft) Hbo Ho Hh Ht Hr Hb Hm Hre.
  pose proof (u16_range buf (off + 4) Hbo) as H16. pose proof (minDirentSize_bounds (zlen name) ltac:(lia)).
  destruct (written_rec buf off ino (u16 buf (off + 4)) name ft) as (_ & R2 & R3 & _); try lia.
  set (buf' := zsplice _ _ _) in *. assert (zlen buf' = zlen buf) as Hl by (subst buf'; zl).
  assert (zlen (dirent_bytes ino (u16 buf (off + 4)) name ft) = 8 + zlen name) as Hd by zl.
  split_and!; [|subst buf'; intros; rewrite u8_zsplice_ne; zl|subst buf'; intros; rewrite u8_zsplice_ne; zl|done].
  apply reach_rec; rewrite ?R2, ?R3; try lia.
  apply (reaches_ext buf); auto; try lia. intros. subst buf'. rewrite u8_zsplice_ne; zl.
Qed.

Lemma keeps_tail_split buf t off ino name ft :
  let minLen := minDirentSize (u8 buf (off + 6)) in let slack := u16 buf (off + 4) - minLen in
  new_entry_ok ino name ft -> bytes_ok buf -> 0 <= off -> off + 8 <= t -> t <= zlen buf ->
  off + u16 buf (off + 4) <= t -> minDirentSize (zlen name) <= slack ->
  reaches buf t (off + u16 buf (off + 4)) ->
  keeps_tail buf (zsplice (set16 buf (off + 4) minLen) (off + minLen) (dirent_bytes ino slack name ft)) t off.
Proof.
  intros minLen slack (Hi & Hn & Hnb & Hf & Hft) Hbo Ho Hh Ht Hb Hm Hre.
  pose proof (u16_range buf (off + 4) Hbo) as H16. pose proof (u8_range buf (off + 6) Hbo) as H8.
  pose proof (minDirentSize_bounds (zlen name) ltac:(lia)).
  pose proof (minDirentSize_bounds (u8 buf (off + 6)) ltac:(lia)) as Hml. fold minLen in Hml.
  destruct (written_rec (set16 buf (off + 4) minLen) (off + minLen) ino slack name ft) as (_ & R2 & R3 & _); try (zl; done).
  pose proof (shrunk_rec buf off minLen (dirent_bytes ino slack name ft)) as Hrec.
  set (buf' := zsplice _ _ _) in *. specialize (Hrec ltac:(lia) ltac:(lia) ltac:(lia) ltac:(zl)).
  injection Hrec as _ S2 S3 _ _. assert (zlen buf' = zlen buf) as Hl by (subst buf'; zl).
  assert (zlen (dirent_bytes ino slack name ft) = 8 + zlen name) as Hd by zl.
  assert (forall i, off + u16 buf (off + 4) <= i -> u8 buf' i = u8 buf i) as Hafter.
  { intros i Hi'. subst buf'. rewrite u8_zsplice_ne, u8_setN_ne; zl. }
  split_and!; [|intros; apply Hafter; lia|subst buf'; intros; rewrite u8_zsplice_ne, u8_setN_ne; zl|done].
  apply reach_rec; rewrite ?S2, ?S3; try lia. apply reach_rec; rewrite ?R2, ?R3; try lia.
  replace (off + minLen + slack) with (off + u16 buf (off + 4)) by lia.
  apply (reaches_ext buf); auto; lia.
Qed.

Lemma tryInsert_keeps_tail fuel buf off t ino name ft buf' :
  new_entry_ok ino name ft -> bytes_ok buf -> 0 <= off -> t + 12 = zlen buf ->
  (u16 buf (t + 4) < 8 \/ u16 buf (t + 4) = 12 /\ u8 buf (t + 7) = FtDirTail) ->
  reaches buf t off ->
  tryInsert_from fuel buf off ino name ft (minDirentSize (zlen name)) = Ok (Some buf') ->
  keeps_tail buf buf' t off.
Proof.
  intros Hok Hbo Ho Hz Ht Hre. pose proof Hok as (_ & Hn & _).
  pose proof (minDirentSize_bounds (zlen name) ltac:(lia)).
  revert off Ho Hre. induction fuel as [|fuel IH]; intros off Ho Hre; [done|]. cbn [tryInsert_from].
  inversion Hre as [Heq|? Ho' Hh Hr Hb Hm Hre' Heq].
  { subst off. rewrite ltb_false by lia. rewrite !getN_ok by zl. cbn [rbind].
    destruct Ht as [Ht|[Ht Hft]]; [by rewrite (ltb_true _ 8) by lia|].
    rewrite !ltb_false by lia. cbn [orb]. rewrite get8_ok by lia. cbn [rbind]. by rewrite eqb_true. }
  clear Heq. pose proof (u8_range buf (off + 6) Hbo).
  pose proof (minDirentSize_bounds (u8 buf (off + 6)) ltac:(lia)) as Hml.
  specialize (IH (off + u16 buf (off + 4)) ltac:(lia) Hre').
  rewrite ltb_false by lia. rewrite !getN_ok by zl. cbn [rbind]. rewrite !ltb_false by lia. cbn [orb].
  rewrite !get8_ok by lia. cbn [rbind]. destruct (_ =? FtDirTail); [done|].
  assert (forall b, keeps_tail buf b t (off + u16 buf (off + 4)) -> keeps_tail buf b t off) as Hstep
    by (intros; apply keeps_tail_step; auto; lia).
  destruct (u32 buf off =? 0).
  - destruct (_ <=? _) eqn:En; zbool; [|auto].
    rewrite w16_small by (pose proof (u16_range buf (off + 4) Hbo); lia).
    rewrite writeDirEntry_ok by lia. cbn [rbind]. intros [= <-]. apply keeps_tail_reuse; auto; lia.
  - rewrite (ltb_false _ (minDirentSize (u8 buf (off + 6)))) by lia.
    destruct (_ <=? _) eqn:En; zbool; [|auto].
    rewrite !ltb_false by lia. cbn [orb]. rewrite putN_ok by lia. cbn [rbind].
    pose proof (u16_range buf (off + 4) Hbo).
    rewrite !w16_small, writeDirEntry_ok by zl. cbn [rbind]. intros [= <-].
    apply keeps_tail_split; auto; lia.
Qed.

Lemma zeroEntry_keeps_tail fuel buf off t name buf' :
  bytes_ok buf -> 0 <= off -> t + 12 = zlen buf ->
  (u16 buf (t + 4) < 8 \/ u16 buf (t + 4) = 12 /\ u8 buf (t + 7) = FtDirTail) ->
  reaches buf t off -> zeroEntry_from fuel buf off name = Ok (Some buf') -> keeps_tail buf buf' t off.
Proof.
  intros Hbo Ho Hz Ht Hre. revert off Ho Hre. induction fuel as [|fuel IH]; intros off Ho Hre; [done|].
  cbn [zeroEntry_from]. inversion Hre as [Heq|? Ho' Hh Hr Hb Hm Hre' Heq].
  { subst off. rewrite ltb_false by lia. rewrite !getN_ok by zl. cbn [rbind].
    destruct Ht as [Ht|[Ht Hft]]; [by rewrite (ltb_true _ 8) by lia|].
    rewrite ltb_false by lia. rewrite get8_ok by lia. cbn [rbind]. by rewrite eqb_true. }
  clear Heq. pose proof (u8_range buf (off + 6) Hbo).
  pose proof (minDirentSize_bounds (u8 buf (off + 6)) ltac:(lia)) as Hml.
  specialize (IH (off + u16 buf (off + 4)) ltac:(lia) Hre').
  rewrite ltb_false by lia. rewrite !getN_ok by zl. cbn [rbind]. rewrite !ltb_false by lia.
  rewrite !get8_ok by lia. cbn [rbind]. destruct (_ =? FtDirTail); [done|].
  intros Hz'. apply rbind_Ok in Hz' as (hit & _ & Hz'). destruct hit; [|apply keeps_tail_step; auto; lia].
  rewrite putN_ok in Hz' by zl. injection Hz' as <-.
  split_and!; [|intros; rewrite u8_setN_ne; zl|intros; rewrite u8_setN_ne; zl|zl].
  assert (u16 (set32 buf off 0) (off + 4) = u16 buf (off + 4)) as R2 by (rewrite uN_setN_ne; zl).
  assert (u8 (set32 buf off 0) (off + 6) = u8 buf (off + 6)) as R3 by (rewrite u8_setN_ne; zl).
  apply reach_rec; rewrite ?R2, ?R3; try lia.
  apply (reaches_ext buf); auto; try lia; [zl|]. intros. rewrite u8_setN_ne; zl.
Qed.

Lemma keeps_tail_slot buf buf' :
  12 <= zlen buf -> bytes_ok buf -> tail_slot buf -> keeps_tail buf buf' (zlen buf - 12) 0 -> tail_slot buf'.
Proof.
  intros Hl Hb [_ Ht] (H1 & H2 & _ & H4). unfold tail_slot. rewrite H4. split; [done|].
  assert (u16 buf' (zlen buf - 12 + 4) = u16 buf (zlen buf - 12 + 4)) as ->.
  { apply uN_u8_ext; auto; try lia. intros. apply H2. lia. }
  by rewrite H2 by lia.
Qed.

Lemma tryInsert_tail_slot buf ino name ft buf' :
  new_entry_ok ino name ft -> bytes_ok buf -> 12 <= zlen buf -> tail_slot buf ->
  tryInsertDirEntry buf ino name ft (minDirentSize (zlen name)) = Ok (Some buf') -> tail_slot buf'.
Proof.
  intros Hok Hb Hl Ht Hi. apply (keeps_tail_slot buf); auto. destruct Ht as [Hre Ht].
  eapply tryInsert_keeps_tail; eauto; lia.
Qed.

Lemma zeroEntry_tail_slot buf name buf' :
  bytes_ok buf -> 12 <= zlen buf -> tail_slot buf ->
  zeroEntryInBlock buf name = Ok (Some buf') -> tail_slot buf'.
Proof.
  intros Hb Hl Ht Hi. apply (keeps_tail_slot buf); auto. destruct Ht as [Hre Ht].
  eapply zeroEntry_keeps_tail; eauto; lia.
Qed.

(** * Sealing a block keeps it well formed *)

Lemma chain_sealed buf buf' t off :
  bytes_ok buf -> zlen buf' = zlen buf -> t + 12 = zlen buf -> 0 <= off ->
  (forall k, 0 <= k < t -> u8 buf' k = u8 buf k) ->
  u16 buf' (t + 4) = 12 -> u8 buf' (t + 7) = FtDirTail ->
  reaches buf t off -> dir_chain buf off -> dir_chain buf' off.
Proof.
  intros Hbo Hl Ht Ho Hpre H12 Hft Hre. induction Hre as [|off Ho' Hh Hr Hb Hm Hre IH]; intros Hc.
  { apply chain_tail; rewrite ?H12; auto; lia. }
  inversion Hc as [? Hx|? ? Hx|? ? H8 Hx1 Hx2|? ? H8 Hx1 Hx2 Hx3 Hx4]; subst; try lia.
  destruct (rec_at_ext buf' buf off) as [_ R2]; auto; [lia|intros; apply Hpre; lia|].
  apply chain_rec; rewrite ?R2, ?Hpre; auto; try lia. apply IH; [lia|done].
Qed.

(** A directory block as the driver keeps it. *)
Record dir_buf (sb : superblock) (buf : list Z) : Prop := {
  db_bytes : bytes_ok buf;
  db_len : zlen buf = BlockSize sb /\ 12 <= BlockSize sb;
  db_chain : dir_chain buf 0;
  db_tail : has_flag (FeatureROCompat sb) FeatROCompatMetadataCsum = true -> tail_slot buf
}.

Lemma seal_dir_buf sb i buf :
  dir_buf sb buf -> 0 <= csumSeed sb < 2 ^ 32 -> 104 <= zlen (in_raw i) ->
  exists buf', updateDirBlockCsum sb i buf = Ok buf' /\ dir_buf sb buf' /\ entries buf' = entries buf.
Proof.
  intros [Hb [Hl H12] Hc Ht] Hs Hr. destruct (has_flag _ _) eqn:Ef.
  - destruct (updateDirBlockCsum_ok sb i buf Ef Hs Hb ltac:(lia) Hr) as (buf' & H1 & H2 & H3 & H4 & H5).
    destruct (updateDirBlockCsum_entries sb i buf Ef Hs Hb ltac:(lia) Hr (Ht eq_refl)) as (b2 & K1 & K2 & _ & K4).
    rewrite H1 in K1. injection K1 as <-. exists buf'. split_and!; auto.
    split; auto; [lia|]. destruct H4 as (_ & J2 & J3 & _). destruct (Ht eq_refl) as [Hre _].
    apply (chain_sealed buf buf' (zlen buf - 12) 0); auto; try lia; by rewrite <- H2.
  - exists buf. unfold updateDirBlockCsum. rewrite Ef. split_and!; [done| |done]. split; auto. by rewrite Ef.
Qed.

Lemma insert_dir_buf sb buf ino name ft buf' :
  new_entry_ok ino name ft -> dir_buf sb buf ->
  tryInsertDirEntry buf ino name ft (minDirentSize (zlen name)) = Ok (Some buf') ->
  dir_buf sb buf' /\
  exists l1 l2, entries buf = l1 ++ l2 /\ entries buf' = l1 ++ Dirent ino name ft :: l2.
Proof.
  intros Hok [Hb [Hl H12] Hc Ht] Hi.
  pose proof (tryInsert_from_spec (S (length buf)) buf 0 ino name ft Hok Hb
    ltac:(pose proof (zlen_nonneg buf); lia) ltac:(unfold zlen; lia) Hc) as Hs.
  cbv zeta in Hs. unfold tryInsertDirEntry in Hi. rewrite Hi in Hs.
  destruct Hs as (H1 & H2 & _ & H4 & Hex). split; [|exact Hex].
  split; auto; [lia|]. intros Hf. eapply (tryInsert_tail_slot buf); eauto; lia.
Qed.

Lemma zero_dir_buf sb buf name buf' :
  dir_buf sb buf -> no_stale name buf -> zeroEntryInBlock buf name = Ok (Some buf') ->
  dir_buf sb buf' /\
  exists l1 e l2, entries buf = l1 ++ e :: l2 /\ de_Name e = name /\ (name ∉ (de_Name <$> l1)) /\
    entries buf' = l1 ++ l2.
Proof.
  intros [Hb [Hl H12] Hc Ht] Hst Hi. pose proof (zeroEntryInBlock_spec buf name Hb Hc) as Hs.
  rewrite Hi in Hs. destruct (removed_entries buf buf' name Hb Hc Hst Hs) as (e1 & e & e2 & H1 & H2 & H3 & H4).
  destruct Hs as (K1 & K2 & _ & K4 & _). split; [|by exists e1, e, e2].
  split; auto; [lia|]. intros Hf. eapply (zeroEntry_tail_slot buf); eauto; lia.
Qed.
