(* ===== verification/Alloc.v ===== *)
(** The allocator ([src/alloc.go]), the direct half of the commit dispatcher
    ([src/commit_dispatch.go]), the in-memory reservations
    ([src/metadata_locks.go]) and the descriptor, superblock and inode-slot
    writers, for one client on an image without a sidecar journal: a task is
    enqueued, its worker applies it, and the client waits for the
    acknowledgement.  Interleavings of several clients are in [Reserve]. *)

From S2P Require Import Prelude Bytes Crc Device Superblock Bgd Bitmap GoLib Extent Limits Inode.

(** [reservedBits], keyed by group and kind of bitmap ([true]: blocks). *)
Notation reservations := (gmap (Z * bool) (list Z)).

(** An open file system: the device, the in-memory superblock, the rotating
    cursor of the allocators and the reservations. *)
Record fsys (D : Type) : Type := Fsys {
  fs_dev : D;
  fs_sb : superblock;
  fs_cursor : Z;
  fs_rsv : reservations
}.
Arguments Fsys {D}.
Arguments fs_dev {D}.
Arguments fs_sb {D}.
Arguments fs_cursor {D}.
Arguments fs_rsv {D}.

Record commitOp : Type := CommitOp { startAbs : Z; op_data : list Z }.

(** [clearBit] for every bit of a list. *)
Fixpoint clearBits (b bits : list Z) : res (list Z) :=
  match bits with
  | [] => Ok b
  | i :: bits' => let! b := clearBit b i in clearBits b bits'
  end.

(** [bmap[i] |= rb[i]], the reservation extended with zeros. *)
Fixpoint or_bytes (bmap rb : list Z) : list Z :=
  match bmap, rb with
  | x :: bmap', y :: rb' => Z.lor x y :: or_bytes bmap' rb'
  | _, _ => bmap
  end.

Section ops.
Context {D : Type} `{BlockDev D}.
Context (fsOffset : Z).

Notation FS := (M (fsys D)).

Definition gets {A} (f : D -> superblock -> res A) : FS A :=
  fun s => (f (fs_dev s) (fs_sb s), s).
Definition get_sb : FS superblock := fun s => (Ok (fs_sb s), s).
Definition set_sb (sb : superblock) : FS unit :=
  fun s => (Ok tt, Fsys (fs_dev s) sb (fs_cursor s) (fs_rsv s)).
Definition set_rsv (f : reservations -> reservations) : FS unit :=
  fun s => (Ok tt, Fsys (fs_dev s) (fs_sb s) (fs_cursor s) (f (fs_rsv s))).
Definition on_dev {A} (m : M D A) : FS A := fun s =>
  let '(r, d) := m (fs_dev s) in (r, Fsys d (fs_sb s) (fs_cursor s) (fs_rsv s)).
(** [err == nil] tests: the error as a value. *)
Definition try {A} (m : FS A) : FS (A + error) := fun s =>
  match m s with
  | (Ok a, s') => (Ok (inl a), s')
  | (Err e, s') => (Ok (inr e), s')
  | (Panic, s') => (Panic, s')
  end.

(** * Reservations *)

Definition max_bits (sb : superblock) (isBlock : bool) : Z :=
  if isBlock then BlocksPerGroup sb else InodesPerGroup sb.

(** The bits in range, as the loops test them. *)
Definition in_group (sb : superblock) (isBlock : bool) (bits : list Z) : list Z :=
  filter (fun i => 0 <= i < max_bits sb isBlock) bits.

(** [reserveBitmapBits]: the reserved bits; the bookkeeping of sequences and
    acknowledgements has no counterpart here. *)
Definition reserveBitmapBits (g : Z) (isBlock : bool) (bits : list Z) : FS unit :=
  do! sb := get_sb in
  let n := (max_bits sb isBlock + 7) / 8 in
  fun s =>
    let b := match fs_rsv s !! (g, isBlock) with
             | Some b => if zlen b <? n then b ++ zeros (n - zlen b) else b
             | None => zeros n
             end in
    (do! b := mlift (setBits b (in_group sb isBlock bits)) in
     set_rsv (<[(g, isBlock) := b]>)) s.

(** [unreserveBitmapBits], once the wait for the acknowledgement is over. *)
Definition unreserveBitmapBits (g : Z) (isBlock : bool) (bits : list Z) : FS unit :=
  do! sb := get_sb in
  fun s =>
    match fs_rsv s !! (g, isBlock) with
    | None => (Ok tt, s)
    | Some b =>
        (do! b := mlift (clearBits b (in_group sb isBlock bits)) in
         if forallb (Z.eqb 0) b then set_rsv (delete (g, isBlock))
         else set_rsv (<[(g, isBlock) := b]>)) s
    end.

(** * Reading a bitmap *)

(** The group scan of [bitmapOwnerGroup]; unreadable descriptors are skipped. *)
Fixpoint owner_from (n : nat) (d : D) (sb : superblock) (g bitmapBlock : Z)
    : res (option (Z * bool)) :=
  match n with
  | O => Ok None
  | S n' =>
      match readBGD d fsOffset sb g with
      | Panic => Panic
      | Err _ => owner_from n' d sb (g + 1) bitmapBlock
      | Ok bg =>
          if BlockBitmapBlock bg =? bitmapBlock then Ok (Some (g, true)) else
          if InodeBitmapBlock bg =? bitmapBlock then Ok (Some (g, false)) else
          owner_from n' d sb (g + 1) bitmapBlock
      end
  end.
Definition bitmapOwnerGroup (d : D) (sb : superblock) (bitmapBlock : Z)
    : res (option (Z * bool)) :=
  owner_from (Z.to_nat (numBlockGroups sb)) d sb 0 bitmapBlock.

(** [readBitmap]: the block on disk, with the reserved bits set. *)
Definition readBitmap (bitmapBlock : Z) : FS (list Z) := fun s =>
  let sb := fs_sb s in
  (let! bmap := readRawBlock (fs_dev s) fsOffset sb bitmapBlock in
   if BlocksPerGroup sb =? 0 then Ok bmap else
   let! owner := bitmapOwnerGroup (fs_dev s) sb bitmapBlock in
   match owner with
   | None => Ok bmap
   | Some key =>
       match fs_rsv s !! key with
       | None => Ok bmap
       | Some rb => Ok (or_bytes bmap rb)
       end
   end, s).

(** * Writes that may touch an inode table *)

(** The byte range of a group's inode table. *)
Definition itable_range (sb : superblock) (inodeTableBlock : Z) : Z * Z :=
  let blocks := w64 (InodeSize sb * InodesPerGroup sb + BlockSize sb - 1) / BlockSize sb in
  let start := i64 (fsOffset + inodeTableBlock * BlockSize sb) in
  (start, i64 (start + blocks * BlockSize sb)).
Definition itable_overlap (sb : superblock) (start fin inodeTableBlock : Z) : bool :=
  let '(s, e) := itable_range sb inodeTableBlock in (start <? e) && (s <? fin).

(** The candidate groups of [writeAtWithTrace], from the blocks written. *)
Fixpoint candidates (n : nat) (d : D) (sb : superblock) (b start fin : Z) (seen : list Z)
    : res (list (Z * Z)) :=
  match n with
  | O => Ok []
  | S n' =>
      if b <? FirstDataBlock sb then candidates n' d sb (b + 1) start fin seen else
      let g := w32 ((b - FirstDataBlock sb) / BlocksPerGroup sb) in
      if numBlockGroups sb <=? g then candidates n' d sb (b + 1) start fin seen else
      if bool_decide (g ∈ seen) then candidates n' d sb (b + 1) start fin seen else
      match readBGD d fsOffset sb g with
      | Panic => Panic
      | Err _ => candidates n' d sb (b + 1) start fin (g :: seen)
      | Ok bg =>
          let! rest := candidates n' d sb (b + 1) start fin (g :: seen) in
          Ok (if itable_overlap sb start fin (InodeTableBlock bg)
              then (g, InodeTableBlock bg) :: rest else rest)
      end
  end.

(** The rebuilt candidates of a retry: every group. *)
Fixpoint all_candidates (n : nat) (d : D) (sb : superblock) (g start fin : Z)
    : res (list (Z * Z)) :=
  match n with
  | O => Ok []
  | S n' =>
      match readBGD d fsOffset sb g with
      | Panic => Panic
      | Err _ => all_candidates n' d sb (g + 1) start fin
      | Ok bg =>
          let! rest := all_candidates n' d sb (g + 1) start fin in
          Ok (if itable_overlap sb start fin (InodeTableBlock bg)
              then (g, InodeTableBlock bg) :: rest else rest)
      end
  end.

(** The descriptors of the candidates, re-read under the descriptor locks. *)
Fixpoint all_stable (d : D) (sb : superblock) (start fin : Z) (cands : list (Z * Z)) : res bool :=
  match cands with
  | [] => Ok true
  | (g, itb) :: cands' =>
      match readBGD d fsOffset sb g with
      | Panic => Panic
      | Err _ => Ok false
      | Ok bg =>
          if negb (InodeTableBlock bg =? itb) then Ok false else
          if negb (itable_overlap sb start fin (InodeTableBlock bg)) then Ok false else
          all_stable d sb start fin cands'
      end
  end.

Fixpoint locked_write (attempts : nat) (off : Z) (data : list Z) (cands : list (Z * Z)) : FS unit :=
  match attempts with
  | O => mfail (Errorf "ext4: unstable BGD mapping after retries")
  | S n =>
      do! stable := gets (fun d sb => all_stable d sb off (off + zlen data) cands) in
      if stable : bool then on_dev (write_at off data) else
      do! cands := gets (fun d sb =>
        all_candidates (Z.to_nat (numBlockGroups sb)) d sb 0 off (off + zlen data)) in
      locked_write n off data cands
  end.

(** The blocks a write touches: first and number. *)
Definition written_blocks (sb : superblock) (start fin : Z) : Z * Z :=
  let relStart := if start - fsOffset <? 0 then 0 else start - fsOffset in
  let relEnd := if fin - fsOffset <=? 0 then 0 else fin - fsOffset in
  let startBlock := relStart / BlockSize sb in
  let endBlock := if relEnd =? 0 then startBlock else (relEnd - 1) / BlockSize sb in
  (startBlock, endBlock - startBlock + 1).

Definition writeAtWithTrace (off : Z) (data : list Z) : FS unit :=
  do! sb := get_sb in
  if (BlocksPerGroup sb =? 0) || (InodesPerGroup sb =? 0) then on_dev (write_at off data) else
  let fin := off + zlen data in
  do! cands :=
    (if fin <=? fsOffset then ret [] else
     let '(b, n) := written_blocks sb off fin in
     gets (fun d sb => candidates (Z.to_nat n) d sb b off fin [])) in
  match cands with
  | [] => on_dev (write_at off data)
  | _ => locked_write 8 off data cands
  end.

(** * The worker of the commit dispatcher *)

(** The free count of a bitmap on disk; an unreadable bitmap gives none. *)
Definition disk_free (d : D) (sb : superblock) (bitmapBlock perGroup : Z) : res (option Z) :=
  match read_at d (i64 (fsOffset + bitmapBlock * BlockSize sb)) (BlockSize sb) with
  | Ok bmp => let! n := countFreeInBitmap bmp perGroup in Ok (Some n)
  | Err _ => Ok None
  | Panic => Panic
  end.

Definition differs (n : option Z) (cur : Z) : bool :=
  match n with Some n => negb (w32 n =? cur) | None => false end.
Definition pick (n : option Z) (cur : Z) : Z :=
  match n with Some n => w32 n | None => cur end.

(** A descriptor as the worker writes it: its counts are replaced by those of
    the bitmaps on disk, and then its checksum is refreshed. *)
Definition recompute_bgd (d : D) (sb : superblock) (group : Z) (data : list Z) : res (list Z) :=
  let! bg := decodeBGD data sb in
  let! bf := disk_free d sb (BlockBitmapBlock bg) (BlocksPerGroup sb) in
  let! fi := disk_free d sb (InodeBitmapBlock bg) (InodesPerGroup sb) in
  if differs bf (FreeBlocksCount bg) || differs fi (FreeInodesCount bg) then
    let bg := bgd_with_counts bg (pick bf (FreeBlocksCount bg)) (pick fi (FreeInodesCount bg))
                (UsedDirsCount bg) in
    let! bg := bgd_encode sb bg in
    setBGDChecksum sb group (bgd_raw bg)
  else Ok data.

(** The direct branch of [commitWorker.run] on one task. *)
Fixpoint applyTask (group : Z) (ops : list commitOp) : FS unit :=
  match ops with
  | [] => ret tt
  | op :: ops' =>
      do! sb := get_sb in
      do! data :=
        (if zlen (op_data op) =? DescSize sb
         then gets (fun d sb => recompute_bgd d sb group (op_data op))
         else ret (op_data op)) in
      do! _ := writeAtWithTrace (startAbs op) data in
      applyTask group ops'
  end.

(** [enqueueCommitWritesUnderLock] and the wait for the acknowledgement. *)
Definition enqueueAndWait (group : Z) (ops : list commitOp) : FS unit := applyTask group ops.

(** * Descriptor and superblock writers *)

Definition writeBGD (g : Z) (bg : bgd) : FS unit :=
  do! sb := get_sb in
  do! bg := mlift (prepareBGD sb g bg) in
  mwrap "ext4: write BGD"
    (enqueueAndWait g [CommitOp (fsOffset + bgd_offset sb g) (bgd_raw bg)]).

Definition writeSuperblock : FS unit :=
  do! sb := get_sb in
  let sb := encodeRaw sb in
  do! _ := set_sb sb in
  mwrap "ext4: write superblock"
    (enqueueAndWait 0 [CommitOp (fsOffset + 1024) (sb_raw sb)]).

(** [writeRawBlock] without a journal. *)
Definition writeRawBlock (blockNum : Z) (data : list Z) : FS unit :=
  do! sb := get_sb in
  mwrap "ext4: write block"
    (writeAtWithTrace (i64 (fsOffset + blockNum * BlockSize sb)) data).

(** * Allocation *)

(** [atomic.AddUint32(&allocGroupCursor, allocCursorStride) % nGroups]. *)
Definition nextStart : FS Z := fun s =>
  let c := w32 (fs_cursor s + 1) in
  let n := numBlockGroups (fs_sb s) in
  (if n =? 0 then Panic else Ok (c mod n), Fsys (fs_dev s) (fs_sb s) c (fs_rsv s)).

(** The three writes of an allocation or a release. *)
Definition metadata_ops (sb : superblock) (g bitmapBlock : Z) (bmap raw : list Z)
    : list commitOp :=
  [CommitOp (fsOffset + bitmapBlock * BlockSize sb) bmap;
   CommitOp (fsOffset + bgd_offset sb g) raw;
   CommitOp (fsOffset + 1024) (sb_raw sb)].

(** Reserve, enqueue, wait, clear the reservation; an error of the worker is
    the caller's once the reservation has been cleared. *)
Definition persist (g : Z) (isBlock : bool) (bits : list Z) (bitmapBlock : Z)
    (bmap raw : list Z) : FS unit :=
  do! _ := reserveBitmapBits g isBlock bits in
  do! sb := get_sb in
  do! r := try (enqueueAndWait g (metadata_ops sb g bitmapBlock bmap raw)) in
  do! _ := unreserveBitmapBits g isBlock bits in
  match r with
  | inl _ => ret tt
  | inr e => mfail e
  end.

(** The body of [allocInode] for a group that has a free inode; [None] when
    the scan goes on with the next group. *)
Definition allocInodeIn (isDir : bool) (g : Z) : FS (option Z) :=
  do! sb := get_sb in
  do! bg := gets (fun d sb => readBGD d fsOffset sb g) in
  if FreeInodesCount bg =? 0 then ret None else
  do! bmap := readBitmap (InodeBitmapBlock bg) in
  do! bit := mlift (findFreeBit bmap (InodesPerGroup sb)) in
  match bit with
  | None => ret None
  | Some bit =>
      do! bmap := mlift (setBit bmap bit) in
      let bg := bgd_with_counts bg (FreeBlocksCount bg) (w32 (FreeInodesCount bg - 1))
                  (if isDir then w32 (UsedDirsCount bg + 1) else UsedDirsCount bg) in
      do! raw := mlift (setBitmapCsum sb g (bgd_raw bg) false bmap) in
      do! bg := mlift (bgd_encode sb (bgd_with_raw bg raw)) in
      do! _ := set_sb (encodeRaw (with_FreeInodes sb (w32 (sb_FreeInodesCount sb - 1)))) in
      do! _ := persist g false [bit] (InodeBitmapBlock bg) bmap (bgd_raw bg) in
      ret (Some (w32 (g * InodesPerGroup sb + bit + 1)))
  end.

(** A scan over the groups from a start, wrapping around. *)
Fixpoint scan_groups {A} (body : Z -> FS (option A)) (n : nat) (start i : Z) : FS (option A) :=
  match n with
  | O => ret None
  | S n' =>
      do! sb := get_sb in
      do! r := body (w32 (start + i) mod numBlockGroups sb) in
      match r with
      | Some a => ret (Some a)
      | None => scan_groups body n' start (i + 1)
      end
  end.

Definition allocInode (isDir : bool) : FS Z :=
  do! start := nextStart in
  do! sb := get_sb in
  do! r := scan_groups (allocInodeIn isDir) (Z.to_nat (numBlockGroups sb)) start 0 in
  match r with
  | Some ino => ret ino
  | None => mfail (Errorf "ext4: no free inodes")
  end.

(** The allocation of [n] blocks in a group, once its locks are held: common to
    [allocBlocks] and [lockedAllocBlocks]. *)
Definition allocBlocksLocked (n g : Z) : FS (option (list Z)) :=
  do! sb := get_sb in
  do! bg := gets (fun d sb => readBGD d fsOffset sb g) in
  if FreeBlocksCount bg <? n then ret None else
  do! bmap := readBitmap (BlockBitmapBlock bg) in
  do! blocks := mlift (findFreeRun bmap (BlocksPerGroup sb) n) in
  match blocks with
  | None => ret None
  | Some bits =>
      do! bmap := mlift (setBits bmap bits) in
      let bg := bgd_with_counts bg (w32 (FreeBlocksCount bg - n)) (FreeInodesCount bg)
                  (UsedDirsCount bg) in
      do! raw := mlift (setBitmapCsum sb g (bgd_raw bg) true bmap) in
      do! bg := mlift (bgd_encode sb (bgd_with_raw bg raw)) in
      do! _ := set_sb (encodeRaw (with_FreeBlocks sb (w64 (sb_FreeBlocksCount sb - n)))) in
      do! _ := persist g true bits (BlockBitmapBlock bg) bmap (bgd_raw bg) in
      ret (Some ((fun b => w64 (g * BlocksPerGroup sb + FirstDataBlock sb + b)) <$> bits))
  end.

(** The check that no block lies in its group's inode table. *)
Fixpoint check_itable (d : D) (sb : superblock) (blocks : list Z) : res unit :=
  match blocks with
  | [] => Ok tt
  | blk :: rest =>
      if (blk <? FirstDataBlock sb) || (BlocksPerGroup sb =? 0) then check_itable d sb rest else
      let g := w32 ((blk - FirstDataBlock sb) / BlocksPerGroup sb) in
      if numBlockGroups sb <=? g then check_itable d sb rest else
      let! bg := readBGD d fsOffset sb g in
      let n := if 0 <? BlockSize sb
               then w64 (InodesPerGroup sb * InodeSize sb + BlockSize sb - 1) / BlockSize sb
               else 0 in
      if (0 <? n) && (InodeTableBlock bg <=? blk) && (blk <? w64 (InodeTableBlock bg + n))
      then Err (Errorf "ext4: allocation inside inode-table")
      else check_itable d sb rest
  end.

(** The body of [allocBlocks] for one group: a descriptor that reports too few
    free blocks is double-checked against the bitmap. *)
Definition allocBlocksIn (n g : Z) : FS (option (list Z)) :=
  do! sb := get_sb in
  do! bg := gets (fun d sb => readBGD d fsOffset sb g) in
  do! skip :=
    (if FreeBlocksCount bg <? n then
       do! q := try (readBitmap (BlockBitmapBlock bg)) in
       match q with
       | inr _ => ret true
       | inl bmap =>
           do! free := mlift (countFreeInBitmap bmap (BlocksPerGroup sb)) in
           ret (free <? n)
       end
     else ret false) in
  if skip : bool then ret None else
  do! r := allocBlocksLocked n g in
  match r with
  | None => ret None
  | Some blocks =>
      do! _ := gets (fun d sb => check_itable d sb blocks) in
      ret (Some blocks)
  end.

Definition lockedAllocBlocks (n : Z) : FS (list Z) :=
  do! sb := get_sb in
  do! r := scan_groups (allocBlocksLocked n) (Z.to_nat (numBlockGroups sb)) 0 0 in
  match r with
  | Some blocks => ret blocks
  | None => mfail (Errorf "ext4: no free blocks")
  end.

Definition allocBlocks (n : Z) : FS (list Z) :=
  do! start := nextStart in
  do! sb := get_sb in
  do! r := scan_groups (allocBlocksIn n) (Z.to_nat (numBlockGroups sb)) start 0 in
  match r with
  | Some blocks => ret blocks
  | None =>
      do! r := try (lockedAllocBlocks n) in
      match r with
      | inl blocks => ret blocks
      | inr _ => mfail (Errorf "ext4: no free blocks")
      end
  end.

(** * Release *)

Definition freeBlock (physBlock : Z) : FS unit :=
  do! sb := get_sb in
  if physBlock <? FirstDataBlock sb then ret tt else
  let rel := physBlock - FirstDataBlock sb in
  if BlocksPerGroup sb =? 0 then mlift Panic else
  let g := w32 (rel / BlocksPerGroup sb) in
  let bit := rel mod BlocksPerGroup sb in
  do! bg := gets (fun d sb => readBGD d fsOffset sb g) in
  do! bmap := readBitmap (BlockBitmapBlock bg) in
  do! bmap := mlift (clearBit bmap bit) in
  let bg := bgd_with_counts bg (w32 (FreeBlocksCount bg + 1)) (FreeInodesCount bg)
              (UsedDirsCount bg) in
  do! raw := mlift (setBitmapCsum sb g (bgd_raw bg) true bmap) in
  do! bg := mlift (prepareBGD sb g (bgd_with_raw bg raw)) in
  do! _ := set_sb (encodeRaw (with_FreeBlocks sb (w64 (sb_FreeBlocksCount sb + 1)))) in
  persist g true [bit] (BlockBitmapBlock bg) bmap (bgd_raw bg).

(** [freeInodeSlot]. *)
Definition freeInodeSlot (inodeNum : Z) : FS unit :=
  do! sb := get_sb in
  let idx := w32 (inodeNum - 1) in
  if InodesPerGroup sb =? 0 then mlift Panic else
  let g := idx / InodesPerGroup sb in
  let bit := idx mod InodesPerGroup sb in
  do! bg := gets (fun d sb => readBGD d fsOffset sb g) in
  do! bmap := readBitmap (InodeBitmapBlock bg) in
  do! bmap := mlift (clearBit bmap bit) in
  let bg := bgd_with_counts bg (FreeBlocksCount bg) (w32 (FreeInodesCount bg + 1))
              (UsedDirsCount bg) in
  do! raw := mlift (setBitmapCsum sb g (bgd_raw bg) false bmap) in
  let bg := bgd_with_raw bg raw in
  do! _ := writeRawBlock (InodeBitmapBlock bg) bmap in
  do! _ := writeBGD g bg in
  do! sb := get_sb in
  do! _ := set_sb (with_FreeInodes sb (w32 (sb_FreeInodesCount sb + 1))) in
  writeSuperblock.

Lemma gets_run {A} (f : D -> superblock -> res A) (s : fsys D) a :
  f (fs_dev s) (fs_sb s) = Ok a -> gets f s = (Ok a, s).
Proof. unfold gets. by intros ->. Qed.

End ops.

(** The next command of a computation, whose result is known by [tac]. *)
Ltac run_with tac :=
  erewrite mbnd_run by
    (repeat lazymatch goal with
     | |- mwrap _ _ _ = _ => apply mwrap_run
     | |- mlift _ _ = _ => apply mlift_run
     | |- gets _ _ = _ => apply gets_run
     end; tac).
Ltac run H := run_with ltac:(first [exact H | eapply H]).
Ltac run_sb := erewrite (mbnd_run get_sb) by reflexivity.

(** * Writes

    With one client the descriptors read twice are the same, so that the
    re-check under the locks always succeeds. *)

Section writes.
Context {D : Type} `{BlockDevLaws D}.
Context (fsOffset : Z).

Lemma readBGD_np (d : D) sb g : 32 <= DescSize sb -> readBGD d fsOffset sb g <> Panic.
Proof.
  intros Hd. unfold readBGD. apply rbind_not_panic; [apply rwrap_np, read_at_not_panic|].
  intros raw Hr. apply decodeBGD_np. split; [|done]. apply rwrap_Ok in Hr.
  by apply read_at_zlen in Hr; [|lia].
Qed.

Definition stable_cand (d : D) (sb : superblock) (start fin : Z) (c : Z * Z) : Prop :=
  exists bg, readBGD d fsOffset sb c.1 = Ok bg /\ InodeTableBlock bg = c.2 /\
    itable_overlap fsOffset sb start fin c.2 = true.

Lemma candidates_stable n (d : D) sb b start fin seen :
  (forall g, readBGD d fsOffset sb g <> Panic) ->
  exists cands, candidates fsOffset n d sb b start fin seen = Ok cands /\
    Forall (stable_cand d sb start fin) cands.
Proof.
  intros Hnp. revert b seen. induction n as [|n IH]; intros b seen; cbn [candidates]; [by eauto|].
  destruct (b <? _); [apply IH|]. destruct (_ <=? _); [apply IH|]. case_bool_decide; [apply IH|].
  destruct (readBGD _ _ _ _) as [bg|e|] eqn:Hr; [|apply IH|by apply Hnp in Hr].
  destruct (IH (b + 1) (w32 ((b - FirstDataBlock sb) / BlocksPerGroup sb) :: seen))
    as (rest & -> & Hf). cbn [rbind]. destruct (itable_overlap fsOffset sb start fin (InodeTableBlock bg)) eqn:Ho;
    eexists; split; eauto.
  constructor; [|done]. exists bg. eauto.
Qed.

Lemma all_stable_true (d : D) sb start fin cands :
  Forall (stable_cand d sb start fin) cands -> all_stable fsOffset d sb start fin cands = Ok true.
Proof.
  induction 1 as [|[g itb] cands (bg & Hr & Hi & Ho) _ IH]; cbn in *; [done|].
  rewrite Hr, Hi, Z.eqb_refl, Ho. done.
Qed.

Lemma writeAtWithTrace_write off data (s : fsys D) :
  (forall g, readBGD (fs_dev s) fsOffset (fs_sb s) g <> Panic) ->
  writeAtWithTrace fsOffset off data s = on_dev (write_at off data) s.
Proof.
  intros Hnp. unfold writeAtWithTrace, mbnd at 1, get_sb.
  destruct (_ || _); [done|]. destruct (_ <=? fsOffset); [done|].
  destruct (written_blocks _ _ _ _) as [b n].
  destruct (candidates_stable (Z.to_nat n) (fs_dev s) (fs_sb s) b off (off + zlen data) [] Hnp)
    as (cands & Hc & Hf).
  unfold mbnd at 1, gets at 1. rewrite Hc. destruct cands as [|c cands]; [done|].
  cbn [locked_write]. unfold mbnd, gets at 1. by rewrite all_stable_true.
Qed.

End writes.

(** * Reservations of one client *)

Lemma clearBits_spec bitmap bits :
  bytes_ok bitmap -> (forall i, i ∈ bits -> 0 <= i < 8 * zlen bitmap) ->
  exists bitmap', clearBits bitmap bits = Ok bitmap' /\ zlen bitmap' = zlen bitmap /\
    bytes_ok bitmap' /\
    (forall j, 0 <= j -> used bitmap' j = negb (bool_decide (j ∈ bits)) && used bitmap j).
Proof.
  revert bitmap. induction bits as [|i bits IH]; intros bitmap Hb Hr; cbn [clearBits].
  - exists bitmap. split_and!; auto.
  - destruct (clearBit_spec bitmap i Hb (Hr i ltac:(set_solver))) as (b1 & -> & Hl1 & Hb1 & Hu1).
    cbn [rbind]. destruct (IH b1 Hb1) as (b2 & -> & Hl2 & Hb2 & Hu2).
    { intros j Hj. rewrite Hl1. apply Hr. set_solver. }
    exists b2. split_and!; [done|lia|done|]. intros j Hj. rewrite Hu2, Hu1 by done.
    case_decide as He.
    + subst j. rewrite andb_false_r. by rewrite bool_decide_true by set_solver.
    + f_equal. f_equal. apply bool_decide_ext. set_solver.
Qed.

Lemma used_zeros n j : used (zeros n) j = false.
Proof.
  unfold used, u8, zeros. destruct (replicate _ _ !! _) eqn:E; cbn; [|apply Z.bits_0].
  apply lookup_replicate in E as [-> _]. apply Z.bits_0.
Qed.

Lemma unused_zero b : bytes_ok b -> (forall j, 0 <= j -> used b j = false) -> forallb (Z.eqb 0) b = true.
Proof.
  intros Hb Hu. apply forallb_forall. intros x Hx.
  apply list_elem_of_In, list_elem_of_lookup in Hx as [k Hk]. apply Z.eqb_eq. symmetry.
  assert (byte_ok x) as Hx by (unfold bytes_ok in Hb; rewrite Forall_lookup in Hb; eauto).
  apply Z.bits_inj'. intros i Hi. rewrite Z.bits_0.
  destruct (decide (i < 8)); [|unfold byte_ok in Hx; apply (lt_pow2_testbit _ 8); lia].
  specialize (Hu (8 * Z.of_nat k + i) ltac:(lia)). unfold used, u8 in Hu.
  replace ((8 * Z.of_nat k + i) / 8) with (Z.of_nat k) in Hu by dlia.
  replace ((8 * Z.of_nat k + i) mod 8) with i in Hu by dlia.
  by rewrite Nat2Z.id, Hk in Hu.
Qed.

Lemma in_group_all sb isBlock bits :
  (forall i, i ∈ bits -> 0 <= i < max_bits sb isBlock) -> in_group sb isBlock bits = bits.
Proof.
  intros Hb. unfold in_group. induction bits as [|i bits IH]; [done|].
  rewrite filter_cons_True by (apply Hb; set_solver). f_equal. apply IH. set_solver.
Qed.

Section rsv.
Context {D : Type}.

(** The state with other reservations. *)
Definition with_rsv (s : fsys D) (r : reservations) : fsys D :=
  Fsys (fs_dev s) (fs_sb s) (fs_cursor s) r.

Lemma reserve_empty (s : fsys D) g isBlock bits :
  fs_rsv s = ∅ -> NoDup bits -> 0 <= max_bits (fs_sb s) isBlock ->
  (forall i, i ∈ bits -> 0 <= i < max_bits (fs_sb s) isBlock) ->
  exists b, reserveBitmapBits g isBlock bits s = (Ok tt, with_rsv s {[(g, isBlock) := b]}) /\
    bytes_ok b /\ max_bits (fs_sb s) isBlock <= 8 * zlen b /\
    (forall j, 0 <= j -> used b j = bool_decide (j ∈ bits)).
Proof.
  intros Hr Hnd Hm Hb. unfold reserveBitmapBits, mbnd at 1, get_sb.
  rewrite Hr, lookup_empty, in_group_all by done.
  set (m := max_bits (fs_sb s) isBlock) in *.
  assert (zlen (zeros ((m + 7) / 8)) = (m + 7) / 8) as Hz by (apply zlen_zeros; dlia).
  destruct (setBits_spec (zeros ((m + 7) / 8)) bits m) as (b & Hs & Hl & Hbo & Hu & _); auto.
  { auto with bytes. } { rewrite Hz. dlia. } { intros i Hi. split; [apply used_zeros|auto]. }
  exists b. unfold mbnd, mlift. rewrite Hs. unfold set_rsv. rewrite Hr. split_and!; [done..| |].
  - rewrite Hl, Hz. dlia.
  - intros j Hj. rewrite Hu, used_zeros, orb_false_r by done. done.
Qed.

Lemma unreserve_empty (s : fsys D) g isBlock bits b :
  bytes_ok b -> max_bits (fs_sb s) isBlock <= 8 * zlen b ->
  (forall i, i ∈ bits -> 0 <= i < max_bits (fs_sb s) isBlock) ->
  (forall j, 0 <= j -> used b j = bool_decide (j ∈ bits)) ->
  fs_rsv s = {[(g, isBlock) := b]} ->
  unreserveBitmapBits g isBlock bits s = (Ok tt, with_rsv s ∅).
Proof.
  intros Hb Hm Hi Hu Hr. unfold unreserveBitmapBits, mbnd at 1, get_sb.
  rewrite Hr, lookup_singleton, decide_True, in_group_all by done.
  destruct (clearBits_spec b bits Hb) as (b' & Hc & Hl & Hb' & Hu').
  { intros i Hin. apply Hi in Hin. lia. }
  unfold mbnd, mlift. rewrite Hc, unused_zero; auto.
  - unfold set_rsv. by rewrite Hr, delete_singleton, decide_True.
  - intros j Hj. rewrite Hu', Hu by done. by destruct (bool_decide _).
Qed.

End rsv.

(** * The worker on the three writes of an allocation *)

Section task.
Context {D : Type} `{BlockDevLaws D}.
Context (fsOffset : Z).

Lemma on_dev_write off data (s s' : fsys D) :
  on_dev (write_at off data) s = (Ok tt, s') ->
  exists d', write_at off data (fs_dev s) = (Ok tt, d') /\
    s' = Fsys d' (fs_sb s) (fs_cursor s) (fs_rsv s).
Proof.
  unfold on_dev. destruct (write_at _ _ _) as [[[]|e|] d'] eqn:E; intros [= <-]; eauto.
Qed.

(** One operation of a task. *)
Lemma applyTask_cons g op ops (s s' : fsys D) :
  32 <= DescSize (fs_sb s) -> applyTask fsOffset g (op :: ops) s = (Ok tt, s') ->
  exists data d',
    (if zlen (op_data op) =? DescSize (fs_sb s)
     then recompute_bgd fsOffset (fs_dev s) (fs_sb s) g (op_data op) else Ok (op_data op)) = Ok data /\
    write_at (startAbs op) data (fs_dev s) = (Ok tt, d') /\
    applyTask fsOffset g ops (Fsys d' (fs_sb s) (fs_cursor s) (fs_rsv s)) = (Ok tt, s').
Proof.
  intros Hd Ht. cbn [applyTask] in Ht. apply mbnd_Ok in Ht as (sb & s1 & Hg & Ht).
  injection Hg as <- <-. apply mbnd_Ok in Ht as (data & s1 & Hdata & Ht).
  apply mbnd_Ok in Ht as ([] & s2 & Hw & Ht).
  assert (s1 = s /\ (if zlen (op_data op) =? DescSize (fs_sb s)
     then recompute_bgd fsOffset (fs_dev s) (fs_sb s) g (op_data op) else Ok (op_data op)) = Ok data)
    as [-> Hok].
  { destruct (_ =? _); unfold gets, ret in Hdata; by injection Hdata as -> ->. }
  rewrite writeAtWithTrace_write in Hw by (intros; by apply readBGD_np).
  apply on_dev_write in Hw as (d' & Hw & ->). eauto.
Qed.

(** The three writes, the descriptor being recomputed after the bitmap. *)
Lemma applyTask_metadata g bb bmap raw (s s' : fsys D) :
  let sb := fs_sb s in
  32 <= DescSize sb -> zlen raw = DescSize sb -> zlen bmap <> DescSize sb ->
  zlen (sb_raw sb) <> DescSize sb ->
  applyTask fsOffset g (metadata_ops fsOffset sb g bb bmap raw) s = (Ok tt, s') ->
  exists d1 d2 d3 raw',
    write_at (fsOffset + bb * BlockSize sb) bmap (fs_dev s) = (Ok tt, d1) /\
    recompute_bgd fsOffset d1 sb g raw = Ok raw' /\
    write_at (fsOffset + bgd_offset sb g) raw' d1 = (Ok tt, d2) /\
    write_at (fsOffset + 1024) (sb_raw sb) d2 = (Ok tt, d3) /\
    s' = Fsys d3 sb (fs_cursor s) (fs_rsv s).
Proof.
  intros sb Hd Hr Hb Hs Ht. unfold metadata_ops in Ht.
  apply applyTask_cons in Ht as (b1 & d1 & Hb1 & Hw1 & Ht); [|done]. cbn [op_data startAbs] in *.
  rewrite eqb_false in Hb1 by done. injection Hb1 as <-.
  apply applyTask_cons in Ht as (raw' & d2 & Hb2 & Hw2 & Ht); [|done].
  cbn [op_data startAbs fs_sb fs_dev fs_rsv fs_cursor] in *.
  rewrite eqb_true in Hb2 by done.
  apply applyTask_cons in Ht as (b3 & d3 & Hb3 & Hw3 & Ht); [|done].
  cbn [op_data startAbs fs_sb fs_dev fs_rsv fs_cursor] in *.
  rewrite eqb_false in Hb3 by done. injection Hb3 as <-. injection Ht as <-.
  exists d1, d2, d3, raw'. auto.
Qed.

End task.

(** * What the worker writes for a descriptor *)

Lemma countFreeInBitmap_spec bmap m :
  0 <= m ->
  countFreeInBitmap bmap m = Ok (zlen (free_bits bmap (Z.min m (8 * zlen bmap)))).
Proof.
  intros Hm. pose proof (zlen_nonneg bmap). unfold countFreeInBitmap.
  replace (if zlen bmap * 8 <? m then zlen bmap * 8 else m) with (Z.min m (8 * zlen bmap))
    by (destruct (Z.ltb_spec (zlen bmap * 8) m); lia).
  apply countZeroBits_spec. lia.
Qed.

Lemma free_bits_range bmap m : 0 <= m -> 0 <= zlen (free_bits bmap m) <= m.
Proof.
  intros Hm. split; [apply zlen_nonneg|]. unfold free_bits, zlen.
  pose proof (length_filter (fun i => used bmap i = false) (seqZ 0 m)) as Hl.
  rewrite length_seqZ in Hl. lia.
Qed.

Section recompute.
Context {D : Type} `{BlockDevLaws D}.
Context (fsOffset : Z) (sb : superblock) (g : Z).
Hypothesis Hdesc : 32 <= DescSize sb.
Hypothesis Hbpg : 0 <= BlocksPerGroup sb < count_max sb.
Hypothesis Hipg : 0 <= InodesPerGroup sb < count_max sb.

Definition csum_on (sb : superblock) : Prop :=
  has_flag (FeatureROCompat sb) FeatROCompatMetadataCsum = true.

(** The free count the driver computes from a bitmap block. *)
Definition free_count (isBlock : bool) (bmap : list Z) : Z :=
  zlen (free_bits bmap (Z.min (max_bits sb isBlock) (8 * zlen bmap))).

Lemma count_max_le : count_max sb <= 2 ^ 32.
Proof. unfold count_max. destruct (wide sb); lia. Qed.

Lemma free_count_range isBlock bmap : 0 <= free_count isBlock bmap < count_max sb.
Proof.
  unfold free_count. pose proof (zlen_nonneg bmap).
  pose proof (free_bits_range bmap (Z.min (max_bits sb isBlock) (8 * zlen bmap))).
  destruct isBlock; unfold max_bits in *; lia.
Qed.

Lemma countFree_block bmap : countFreeInBitmap bmap (BlocksPerGroup sb) = Ok (free_count true bmap).
Proof. apply countFreeInBitmap_spec. lia. Qed.
Lemma countFree_inode bmap : countFreeInBitmap bmap (InodesPerGroup sb) = Ok (free_count false bmap).
Proof. apply countFreeInBitmap_spec. lia. Qed.

Lemma recompute_bgd_spec (d : D) raw bg bmap imap :
  raw_fits sb raw -> bytes_ok raw -> decodeBGD raw sb = Ok bg ->
  0 <= UsedDirsCount bg < count_max sb ->
  read_at d (i64 (fsOffset + BlockBitmapBlock bg * BlockSize sb)) (BlockSize sb) = Ok bmap ->
  read_at d (i64 (fsOffset + InodeBitmapBlock bg * BlockSize sb)) (BlockSize sb) = Ok imap ->
  exists raw', recompute_bgd fsOffset d sb g raw = Ok raw' /\ raw_fits sb raw' /\ bytes_ok raw' /\
    (csum_on sb -> bgd_csum_ok sb g raw -> bgd_csum_ok sb g raw') /\
    decodeBGD raw' sb = Ok (bgd_with_raw (bgd_with_counts bg (free_count true bmap)
      (free_count false imap) (UsedDirsCount bg)) raw').
Proof.
  intros Hf Hbo Hdec Hud Hb Hi. unfold recompute_bgd, disk_free. rewrite Hdec. cbn [rbind].
  rewrite Hb, Hi, countFree_block, countFree_inode. cbn [rbind].
  pose proof (free_count_range true bmap) as R1. pose proof (free_count_range false imap) as R2.
  pose proof count_max_le. unfold differs, pick. rewrite !w32_small by lia.
  destruct (_ || _) eqn:E.
  - destruct (bgd_encode_decode sb raw bg (free_count true bmap) (free_count false imap)
      (UsedDirsCount bg)) as (bg' & He & Hdec' & Heq & Hl); auto. rewrite He. cbn [rbind].
    destruct (setBGDChecksum sb g (bgd_raw bg')) as [raw'| |] eqn:Hs.
    2,3: rewrite setBGDChecksum_eq in Hs by (rewrite ?Hl; apply Hf); done.
    exists raw'. destruct (decode_csum sb g (bgd_raw bg') raw' bg') as [Hf' Hd']; auto.
    { split; [rewrite Hl; apply Hf|done]. }
    assert (bytes_ok (bgd_raw bg')) as Hbe.
    { eapply bgd_encode_bytes_ok; [|done]. simpl. by rewrite (decodeBGD_raw _ _ _ Hdec). }
    split_and!; auto; [by eapply setBGDChecksum_bytes_ok| |by rewrite Hd', Heq].
    intros Hc _. apply (setBGDChecksum_ok sb g Hdesc (bgd_raw bg')); auto.
    rewrite Hl. apply Hf.
  - zbool. exists raw. split_and!; auto. rewrite Hdec. f_equal.
    pose proof (decodeBGD_raw _ _ _ Hdec). destruct bg. cbn in *. by subst.
Qed.

End recompute.

(** * One group on disk *)

(** Two byte ranges do not meet. *)
Definition sep (a n b m : Z) : Prop := a + n <= b \/ b + m <= a.

(** The geometry under which the three writes of a group do not collide. *)
Record layout (fsOffset : Z) (sb : superblock) (g bb ib : Z) : Prop := {
  ly_desc : 32 <= DescSize sb < 1024;
  ly_bs : 1024 <= BlockSize sb;
  ly_bpg : 0 <= BlocksPerGroup sb < count_max sb;
  ly_ipg : 0 <= InodesPerGroup sb < count_max sb;
  ly_bpg8 : BlocksPerGroup sb <= 8 * BlockSize sb;
  ly_ipg8 : InodesPerGroup sb <= 8 * BlockSize sb;
  ly_off : 0 <= fsOffset;
  ly_bb : 0 <= bb /\ fsOffset + bb * BlockSize sb < 2 ^ 63;
  ly_ib : 0 <= ib /\ fsOffset + ib * BlockSize sb < 2 ^ 63;
  ly_bi : sep (bb * BlockSize sb) (BlockSize sb) (ib * BlockSize sb) (BlockSize sb);
  ly_bd : sep (bb * BlockSize sb) (BlockSize sb) (bgd_offset sb g) (DescSize sb);
  ly_id : sep (ib * BlockSize sb) (BlockSize sb) (bgd_offset sb g) (DescSize sb);
  ly_bsb : sep (bb * BlockSize sb) (BlockSize sb) 1024 1024;
  ly_isb : sep (ib * BlockSize sb) (BlockSize sb) 1024 1024;
  ly_dsb : sep (bgd_offset sb g) (DescSize sb) 1024 1024
}.

Section group.
Context {D : Type} `{BlockDevLaws D}.
Context (fsOffset : Z).

Definition read_block (d : D) (sb : superblock) (blk : Z) : res (list Z) :=
  read_at d (i64 (fsOffset + blk * BlockSize sb)) (BlockSize sb).

(** The descriptor of a group and its two bitmaps, as they are on disk. *)
Record group_at (s : fsys D) (g : Z) (bg : bgd) (bmap imap : list Z) : Prop := {
  ga_bgd : readBGD (fs_dev s) fsOffset (fs_sb s) g = Ok bg;
  ga_bmap : read_block (fs_dev s) (fs_sb s) (BlockBitmapBlock bg) = Ok bmap;
  ga_imap : read_block (fs_dev s) (fs_sb s) (InodeBitmapBlock bg) = Ok imap;
  ga_used : 0 <= UsedDirsCount bg < count_max (fs_sb s)
}.

(** The bytes three writes leave alone; what could be read still can. *)
Definition same_elsewhere (sb : superblock) (g blk : Z) (d d' : D) : Prop :=
  (forall i, i < fsOffset + blk * BlockSize sb \/ fsOffset + (blk + 1) * BlockSize sb <= i ->
    i < fsOffset + bgd_offset sb g \/ fsOffset + bgd_offset sb g + DescSize sb <= i ->
    i < fsOffset + 1024 \/ fsOffset + 2048 <= i -> dev_byte d' i = dev_byte d i) /\
  forall off n r, read_at d off n = Ok r -> exists r', read_at d' off n = Ok r'.

(** The descriptor the worker leaves for given bitmaps. *)
Definition recounted (sb : superblock) (bg : bgd) (bmap imap raw : list Z) : bgd :=
  bgd_with_raw (bgd_with_counts bg (free_count sb true bmap) (free_count sb false imap)
                  (UsedDirsCount bg)) raw.

(** The descriptor and the superblock are where reads find them. *)
Definition readable (d : D) (sb : superblock) (g : Z) : Prop :=
  (exists r, read_at d (fsOffset + bgd_offset sb g) (DescSize sb) = Ok r) /\
  (exists r, read_at d (fsOffset + 1024) 1024 = Ok r).

Lemma task_on_disk (s s' : fsys D) g isBlock bg raw bmap bmap0 omap :
  let sb := fs_sb s in
  let own := if isBlock : bool then BlockBitmapBlock bg else InodeBitmapBlock bg in
  let other := if isBlock then InodeBitmapBlock bg else BlockBitmapBlock bg in
  layout fsOffset sb g (BlockBitmapBlock bg) (InodeBitmapBlock bg) ->
  raw_fits sb raw -> bytes_ok raw -> decodeBGD raw sb = Ok bg ->
  0 <= UsedDirsCount bg < count_max sb -> zlen (sb_raw sb) = 1024 -> bytes_ok (sb_raw sb) ->
  zlen bmap = BlockSize sb -> bytes_ok bmap -> readable (fs_dev s) sb g ->
  read_block (fs_dev s) sb own = Ok bmap0 -> read_block (fs_dev s) sb other = Ok omap ->
  applyTask fsOffset g (metadata_ops fsOffset sb g own bmap raw) s = (Ok tt, s') ->
  let nb := if isBlock then bmap else omap in
  let ni := if isBlock then omap else bmap in
  exists raw',
    group_at s' g (recounted sb bg nb ni raw') nb ni /\
    (csum_on sb -> bgd_csum_ok sb g raw -> bgd_csum_ok sb g raw') /\
    read_at (fs_dev s') (fsOffset + 1024) 1024 = Ok (sb_raw sb) /\
    same_elsewhere sb g own (fs_dev s) (fs_dev s') /\
    fs_sb s' = sb /\ fs_cursor s' = fs_cursor s /\ fs_rsv s' = fs_rsv s.
Proof.
  intros sb own other L Hf Hbr Hdec Hud Hsl Hsb Hbl Hbb [[r0 Hr0] [r1 Hr1]] Hown Hoth Ht nb ni.
  pose proof L as [].
  apply applyTask_metadata in Ht as (d1 & d2 & d3 & raw' & W1 & Hrec & W2 & W3 & ->);
    [|fold sb; lia|apply Hf|fold sb; lia..]. fold sb in W1, Hrec, W2, W3.
  assert (0 <= own /\ fsOffset + own * BlockSize sb < 2 ^ 63 /\ 0 <= other /\
    fsOffset + other * BlockSize sb < 2 ^ 63 /\
    sep (own * BlockSize sb) (BlockSize sb) (other * BlockSize sb) (BlockSize sb) /\
    sep (own * BlockSize sb) (BlockSize sb) (bgd_offset sb g) (DescSize sb) /\
    sep (other * BlockSize sb) (BlockSize sb) (bgd_offset sb g) (DescSize sb) /\
    sep (own * BlockSize sb) (BlockSize sb) 1024 1024 /\
    sep (other * BlockSize sb) (BlockSize sb) 1024 1024)
    as (Ho1 & Ho2 & Ho3 & Ho4 & S1 & S2 & S3 & S4 & S5).
  { unfold sep in *. subst own other. destruct isBlock; lia. }
  unfold sep in *.
  assert (forall d blk, 0 <= blk -> fsOffset + blk * BlockSize sb < 2 ^ 63 ->
    read_block d sb blk = read_at d (fsOffset + blk * BlockSize sb) (BlockSize sb)) as Hrb.
  { intros. unfold read_block. by rewrite i64_small by lia. }
  rewrite Hrb in Hown, Hoth by lia.
  pose proof (write_read_same _ _ _ _ (BlockSize sb) _ W1 Hbb ltac:(lia) Hown) as O1.
  pose proof (write_read_ne _ _ _ _ _ _ _ W1 Hbb Hoth ltac:(lia)) as T1.
  pose proof (write_read_ne _ _ _ _ _ _ _ W1 Hbb Hr0 ltac:(lia)) as G1.
  pose proof (write_read_ne _ _ _ _ _ _ _ W1 Hbb Hr1 ltac:(lia)) as B1.
  assert (exists raw'', recompute_bgd fsOffset d1 sb g raw = Ok raw'' /\ raw_fits sb raw'' /\
    bytes_ok raw'' /\ (csum_on sb -> bgd_csum_ok sb g raw -> bgd_csum_ok sb g raw'') /\
    decodeBGD raw'' sb = Ok (recounted sb bg nb ni raw'')) as Hre.
  { apply (recompute_bgd_spec fsOffset sb g); auto; try lia;
      fold (read_block d1 sb (BlockBitmapBlock bg)); fold (read_block d1 sb (InodeBitmapBlock bg));
      rewrite Hrb by lia; subst nb ni own other; by destruct isBlock. }
  destruct Hre as (raw'' & Hre & Hf' & Hbr' & Hcs & Hdec'). rewrite Hrec in Hre. injection Hre as <-.
  assert (zlen raw' = DescSize sb) as Hlr by apply Hf'.
  pose proof (write_read_ne _ _ _ _ _ _ _ W2 Hbr' O1 ltac:(lia)) as O2.
  pose proof (write_read_ne _ _ _ _ _ _ _ W2 Hbr' T1 ltac:(lia)) as T2.
  pose proof (write_read_same _ _ _ _ (DescSize sb) _ W2 Hbr' ltac:(lia) G1) as G2.
  pose proof (write_read_ne _ _ _ _ _ _ _ W2 Hbr' B1 ltac:(lia)) as B2.
  pose proof (write_read_ne _ _ _ _ _ _ _ W3 Hsb O2 ltac:(lia)) as O3.
  pose proof (write_read_ne _ _ _ _ _ _ _ W3 Hsb T2 ltac:(lia)) as T3.
  pose proof (write_read_ne _ _ _ _ _ _ _ W3 Hsb G2 ltac:(lia)) as G3.
  pose proof (write_read_same _ _ _ _ 1024 _ W3 Hsb ltac:(lia) B2) as B3.
  exists raw'. split_and!; auto.
  - split; cbn [fs_dev fs_sb]; fold sb; [|rewrite Hrb by (cbn; lia)..|done].
    + unfold readBGD. fold sb. by rewrite G3.
    + subst nb own other. cbn. by destruct isBlock.
    + subst ni own other. cbn. by destruct isBlock.
  - split; [intros i Hi1 Hi2 Hi3|intros off n r Hr]; cbn [fs_dev].
    + rewrite (write_at_Ok _ _ _ _ W3 Hsb), (upd_bytes_ne _ _ _ i) by lia.
      rewrite (write_at_Ok _ _ _ _ W2 Hbr'), (upd_bytes_ne _ _ _ i) by lia.
      by rewrite (write_at_Ok _ _ _ _ W1 Hbb), (upd_bytes_ne _ _ _ i) by lia.
    + destruct (write_at_readable _ _ _ _ _ _ _ W1 Hr) as [r2 Hr2].
      destruct (write_at_readable _ _ _ _ _ _ _ W2 Hr2) as [r3 Hr3]. by eapply write_at_readable.
Qed.

(** Persisting a change of bitmap, for a client that is alone. *)
Lemma persist_on_disk (s s' : fsys D) g isBlock bits bg raw bmap bmap0 omap :
  let sb := fs_sb s in
  let own := if isBlock : bool then BlockBitmapBlock bg else InodeBitmapBlock bg in
  let other := if isBlock then InodeBitmapBlock bg else BlockBitmapBlock bg in
  layout fsOffset sb g (BlockBitmapBlock bg) (InodeBitmapBlock bg) ->
  raw_fits sb raw -> bytes_ok raw -> decodeBGD raw sb = Ok bg ->
  0 <= UsedDirsCount bg < count_max sb -> zlen (sb_raw sb) = 1024 -> bytes_ok (sb_raw sb) ->
  zlen bmap = BlockSize sb -> bytes_ok bmap -> readable (fs_dev s) sb g ->
  read_block (fs_dev s) sb own = Ok bmap0 -> read_block (fs_dev s) sb other = Ok omap ->
  fs_rsv s = ∅ -> NoDup bits -> (forall i, i ∈ bits -> 0 <= i < max_bits sb isBlock) ->
  persist fsOffset g isBlock bits own bmap raw s = (Ok tt, s') ->
  let nb := if isBlock then bmap else omap in
  let ni := if isBlock then omap else bmap in
  exists raw',
    group_at s' g (recounted sb bg nb ni raw') nb ni /\
    (csum_on sb -> bgd_csum_ok sb g raw -> bgd_csum_ok sb g raw') /\
    read_at (fs_dev s') (fsOffset + 1024) 1024 = Ok (sb_raw sb) /\
    same_elsewhere sb g own (fs_dev s) (fs_dev s') /\
    fs_sb s' = sb /\ fs_cursor s' = fs_cursor s /\ fs_rsv s' = ∅.
Proof.
  intros sb own other L Hf Hbr Hdec Hud Hsl Hsb Hbl Hbb Hrd Hown Hoth Hrsv Hnd Hin Hp nb ni.
  unfold persist in Hp. apply mbnd_Ok in Hp as ([] & s1 & Hres & Hp).
  destruct (reserve_empty s g isBlock bits Hrsv Hnd) as (b & Hres' & Hb1 & Hb2 & Hb3); auto.
  { pose proof L as []. unfold max_bits. destruct isBlock; fold sb; lia. }
  rewrite Hres' in Hres. injection Hres as <-.
  apply mbnd_Ok in Hp as (sb1 & s2 & Hg & Hp). injection Hg as <- <-.
  apply mbnd_Ok in Hp as (r & s3 & Hr & Hp). apply mbnd_Ok in Hp as ([] & s4 & Hu & Hp).
  destruct r as [[]|e]; [|done]. injection Hp as <-.
  unfold try, enqueueAndWait in Hr. cbn [fs_sb with_rsv] in Hr. fold sb in Hr.
  destruct (applyTask _ _ _ _) as [[[]|e|] s5] eqn:Ht; [|done..]. injection Hr as ->.
  destruct (task_on_disk (with_rsv s {[(g, isBlock) := b]}) s3 g isBlock bg raw bmap bmap0 omap)
    as (raw' & Hga & Hcs & Hs & Hse & Hsb' & Hcur & Hrs); auto.
  cbn [fs_sb with_rsv fs_dev fs_cursor fs_rsv] in *. fold sb in Hga, Hcs, Hs, Hse, Hsb'.
  rewrite (unreserve_empty s3 g isBlock bits b) in Hu by (rewrite ?Hsb'; auto).
  injection Hu as <-. exists raw'. unfold with_rsv. cbn [fs_sb fs_dev fs_cursor fs_rsv].
  split_and!; auto. destruct Hga as [G1 G2 G3 G4]. by split.
Qed.

End group.

(** * The allocators on one group *)

Section alloc_group.
Context {D : Type} `{BlockDevLaws D}.
Context (fsOffset : Z).

Lemma owner_from_np n (d : D) sb g blk :
  32 <= DescSize sb -> owner_from fsOffset n d sb g blk <> Panic.
Proof.
  intros Hd. revert g. induction n as [|n IH]; intros g; cbn [owner_from]; [done|].
  destruct (readBGD _ _ _ _) eqn:E; [|apply IH|by apply readBGD_np in E].
  destruct (_ =? _); [done|]. destruct (_ =? _); [done|]. apply IH.
Qed.

Lemma owner_from_ok n (d : D) sb g blk :
  32 <= DescSize sb -> exists o, owner_from fsOffset n d sb g blk = Ok o.
Proof.
  intros Hd. revert g. induction n as [|n IH]; intros g; cbn [owner_from]; [by eauto|].
  destruct (readBGD _ _ _ _) eqn:E; [|apply IH|by apply readBGD_np in E].
  destruct (_ =? _); [by eauto|]. destruct (_ =? _); [by eauto|]. apply IH.
Qed.

(** Without reservations a bitmap reads as it is on disk. *)
Lemma readBitmap_empty (s : fsys D) blk bmap :
  32 <= DescSize (fs_sb s) -> fs_rsv s = ∅ -> read_block fsOffset (fs_dev s) (fs_sb s) blk = Ok bmap ->
  readBitmap fsOffset blk s = (Ok bmap, s).
Proof.
  intros Hd Hr Hb. unfold readBitmap, readRawBlock. unfold read_block in Hb. rewrite Hb.
  cbn [rwrap rbind]. destruct (_ =? 0); [done|]. unfold bitmapOwnerGroup.
  destruct (owner_from_ok (Z.to_nat (numBlockGroups (fs_sb s))) (fs_dev s) (fs_sb s) 0 blk Hd)
    as [o ->]. cbn [rbind]. rewrite Hr. destruct o; [by rewrite lookup_empty|done].
Qed.

Lemma read_block_ok (d : D) sb blk bmap :
  read_block fsOffset d sb blk = Ok bmap -> 0 <= BlockSize sb -> zlen bmap = BlockSize sb.
Proof. intros Hr Hb. by apply read_at_zlen in Hr. Qed.
Lemma read_block_bytes (d : D) sb blk bmap :
  read_block fsOffset d sb blk = Ok bmap -> bytes_ok bmap.
Proof. apply read_at_bytes_ok. Qed.

Lemma readBGD_ok (d : D) sb g bg :
  32 <= DescSize sb -> readBGD d fsOffset sb g = Ok bg ->
  raw_fits sb (bgd_raw bg) /\ bytes_ok (bgd_raw bg) /\ decodeBGD (bgd_raw bg) sb = Ok bg.
Proof.
  intros Hd Hr. unfold readBGD in Hr. apply rbind_Ok in Hr as (raw & Hr & Hdec).
  apply rwrap_Ok in Hr. rewrite (decodeBGD_raw _ _ _ Hdec). split_and!; [split|..]; auto.
  - apply read_at_zlen in Hr; lia.
  - by apply read_at_bytes_ok in Hr.
Qed.

(** The state of an open file system at rest: no reservation, and a superblock
    image in memory. *)
Definition at_rest (s : fsys D) : Prop :=
  fs_rsv s = ∅ /\ zlen (sb_raw (fs_sb s)) = 1024 /\ bytes_ok (sb_raw (fs_sb s)).

(** What an operation on group [g] leaves: the new descriptor and bitmaps, the
    superblock [sb'] in memory and on disk, and every other byte. *)
Definition group_done (s s' : fsys D) (g blk : Z) (sb' : superblock) (bg' : bgd)
    (bmap' imap' : list Z) : Prop :=
  group_at fsOffset s' g bg' bmap' imap' /\ fs_sb s' = encodeRaw sb' /\ at_rest s' /\
  read_at (fs_dev s') (fsOffset + 1024) 1024 = Ok (sb_raw (fs_sb s')) /\
  same_elsewhere fsOffset (fs_sb s) g blk (fs_dev s) (fs_dev s') /\ fs_cursor s' = fs_cursor s.

Lemma seal_zlen ro raw : zlen (seal_superblock ro raw) = zlen raw.
Proof. unfold seal_superblock. destruct (has_flag _ _); zl. Qed.
Lemma seal_bytes_ok ro raw : bytes_ok raw -> bytes_ok (seal_superblock ro raw).
Proof. intros. unfold seal_superblock. destruct (has_flag _ _); auto with bytes. Qed.

Lemma encodeRaw_ok sb :
  zlen (sb_raw (encodeRaw sb)) = zlen (sb_raw sb) /\
  (bytes_ok (sb_raw sb) -> bytes_ok (sb_raw (encodeRaw sb))).
Proof.
  split; [cbn; rewrite seal_zlen; zl|]. intros. cbn. apply seal_bytes_ok. auto 10 with bytes.
Qed.

(** Superblocks with the same geometry. *)
Lemma layout_counts sb k g bb ib :
  layout fsOffset sb g bb ib -> layout fsOffset (encodeRaw (with_FreeBlocks sb k)) g bb ib.
Proof. intros []. split; done. Qed.
Lemma layout_icounts sb k g bb ib :
  layout fsOffset sb g bb ib -> layout fsOffset (encodeRaw (with_FreeInodes sb k)) g bb ib.
Proof. intros []. split; done. Qed.

(** Superblocks that differ from [sb] in their counts only. *)
Definition counts_only (sb sb1 : superblock) : Prop :=
  exists k, sb1 = with_FreeBlocks sb k \/ sb1 = with_FreeInodes sb k.

(** The end of an operation: a descriptor prepared with new counts, and a
    bitmap to persist with it. *)
Lemma persist_group_done (s s2 : fsys D) g isBlock bits bg bg2 fb fi ud bmap imap bmapN sb1 :
  let own := if isBlock : bool then BlockBitmapBlock bg else InodeBitmapBlock bg in
  let nb := if isBlock then bmapN else bmap in
  let ni := if isBlock then imap else bmapN in
  at_rest s -> group_at fsOffset s g bg bmap imap ->
  layout fsOffset (fs_sb s) g (BlockBitmapBlock bg) (InodeBitmapBlock bg) ->
  readable fsOffset (fs_dev s) (fs_sb s) g -> counts_only (fs_sb s) sb1 ->
  raw_fits (fs_sb s) (bgd_raw bg2) -> bytes_ok (bgd_raw bg2) ->
  decodeBGD (bgd_raw bg2) (fs_sb s) = Ok bg2 ->
  bg2 = bgd_with_raw (bgd_with_counts bg fb fi ud) (bgd_raw bg2) ->
  0 <= ud < count_max (fs_sb s) -> zlen bmapN = BlockSize (fs_sb s) -> bytes_ok bmapN ->
  NoDup bits -> (forall i, i ∈ bits -> 0 <= i < max_bits (fs_sb s) isBlock) ->
  persist fsOffset g isBlock bits own bmapN (bgd_raw bg2)
    (Fsys (fs_dev s) (encodeRaw sb1) (fs_cursor s) (fs_rsv s)) = (Ok tt, s2) ->
  exists raw', group_done s s2 g own sb1
    (recounted (fs_sb s) (bgd_with_counts bg fb fi ud) nb ni raw') nb ni /\
    (csum_on (fs_sb s) -> bgd_csum_ok (fs_sb s) g (bgd_raw bg2) -> bgd_csum_ok (fs_sb s) g raw').
Proof.
  intros own nb ni (Hrs & Hsl & Hsb) [G1 G2 G3 G4] L Hrd [k Hk] F2 B2 D2 E2 Hud Hl Hb Hnd Hin Hp.
  destruct (encodeRaw_ok sb1) as [Hel Heb].
  assert (sb_raw sb1 = sb_raw (fs_sb s)) as Hraw by (by destruct Hk as [-> | ->]).
  rewrite Hraw in Hel, Heb. specialize (Heb Hsb).
  assert (layout fsOffset (encodeRaw sb1) g (BlockBitmapBlock bg) (InodeBitmapBlock bg)) as L'
    by (destruct Hk as [-> | ->]; [by apply layout_counts|by apply layout_icounts]).
  assert (BlockBitmapBlock bg2 = BlockBitmapBlock bg /\ InodeBitmapBlock bg2 = InodeBitmapBlock bg /\
    InodeTableBlock bg2 = InodeTableBlock bg /\ UsedDirsCount bg2 = ud /\
    bgd_Flags bg2 = bgd_Flags bg) as (Q1 & Q2 & Q3 & Q4 & Q5) by (rewrite E2; done).
  set (s1 := Fsys (fs_dev s) (encodeRaw sb1) (fs_cursor s) (fs_rsv s)) in *.
  assert (exists raw', group_at fsOffset s2 g (recounted (fs_sb s1) bg2 nb ni raw') nb ni /\
    (csum_on (fs_sb s1) -> bgd_csum_ok (fs_sb s1) g (bgd_raw bg2) -> bgd_csum_ok (fs_sb s1) g raw') /\
    read_at (fs_dev s2) (fsOffset + 1024) 1024 = Ok (sb_raw (fs_sb s1)) /\
    same_elsewhere fsOffset (fs_sb s1) g own (fs_dev s1) (fs_dev s2) /\
    fs_sb s2 = fs_sb s1 /\ fs_cursor s2 = fs_cursor s1 /\ fs_rsv s2 = ∅)
    as (raw' & P1 & P0 & P2 & P3 & P4 & P5 & P6).
  { pose proof (persist_on_disk fsOffset s1 s2 g isBlock bits bg2 (bgd_raw bg2) bmapN
      (if isBlock then bmap else imap) (if isBlock then imap else bmap)) as Hd.
    cbv zeta in Hd. rewrite Q1, Q2, Q4 in Hd. subst own nb ni. cbn [s1 fs_sb fs_dev fs_rsv] in Hd.
    destruct Hk as [-> | ->]; destruct isBlock; apply Hd; auto; lia. }
  assert (recounted (fs_sb s1) bg2 nb ni raw' =
    recounted (fs_sb s) (bgd_with_counts bg fb fi ud) nb ni raw') as Hre.
  { unfold recounted, bgd_with_raw, bgd_with_counts. cbn. rewrite Q1, Q2, Q3, Q4, Q5.
    by destruct Hk as [-> | ->]. }
  exists raw'. rewrite Hre in P1. unfold group_done, at_rest. rewrite P4. cbn [s1 fs_sb].
  split_and!; auto; [lia|by destruct Hk as [-> | ->]|].
  cbn [s1 fs_sb] in P0. by destruct Hk as [-> | ->].
Qed.

Lemma allocBlocksLocked_spec (s s' : fsys D) n g bg bmap imap r :
  0 <= n -> at_rest s -> group_at fsOffset s g bg bmap imap ->
  layout fsOffset (fs_sb s) g (BlockBitmapBlock bg) (InodeBitmapBlock bg) ->
  readable fsOffset (fs_dev s) (fs_sb s) g ->
  allocBlocksLocked fsOffset n g s = (Ok r, s') ->
  let m := BlocksPerGroup (fs_sb s) in
  match r with
  | None => s' = s /\ (FreeBlocksCount bg < n \/ zlen (free_bits bmap m) < n)
  | Some blocks => exists bits raw' bmap',
      blocks = (fun b => w64 (g * m + FirstDataBlock (fs_sb s) + b)) <$> bits /\
      free_choice bmap m n bits /\
      (forall j, 0 <= j -> used bmap' j = bool_decide (j ∈ bits) || used bmap j) /\
      zlen (free_bits bmap m) = zlen (free_bits bmap' m) + n /\
      group_done s s' g (BlockBitmapBlock bg)
        (with_FreeBlocks (fs_sb s) (w64 (sb_FreeBlocksCount (fs_sb s) - n)))
        (recounted (fs_sb s) bg bmap' imap raw') bmap' imap
  end.
Proof.
  intros Hn (Hrs & Hsl & Hsb) [G1 G2 G3 G4] L Hrd Ha m. pose proof L as [].
  unfold allocBlocksLocked in Ha. apply mbnd_Ok in Ha as (sb & s1 & Hg & Ha). injection Hg as <- <-.
  apply mbnd_Ok in Ha as (bg1 & s1 & Hg & Ha). unfold gets in Hg. rewrite G1 in Hg.
  injection Hg as <- <-. destruct (FreeBlocksCount bg <? n) eqn:Ef; zbool.
  { injection Ha as <- <-. auto. }
  apply mbnd_Ok in Ha as (bm & s1 & Hg & Ha).
  rewrite (readBitmap_empty s _ bmap) in Hg by (auto; lia). injection Hg as <- <-.
  pose proof (read_block_ok _ _ _ _ G2 ltac:(lia)) as Hbl. pose proof (read_block_bytes _ _ _ _ G2) as Hbb.
  destruct (readBGD_ok (fs_dev s) (fs_sb s) g bg ltac:(lia) G1) as (Hfit & Hbr & Hdec).
  destruct (decodeBGD_ranges _ _ _ Hbr Hdec) as (R1 & R2 & R3).
  assert (0 <= m <= 8 * zlen bmap) as Hm by (unfold m; lia).
  destruct (findFreeRun_spec bmap m Hm n Hn) as (run & Hrun & Hnone & Hsome & _).
  unfold mbnd at 1, mlift at 1 in Ha. fold m in Ha. rewrite Hrun in Ha.
  destruct run as [bits|]; [|injection Ha as <- <-; split; [done|right; by apply Hnone]].
  specialize (Hsome bits eq_refl). destruct Hsome as (Hbn & Hnd & Hfree).
  destruct (setBits_spec bmap bits m Hbb Hm Hnd Hfree) as (bmap' & Hset & Hl' & Hb' & Hu' & Hc').
  unfold mbnd at 1, mlift at 1 in Ha. rewrite Hset in Ha. cbv zeta in Ha.
  pose proof (count_max_le (fs_sb s)). rewrite (w32_small (FreeBlocksCount bg - n)) in Ha by lia.
  destruct (prepare_counts (fs_sb s) g (bgd_raw bg) bg true bmap' (FreeBlocksCount bg - n)
    (FreeInodesCount bg) (UsedDirsCount bg)) as (raw1 & bg2 & Hc1 & Hc2 & F2 & B2 & D2 & E2); auto; [lia|].
  unfold mbnd at 1, mlift at 1 in Ha. cbn [bgd_raw bgd_with_counts] in Ha. rewrite Hc1 in Ha.
  unfold mbnd at 1, mlift at 1 in Ha. rewrite Hc2 in Ha.
  apply mbnd_Ok in Ha as ([] & s1 & Hg & Ha). injection Hg as <-.
  apply mbnd_Ok in Ha as ([] & s2 & Hp & Ha). injection Ha as <- <-.
  assert (BlockBitmapBlock bg2 = BlockBitmapBlock bg) as Hown by (by rewrite E2).
  rewrite Hown in Hp.
  destruct (persist_group_done s s2 g true bits bg bg2 (FreeBlocksCount bg - n) (FreeInodesCount bg)
    (UsedDirsCount bg) bmap imap bmap'
    (with_FreeBlocks (fs_sb s) (w64 (sb_FreeBlocksCount (fs_sb s) - n)))) as [raw' [Hdone _]]; auto.
  { by split. } { by split. } { eexists. by left. } { lia. } { intros i Hi. by apply Hfree. }
  exists bits, raw', bmap'. split_and!; auto; [by split_and!|lia].
Qed.

Lemma allocInodeIn_spec (s s' : fsys D) isDir g bg bmap imap r :
  at_rest s -> group_at fsOffset s g bg bmap imap ->
  layout fsOffset (fs_sb s) g (BlockBitmapBlock bg) (InodeBitmapBlock bg) ->
  readable fsOffset (fs_dev s) (fs_sb s) g -> UsedDirsCount bg + 1 < count_max (fs_sb s) ->
  allocInodeIn fsOffset isDir g s = (Ok r, s') ->
  let m := InodesPerGroup (fs_sb s) in
  match r with
  | None => s' = s /\ (FreeInodesCount bg = 0 \/ forall i, 0 <= i < m -> used imap i = true)
  | Some ino => exists bit raw' imap',
      ino = w32 (g * m + bit + 1) /\ 0 <= bit < m /\ used imap bit = false /\
      (forall j, 0 <= j -> used imap' j = bool_decide (j = bit) || used imap j) /\
      group_done s s' g (InodeBitmapBlock bg)
        (with_FreeInodes (fs_sb s) (w32 (sb_FreeInodesCount (fs_sb s) - 1)))
        (recounted (fs_sb s) (bgd_with_counts bg (FreeBlocksCount bg) (FreeInodesCount bg - 1)
           (if isDir : bool then UsedDirsCount bg + 1 else UsedDirsCount bg)) bmap imap' raw')
        bmap imap'
  end.
Proof.
  intros (Hrs & Hsl & Hsb) [G1 G2 G3 G4] L Hrd Hud Ha m. pose proof L as [].
  unfold allocInodeIn in Ha. apply mbnd_Ok in Ha as (sb & s1 & Hg & Ha). injection Hg as <- <-.
  apply mbnd_Ok in Ha as (bg1 & s1 & Hg & Ha). unfold gets in Hg. rewrite G1 in Hg.
  injection Hg as <- <-. destruct (FreeInodesCount bg =? 0) eqn:Ef; zbool.
  { injection Ha as <- <-. auto. }
  apply mbnd_Ok in Ha as (bm & s1 & Hg & Ha).
  rewrite (readBitmap_empty s _ imap) in Hg by (auto; lia). injection Hg as <- <-.
  pose proof (read_block_ok _ _ _ _ G3 ltac:(lia)) as Hbl. pose proof (read_block_bytes _ _ _ _ G3) as Hbb.
  destruct (readBGD_ok (fs_dev s) (fs_sb s) g bg ltac:(lia) G1) as (Hfit & Hbr & Hdec).
  destruct (decodeBGD_ranges _ _ _ Hbr Hdec) as (R1 & R2 & R3).
  assert (0 <= m <= 8 * zlen imap) as Hm by (unfold m; lia).
  pose proof (findFreeBit_spec imap m Hm) as Hff.
  unfold mbnd at 1, mlift at 1 in Ha. fold m in Ha.
  destruct (findFreeBit imap m) as [[bit|]| |]; [|injection Ha as <- <-; auto|done..].
  destruct Hff as (Hbit & Hfree & _).
  destruct (setBit_spec imap bit Hbb ltac:(lia)) as (imap' & Hset & Hl' & Hb' & Hu').
  unfold mbnd at 1, mlift at 1 in Ha. rewrite Hset in Ha. cbv zeta in Ha.
  pose proof (count_max_le (fs_sb s)).
  rewrite !w32_small with (x := FreeInodesCount bg - 1) in Ha by lia.
  rewrite !w32_small with (x := UsedDirsCount bg + 1) in Ha by lia.
  set (ud := if isDir : bool then UsedDirsCount bg + 1 else UsedDirsCount bg) in *.
  assert (0 <= ud < count_max (fs_sb s)) as Hud' by (unfold ud; destruct isDir; lia).
  destruct (prepare_counts (fs_sb s) g (bgd_raw bg) bg false imap' (FreeBlocksCount bg)
    (FreeInodesCount bg - 1) ud) as (raw1 & bg2 & Hc1 & Hc2 & F2 & B2 & D2 & E2); auto; [lia|].
  unfold mbnd at 1, mlift at 1 in Ha. cbn [bgd_raw bgd_with_counts] in Ha. rewrite Hc1 in Ha.
  unfold mbnd at 1, mlift at 1 in Ha. rewrite Hc2 in Ha.
  apply mbnd_Ok in Ha as ([] & s1 & Hg & Ha). injection Hg as <-.
  apply mbnd_Ok in Ha as ([] & s2 & Hp & Ha). injection Ha as <- <-.
  assert (InodeBitmapBlock bg2 = InodeBitmapBlock bg) as Hown by (by rewrite E2).
  rewrite Hown in Hp.
  destruct (persist_group_done s s2 g false [bit] bg bg2 (FreeBlocksCount bg) (FreeInodesCount bg - 1)
    ud bmap imap imap' (with_FreeInodes (fs_sb s) (w32 (sb_FreeInodesCount (fs_sb s) - 1))))
    as [raw' [Hdone _]]; auto.
  { by split. } { by split. } { eexists. by right. } { lia. } { apply NoDup_singleton. }
  { intros i Hi. apply list_elem_of_singleton in Hi as ->. done. }
  exists bit, raw', imap'. split_and!; auto; try lia.
  intros j Hj. rewrite Hu' by done. case_decide; case_bool_decide; try done; congruence.
Qed.

Lemma freeBlock_spec (s s' : fsys D) blk bg bmap imap :
  let m := BlocksPerGroup (fs_sb s) in
  let g := w32 ((blk - FirstDataBlock (fs_sb s)) / m) in
  let bit := (blk - FirstDataBlock (fs_sb s)) mod m in
  0 < m -> FirstDataBlock (fs_sb s) <= blk -> at_rest s -> group_at fsOffset s g bg bmap imap ->
  layout fsOffset (fs_sb s) g (BlockBitmapBlock bg) (InodeBitmapBlock bg) ->
  readable fsOffset (fs_dev s) (fs_sb s) g -> FreeBlocksCount bg + 1 < count_max (fs_sb s) ->
  freeBlock fsOffset blk s = (Ok tt, s') ->
  exists raw' bmap',
    (forall j, 0 <= j -> used bmap' j = negb (bool_decide (j = bit)) && used bmap j) /\
    (csum_on (fs_sb s) -> bgd_csum_ok (fs_sb s) g raw') /\
    group_done s s' g (BlockBitmapBlock bg)
      (with_FreeBlocks (fs_sb s) (w64 (sb_FreeBlocksCount (fs_sb s) + 1)))
      (recounted (fs_sb s) (bgd_with_counts bg (FreeBlocksCount bg + 1) (FreeInodesCount bg)
         (UsedDirsCount bg)) bmap' imap raw') bmap' imap.
Proof.
  intros m g bit Hm0 Hblk (Hrs & Hsl & Hsb) [G1 G2 G3 G4] L Hrd Hfb Ha. pose proof L as [].
  unfold freeBlock in Ha. apply mbnd_Ok in Ha as (sb & s1 & Hg & Ha). injection Hg as <- <-.
  rewrite ltb_false in Ha by lia. fold m in Ha. rewrite eqb_false in Ha by lia. cbv zeta in Ha.
  fold g bit in Ha.
  apply mbnd_Ok in Ha as (bg1 & s1 & Hg & Ha). unfold gets in Hg. rewrite G1 in Hg.
  injection Hg as <- <-. apply mbnd_Ok in Ha as (bm & s1 & Hg & Ha).
  rewrite (readBitmap_empty s _ bmap) in Hg by (auto; lia). injection Hg as <- <-.
  pose proof (read_block_ok _ _ _ _ G2 ltac:(lia)) as Hbl. pose proof (read_block_bytes _ _ _ _ G2) as Hbb.
  destruct (readBGD_ok (fs_dev s) (fs_sb s) g bg ltac:(lia) G1) as (Hfit & Hbr & Hdec).
  destruct (decodeBGD_ranges _ _ _ Hbr Hdec) as (R1 & R2 & R3).
  assert (0 <= bit < m) as Hbit by (apply Z.mod_pos_bound; lia).
  destruct (clearBit_spec bmap bit Hbb ltac:(unfold m in *; lia)) as (bmap' & Hclr & Hl' & Hb' & Hu').
  unfold mbnd at 1, mlift at 1 in Ha. rewrite Hclr in Ha.
  pose proof (count_max_le (fs_sb s)). rewrite !(w32_small (FreeBlocksCount bg + 1)) in Ha by lia.
  destruct (prepare_counts (fs_sb s) g (bgd_raw bg) bg true bmap' (FreeBlocksCount bg + 1)
    (FreeInodesCount bg) (UsedDirsCount bg)) as (raw1 & bg2 & Hc1 & Hc2 & F2 & B2 & D2 & E2); auto; [lia|].
  unfold mbnd at 1, mlift at 1 in Ha. cbn [bgd_raw bgd_with_counts] in Ha. rewrite Hc1 in Ha.
  unfold mbnd at 1, mlift at 1, prepareBGD in Ha. rewrite Hc2 in Ha. cbn [rbind] in Ha.
  destruct (setBGDChecksum (fs_sb s) g (bgd_raw bg2)) as [raw3| |] eqn:Hs3; [|done..].
  cbn [rbind] in Ha. destruct (decode_csum (fs_sb s) g (bgd_raw bg2) raw3 bg2) as [F3 D3]; auto.
  pose proof (setBGDChecksum_bytes_ok _ _ _ _ B2 Hs3) as B3.
  apply mbnd_Ok in Ha as ([] & s1 & Hg & Hp). injection Hg as <-.
  assert (BlockBitmapBlock bg2 = BlockBitmapBlock bg) as Hown by (by rewrite E2).
  cbn [bgd_raw bgd_with_raw BlockBitmapBlock] in Hp. rewrite Hown in Hp.
  destruct (persist_group_done s s' g true [bit] bg (bgd_with_raw bg2 raw3) (FreeBlocksCount bg + 1)
    (FreeInodesCount bg) (UsedDirsCount bg) bmap imap bmap'
    (with_FreeBlocks (fs_sb s) (w64 (sb_FreeBlocksCount (fs_sb s) + 1)))) as [raw' [Hdone Hcs]]; auto.
  { by split. } { by split. } { eexists. by left. } { rewrite E2. done. } { lia. }
  { apply NoDup_singleton. } { intros i Hi. apply list_elem_of_singleton in Hi as ->. done. }
  exists raw', bmap'. split_and!; auto.
  - intros j Hj. rewrite Hu' by done. case_decide; case_bool_decide; try done; congruence.
  - intros Hcs1. apply Hcs; [done|]. cbn. by apply (setBGDChecksum_ok (fs_sb s) g ltac:(lia) (bgd_raw bg2)); [apply F2|..].
Qed.

End alloc_group.

(** * Scanning the groups *)

Section scan.
Context {D : Type} `{BlockDevLaws D}.
Context (fsOffset : Z).

(** A group a client may operate on. *)
Definition group_ok (s : fsys D) (g : Z) : Prop :=
  exists bg bmap imap, group_at fsOffset s g bg bmap imap /\
    layout fsOffset (fs_sb s) g (BlockBitmapBlock bg) (InodeBitmapBlock bg) /\
    readable fsOffset (fs_dev s) (fs_sb s) g /\
    UsedDirsCount bg + 1 < count_max (fs_sb s).

Definition fs_ok (s : fsys D) : Prop :=
  at_rest s /\ 0 < numBlockGroups (fs_sb s) /\
  forall g, 0 <= g < numBlockGroups (fs_sb s) -> group_ok s g.

Lemma scan_groups_spec {A} (body : Z -> M (fsys D) (option A)) n start i (s s' : fsys D) r :
  0 < numBlockGroups (fs_sb s) ->
  (forall g s1, 0 <= g < numBlockGroups (fs_sb s) -> body g s = (Ok None, s1) -> s1 = s) ->
  scan_groups body n start i s = (Ok r, s') ->
  (r = None /\ s' = s) \/
  exists g, 0 <= g < numBlockGroups (fs_sb s) /\ body g s = (Ok r, s') /\ is_Some r.
Proof.
  intros Hn Hb. revert i. induction n as [|n IH]; intros i Hs; cbn [scan_groups] in Hs.
  { injection Hs as <- <-. auto. }
  apply mbnd_Ok in Hs as (sb & s1 & Hg & Hs). injection Hg as <- <-.
  apply mbnd_Ok in Hs as (o & s1 & Hbody & Hs).
  pose proof (Z.mod_pos_bound (w32 (start + i)) _ Hn) as Hr.
  destruct o as [a|].
  - injection Hs as <- <-. right. eexists. split_and!; [exact (proj1 Hr)|exact (proj2 Hr)|done|by eauto].
  - apply Hb in Hbody as ->; [|done]. by apply (IH (i + 1)).
Qed.

Lemma allocBlocksLocked_None (s s' : fsys D) n g :
  0 <= n -> at_rest s -> group_ok s g ->
  allocBlocksLocked fsOffset n g s = (Ok None, s') -> s' = s.
Proof.
  intros Hn Hr (bg & bmap & imap & Hga & L & Hrd & _) Ha.
  apply (allocBlocksLocked_spec fsOffset s s' n g bg bmap imap None) in Ha as [? _]; auto.
Qed.

Lemma allocInodeIn_None (s s' : fsys D) isDir g :
  at_rest s -> group_ok s g -> allocInodeIn fsOffset isDir g s = (Ok None, s') -> s' = s.
Proof.
  intros Hr (bg & bmap & imap & Hga & L & Hrd & Hu) Ha.
  apply (allocInodeIn_spec fsOffset s s' isDir g bg bmap imap None) in Ha as [? _]; auto.
Qed.

(** Reads leave the state alone. *)
Lemma try_readBitmap blk (s s' : fsys D) q :
  try (readBitmap fsOffset blk) s = (Ok q, s') -> s' = s.
Proof.
  unfold try, readBitmap. destruct (rbind _ _); intros [= _ <-]; done.
Qed.

Lemma allocBlocksIn_spec (s s' : fsys D) n g r :
  0 <= n -> at_rest s -> group_ok s g -> allocBlocksIn fsOffset n g s = (Ok r, s') ->
  match r with
  | None => s' = s
  | Some blocks => allocBlocksLocked fsOffset n g s = (Ok (Some blocks), s')
  end.
Proof.
  intros Hn Hr Hgo Ha. unfold allocBlocksIn in Ha.
  apply mbnd_Ok in Ha as (sb & s1 & Hg & Ha). injection Hg as <- <-.
  apply mbnd_Ok in Ha as (bg & s1 & Hg & Ha). injection Hg as _ <-.
  apply mbnd_Ok in Ha as (skip & s1 & Hsk & Ha).
  assert (s1 = s) as ->.
  { destruct (_ <? n); [|by injection Hsk as _ <-].
    apply mbnd_Ok in Hsk as (q & s2 & Hq & Hsk). apply try_readBitmap in Hq as ->.
    destruct q; [|by injection Hsk as _ <-]. apply mbnd_Ok in Hsk as (f & s2 & Hf & Hsk).
    injection Hf as _ <-. by injection Hsk as _ <-. }
  destruct skip; [by injection Ha as <- <-|].
  apply mbnd_Ok in Ha as (o & s1 & Hl & Ha). destruct o as [blocks|].
  - apply mbnd_Ok in Ha as ([] & s2 & Hc & Ha). injection Hc as _ <-. by injection Ha as <- <-.
  - injection Ha as <- <-. by apply allocBlocksLocked_None in Hl.
Qed.

(** The state with the cursor of the allocators moved. *)
Definition with_cursor (s : fsys D) (c : Z) : fsys D := Fsys (fs_dev s) (fs_sb s) c (fs_rsv s).

Lemma fs_ok_cursor s c : fs_ok s -> fs_ok (with_cursor s c).
Proof.
  intros (Hr & Hn & Hg). split_and!; auto. intros g Hg'.
  destruct (Hg g Hg') as (bg & bmap & imap & [] & L & Hrd & Hu). exists bg, bmap, imap.
  split_and!; auto. by split.
Qed.

(** A successful allocation is one on some group, with the cursor moved. *)
Lemma allocBlocks_group (s s' : fsys D) n blocks :
  0 <= n -> fs_ok s -> allocBlocks fsOffset n s = (Ok blocks, s') ->
  exists g c, 0 <= g < numBlockGroups (fs_sb s) /\
    allocBlocksLocked fsOffset n g (with_cursor s c) = (Ok (Some blocks), s').
Proof.
  intros Hn Hok Ha. unfold allocBlocks in Ha.
  apply mbnd_Ok in Ha as (start & s1 & Hst & Ha). unfold nextStart in Hst.
  destruct (_ =? 0); [done|]. injection Hst as _ <-.
  fold (with_cursor s (w32 (fs_cursor s + 1))) in Ha. set (c := w32 (fs_cursor s + 1)) in *.
  pose proof (fs_ok_cursor s c Hok) as (Hr & Hng & Hgo).
  apply mbnd_Ok in Ha as (sb & s1 & Hg & Ha). injection Hg as <- <-.
  apply mbnd_Ok in Ha as (o & s1 & Hsc & Ha). apply scan_groups_spec in Hsc; [|done|].
  2:{ intros g s2 Hg Hb. by apply (allocBlocksIn_spec _ _ n g None) in Hb; auto. }
  destruct Hsc as [[-> ->]|(g & Hg & Hb & [bl ->])].
  - apply mbnd_Ok in Ha as (q & s1 & Hl & Ha). destruct q as [bl|]; [|done]. injection Ha as <- <-.
    unfold try in Hl. destruct (lockedAllocBlocks _ _ _) as [[bl'| |] s2] eqn:El; [|done..].
    injection Hl as <- <-. unfold lockedAllocBlocks in El.
    apply mbnd_Ok in El as (sb & s1 & Hg & El). injection Hg as <- <-.
    apply mbnd_Ok in El as (o & s1 & Hsc & El). apply scan_groups_spec in Hsc; [|done|].
    2:{ intros g s3 Hg Hb. apply (allocBlocksLocked_None _ _ n g) in Hb; auto. }
    destruct Hsc as [[-> ->]|(g & Hg & Hb & [bl ->])]; [done|]. injection El as <- <-. eauto.
  - injection Ha as <- <-. apply (allocBlocksIn_spec _ _ n g) in Hb; eauto.
Qed.

Lemma allocInode_group (s s' : fsys D) isDir ino :
  fs_ok s -> allocInode fsOffset isDir s = (Ok ino, s') ->
  exists g c, 0 <= g < numBlockGroups (fs_sb s) /\
    allocInodeIn fsOffset isDir g (with_cursor s c) = (Ok (Some ino), s').
Proof.
  intros Hok Ha. unfold allocInode in Ha.
  apply mbnd_Ok in Ha as (start & s1 & Hst & Ha). unfold nextStart in Hst.
  destruct (_ =? 0); [done|]. injection Hst as _ <-.
  fold (with_cursor s (w32 (fs_cursor s + 1))) in Ha. set (c := w32 (fs_cursor s + 1)) in *.
  pose proof (fs_ok_cursor s c Hok) as (Hr & Hng & Hgo).
  apply mbnd_Ok in Ha as (sb & s1 & Hg & Ha). injection Hg as <- <-.
  apply mbnd_Ok in Ha as (o & s1 & Hsc & Ha). apply scan_groups_spec in Hsc; [|done|].
  2:{ intros g s2 Hg Hb. apply (allocInodeIn_None _ _ isDir g) in Hb; auto. }
  destruct Hsc as [[-> ->]|(g & Hg & Hb & [bl ->])]; [done|]. injection Ha as <- <-. eauto.
Qed.

End scan.
