(* ===== verification/Journal.v ===== *)
(** The sidecar journal ([src/journal.go], [src/limits.go]): the record format,
    transactions, commit, the scan for the next sequence number and the replay
    at open.

    The sidecar is a file next to the image; the class [Sidecar] carries the
    operations on it.  Commits run one after the other here: the ordering of
    concurrent commits is in [Commits].  What
    replay and commit guarantee is in [JournalSpec]. *)

From S2P Require Import Prelude Bytes Crc Device Superblock Bgd GoLib Limits Inode Alloc.

Definition journalMagic : Z := 0x4A424432.
Definition commitMagic : Z := 0x434D4954.
Definition descSize : Z := 8 + 4.

Record journalEntry : Type := JEntry { je_Block : Z; je_Data : list Z }.

(** * Transactions *)

Record Transaction : Type := Tx { tx_entries : list journalEntry; tx_committed : bool }.

Definition StartTx : Transaction := Tx [] false.

(** Replace the entry of the block, or append one. *)
Fixpoint upsert (entries : list journalEntry) (blockNum : Z) (data : list Z) : list journalEntry :=
  match entries with
  | [] => [JEntry blockNum data]
  | e :: entries' =>
      if je_Block e =? blockNum then JEntry (je_Block e) data :: entries'
      else e :: upsert entries' blockNum data
  end.

Definition AddBlock (tx : Transaction) (blockNum : Z) (data : list Z) : res Transaction :=
  if tx_committed tx then Err (Errorf "transaction already committed")
  else Ok (Tx (upsert (tx_entries tx) blockNum data) false).

Fixpoint find_block (entries : list journalEntry) (blockNum : Z) : option (list Z) :=
  match entries with
  | [] => None
  | e :: entries' => if je_Block e =? blockNum then Some (je_Data e) else find_block entries' blockNum
  end.
Definition GetBlock (tx : Transaction) (blockNum : Z) : option (list Z) :=
  find_block (tx_entries tx) blockNum.

Definition Abort (tx : Transaction) : res Transaction :=
  if tx_committed tx then Err (Errorf "cannot abort committed transaction")
  else Ok (Tx [] false).

(** * Records *)

Definition tx_header (seq nDesc : Z) : list Z :=
  le_encode 4 journalMagic ++ le_encode 8 seq ++ le_encode 4 nDesc.
Definition tx_desc (blk ln : Z) : list Z := le_encode 8 blk ++ le_encode 4 ln.
(** Header, descriptors and data, from the numbers as they were read. *)
Definition tx_bytes (seq nDesc : Z) (descs : list (Z * Z)) (datas : list (list Z)) : list Z :=
  tx_header seq nDesc ++ concat ((fun p => tx_desc p.1 p.2) <$> descs) ++ concat datas.
Definition commit_record (seq crc : Z) : list Z :=
  le_encode 4 commitMagic ++ le_encode 8 seq ++ le_encode 4 crc.

(** What [Commit] serializes. *)
Definition desc_of (e : journalEntry) : Z * Z := (je_Block e, w32 (zlen (je_Data e))).
Definition tx_body (seq : Z) (entries : list journalEntry) : list Z :=
  tx_bytes seq (w32 (zlen entries)) (desc_of <$> entries) (je_Data <$> entries).
Definition tx_log (seq : Z) (entries : list journalEntry) : list Z :=
  let body := tx_body seq entries in
  body ++ commit_record seq (crc32_Update 0 body).

(** * Reading the sidecar from a position: the bytes that remain *)

(** [binary.Read] of an unsigned integer of [n] bytes. *)
Definition bin_Read (n : nat) (r : list Z) : res (Z * list Z) :=
  match r with
  | [] => Err EOF
  | _ => if (length r <? n)%nat then Err ErrUnexpectedEOF
         else Ok (le_decode (take n r), drop n r)
  end.

(** [io.ReadFull] into a buffer of [n] bytes. *)
Definition ReadFull (n : Z) (r : list Z) : res (list Z * list Z) :=
  if n =? 0 then Ok ([], r) else
  match r with
  | [] => Err EOF
  | _ => if zlen r <? n then Err ErrUnexpectedEOF
         else Ok (take (Z.to_nat n) r, drop (Z.to_nat n) r)
  end.

Definition journalReserveDescs (rem nDesc : Z) : res Z :=
  let need := w64 (nDesc * descSize) in
  if rem <? need then Err (ErrWrap "descriptors" ErrTooLarge) else Ok (rem - need).

Fixpoint read_descs (n : nat) (r : list Z) : res (list (Z * Z) * list Z) :=
  match n with
  | O => Ok ([], r)
  | S n' =>
      let! (blk, r) := bin_Read 8 r in
      let! (ln, r) := bin_Read 4 r in
      let! (descs, r) := read_descs n' r in
      Ok ((blk, ln) :: descs, r)
  end.

(** The data blobs; [None] when a length exceeds what remains. *)
Fixpoint read_datas (descs : list (Z * Z)) (rem : Z) (r : list Z)
    : res (option (list (list Z) * list Z)) :=
  match descs with
  | [] => Ok (Some ([], r))
  | (_, ln) :: descs' =>
      if rem <? ln then Ok None else
      let! (buf, r) := ReadFull ln r in
      let! rest := read_datas descs' (rem - ln) r in
      match rest with
      | None => Ok None
      | Some (datas, r) => Ok (Some (buf :: datas, r))
      end
  end.

Definition entries_of (descs : list (Z * Z)) (datas : list (list Z)) : list journalEntry :=
  zip_with (fun p data => JEntry p.1 data) descs datas.

(** * Replay *)

(** The commit record: the magic, then the sequence number, which is not
    compared, and the checksum. *)
Definition replay_commit (seq nDesc : Z) (descs : list (Z * Z)) (datas : list (list Z)) (r : list Z)
    : res (option (Z * list journalEntry * list Z)) :=
  match bin_Read 4 r with
  | Panic => Panic
  | Err _ => Ok None
  | Ok (cm, r) =>
      if negb (cm =? commitMagic) then Ok None else
      let! (_, r) := bin_Read 8 r in
      let! (crc, r) := bin_Read 4 r in
      if negb (crc32_Update 0 (tx_bytes seq nDesc descs datas) =? crc) then Ok None else
      Ok (Some (seq, entries_of descs datas, r))
  end.

(** What follows the header. *)
Definition replay_body (seq nDesc : Z) (r : list Z)
    : res (option (Z * list journalEntry * list Z)) :=
  let! rem := rwrap "journal replay" (journalReserveDescs (zlen r) nDesc) in
  let! (descs, r) := read_descs (Z.to_nat nDesc) r in
  let! q := read_datas descs rem r in
  match q with
  | None => Err (ErrWrap "journal replay: descriptor" ErrTooLarge)
  | Some (datas, r) => replay_commit seq nDesc descs datas r
  end.

(** One round of [ReplayOnOpen], up to the point where it applies the entries:
    [None] when the loop ends. *)
Definition replay_parse (r : list Z) : res (option (Z * list journalEntry * list Z)) :=
  match bin_Read 4 r with
  | Panic => Panic
  | Err EOF => Ok None
  | Err e => Err e
  | Ok (magic, r) =>
      if negb (magic =? journalMagic) then Ok None else
      let! (seq, r) := bin_Read 8 r in
      let! (nDesc, r) := bin_Read 4 r in
      replay_body seq nDesc r
  end.

(** * The scan of [initNextSeq] *)

Inductive scan : Type :=
| ScanBreak
| ScanReturn
| ScanTx (seq : Z) (r : list Z).

Definition init_commit (seq nDesc : Z) (descs : list (Z * Z)) (datas : list (list Z)) (r : list Z)
    : res scan :=
  match bin_Read 4 r with
  | Panic => Panic
  | Err EOF => Ok ScanBreak
  | Err e => Err e
  | Ok (cm, r) =>
      if negb (cm =? commitMagic) then Ok ScanBreak else
      let! (_, r) := bin_Read 8 r in
      let! (crc, r) := bin_Read 4 r in
      if crc32_Update 0 (tx_bytes seq nDesc descs datas) =? crc
      then Ok (ScanTx seq r) else Ok ScanBreak
  end.

Definition init_body (seq nDesc : Z) (r : list Z) : res scan :=
  match journalReserveDescs (zlen r) nDesc with
  | Panic => Panic
  | Err _ => Ok ScanBreak
  | Ok rem =>
      let! (descs, r) := read_descs (Z.to_nat nDesc) r in
      match read_datas descs rem r with
      | Panic => Panic
      | Err EOF | Err ErrUnexpectedEOF => Ok ScanReturn
      | Err e => Err e
      | Ok None => Ok ScanBreak
      | Ok (Some (datas, r)) => init_commit seq nDesc descs datas r
      end
  end.

Definition init_parse (r : list Z) : res scan :=
  match bin_Read 4 r with
  | Panic => Panic
  | Err EOF => Ok ScanBreak
  | Err e => Err e
  | Ok (magic, r) =>
      if negb (magic =? journalMagic) then Ok ScanBreak else
      let! (seq, r) := bin_Read 8 r in
      let! (nDesc, r) := bin_Read 4 r in
      init_body seq nDesc r
  end.

(** The scan: the last sequence number, or [None] for the early return. *)
Fixpoint init_from (fuel : nat) (r : list Z) (lastSeq : Z) : res (option Z) :=
  match fuel with
  | O => Err OutOfFuel
  | S fuel' =>
      let! p := init_parse r in
      match p with
      | ScanBreak => Ok (Some lastSeq)
      | ScanReturn => Ok None
      | ScanTx seq r => init_from fuel' r (if lastSeq <? seq then seq else lastSeq)
      end
  end.

(** * The sidecar file and the journal *)

Class Sidecar (F : Type) : Type := {
  js_content : F -> list Z;
  js_WriteAt : F -> Z -> list Z -> option error * F;
  js_Truncate0 : F -> F
}.

(** A file after a write at an offset within it or past its end. *)
Definition file_write (c : list Z) (off : Z) (bs : list Z) : list Z :=
  let c := c ++ zeros (off + zlen bs - zlen c) in zsplice c off bs.

Class SidecarLaws (F : Type) `{Sidecar F} : Prop := {
  js_bytes : forall f, bytes_ok (js_content f);
  js_write_full : forall f off bs f', js_WriteAt f off bs = (None, f') -> 0 <= off ->
    bytes_ok bs -> js_content f' = file_write (js_content f) off bs;
  (** A write that fails leaves the bytes before its offset. *)
  js_write_err : forall f off bs e f', js_WriteAt f off bs = (Some e, f') ->
    0 <= off <= zlen (js_content f) ->
    zslice (js_content f') 0 off = zslice (js_content f) 0 off
}.

(** A file in memory with a limited capacity. *)
Record memfile : Type := MemFile { mf_bytes : list Z; mf_cap : Z }.
#[global] Instance memfile_Sidecar : Sidecar memfile := {
  js_content := fun f => w8 <$> mf_bytes f;
  js_WriteAt := fun f off bs =>
    if mf_cap f <? off + zlen bs then (Some (ErrDevice 28), f)
    else (None, MemFile (file_write (mf_bytes f) off bs) (mf_cap f));
  js_Truncate0 := fun f => MemFile [] (mf_cap f)
}.

Record Journal (F : Type) : Type := MkJournal {
  j_js : F;
  j_enabled : bool;
  j_nextSeq : Z;
  j_applySeq : Z;
  j_appendOff : Z;
  j_blockSize : Z
}.
Arguments MkJournal {F}.
Arguments j_js {F}.
Arguments j_enabled {F}.
Arguments j_nextSeq {F}.
Arguments j_applySeq {F}.
Arguments j_appendOff {F}.
Arguments j_blockSize {F}.

Definition with_deviceBytes (sb : superblock) (n : Z) : superblock :=
  Superblock (sb_raw sb) (InodesCount sb) (BlocksCount sb) (sb_FreeBlocksCount sb)
    (sb_FreeInodesCount sb) (FirstDataBlock sb) (BlockSize sb) (BlocksPerGroup sb)
    (InodesPerGroup sb) (Magic sb) (FeatureIncompat sb) (FeatureROCompat sb) (UUID sb)
    (sb_Label sb) (InodeSize sb) (DescSize sb) (LogGroupsPerFlex sb) (ChecksumSeed sb)
    (ChecksumType sb) (maxRead sb) n.

Section journal.
Context {D : Type} `{BlockDev D} {F : Type} `{Sidecar F}.
Context (fsOffset : Z).

Notation FS := (M (fsys D)).

Definition initNextSeq (j : Journal F) : res (Journal F) :=
  let c := js_content (j_js j) in
  let! last := init_from (S (length c)) c 0 in
  match last with
  | None => Ok j
  | Some lastSeq =>
      Ok (MkJournal (j_js j) (j_enabled j) (w64 (lastSeq + 1)) (j_applySeq j) (zlen c) (j_blockSize j))
  end.

(** [OpenJournal] once the sidecar has been opened: [initNextSeq] failing
    disables the journal. *)
Definition OpenJournal (js : F) (blockSize : Z) : Journal F :=
  match initNextSeq (MkJournal js true 0 0 0 blockSize) with
  | Ok j => MkJournal (j_js j) true (j_nextSeq j) (j_nextSeq j) (j_appendOff j) (j_blockSize j)
  | _ => MkJournal js false 0 0 0 blockSize
  end.

(** The absolute offset of a journaled block. *)
Definition block_off (blockSize blk : Z) : Z := i64 (fsOffset + blk * blockSize).

(** The entries of a replayed transaction, applied to the image. *)
Fixpoint replay_apply (blockSize : Z) (entries : list journalEntry) : FS unit :=
  match entries with
  | [] => ret tt
  | e :: entries' =>
      do! sb := get_sb in
      if BlocksCount sb <=? je_Block e then mfail (Errorf "journal replay: block out of range") else
      do! _ := mwrap "journal replay apply block"
                 (writeAtWithTrace fsOffset (block_off blockSize (je_Block e)) (je_Data e)) in
      replay_apply blockSize entries'
  end.

Fixpoint replay_from (fuel : nat) (blockSize : Z) (r : list Z) (nextSeq : Z) : FS Z :=
  match fuel with
  | O => mfail OutOfFuel
  | S fuel' =>
      do! p := mlift (replay_parse r) in
      match p with
      | None => ret nextSeq
      | Some (seq, entries, r) =>
          do! _ := replay_apply blockSize entries in
          do! _ := on_dev sync_dev in
          replay_from fuel' blockSize r (if nextSeq <=? seq then w64 (seq + 1) else nextSeq)
      end
  end.

Definition ReplayOnOpen (j : Journal F) : FS (Journal F) :=
  if negb (j_enabled j) then ret j else
  let c := js_content (j_js j) in
  do! next := replay_from (S (length c)) (j_blockSize j) c (j_nextSeq j) in
  ret (MkJournal (j_js j) (j_enabled j) next (j_applySeq j) (j_appendOff j) (j_blockSize j)).

(** [openFromDevice] after the partition has been found: the superblock is read
    before the replay. *)
Definition openFromDevice (dev : D) (js : F) : res (fsys D * Journal F) * D :=
  match readSuperblock dev fsOffset with
  | Panic => (Panic, dev)
  | Err e => (Err e, dev)
  | Ok sb =>
      let devSize := match dev_Size dev with Ok n => n | _ => 0 end in
      let sb := if fsOffset <? devSize then with_deviceBytes sb (devSize - fsOffset) else sb in
      let j := OpenJournal js (BlockSize sb) in
      match ReplayOnOpen j (Fsys dev sb 0 ∅) with
      | (Ok j, s) => (Ok (s, j), fs_dev s)
      | (Err e, s) => (Err (ErrWrap "ext4: journal replay" e), fs_dev s)
      | (Panic, s) => (Panic, fs_dev s)
      end
  end.

(** * Commit *)

Definition reserveAppend (j : Journal F) (n : Z) : Z * Journal F :=
  let fin := zlen (js_content (j_js j)) in
  let off := if j_appendOff j <? fin then fin else j_appendOff j in
  (off, MkJournal (j_js j) (j_enabled j) (j_nextSeq j) (j_applySeq j) (off + n) (j_blockSize j)).

Fixpoint apply_tx (blockSize : Z) (entries : list journalEntry) : FS unit :=
  match entries with
  | [] => ret tt
  | e :: entries' =>
      do! _ := mwrap "ext4: apply tx entry"
                 (writeAtWithTrace fsOffset (block_off blockSize (je_Block e)) (je_Data e)) in
      apply_tx blockSize entries'
  end.

(** The file system and its journal. *)
Definition jfs : Type := fsys D * Journal F.
Definition on_fs {A} (m : FS A) : M jfs A := fun '(s, j) => let '(r, s') := m s in (r, (s', j)).
Definition get_j : M jfs (Journal F) := fun '(s, j) => (Ok j, (s, j)).
Definition set_j (j : Journal F) : M jfs unit := fun '(s, _) => (Ok tt, (s, j)).

Definition js_write (off : Z) (bs : list Z) : M jfs unit := fun '(s, j) =>
  let '(e, js) := js_WriteAt (j_js j) off bs in
  (match e with None => Ok tt | Some e => Err e end,
   (s, MkJournal js (j_enabled j) (j_nextSeq j) (j_applySeq j) (j_appendOff j) (j_blockSize j))).

Definition with_applySeq (j : Journal F) (n : Z) : Journal F :=
  MkJournal (j_js j) (j_enabled j) (j_nextSeq j) n (j_appendOff j) (j_blockSize j).
Definition with_nextSeq (j : Journal F) (n : Z) : Journal F :=
  MkJournal (j_js j) (j_enabled j) n (j_applySeq j) (j_appendOff j) (j_blockSize j).

(** [advanceApplySeq] runs on every return once the turn has come. *)
Definition defer_advance (seq : Z) (m : M jfs unit) : M jfs unit := fun st =>
  let '(r, (s, j)) := m st in
  (r, (s, if j_applySeq j =? seq then with_applySeq j (w64 (seq + 1)) else j)).

(** [Commit].  The turn of the transaction comes when [applySeq] reaches its
    sequence number; with one client, a turn that has not come never comes. *)
Definition Commit (tx : Transaction) : M jfs unit :=
  if tx_committed tx then mfail (Errorf "transaction already committed") else
  do! j := get_j in
  if negb (j_enabled j) then ret tt else
  let seq := j_nextSeq j in
  do! _ := set_j (with_nextSeq j (w64 (seq + 1))) in
  let body := tx_body seq (tx_entries tx) in
  let crec := commit_record seq (crc32_Update 0 body) in
  do! j := get_j in
  let '(off, j) := reserveAppend j (zlen body + zlen crec) in
  do! _ := set_j j in
  do! _ := js_write off body in
  do! _ := js_write (off + zlen body) crec in
  do! j := get_j in
  if negb (j_applySeq j =? seq) then mfail Blocked else
  defer_advance seq (on_fs (apply_tx (j_blockSize j) (tx_entries tx))).

(** [Journal.Close]: the sidecar is emptied. *)
Definition Journal_Close (j : Journal F) : Journal F :=
  MkJournal (js_Truncate0 (j_js j)) (j_enabled j) (j_nextSeq j) (j_applySeq j) (j_appendOff j)
    (j_blockSize j).

(** * Staging a range of bytes into a transaction *)

(** The loop of [addRangeToTx]: whole blocks, from the transaction when it has
    them and from the image otherwise. *)
Fixpoint add_blocks (fuel : nat) (d : D) (sb : superblock) (tx : Transaction) (bnum offInBlock : Z)
    (data : list Z) : res Transaction :=
  match data with
  | [] => Ok tx
  | _ =>
      match fuel with
      | O => Err OutOfFuel
      | S fuel' =>
          let bs := BlockSize sb in
          let! blockBuf :=
            match GetBlock tx bnum with
            | Some b => Ok b
            | None => rwrap "ext4: read block" (read_at d (i64 (fsOffset + bnum * bs)) bs)
            end in
          let copyLen := Z.min (bs - offInBlock) (zlen data) in
          let! _ := subslice blockBuf offInBlock (offInBlock + copyLen) in
          let! tx := AddBlock tx bnum (zsplice blockBuf offInBlock (zslice data 0 copyLen)) in
          add_blocks fuel' d sb tx (bnum + 1) 0 (drop (Z.to_nat copyLen) data)
      end
  end.

Definition addRangeToTx (d : D) (sb : superblock) (tx : Transaction) (startAbs : Z) (data : list Z)
    : res Transaction :=
  if BlockSize sb =? 0 then Err (Errorf "invalid superblock for addRangeToTx") else
  let relStart := startAbs - fsOffset in
  if relStart <? 0 then Err (Errorf "ext4: invalid write offset") else
  add_blocks (S (length data)) d sb tx (relStart / BlockSize sb) (relStart mod BlockSize sb) data.

(** The loop of [applyOrJournalWrite]: each block is read, overlaid and staged. *)
Fixpoint journal_blocks (fuel : nat) (d : D) (sb : superblock) (tx : Transaction) (bnum offInBlock : Z)
    (data : list Z) : res Transaction :=
  match data with
  | [] => Ok tx
  | _ =>
      match fuel with
      | O => Err OutOfFuel
      | S fuel' =>
          let bs := BlockSize sb in
          let! blockBuf := readRawBlock d fsOffset sb bnum in
          let copyLen := Z.min (bs - offInBlock) (zlen data) in
          let! _ := subslice blockBuf offInBlock (offInBlock + copyLen) in
          let blockBuf := zsplice blockBuf offInBlock (zslice data 0 copyLen) in
          let! tx := addRangeToTx d sb tx (fsOffset + bnum * bs) blockBuf in
          journal_blocks fuel' d sb tx (bnum + 1) 0 (drop (Z.to_nat copyLen) data)
      end
  end.

Definition applyOrJournalWrite (startAbs : Z) (data : list Z) : M jfs unit :=
  do! j := get_j in
  do! sb := on_fs get_sb in
  if (BlockSize sb =? 0) || negb (j_enabled j) then
    mwrap "ext4: write" (on_fs (writeAtWithTrace fsOffset startAbs data))
  else
  let relStart := startAbs - fsOffset in
  if relStart <? 0 then mfail (Errorf "ext4: invalid write offset") else
  do! tx := on_fs (gets (fun d sb =>
    journal_blocks (S (length data)) d sb StartTx (relStart / BlockSize sb)
      (relStart mod BlockSize sb) data)) in
  Commit tx.

End journal.

(** * Transactions as finite maps *)

Lemma find_block_upsert entries b data b' :
  find_block (upsert entries b data) b' = if b' =? b then Some data else find_block entries b'.
Proof.
  induction entries as [|e entries IH]; cbn [upsert find_block je_Block].
  - rewrite (Z.eqb_sym b b'). by destruct (b' =? b).
  - destruct (je_Block e =? b) eqn:E; cbn [find_block je_Block je_Data]; zbool.
    + rewrite E, (Z.eqb_sym b b'). by destruct (b' =? b).
    + rewrite IH. destruct (je_Block e =? b') eqn:E2, (b' =? b) eqn:E3; zbool; try done. lia.
Qed.

Lemma upsert_blocks entries b data :
  je_Block <$> upsert entries b data =
  if bool_decide (b ∈ je_Block <$> entries) then je_Block <$> entries else (je_Block <$> entries) ++ [b].
Proof.
  induction entries as [|e entries IH]; [done|]. cbn [upsert fmap list_fmap].
  destruct (je_Block e =? b) eqn:E; zbool.
  - cbn. rewrite bool_decide_true by (rewrite E; set_solver). done.
  - cbn [fmap list_fmap]. rewrite IH. case_bool_decide as H1; case_bool_decide as H2; try done; set_solver.
Qed.

Lemma upsert_NoDup entries b data :
  NoDup (je_Block <$> entries) -> NoDup (je_Block <$> upsert entries b data).
Proof.
  intros Hn. rewrite upsert_blocks. case_bool_decide as Hb; [done|].
  apply NoDup_app. split_and!; [done| |apply NoDup_singleton]. set_solver.
Qed.

(** * Records read back *)

Lemma bin_Read_encode n v r :
  (0 < n)%nat -> 0 <= v < 256 ^ Z.of_nat n -> bin_Read n (le_encode n v ++ r) = Ok (v, r).
Proof.
  intros Hn Hv. unfold bin_Read. pose proof (length_le_encode n v) as Hl.
  destruct (le_encode n v ++ r) as [|x l] eqn:E.
  { apply app_eq_nil in E as [E _]. rewrite E in Hl. cbn in Hl. lia. }
  rewrite <- E. rewrite length_app, Hl. rewrite (proj2 (Nat.ltb_ge _ _)) by lia.
  rewrite take_app_length', drop_app_length' by done. by rewrite le_decode_encode_small.
Qed.

Lemma bin_Read_app n r v r' x :
  bin_Read n r = Ok (v, r') -> bin_Read n (r ++ x) = Ok (v, r' ++ x).
Proof.
  unfold bin_Read. destruct r as [|a r]; [done|]. intros H. 
  destruct (length (a :: r) <? n)%nat eqn:E; [done|]. apply Nat.ltb_ge in E.
  injection H as <- <-. rewrite <- app_comm_cons, app_comm_cons.
  rewrite (proj2 (Nat.ltb_ge _ _)) by (rewrite length_app; lia).
  by rewrite take_app_le, drop_app_le by lia.
Qed.

Lemma ReadFull_app n r b r' x : ReadFull n r = Ok (b, r') -> ReadFull n (r ++ x) = Ok (b, r' ++ x).
Proof.
  unfold ReadFull. destruct (n =? 0); [by intros [= <- <-]|]. destruct r as [|a r]; [done|].
  intros H. destruct (zlen (a :: r) <? n) eqn:E; [done|]. zbool. injection H as <- <-.
  rewrite <- app_comm_cons, app_comm_cons. pose proof (zlen_nonneg x).
  rewrite ltb_false by (rewrite zlen_app; lia). unfold zlen in E.
  by rewrite take_app_le, drop_app_le by lia.
Qed.

Lemma ReadFull_data data r : ReadFull (zlen data) (data ++ r) = Ok (data, r).
Proof.
  unfold ReadFull. destruct (zlen data =? 0) eqn:E; zbool.
  { unfold zlen in E. assert (data = []) as -> by (apply length_zero_iff_nil; lia). done. }
  pose proof (zlen_nonneg data). pose proof (zlen_nonneg r).
  destruct (data ++ r) as [|a l] eqn:El.
  { apply app_eq_nil in El as [-> _]. done. }
  rewrite <- El. rewrite ltb_false by (rewrite zlen_app; lia).
  unfold zlen. by rewrite Nat2Z.id, take_app_length, drop_app_length.
Qed.

(** The numbers of a record fit their fields. *)
Definition desc_ok (p : Z * Z) : Prop := 0 <= p.1 < 2 ^ 64 /\ 0 <= p.2 < 2 ^ 32.

Lemma read_descs_encode descs r :
  Forall desc_ok descs ->
  read_descs (length descs) (concat ((fun p => tx_desc p.1 p.2) <$> descs) ++ r) = Ok (descs, r).
Proof.
  induction 1 as [|[b l] descs [Hb Hl] _ IH]; [done|].
  cbn [length fmap list_fmap concat read_descs fst snd] in *. unfold tx_desc at 1. rewrite <- !app_assoc.
  rewrite bin_Read_encode by (done || lia). cbn [rbind].
  rewrite bin_Read_encode by (done || lia). cbn [rbind]. rewrite IH. done.
Qed.

Lemma read_descs_app n r descs r' x :
  read_descs n r = Ok (descs, r') -> read_descs n (r ++ x) = Ok (descs, r' ++ x).
Proof.
  revert r descs. induction n as [|n IH]; intros r descs H; cbn [read_descs] in *.
  { by injection H as <- <-. }
  apply rbind_Ok in H as ([blk r1] & H1 & H). apply rbind_Ok in H as ([ln r2] & H2 & H).
  apply rbind_Ok in H as ([ds r3] & H3 & H). injection H as <- <-.
  rewrite (bin_Read_app _ _ _ _ x H1). cbn [rbind]. rewrite (bin_Read_app _ _ _ _ x H2). cbn [rbind].
  by rewrite (IH _ _ H3).
Qed.

Lemma zlen_concat_descs descs :
  zlen (concat ((fun p => tx_desc p.1 p.2) <$> descs)) = descSize * zlen descs.
Proof.
  induction descs as [|p descs IH]; [done|]. cbn [fmap list_fmap concat].
  rewrite zlen_app, IH, zlen_cons. unfold tx_desc. rewrite zlen_app, !zlen_le_encode.
  unfold descSize. lia.
Qed.

Lemma read_datas_encode datas descs rem r :
  snd <$> descs = zlen <$> datas -> zlen (concat datas) <= rem ->
  read_datas descs rem (concat datas ++ r) = Ok (Some (datas, r)).
Proof.
  revert datas rem. induction descs as [|[b l] descs IH]; intros [|data datas] rem Hd Hr;
    try discriminate Hd; [done|].
  cbn [fmap list_fmap fst snd concat read_datas] in *. injection Hd as -> Hd.
  rewrite zlen_app in Hr. pose proof (zlen_nonneg (concat datas)).
  rewrite ltb_false by lia. rewrite <- app_assoc, ReadFull_data. cbn [rbind].
  rewrite IH by (done || lia). done.
Qed.

Lemma read_datas_app descs rem r q r' x k :
  0 <= k -> read_datas descs rem r = Ok (Some (q, r')) ->
  read_datas descs (rem + k) (r ++ x) = Ok (Some (q, r' ++ x)).
Proof.
  intros Hk. revert rem r q. induction descs as [|[b l] descs IH]; intros rem r q H; cbn [read_datas] in *.
  { by injection H as <- <-. }
  destruct (rem <? l) eqn:E; [done|]. zbool. rewrite ltb_false by lia.
  apply rbind_Ok in H as ([buf r1] & H1 & H). apply rbind_Ok in H as (rest & H2 & H).
  destruct rest as [[ds r2]|]; [|done]. injection H as <- <-.
  rewrite (ReadFull_app _ _ _ _ x H1). cbn [rbind].
  replace (rem + k - l) with (rem - l + k) by lia. by rewrite (IH _ _ _ H2).
Qed.

(** * A transaction read back, whole and torn *)

(** A transaction whose numbers fit the fields of its record. *)
Definition entry_ok (e : journalEntry) : Prop :=
  0 <= je_Block e < 2 ^ 64 /\ zlen (je_Data e) < 2 ^ 32 /\ bytes_ok (je_Data e).
Definition tx_ok (p : Z * list journalEntry) : Prop :=
  0 <= p.1 < 2 ^ 64 /\ zlen p.2 < 2 ^ 32 /\ Forall entry_ok p.2.

Lemma desc_of_ok e : entry_ok e -> desc_ok (desc_of e).
Proof.
  intros (Hb & Hl & _). pose proof (zlen_nonneg (je_Data e)). split; cbn; [done|].
  rewrite w32_small; lia.
Qed.

Lemma entries_of_desc entries :
  entries_of (desc_of <$> entries) (je_Data <$> entries) = entries.
Proof. induction entries as [|[b d] entries IH]; [done|]. cbn. by f_equal. Qed.

Lemma journalReserveDescs_ok rem n :
  0 <= n < 2 ^ 32 -> descSize * n <= rem -> journalReserveDescs rem n = Ok (rem - descSize * n).
Proof.
  intros Hn Hr. unfold journalReserveDescs, descSize in *. rewrite w64_small by lia.
  rewrite ltb_false by lia. f_equal. lia.
Qed.

Lemma journalReserveDescs_app rem n rem' k :
  0 <= k -> journalReserveDescs rem n = Ok rem' -> journalReserveDescs (rem + k) n = Ok (rem' + k).
Proof.
  unfold journalReserveDescs. intros Hk H. destruct (rem <? _) eqn:E; [done|]. zbool.
  injection H as <-. rewrite ltb_false by lia. f_equal. lia.
Qed.

Lemma bytes_ok_concat (ls : list (list Z)) : Forall bytes_ok ls -> bytes_ok (concat ls).
Proof. induction 1; cbn; [constructor|]. by rewrite bytes_ok_app. Qed.

Lemma tx_bytes_ok seq n descs datas :
  Forall bytes_ok datas -> bytes_ok (tx_bytes seq n descs datas).
Proof.
  intros Hd. unfold tx_bytes, tx_header. rewrite !bytes_ok_app.
  split_and!; auto using bytes_ok_le_encode, bytes_ok_concat.
  apply bytes_ok_concat, Forall_fmap, Forall_forall. intros p _.
  change (bytes_ok (tx_desc p.1 p.2)). unfold tx_desc. rewrite bytes_ok_app. auto using bytes_ok_le_encode.
Qed.

Lemma tx_body_ok p : tx_ok p -> bytes_ok (tx_body p.1 p.2).
Proof.
  intros (_ & _ & He). apply tx_bytes_ok. apply Forall_fmap. eapply Forall_impl; [exact He|].
  by intros e (_ & _ & ?).
Qed.

Lemma zlen_tx_header seq n : zlen (tx_header seq n) = 16.
Proof. unfold tx_header. by rewrite !zlen_app, !zlen_le_encode. Qed.
Lemma zlen_commit_record seq crc : zlen (commit_record seq crc) = 16.
Proof. unfold commit_record. by rewrite !zlen_app, !zlen_le_encode. Qed.

Lemma crc32_Update_range crc bs :
  0 <= crc < 2 ^ 32 -> bytes_ok bs -> 0 <= crc32_Update crc bs < 2 ^ 32.
Proof.
  intros Hc Hb. assert (0 <= not32 crc < 2 ^ 32) as Hn by (apply lxor_range; lia).
  pose proof (crc32c_range _ _ Hn Hb) as H. unfold crc32c in H. rewrite not32_involutive in H.
  assert (crc32_Update crc bs = not32 (not32 (crc32_Update crc bs))) as -> by (by rewrite not32_involutive).
  apply lxor_range; [lia|done|lia].
Qed.

(** A read that finds too few bytes. *)
Lemma bin_Read_short n r :
  (length r < n)%nat -> bin_Read n r = Err (match r with [] => EOF | _ => ErrUnexpectedEOF end).
Proof.
  intros H. unfold bin_Read. destruct r as [|a r]; [done|].
  by rewrite (proj2 (Nat.ltb_lt _ _)).
Qed.

(** Both parsers read the header in the same way. *)
Lemma parse_header seq n r :
  0 <= seq < 2 ^ 64 -> 0 <= n < 2 ^ 32 ->
  replay_parse (tx_header seq n ++ r) = replay_body seq n r /\
  init_parse (tx_header seq n ++ r) = init_body seq n r.
Proof.
  intros Hs Hn. unfold replay_parse, init_parse, tx_header. rewrite <- !app_assoc.
  rewrite (bin_Read_encode 4) by (done || lia). rewrite Z.eqb_refl. cbn [negb].
  rewrite (bin_Read_encode 8) by (done || lia). cbn [rbind].
  by rewrite (bin_Read_encode 4) by (done || lia).
Qed.

(** A torn header is an error of both, unless nothing of it is there. *)
Lemma parse_header_torn seq n k :
  0 <= seq < 2 ^ 64 -> (0 < k < 16)%nat ->
  exists e, replay_parse (take k (tx_header seq n)) = Err e /\
            init_parse (take k (tx_header seq n)) = Err e.
Proof.
  intros Hs Hk. unfold tx_header. destruct (decide (k < 4)%nat) as [H4|H4].
  { unfold replay_parse, init_parse.
    rewrite bin_Read_short by (rewrite length_take; lia). rewrite take_app_le by (rewrite length_le_encode; lia).
    destruct (take k (le_encode 4 journalMagic)) as [|a l] eqn:E; [|by eexists].
    apply (f_equal length) in E. rewrite length_take, length_le_encode in E. cbn in E. lia. }
  unfold replay_parse, init_parse.
  rewrite take_app_ge by (rewrite length_le_encode; lia). rewrite length_le_encode.
  rewrite (bin_Read_encode 4) by (done || lia). rewrite Z.eqb_refl. cbn [negb].
  destruct (decide (k < 12)%nat) as [H12|H12].
  { rewrite bin_Read_short by (rewrite length_take; lia). by eexists. }
  rewrite take_app_ge by (rewrite length_le_encode; lia). rewrite length_le_encode.
  rewrite (bin_Read_encode 8) by (done || lia). cbn [rbind].
  rewrite bin_Read_short by (rewrite length_take; lia). by eexists.
Qed.

(** Both parsers on the descriptors and the data. *)
Lemma parse_body p r :
  tx_ok p ->
  let descs := desc_of <$> p.2 in let datas := je_Data <$> p.2 in
  let b := concat ((fun q => tx_desc q.1 q.2) <$> descs) ++ concat datas ++ r in
  replay_body p.1 (zlen p.2) b = replay_commit p.1 (zlen p.2) descs datas r /\
  init_body p.1 (zlen p.2) b = init_commit p.1 (zlen p.2) descs datas r.
Proof.
  intros (Hs & Hn & He) descs datas b. pose proof (zlen_nonneg p.2) as H0.
  assert (Forall desc_ok descs) as Hd.
  { apply Forall_fmap. eapply Forall_impl; [exact He|]. intros e. apply desc_of_ok. }
  assert (zlen descs = zlen p.2) as Hz by (unfold zlen, descs; by rewrite length_fmap).
  assert (journalReserveDescs (zlen b) (zlen p.2) = Ok (zlen (concat datas ++ r))) as Hr.
  { subst b. rewrite zlen_app, zlen_concat_descs, Hz. pose proof (zlen_nonneg (concat datas ++ r)).
    rewrite journalReserveDescs_ok by lia. f_equal. lia. }
  assert (read_descs (Z.to_nat (zlen p.2)) b = Ok (descs, concat datas ++ r)) as Hrd.
  { rewrite <- Hz. unfold zlen. rewrite Nat2Z.id. by apply read_descs_encode. }
  assert (read_datas descs (zlen (concat datas ++ r)) (concat datas ++ r) = Ok (Some (datas, r))) as Hdt.
  { apply read_datas_encode.
    - unfold descs, datas. rewrite <- !list_fmap_compose. apply Forall_fmap_ext_1.
      eapply Forall_impl; [exact He|]. intros e (_ & Hl & _). cbn. pose proof (zlen_nonneg (je_Data e)).
      by rewrite w32_small by lia.
    - rewrite zlen_app. pose proof (zlen_nonneg r). lia. }
  unfold replay_body, init_body. rewrite Hr. cbn [rwrap rbind]. rewrite Hrd. cbn [rbind].
  rewrite Hdt. done.
Qed.

Lemma tx_body_eq p :
  tx_ok p ->
  tx_body p.1 p.2 = tx_header p.1 (zlen p.2) ++
    concat ((fun q => tx_desc q.1 q.2) <$> (desc_of <$> p.2)) ++ concat (je_Data <$> p.2).
Proof.
  intros (_ & Hn & _). pose proof (zlen_nonneg p.2). unfold tx_body, tx_bytes.
  by rewrite w32_small by lia.
Qed.

Lemma parse_commit p r :
  tx_ok p ->
  let crec := commit_record p.1 (crc32_Update 0 (tx_body p.1 p.2)) in
  replay_commit p.1 (zlen p.2) (desc_of <$> p.2) (je_Data <$> p.2) (crec ++ r) =
    Ok (Some (p.1, p.2, r)) /\
  init_commit p.1 (zlen p.2) (desc_of <$> p.2) (je_Data <$> p.2) (crec ++ r) = Ok (ScanTx p.1 r).
Proof.
  intros Hp. pose proof (crc32_Update_range 0 _ ltac:(lia) (tx_body_ok p Hp)) as Hc.
  destruct Hp as (Hs & Hn & He). pose proof (zlen_nonneg p.2).
  assert (tx_body p.1 p.2 = tx_bytes p.1 (zlen p.2) (desc_of <$> p.2) (je_Data <$> p.2)) as Hb.
  { unfold tx_body. by rewrite w32_small by lia. }
  unfold replay_commit, init_commit, commit_record. rewrite <- !app_assoc.
  rewrite (bin_Read_encode 4) by (done || lia). rewrite Z.eqb_refl. cbn [negb].
  rewrite (bin_Read_encode 8) by (done || lia). cbn [rbind].
  rewrite (bin_Read_encode 4) by (done || lia). cbn [rbind].
  rewrite Hb, Z.eqb_refl. cbn [negb]. by rewrite entries_of_desc.
Qed.

(** A whole transaction is read back as it was written. *)
Lemma parse_tx p r :
  tx_ok p ->
  replay_parse (tx_log p.1 p.2 ++ r) = Ok (Some (p.1, p.2, r)) /\
  init_parse (tx_log p.1 p.2 ++ r) = Ok (ScanTx p.1 r).
Proof.
  intros Hp. destruct (parse_commit p r Hp) as [Hc1 Hc2]. unfold tx_log.
  set (crec := commit_record _ _) in *.
  destruct (parse_body p (crec ++ r) Hp) as [Hb1 Hb2].
  rewrite (tx_body_eq p Hp), <- !app_assoc. pose proof Hp as (Hs & Hn & _). pose proof (zlen_nonneg p.2).
  destruct (parse_header p.1 (zlen p.2)
    (concat ((fun q => tx_desc q.1 q.2) <$> (desc_of <$> p.2)) ++ concat (je_Data <$> p.2) ++ crec ++ r))
    as [H1 H2]; [done|lia|].
  by rewrite H1, H2, Hb1, Hb2, Hc1, Hc2.
Qed.

(** Too few bytes for the descriptors or the data. *)
Lemma read_datas_short descs datas r :
  snd <$> descs = zlen <$> datas -> zlen r < zlen (concat datas) ->
  r = take (length r) (concat datas) ->
  read_datas descs (zlen r) r = Ok None.
Proof.
  revert datas r. induction descs as [|[b l] descs IH]; intros [|data datas] r Hd Hr Ht;
    try discriminate Hd.
  { pose proof (zlen_nonneg r). change (zlen (concat [])) with 0 in Hr. lia. }
  cbn [fmap list_fmap fst snd concat read_datas] in *. injection Hd as -> Hd.
  rewrite zlen_app in Hr. destruct (zlen r <? zlen data) eqn:E; [done|]. zbool.
  unfold zlen in E. rewrite take_app_ge in Ht by lia.
  set (r' := take (length r - length data) (concat datas)) in *.
  rewrite Ht, ReadFull_data. cbn [rbind].
  assert (zlen (data ++ r') - zlen data = zlen r') as -> by (rewrite zlen_app; lia).
  rewrite Ht, zlen_app in Hr. rewrite (IH datas); [done|done|lia|].
  unfold r' at 1. f_equal. unfold r'. rewrite length_take. unfold zlen in Hr. 
  assert (length r' = length r - length data)%nat; [|unfold r' in *; lia].
  apply (f_equal length) in Ht. rewrite length_app in Ht. lia.
Qed.

Lemma parse_body_torn p b k :
  tx_ok p ->
  let t := concat ((fun q => tx_desc q.1 q.2) <$> (desc_of <$> p.2)) ++ concat (je_Data <$> p.2) in
  b = take k t -> (k < length t)%nat ->
  (exists e, replay_body p.1 (zlen p.2) b = Err e /\ errors_cause e = ErrTooLarge) /\
  init_body p.1 (zlen p.2) b = Ok ScanBreak.
Proof.
  intros (Hs & Hn & He) t -> Hk. pose proof (zlen_nonneg p.2) as H0.
  assert (zlen (concat ((fun q => tx_desc q.1 q.2) <$> (desc_of <$> p.2))) = descSize * zlen p.2) as Hz.
  { rewrite zlen_concat_descs. unfold zlen. by rewrite length_fmap. }
  unfold replay_body, init_body. unfold t in *. set (ds := concat ((fun q => _) <$> _)) in *.
  unfold zlen in Hz. destruct (decide (k < length ds)%nat) as [Hd|Hd].
  { assert (journalReserveDescs (zlen (take k (ds ++ concat (je_Data <$> p.2)))) (zlen p.2) =
            Err (ErrWrap "descriptors" ErrTooLarge)) as ->.
    { unfold journalReserveDescs. rewrite w64_small by (unfold descSize; lia).
      rewrite ltb_true; [done|]. unfold zlen in *. rewrite length_take. unfold descSize in *. lia. }
    cbn. split; [by eexists|done]. }
  rewrite take_app_ge by lia. rewrite zlen_app. 
  set (r := take (k - length ds) (concat (je_Data <$> p.2))).
  pose proof (zlen_nonneg r). fold (zlen ds) (zlen p.2) in Hz. rewrite !journalReserveDescs_ok by lia.
  cbn [rwrap rbind].
  assert (read_descs (Z.to_nat (zlen p.2)) (ds ++ r) = Ok (desc_of <$> p.2, r)) as ->.
  { unfold zlen, ds. rewrite Nat2Z.id, <- (length_fmap desc_of p.2). apply read_descs_encode.
    apply Forall_fmap. eapply Forall_impl; [exact He|]. intros e. apply desc_of_ok. }
  cbn [rbind]. 
  assert (read_datas (desc_of <$> p.2) (zlen r) r = Ok None) as Hrd.
  { apply (read_datas_short _ (je_Data <$> p.2)).
    - rewrite <- !list_fmap_compose. apply Forall_fmap_ext_1.
      eapply Forall_impl; [exact He|]. intros e (_ & Hl & _). cbn. pose proof (zlen_nonneg (je_Data e)).
      by rewrite w32_small by lia.
    - rewrite length_app in Hk. unfold r, zlen. rewrite length_take. lia.
    - rewrite length_app in Hk. unfold r. rewrite length_take. f_equal. lia. }
  assert (zlen ds + zlen r - descSize * zlen p.2 = zlen r) as -> by lia.
  rewrite Hrd. cbn. split; [by eexists|done].
Qed.

Lemma commit_torn p seq n descs datas crc k :
  0 <= p < 2 ^ 64 -> (0 < k < 16)%nat ->
  exists e, init_commit seq n descs datas (take k (commit_record p crc)) = Err e.
Proof.
  intros Hp Hk. unfold init_commit, commit_record. destruct (decide (k < 4)%nat) as [H4|H4].
  { rewrite bin_Read_short by (rewrite length_take; lia). rewrite take_app_le by (rewrite length_le_encode; lia).
    destruct (take k (le_encode 4 commitMagic)) as [|a l] eqn:E; [|by eexists].
    apply (f_equal length) in E. rewrite length_take, length_le_encode in E. cbn in E. lia. }
  rewrite take_app_ge by (rewrite length_le_encode; lia). rewrite length_le_encode.
  rewrite (bin_Read_encode 4) by (done || lia). rewrite Z.eqb_refl. cbn [negb].
  destruct (decide (k < 12)%nat) as [H12|H12].
  { rewrite bin_Read_short by (rewrite length_take; lia). by eexists. }
  rewrite take_app_ge by (rewrite length_le_encode; lia). rewrite length_le_encode.
  rewrite (bin_Read_encode 8) by (done || lia). cbn [rbind].
  rewrite bin_Read_short by (rewrite length_take; lia). by eexists.
Qed.

(** Where a record can be torn, and what the two parsers make of the rest. *)
Inductive tear : Type := TearClean | TearBody | TearField.
Definition tear_at (p : Z * list journalEntry) (k : nat) : tear :=
  let b := length (tx_body p.1 p.2) in
  if decide (k = 0 \/ k = b)%nat then TearClean
  else if decide (16 <= k < b)%nat then TearBody else TearField.

Definition tear_init (t : tear) (r : res scan) : Prop :=
  match t with TearField => exists e, r = Err e | _ => r = Ok ScanBreak end.
Definition tear_replay (t : tear) (r : res (option (Z * list journalEntry * list Z))) : Prop :=
  match t with
  | TearClean => r = Ok None
  | TearBody => exists e, r = Err e /\ errors_cause e = ErrTooLarge
  | TearField => True
  end.

Lemma length_tx_body p : tx_ok p -> (16 <= length (tx_body p.1 p.2))%nat.
Proof.
  intros Hp. rewrite tx_body_eq, length_app by done.
  pose proof (zlen_tx_header p.1 (zlen p.2)) as H. unfold zlen in H at 1. lia.
Qed.

Lemma parse_torn p k :
  tx_ok p -> (k < length (tx_log p.1 p.2))%nat ->
  tear_init (tear_at p k) (init_parse (take k (tx_log p.1 p.2))) /\
  tear_replay (tear_at p k) (replay_parse (take k (tx_log p.1 p.2))).
Proof.
  intros Hp Hk. pose proof (length_tx_body p Hp) as Hlen. pose proof Hp as (Hs & Hn & _).
  pose proof (zlen_nonneg p.2) as H0. pose proof (zlen_tx_header p.1 (zlen p.2)) as Hh. unfold zlen in Hh at 1.
  set (crec := commit_record p.1 (crc32_Update 0 (tx_body p.1 p.2))).
  assert (length crec = 16)%nat as Hc.
  { pose proof (zlen_commit_record p.1 (crc32_Update 0 (tx_body p.1 p.2))) as H. unfold zlen in H. unfold crec. lia. }
  unfold tx_log in *. fold crec in Hk |- *. rewrite length_app in Hk. unfold tear_at.
  destruct (decide (k = 0 \/ k = _)%nat) as [[-> | ->]|Hz]; [by rewrite take_0| |].
  { rewrite take_app_length. pose proof (parse_body p [] Hp) as [H1 H2]. rewrite app_nil_r in H1, H2.
    rewrite tx_body_eq by done. destruct (parse_header p.1 (zlen p.2)
      (concat ((fun q => tx_desc q.1 q.2) <$> (desc_of <$> p.2)) ++ concat (je_Data <$> p.2)))
      as [H3 H4]; [done|lia|]. unfold tear_init, tear_replay. by rewrite H3, H4, H1, H2. }
  destruct (decide (16 <= k < _)%nat) as [Hb|Hb].
  { rewrite take_app_le by lia. rewrite tx_body_eq in Hb |- * by done. rewrite length_app in Hb.
    rewrite take_app_ge by lia.
    set (t := concat _ ++ concat _) in *.
    destruct (parse_body_torn p (take (k - 16) t) (k - 16) Hp) as [[e [H1 He]] H2]; [done|fold t; lia|].
    replace (k - length (tx_header p.1 (zlen p.2)))%nat with (k - 16)%nat by lia.
    destruct (parse_header p.1 (zlen p.2) (take (k - 16) t)) as [H3 H4]; [done|lia|].
    unfold tear_init, tear_replay. rewrite H3, H4, H1, H2. eauto. }
  split; [|done]. unfold tear_init. destruct (decide (k < 16)%nat) as [Hk16|Hk16].
  { rewrite take_app_le, tx_body_eq, take_app_le by (done || lia).
    destruct (parse_header_torn p.1 (zlen p.2) k Hs) as (e & _ & He); [lia|eauto]. }
  rewrite take_app_ge by lia. set (r := take _ crec). rewrite tx_body_eq, <- !app_assoc by done.
  destruct (parse_header p.1 (zlen p.2)
      (concat ((fun q => tx_desc q.1 q.2) <$> (desc_of <$> p.2)) ++ concat (je_Data <$> p.2) ++ r))
      as [_ H4]; [done|lia|]. rewrite H4. destruct (parse_body p r Hp) as [_ ->].
  apply commit_torn; [done|lia].
Qed.
