(* ===== verification/Image.v ===== *)
(** A small image to run the model on: 64 blocks of 1024 bytes in one group of
    16 inodes, with an empty root directory.  The witnesses evaluate the
    operations on it; nothing here models code. *)

From S2P Require Import Prelude Bytes Crc Device Superblock Bgd Bitmap GoLib Extent Limits Inode Dir Alloc.

(** The value of a computation that is known to succeed. *)
Definition the {A} (dflt : A) (r : res A) : A := match r with Ok a => a | _ => dflt end.

(** The superblock, with the given read-only compatible features. *)
Definition img_sb_raw (roc : Z) : list Z :=
  let raw := zeros 1024 in
  let raw := set32 raw 0 16 in        (* inodes *)
  let raw := set32 raw 4 64 in        (* blocks *)
  let raw := set32 raw 12 56 in       (* free blocks *)
  let raw := set32 raw 16 5 in        (* free inodes *)
  let raw := set32 raw 20 1 in        (* first data block *)
  let raw := set32 raw 24 0 in        (* blocks of 1024 bytes *)
  let raw := set32 raw 32 64 in       (* blocks per group *)
  let raw := set32 raw 40 16 in       (* inodes per group *)
  let raw := set16 raw 56 0xEF53 in
  let raw := set32 raw 96 (Z.lor FeatIncompatExtents FeatIncompatFiletype) in
  let raw := set32 raw 100 roc in
  let raw := set16 raw 88 128 in
  seal_superblock roc raw.

Definition img_sb (roc : Z) : superblock := the ex_sb (decodeSuperblock (img_sb_raw roc)).

(** Blocks 1 to 7 are in use; bit 63 stands for no block. *)
Definition img_bmap : list Z := [0x7F; 0; 0; 0; 0; 0; 0; 0x80] ++ zeros 1016.
(** The eleven reserved inodes. *)
Definition img_imap : list Z := [0xFF; 0x07] ++ zeros 1022.

Definition img_desc (roc : Z) : list Z :=
  let raw := zeros 32 in
  let raw := set32 raw 0 3 in         (* block bitmap *)
  let raw := set32 raw 4 4 in         (* inode bitmap *)
  let raw := set32 raw 8 5 in         (* inode table *)
  let raw := set16 raw 12 56 in
  let raw := set16 raw 14 5 in
  let raw := set16 raw 16 1 in
  the raw (setBGDChecksum (img_sb roc) 0 raw).

(** The inode of a directory of one block. *)
Definition img_dir_inode (roc num blk : Z) : list Z :=
  let raw := set16 (zeros 128) 0 0x41ED in
  let raw := set32 raw 4 1024 in
  let raw := set16 raw 26 2 in
  let i := the (Inode raw num 1024 0x41ED)
    (setInlineExtents (Inode raw num 1024 0x41ED) [Leaf 0 blk 1]) in
  in_raw (the i (computeInodeCsum (img_sb roc) i)).

Definition img_root (roc : Z) : list Z := img_dir_inode roc 2 7.

Definition img_root_block : list Z :=
  dirent_bytes 2 12 [46] FtDir ++ zeros 3 ++ dirent_bytes 2 1012 [46; 46] FtDir ++ zeros 1002.

Definition img_bytes (roc : Z) : list Z :=
  zeros 1024 ++ img_sb_raw roc ++ (img_desc roc ++ zeros 992) ++ img_bmap ++ img_imap ++
  (zeros 128 ++ img_root roc ++ zeros 1792) ++ img_root_block ++ zeros (56 * 1024).

Definition img (roc : Z) : fsys memdev := Fsys (MemDev (img_bytes roc)) (img_sb roc) 0 ∅.

Lemma img_length roc : roc = 0 \/ roc = FeatROCompatMetadataCsum -> zlen (img_bytes roc) = 64 * 1024.
Proof. intros [-> | ->]; vm_compute; reflexivity. Qed.
