(* ===== verification/Lookup.v ===== *)
(** Path resolution ([src/dir.go]: [lookupPathFrom], [lookupParent],
    [readSymlink]): symbolic links, the limit on how many are followed, and the
    split of a path into its parent and its last component. *)

From S2P Require Import Prelude Bytes Crc Device Superblock Bgd GoLib Extent Limits Inode Inline FileRead Dir Alloc Image.

Definition slash : Z := 47.
Definition maxSymlinks : Z := 40.

(** [strings.TrimPrefix(path, "/")]. *)
Definition trimSlash (path : list Z) : list Z :=
  match path with
  | c :: path' => if c =? slash then path' else path
  | [] => []
  end.

(** [strings.HasPrefix(path, "/")]. *)
Definition hasSlash (path : list Z) : bool :=
  match path with c :: _ => c =? slash | [] => false end.

(** [strings.SplitN(path, "/", 2)]: the first part and the rest, if any. *)
Fixpoint splitFirst (path : list Z) : list Z * option (list Z) :=
  match path with
  | [] => ([], None)
  | c :: path' =>
      if c =? slash then ([], Some path')
      else let '(a, b) := splitFirst path' in (c :: a, b)
  end.

(** The parts of [strings.SplitN(path, "/", -1)] but the last, joined again with
    slashes, and the last. *)
Fixpoint splitLast (path : list Z) : list Z * list Z :=
  match path with
  | [] => ([], [])
  | c :: path' =>
      let '(dir, name) := splitLast path' in
      if existsb (Z.eqb slash) path' then (c :: dir, name)
      else if c =? slash then ([], path')
      else ([], c :: path')
  end.

Fixpoint find_entry (name : list Z) (es : list DirEntry) : option DirEntry :=
  match es with
  | [] => None
  | e :: es' => if bool_decide (de_Name e = name) then Some e else find_entry name es'
  end.

(** [errors.Is(err, iofs.ErrNotExist)]. *)
Fixpoint is_not_exist (e : error) : bool :=
  match e with
  | ErrNotExist => true
  | ErrWrap _ e' => is_not_exist e'
  | _ => false
  end.

Section lookup.
Context {D : Type} `{BlockDev D} `{SortSlice} `{Safeio}.
Context (d : D) (fsOffset : Z) (sb : superblock).

Definition readSymlink (i : inode) : res (list Z) :=
  if in_size i <=? 60
  then subslice (in_raw i) inodeOffBlock (inodeOffBlock + in_size i)
  else readFileData d fsOffset sb i.

(** One call of [lookupPathFrom] below the loop check: [same] is the recursive
    call that keeps [symlinkHops], [hop] the one that increments it. *)
Definition lookup_body (same hop : Z -> list Z -> res inode) (startIno : Z) (path : list Z)
    : res inode :=
  let path := trimSlash path in
  match path with
  | [] => readInode d fsOffset sb startIno
  | _ =>
      let '(part, rest) := splitFirst path in
      let! cur := readInode d fsOffset sb startIno in
      if negb (isDir cur) then Err (Errorf "ext4: not a directory") else
      let! es := readDir d fsOffset sb cur in
      match find_entry part es with
      | None => Err (ErrWrap "ext4: not found" ErrNotExist)
      | Some e =>
          let! child := readInode d fsOffset sb (de_Inode e) in
          if isSymlink child then
            let! target := readSymlink child in
            let nextPath := match rest with
              | Some r => target ++ slash :: r
              | None => target
              end in
            if hasSlash nextPath then hop RootIno nextPath else hop startIno nextPath
          else match rest with
               | None => Ok child
               | Some r => same (de_Inode e) r
               end
      end
  end.

(** A descent consumes a path component. *)
Fixpoint lookup_descend (hop : Z -> list Z -> res inode) (fuel : nat) (startIno : Z)
    (path : list Z) : res inode :=
  match fuel with
  | O => Err OutOfFuel
  | S fuel' => lookup_body (lookup_descend hop fuel') hop startIno path
  end.

(** [budget] is how many calls may still increment [symlinkHops], plus one. *)
Fixpoint lookup_hops (budget : nat) (startIno : Z) (path : list Z) : res inode :=
  match budget with
  | O => Err (Errorf "ext4: symlink loop")
  | S b => lookup_descend (lookup_hops b) (S (length path)) startIno path
  end.

Definition lookupPathFrom (startIno : Z) (path : list Z) (symlinkHops : Z) : res inode :=
  lookup_hops (Z.to_nat (maxSymlinks + 1 - symlinkHops)) startIno path.

Definition lookupPath (path : list Z) : res inode := lookupPathFrom RootIno path 0.

Definition lookupParent (path : list Z) : res (inode * list Z) :=
  let path := trimSlash path in
  match path with
  | [] => Err (Errorf "ext4: invalid path")
  | _ =>
      let '(dirPath, name) := splitLast path in
      match name with
      | [] => Err (Errorf "ext4: path must not end with /")
      | _ =>
          let! dirIno := rwrap "ext4: parent directory"
            (match dirPath with
             | [] => readInode d fsOffset sb RootIno
             | _ => lookupPath (slash :: dirPath)
             end) in
          if negb (isDir dirIno) then Err (Errorf "ext4: not a directory") else
          Ok (dirIno, name)
      end
  end.

(** * The recursion of the source, without fuel *)

Lemma splitFirst_rest path a r : splitFirst path = (a, Some r) -> (length r < length path)%nat.
Proof.
  revert a. induction path as [|c path IH]; intros a; cbn; [done|].
  destruct (c =? slash); [intros [= _ <-]; cbn; lia|].
  destruct (splitFirst path) as [a' [r'|]]; [|done]. intros [= _ <-].
  specialize (IH _ eq_refl). lia.
Qed.

Lemma length_trimSlash path : (length (trimSlash path) <= length path)%nat.
Proof. destruct path as [|c p]; cbn; [done|]. destruct (c =? slash); cbn; lia. Qed.

Lemma lookup_body_ext same1 same2 hop ino path :
  (forall i p, (length p < length path)%nat -> same1 i p = same2 i p) ->
  lookup_body same1 hop ino path = lookup_body same2 hop ino path.
Proof.
  intros Hs. unfold lookup_body. pose proof (length_trimSlash path).
  destruct (trimSlash path) as [|c p] eqn:Ht; [done|].
  destruct (splitFirst (c :: p)) as [a rest] eqn:Hsp.
  destruct (readInode _ _ _ ino) as [cur| |]; cbn; auto. destruct (negb _); auto.
  destruct (readDir _ _ _ _) as [es| |]; cbn; auto. destruct (find_entry _ _) as [e|]; auto.
  destruct (readInode _ _ _ _) as [child| |]; cbn; auto. destruct (isSymlink child); auto.
  destruct rest as [r|]; auto. apply Hs. apply splitFirst_rest in Hsp. lia.
Qed.

Lemma lookup_descend_fuel hop f1 f2 ino path :
  (length path < f1)%nat -> (length path < f2)%nat ->
  lookup_descend hop f1 ino path = lookup_descend hop f2 ino path.
Proof.
  revert f2 ino path. induction f1 as [|f1 IH]; intros [|f2] ino path Hf1 Hf2; try lia.
  cbn [lookup_descend]. apply lookup_body_ext. intros i p Hp. apply IH; lia.
Qed.

Lemma lookupPathFrom_unfold ino path hops :
  0 <= hops ->
  lookupPathFrom ino path hops =
  if maxSymlinks <? hops then Err (Errorf "ext4: symlink loop") else
  lookup_body (fun i p => lookupPathFrom i p hops) (fun i p => lookupPathFrom i p (hops + 1))
    ino path.
Proof.
  intros Hh. unfold lookupPathFrom, maxSymlinks in *. destruct (Z.ltb_spec 40 hops).
  { by replace (Z.to_nat (40 + 1 - hops)) with O by lia. }
  replace (Z.to_nat (40 + 1 - hops)) with (S (Z.to_nat (40 + 1 - (hops + 1)))) by lia.
  cbn [lookup_hops]. cbn [lookup_descend]. apply lookup_body_ext. intros i p Hp.
  apply (lookup_descend_fuel _ (length path) (S (length p))); lia.
Qed.

(** * What a path names

    [resolves n ino path i]: following [path] from the directory [ino] reaches
    the inode [i] through exactly [n] symbolic links.  The relation has neither
    fuel nor a limit on [n]. *)

Inductive resolves : Z -> Z -> list Z -> inode -> Prop :=
| res_self ino path i :
    trimSlash path = [] -> readInode d fsOffset sb ino = Ok i -> resolves 0 ino path i
| res_last ino path part cur es e child :
    trimSlash path <> [] -> splitFirst (trimSlash path) = (part, None) ->
    readInode d fsOffset sb ino = Ok cur -> isDir cur = true ->
    readDir d fsOffset sb cur = Ok es -> find_entry part es = Some e ->
    readInode d fsOffset sb (de_Inode e) = Ok child -> isSymlink child = false ->
    resolves 0 ino path child
| res_down ino path part rest cur es e child n i :
    trimSlash path <> [] -> splitFirst (trimSlash path) = (part, Some rest) ->
    readInode d fsOffset sb ino = Ok cur -> isDir cur = true ->
    readDir d fsOffset sb cur = Ok es -> find_entry part es = Some e ->
    readInode d fsOffset sb (de_Inode e) = Ok child -> isSymlink child = false ->
    resolves n (de_Inode e) rest i -> resolves n ino path i
| res_link ino path part rest cur es e child target n i :
    trimSlash path <> [] -> splitFirst (trimSlash path) = (part, rest) ->
    readInode d fsOffset sb ino = Ok cur -> isDir cur = true ->
    readDir d fsOffset sb cur = Ok es -> find_entry part es = Some e ->
    readInode d fsOffset sb (de_Inode e) = Ok child -> isSymlink child = true ->
    readSymlink child = Ok target ->
    (let next := match rest with Some r => target ++ slash :: r | None => target end in
     resolves n (if hasSlash next then RootIno else ino) next i) ->
    resolves (n + 1) ino path i.

Lemma resolves_nonneg n ino path i : resolves n ino path i -> 0 <= n.
Proof. induction 1; cbn in *; lia. Qed.

Lemma lookup_complete n ino path i hops :
  resolves n ino path i -> 0 <= hops -> hops + n <= maxSymlinks ->
  lookupPathFrom ino path hops = Ok i.
Proof.
  intros Hr. revert hops.
  induction Hr as [ino path i Ht Hi|ino path part cur es e child Ht Hs Hc Hd Hes Hf Hch Hl
    |ino path part rest cur es e child n i Ht Hs Hc Hd Hes Hf Hch Hl Hr IH
    |ino path part rest cur es e child target n i Ht Hs Hc Hd Hes Hf Hch Hl Htg Hr IH];
    intros hops Hh Hm; rewrite lookupPathFrom_unfold by done;
    try apply resolves_nonneg in Hr; rewrite ltb_false by lia; unfold lookup_body.
  - by rewrite Ht.
  - destruct (trimSlash path); [done|]. rewrite Hs, Hc. cbn [rbind]. rewrite Hd. cbn [negb].
    rewrite Hes. cbn [rbind]. rewrite Hf, Hch. cbn [rbind]. by rewrite Hl.
  - destruct (trimSlash path); [done|]. rewrite Hs, Hc. cbn [rbind]. rewrite Hd. cbn [negb].
    rewrite Hes. cbn [rbind]. rewrite Hf, Hch. cbn [rbind]. rewrite Hl. by apply IH.
  - destruct (trimSlash path); [done|]. rewrite Hs, Hc. cbn [rbind]. rewrite Hd. cbn [negb].
    rewrite Hes. cbn [rbind]. rewrite Hf, Hch. cbn [rbind]. rewrite Hl, Htg. cbn [rbind].
    cbv zeta in IH. destruct (hasSlash _); apply IH; lia.
Qed.

Lemma lookup_sound_hops b ino path i :
  lookup_hops b ino path = Ok i -> exists n, n < Z.of_nat b /\ resolves n ino path i.
Proof.
  revert ino path. induction b as [|b IHb]; intros ino path; cbn [lookup_hops]; [done|].
  generalize (S (length path)) as fuel. intros fuel. revert ino path.
  induction fuel as [|fuel IH]; intros ino path; cbn [lookup_descend]; [done|].
  unfold lookup_body. destruct (trimSlash path) as [|c p] eqn:Ht.
  { intros Hi. exists 0. split; [lia|]. by apply res_self. }
  destruct (splitFirst (c :: p)) as [part rest] eqn:Hs. intros Hr.
  apply rbind_Ok in Hr as (cur & Hc & Hr). destruct (isDir cur) eqn:Hd; [|done].
  apply rbind_Ok in Hr as (es & Hes & Hr). destruct (find_entry part es) as [e|] eqn:Hf; [|done].
  apply rbind_Ok in Hr as (child & Hch & Hr). rewrite <- Ht in Hs.
  assert (trimSlash path <> []) as Hne by congruence.
  destruct (isSymlink child) eqn:Hl.
  - apply rbind_Ok in Hr as (target & Htg & Hr).
    assert (exists n, n < Z.of_nat b /\ let next := match rest with
      Some r => target ++ slash :: r | None => target end in
      resolves n (if hasSlash next then RootIno else ino) next i) as (n & Hn & Hres).
    { cbv zeta. destruct (hasSlash _); by apply IHb. }
    exists (n + 1). split; [lia|]. by eapply res_link.
  - destruct rest as [r|].
    + apply IH in Hr as (n & Hn & Hres). exists n. split; [lia|]. by eapply res_down.
    + injection Hr as ->. exists 0. split; [lia|]. by eapply res_last.
Qed.

Lemma lookup_sound ino path i hops :
  0 <= hops -> lookupPathFrom ino path hops = Ok i ->
  exists n, hops + n <= maxSymlinks /\ resolves n ino path i.
Proof.
  intros Hh Hr. apply lookup_sound_hops in Hr as (n & Hn & Hres). exists n.
  split; [|done]. unfold maxSymlinks in *. pose proof (resolves_nonneg _ _ _ _ Hres). lia.
Qed.

End lookup.

(** * Properties *)

Section properties.
Context {D : Type} `{BlockDev D} `{SortSlice} `{Safeio}.

(** C14: path lookup returns exactly the inode that following the path names,
    on condition that no more than the remaining number of symbolic links is
    crossed: it neither misses such an inode nor returns another. *)
Theorem lookupPathFrom_iff (d : D) fsOffset sb ino path hops i :
  0 <= hops ->
  lookupPathFrom d fsOffset sb ino path hops = Ok i <->
  exists n, hops + n <= maxSymlinks /\ resolves d fsOffset sb n ino path i.
Proof.
  intros Hh. split; [by apply lookup_sound|].
  intros (n & Hn & Hr). by apply lookup_complete with n.
Qed.


End properties.

(** The entry [..] of the root directory. *)
Lemma lookupPathFrom_iff_witness :
  exists i n, in_num i = 2 /\ 0 + n <= maxSymlinks /\
    resolves (fs_dev (img 0)) 0 (img_sb 0) n 2 [46; 46] i.
Proof.
  set (i := the (Inode [] 0 0 0) (lookupPathFrom (fs_dev (img 0)) 0 (img_sb 0) 2 [46; 46] 0)).
  assert (lookupPathFrom (fs_dev (img 0)) 0 (img_sb 0) 2 [46; 46] 0 = Ok i) as Hl
    by (vm_compute; reflexivity).
  apply (lookupPathFrom_iff (fs_dev (img 0)) 0 (img_sb 0) 2 [46; 46] 0 i ltac:(lia)) in Hl
    as (n & Hn & Hr).
  exists i, n. split_and!; [vm_compute; reflexivity|exact Hn|exact Hr].
Defined.

