(* ===== verification/Namespace.v ===== *)
(** Operations on the name space, on a file system without a sidecar journal:
    writing inodes ([src/inode.go]), directory entries ([src/dir.go]), extent
    trees ([src/write.go]), creation ([src/mkdir.go], [src/symlink.go],
    [src/link.go]), removal ([src/delete.go]), renaming ([src/rename.go]), and
    metadata ([src/metadata.go], [src/ioctl.go]).

    An inode is a pointer in the code: an operation that changes the inode it is
    given returns the inode as it is afterwards. *)

From S2P Require Import Prelude Bytes Crc Device Superblock Bgd Bitmap GoLib Extent Limits Inode Inline FileRead Dir Alloc Lookup.

Definition inodeOffLinksCount : Z := 26.
Definition InodeFlagHashIndex : Z := 0x1000.
Definition inodeOffUID : Z := 2.
Definition inodeOffATime : Z := 8.
Definition inodeOffCTime : Z := 12.
Definition inodeOffMTime : Z := 16.
Definition inodeOffGID : Z := 24.
Definition inodeOffUIDHigh : Z := 120.
Definition inodeOffGIDHigh : Z := 122.

(** [binary.LittleEndian.PutUint16(in.raw[off:], v)] and the like. *)
Definition inode_put16 (i : inode) (off v : Z) : res inode :=
  let! raw := put16 (in_raw i) off v in Ok (in_with_raw i raw).
Definition inode_put32 (i : inode) (off v : Z) : res inode :=
  let! raw := put32 (in_raw i) off v in Ok (in_with_raw i raw).
Definition links (i : inode) : res Z := get16 (in_raw i) inodeOffLinksCount.

Section ops.
Context {D : Type} `{BlockDev D} `{SortSlice} `{Safeio}.
Context (fsOffset : Z).

Notation FS := (M (fsys D)).

(** ** Writing an inode *)

(** [addInodeToTx] without a transaction and without a journal. *)
Definition addInode (i : inode) : FS inode :=
  do! sb := get_sb in
  do! (g, localIdx) := mlift (inode_group sb (in_num i)) in
  do! bg := gets (fun d sb => readBGD d fsOffset sb g) in
  let off := i64 (InodeTableBlock bg * BlockSize sb + localIdx * InodeSize sb) in
  do! i := mlift (if has_flag (FeatureROCompat sb) FeatROCompatMetadataCsum
                  then computeInodeCsum sb i else Ok i) in
  do! _ := mwrap "ext4: write" (writeAtWithTrace fsOffset (i64 (fsOffset + off)) (in_raw i)) in
  ret i.

Definition writeInode (i : inode) : FS inode := mwrap "ext4: write inode" (addInode i).

(** ** Extent trees *)

Definition prepareExtentChild (exts : list extentLeaf) : FS Z :=
  do! sb := get_sb in
  if leafCap (BlockSize sb) <? zlen exts then mfail (Errorf "ext4: too many extents to encode") else
  do! bs := mwrap "ext4: alloc block for extent leafs" (allocBlocks fsOffset 1) in
  match bs with
  | [] => mlift Panic
  | childBlock :: _ =>
      do! childBuf := mlift (child_node (BlockSize sb) exts) in
      do! _ := mwrap "ext4: write extent leaf block" (writeRawBlock fsOffset childBlock childBuf) in
      ret childBlock
  end.

Definition writeExtentTree (i : inode) (exts : list extentLeaf) : FS inode :=
  if zlen exts <=? 4 then mlift (setInlineExtents i exts) else
  do! childBlock := prepareExtentChild exts in
  match exts with
  | [] => mlift Panic
  | e :: _ => mlift (setExtentIndex i (LogBlock e) childBlock)
  end.

(** ** Directory entries *)

Definition with_size_blocks (sb : superblock) (i : inode) (logBlock : Z) : res inode :=
  let! i := setSize i (w64 (w32 (logBlock + 1) * BlockSize sb)) in
  let! i := setBlocks512 i (w32 (w32 (logBlock + 1) * (BlockSize sb / 512))) in
  if has_flag (FeatureROCompat sb) FeatROCompatMetadataCsum then computeInodeCsum sb i else Ok i.

(** The blocks of a directory as [addDirEntryWithTx] visits them. *)
Definition dir_blocks (exts : list extentLeaf) : list (Z * Z) :=
  e ← exts; (fun k => (w32 (LogBlock e + k), w64 (PhysBlock e + k))) <$> seqZ 0 (Count e).

(** The search for room: the block written, or none. *)
Fixpoint insert_in_blocks (dirIno : inode) (childIno : Z) (name : list Z) (fileType : Z)
    (blocks : list (Z * Z)) : FS bool :=
  match blocks with
  | [] => ret false
  | (logBlock, physBlock) :: blocks' =>
      do! fl := mlift (flags dirIno) in
      if has_flag fl InodeFlagHashIndex && (logBlock =? 0)
      then insert_in_blocks dirIno childIno name fileType blocks' else
      do! buf := gets (fun d sb => readRawBlock d fsOffset sb physBlock) in
      do! r := mlift (tryInsertDirEntry buf childIno name fileType (minDirentSize (zlen name))) in
      match r with
      | None => insert_in_blocks dirIno childIno name fileType blocks'
      | Some buf =>
          do! sb := get_sb in
          do! buf := mlift (updateDirBlockCsum sb dirIno buf) in
          do! _ := writeRawBlock fsOffset physBlock buf in
          ret true
      end
  end.

Definition addDirEntry (dirIno : inode) (childIno : Z) (name : list Z) (fileType : Z) : FS inode :=
  do! exts := gets (fun d sb => extents d fsOffset sb dirIno) in
  do! found := insert_in_blocks dirIno childIno name fileType (dir_blocks exts) in
  if found : bool then ret dirIno else
  do! newPhys := mwrap "ext4: alloc directory block" (allocBlocks fsOffset 1) in
  match newPhys with
  | [] => mlift Panic
  | phys :: _ =>
      do! sb := get_sb in
      do! buf := mlift (newDirBlock sb dirIno childIno name fileType) in
      do! _ := writeRawBlock fsOffset phys buf in
      let logBlock := match last exts with
                      | Some e => w32 (LogBlock e + Count e)
                      | None => 0
                      end in
      let exts := exts ++ [Leaf logBlock phys 1] in
      do! dirIno := writeExtentTree dirIno exts in
      do! sb := get_sb in
      do! dirIno := mlift (with_size_blocks sb dirIno logBlock) in
      writeInode dirIno
  end.

Fixpoint zero_in_blocks (dirIno : inode) (name : list Z) (blocks : list (Z * Z)) : FS unit :=
  match blocks with
  | [] => ret tt
  | (_, physBlock) :: blocks' =>
      do! buf := gets (fun d sb => readRawBlock d fsOffset sb physBlock) in
      do! r := mlift (zeroEntryInBlock buf name) in
      match r with
      | None => zero_in_blocks dirIno name blocks'
      | Some buf =>
          do! sb := get_sb in
          do! buf := mlift (updateDirBlockCsum sb dirIno buf) in
          writeRawBlock fsOffset physBlock buf
      end
  end.

Definition zeroDirEntry (dirIno : inode) (name : list Z) : FS unit :=
  do! exts := gets (fun d sb => extents d fsOffset sb dirIno) in
  zero_in_blocks dirIno name (dir_blocks exts).

Fixpoint dotdot_in_blocks (dirIno : inode) (newParentIno : Z) (blocks : list (Z * Z)) : FS unit :=
  match blocks with
  | [] => ret tt
  | (_, physBlock) :: blocks' =>
      do! buf := gets (fun d sb => readRawBlock d fsOffset sb physBlock) in
      do! r := mlift (dotdot_from (S (length buf)) buf 0 newParentIno) in
      match r with
      | None => dotdot_in_blocks dirIno newParentIno blocks'
      | Some buf =>
          do! sb := get_sb in
          do! buf := mlift (updateDirBlockCsum sb dirIno buf) in
          writeRawBlock fsOffset physBlock buf
      end
  end.

Definition updateDotDot (dirIno : inode) (newParentIno : Z) : FS unit :=
  do! exts := gets (fun d sb => extents d fsOffset sb dirIno) in
  dotdot_in_blocks dirIno newParentIno (dir_blocks exts).

(** ** Removal *)

Fixpoint free_blocks (blocks : list (Z * Z)) : FS unit :=
  match blocks with
  | [] => ret tt
  | (_, phys) :: blocks' =>
      do! _ := freeBlock fsOffset phys in
      free_blocks blocks'
  end.

(** Files mapped in the old way are skipped without an error. *)
Definition freeInodeBlocks (i : inode) : FS unit :=
  do! fl := mlift (flags i) in
  if negb (has_flag fl InodeFlagExtents) then ret tt else
  do! exts := gets (fun d sb => extents d fsOffset sb i) in
  free_blocks (dir_blocks exts).

Definition decrementAndFreeInode (i : inode) : FS unit :=
  do! oldLinks := mlift (links i) in
  let newLinks := if 0 <? oldLinks then oldLinks - 1 else oldLinks in
  do! i := mlift (inode_put16 i inodeOffLinksCount newLinks) in
  if 0 <? newLinks then do! _ := writeInode i in ret tt else
  do! _ := freeInodeBlocks i in
  freeInodeSlot fsOffset (in_num i).

(** A lookup that finds nothing ends the removal without an error. *)
Definition or_gone {A} (r : res A) (k : A -> FS unit) : FS unit :=
  match r with
  | Ok a => k a
  | Err e => if is_not_exist e then ret tt else mfail e
  | Panic => mlift Panic
  end.

Definition removeFile (path : list Z) : FS unit := fun s =>
  or_gone (lookupParent (fs_dev s) fsOffset (fs_sb s) path) (fun '(parent, name) =>
  or_gone (lookupPath (fs_dev s) fsOffset (fs_sb s) path) (fun target =>
  if negb (isRegular target) then mfail (Errorf "ext4: DeleteFile: not a regular file") else
  do! _ := zeroDirEntry parent name in
  decrementAndFreeInode target)) s.

Definition dot : list Z := [46].
Definition dotdot : list Z := [46; 46].

Fixpoint remove_children (rmDir rmFile : list Z -> FS unit) (path : list Z)
    (children : list DirEntry) : FS unit :=
  match children with
  | [] => ret tt
  | e :: children' =>
      if bool_decide (de_Name e = dot) || bool_decide (de_Name e = dotdot)
      then remove_children rmDir rmFile path children' else
      let childPath := path ++ slash :: de_Name e in
      do! _ := (if de_FileType e =? FtDir then rmDir childPath else rmFile childPath) in
      remove_children rmDir rmFile path children'
  end.

(** The recursion follows the tree; the fuel is the depth. *)
Fixpoint removeDir (fuel : nat) (path : list Z) : FS unit :=
  match fuel with
  | O => mfail OutOfFuel
  | S fuel' => fun s =>
      or_gone (lookupParent (fs_dev s) fsOffset (fs_sb s) path) (fun '(parentIno, name) =>
      or_gone (lookupPath (fs_dev s) fsOffset (fs_sb s) path) (fun target =>
      if negb (isDir target) then mfail (Errorf "ext4: DeleteDir: not a directory") else
      do! children := gets (fun d sb => readDir d fsOffset sb target) in
      do! _ := remove_children (removeDir fuel') removeFile path children in
      do! _ := zeroDirEntry parentIno name in
      do! _ := freeInodeBlocks target in
      do! _ := freeInodeSlot fsOffset (in_num target) in
      do! parentLinks := mlift (links parentIno) in
      do! parentIno := mlift (if 0 <? parentLinks
                              then inode_put16 parentIno inodeOffLinksCount (parentLinks - 1)
                              else Ok parentIno) in
      do! _ := writeInode parentIno in
      ret tt)) s
  end.

(** ** Creation *)

Definition has_name (entries : list DirEntry) (name : list Z) : bool :=
  existsb (fun e => bool_decide (de_Name e = name)) entries.

(** The times of a new inode. *)
Definition stamp (i : inode) (now : Z) : res inode :=
  let! i := inode_put32 i inodeOffATime (w32 now) in
  let! i := inode_put32 i inodeOffCTime (w32 now) in
  inode_put32 i inodeOffMTime (w32 now).

(** The block of a new directory: [.] and [..]. *)
Definition dot_block (sb : superblock) (ino parent : Z) : res (list Z) :=
  let tailSize := if has_flag (FeatureROCompat sb) FeatROCompatMetadataCsum then 12 else 0 in
  let dotMin := minDirentSize 1 in
  let! buf := put32 (zeros (BlockSize sb)) 0 ino in
  let! buf := put16 buf 4 dotMin in
  let! buf := put8 buf 6 1 in
  let! buf := put8 buf 7 FtDir in
  let! buf := put8 buf 8 46 in
  let! buf := put32 buf dotMin parent in
  let! buf := put16 buf (dotMin + 4) (w16 (BlockSize sb - dotMin - tailSize)) in
  let! buf := put8 buf (dotMin + 6) 2 in
  let! buf := put8 buf (dotMin + 7) FtDir in
  let! buf := put8 buf (dotMin + 8) 46 in
  put8 buf (dotMin + 9) 46.

Definition dir_inode (sb : superblock) (ino perm now physBlock : Z) : res inode :=
  let! i := setMode (Inode (zeros (InodeSize sb)) ino 0 0) (Z.lor (Z.land perm 0x1FF) 0x4000) 2 in
  let! i := setSize i (BlockSize sb) in
  let! i := setBlocks512 i (BlockSize sb / 512) in
  let! i := stamp i now in
  setInlineExtents i [Leaf 0 physBlock 1].

Definition makeDir (path : list Z) (perm now : Z) : FS unit :=
  do! (parentIno, name) := gets (fun d sb => lookupParent d fsOffset sb path) in
  do! entries := gets (fun d sb => readDir d fsOffset sb parentIno) in
  if has_name entries name then mfail (Errorf "ext4: already exists") else
  do! newInoNum := mwrap "ext4: alloc inode" (allocInode fsOffset true) in
  do! physBlocks := mwrap "ext4: alloc block" (allocBlocks fsOffset 1) in
  do! _ := writeSuperblock fsOffset in
  match physBlocks with
  | [] => mlift Panic
  | physBlock :: _ =>
      do! sb := get_sb in
      do! buf := mlift (dot_block sb newInoNum (in_num parentIno)) in
      do! newIno := mlift (dir_inode sb newInoNum perm now physBlock) in
      do! buf := mlift (updateDirBlockCsum sb newIno buf) in
      do! _ := writeRawBlock fsOffset physBlock buf in
      do! _ := writeInode newIno in
      do! parentIno := addDirEntry parentIno newInoNum name FtDir in
      do! parentLinks := mlift (links parentIno) in
      do! parentIno := mlift (inode_put16 parentIno inodeOffLinksCount (w16 (parentLinks + 1))) in
      do! _ := writeInode parentIno in
      ret tt
  end.

(** The parent is read again under its lock; on an error the code uses the nil
    inode it got back in the message it builds. *)
Definition refresh_parent (i : inode) : FS inode := fun s =>
  match readInode (fs_dev s) fsOffset (fs_sb s) (in_num i) with
  | Ok i => (Ok i, s)
  | _ => (Panic, s)
  end.

Definition makeSymlink (target linkPath : list Z) (now : Z) : FS unit :=
  do! (parentIno, name) := gets (fun d sb => lookupParent d fsOffset sb linkPath) in
  if zlen target =? 0 then mfail (Errorf "ext4: empty symlink target") else
  do! sb := get_sb in
  if BlockSize sb <? zlen target then mfail (Errorf "ext4: symlink target too long") else
  do! parentIno := refresh_parent parentIno in
  do! entries := gets (fun d sb => readDir d fsOffset sb parentIno) in
  if has_name entries name then mfail (Errorf "ext4: already exists") else
  do! newInoNum := mwrap "ext4: alloc inode" (allocInode fsOffset false) in
  do! newIno := mlift (
    let! i := setMode (Inode (zeros (InodeSize sb)) newInoNum 0 0) (Z.lor 511 0xA000) 1 in
    let! i := setSize i (zlen target) in
    stamp i now) in
  do! newIno :=
    (if zlen target <=? 60 then
       mlift (let! _ := subslice (in_raw newIno) inodeOffBlock (inodeOffBlock + zlen target) in
              setBlocks512 (in_with_raw newIno (zsplice (in_raw newIno) inodeOffBlock target)) 0)
     else
       do! physBlocks := mwrap "ext4: alloc block" (allocBlocks fsOffset 1) in
       match physBlocks with
       | [] => mlift Panic
       | physBlock :: _ =>
           do! _ := writeRawBlock fsOffset physBlock (zsplice (zeros (BlockSize sb)) 0 target) in
           do! newIno := mlift (setInlineExtents newIno [Leaf 0 physBlock 1]) in
           do! newIno := mlift (setBlocks512 newIno (BlockSize sb / 512)) in
           do! _ := writeSuperblock fsOffset in
           ret newIno
       end) in
  do! _ := writeInode newIno in
  do! _ := addDirEntry parentIno newInoNum name FtSymlink in
  ret tt.

Definition entry_ino (entries : list DirEntry) (name : list Z) : Z :=
  match find_entry name entries with Some e => de_Inode e | None => 0 end.

Definition makeLink (oldPath newPath : list Z) : FS unit :=
  do! (srcParent, srcName) := gets (fun d sb => lookupParent d fsOffset sb oldPath) in
  do! srcEntries := gets (fun d sb => readDir d fsOffset sb srcParent) in
  let srcInoNum := entry_ino srcEntries srcName in
  if srcInoNum =? 0 then mfail (ErrWrap "ext4: not found" ErrNotExist) else
  do! srcIno := gets (fun d sb => readInode d fsOffset sb srcInoNum) in
  if isDir srcIno then mfail (Errorf "ext4: hard link to directory not permitted") else
  let ft := if isSymlink srcIno then FtSymlink else FtRegFile in
  do! (newParent, newName) := gets (fun d sb => lookupParent d fsOffset sb newPath) in
  do! newParent := refresh_parent newParent in
  do! newEntries := gets (fun d sb => readDir d fsOffset sb newParent) in
  if has_name newEntries newName then mfail (Errorf "ext4: already exists") else
  do! _ := addDirEntry newParent srcInoNum newName ft in
  do! srcIno := gets (fun d sb => readInode d fsOffset sb srcInoNum) in
  do! n := mlift (links srcIno) in
  do! srcIno := mlift (inode_put16 srcIno inodeOffLinksCount (w16 (n + 1))) in
  do! _ := writeInode srcIno in
  ret tt.

(** ** Renaming *)

(** What stands at the destination goes first. *)
Definition replace_target (fuel : nat) (srcIno : inode) (newPath : list Z) (e : DirEntry) : FS unit :=
  do! dstIno := gets (fun d sb => readInode d fsOffset sb (de_Inode e)) in
  if isDir srcIno && negb (isDir dstIno)
  then mfail (Errorf "ext4: rename: cannot replace non-directory with a directory") else
  if negb (isDir srcIno) && isDir dstIno
  then mfail (Errorf "ext4: rename: cannot replace directory with a non-directory") else
  if isDir dstIno then removeDir fuel newPath else removeFile newPath.

Definition rename (fuel : nat) (oldPath newPath : list Z) : FS unit :=
  do! (oldParent, oldName) := mwrap "ext4: rename: source"
    (gets (fun d sb => lookupParent d fsOffset sb oldPath)) in
  do! (newParent, newName) := mwrap "ext4: rename: destination parent"
    (gets (fun d sb => lookupParent d fsOffset sb newPath)) in
  if (in_num oldParent =? in_num newParent) && bool_decide (oldName = newName) then ret tt else
  do! oldEntries := mwrap "ext4: rename: source"
    (gets (fun d sb => readDir d fsOffset sb oldParent)) in
  match find_entry oldName oldEntries with
  | None => mfail (ErrWrap "ext4: rename: source not found" ErrNotExist)
  | Some src =>
      do! srcIno := mwrap "ext4: rename: source"
        (gets (fun d sb => readInode d fsOffset sb (de_Inode src))) in
      do! newEntries := gets (fun d sb => readDir d fsOffset sb newParent) in
      do! _ := match find_entry newName newEntries with
               | None => ret tt
               | Some e => replace_target fuel srcIno newPath e
               end in
      let fileType := if isDir srcIno then FtDir else
                      if isSymlink srcIno then FtSymlink else FtRegFile in
      do! newParent := addDirEntry newParent (in_num srcIno) newName fileType in
      do! _ := zeroDirEntry oldParent oldName in
      if isDir srcIno && negb (in_num oldParent =? in_num newParent) then
        do! _ := updateDotDot srcIno (in_num newParent) in
        do! oldLinks := mlift (links oldParent) in
        do! oldParent := mlift (if 0 <? oldLinks
                                then inode_put16 oldParent inodeOffLinksCount (oldLinks - 1)
                                else Ok oldParent) in
        do! _ := writeInode oldParent in
        do! newLinks := mlift (links newParent) in
        do! newParent := mlift (inode_put16 newParent inodeOffLinksCount (w16 (newLinks + 1))) in
        do! _ := writeInode newParent in
        ret tt
      else ret tt
  end.

(** ** Metadata *)

Definition withInodeForUpdate (path : list Z) (now : Z) (edit : inode -> res inode) : FS unit :=
  do! i := gets (fun d sb => lookupPath d fsOffset sb path) in
  do! i := gets (fun d sb => readInode d fsOffset sb (in_num i)) in
  do! i := mlift (edit i) in
  do! i := mlift (inode_put32 i inodeOffCTime (w32 now)) in
  do! _ := writeInode i in
  ret tt.

(** [os.ModeSetuid], [os.ModeSetgid] and [os.ModeSticky]. *)
Definition ModeSetuid : Z := 2 ^ 23.
Definition ModeSetgid : Z := 2 ^ 22.
Definition ModeSticky : Z := 2 ^ 20.

Definition mode_bits (perm : Z) : Z :=
  let bits := Z.land perm 511 in
  let bits := if has_flag perm ModeSetuid then Z.lor bits 2048 else bits in
  let bits := if has_flag perm ModeSetgid then Z.lor bits 1024 else bits in
  if has_flag perm ModeSticky then Z.lor bits 512 else bits.

Definition chmod_edit (perm : Z) (i : inode) : res inode :=
  let! mode := get16 (in_raw i) 0 in
  let mode := Z.lor (Z.ldiff mode 4095) (mode_bits perm) in
  let! raw := put16 (in_raw i) 0 mode in
  Ok (Inode raw (in_num i) (in_size i) mode).
Definition Chmod (path : list Z) (perm now : Z) : FS unit :=
  withInodeForUpdate path now (chmod_edit perm).

Definition chown_edit (uid gid : Z) (i : inode) : res inode :=
  let! i := inode_put16 i inodeOffUID (w16 uid) in
  let! i := inode_put16 i inodeOffUIDHigh (w16 (Z.shiftr uid 16)) in
  let! i := inode_put16 i inodeOffGID (w16 gid) in
  inode_put16 i inodeOffGIDHigh (w16 (Z.shiftr gid 16)).
Definition Chown (path : list Z) (uid gid now : Z) : FS unit :=
  withInodeForUpdate path now (chown_edit uid gid).

Definition chtimes_edit (atime mtime : Z) (i : inode) : res inode :=
  let! i := inode_put32 i inodeOffATime (w32 atime) in
  inode_put32 i inodeOffMTime (w32 mtime).
Definition Chtimes (path : list Z) (atime mtime now : Z) : FS unit :=
  withInodeForUpdate path now (chtimes_edit atime mtime).

Definition GetFlags (path : list Z) : FS Z :=
  do! i := gets (fun d sb => lookupPath d fsOffset sb path) in
  mlift (flags i).
Definition SetFlags (path : list Z) (fl : Z) : FS unit :=
  do! i := gets (fun d sb => lookupPath d fsOffset sb path) in
  do! i := mlift (inode_put32 i inodeOffFlags fl) in
  do! _ := writeInode i in
  ret tt.

End ops.
