(* ===== verification/WriteFile.v ===== *)
(** Writing whole files ([writeFile] of [src/write.go]), on a file system without a
    sidecar journal: the file is created, or its blocks are released and it is
    given new ones. *)

From S2P Require Import Prelude Bytes Crc Device Superblock Bgd Bitmap GoLib Extent Limits Inode Inline FileRead Dir Alloc Image Lookup Namespace.

Section ops.
Context {D : Type} `{BlockDev D} `{SortSlice} `{Safeio}.
Context (fsOffset : Z).

Notation FS := (M (fsys D)).

(** [nBlocks]: an empty file is given a block as well. *)
Definition blocks_for (sb : superblock) (data : list Z) : Z :=
  let nBlocks := w32 (w64 (zlen data + BlockSize sb - 1) / BlockSize sb) in
  if nBlocks =? 0 then 1 else nBlocks.

(** The buffer of the block at [index] of the file, padded with zeros. *)
Definition data_buf (bs : Z) (data : list Z) (index : Z) : list Z :=
  let start := index * bs in
  if start <? zlen data then zsplice (zeros bs) 0 (zslice data start bs) else zeros bs.

Fixpoint write_file_blocks (bs : Z) (data physBlocks : list Z) (index : Z) : FS unit :=
  match physBlocks with
  | [] => ret tt
  | blkNum :: physBlocks' =>
      do! _ := mwrap "ext4: write block"
        (writeAtWithTrace fsOffset (i64 (fsOffset + blkNum * bs)) (data_buf bs data index)) in
      write_file_blocks bs data physBlocks' (index + 1)
  end.

(** The inode of the file that is already there. *)
Definition existing_file (entries : list DirEntry) (name : list Z) : FS (option inode) :=
  match find_entry name entries with
  | None => ret None
  | Some e =>
      do! i := gets (fun d sb => readInode d fsOffset sb (de_Inode e)) in
      if negb (isRegular i) then mfail (Errorf "ext4: exists and is not a regular file")
      else ret (Some i)
  end.

(** The fields of the inode, with a single link. *)
Definition file_fields (sb : superblock) (i : inode) (data : list Z) (nBlocks mode now : Z) : res inode :=
  let! i := setMode i mode 1 in
  let! i := setSize i (zlen data) in
  let! i := setBlocks512 i (w32 (nBlocks * (BlockSize sb / 512))) in
  stamp i now.

(** The inode takes its new map and is written. *)
Definition store_file (i : inode) (data physBlocks : list Z) (nBlocks mode now : Z) : FS inode :=
  do! sb := get_sb in
  let exts := buildExtents physBlocks in
  do! i := (if zlen exts <=? 4 then
              do! i := mlift (file_fields sb i data nBlocks mode now) in
              mwrap "ext4: build inline extent tree" (mlift (setInlineExtents i exts))
            else
              do! childBlock := mwrap "ext4: build extent child" (prepareExtentChild fsOffset exts) in
              do! i := mlift (file_fields sb i data nBlocks mode now) in
              match exts with
              | [] => mlift Panic
              | e :: _ => mlift (setExtentIndex i (LogBlock e) childBlock)
              end) in
  writeInode fsOffset i.

Definition writeFile (path data : list Z) (perm now : Z) : FS unit :=
  do! (dirIno, name) := gets (fun d sb => lookupParent d fsOffset sb path) in
  let mode := Z.lor (Z.land perm 0x1FF) 0x8000 in
  do! dirIno := mwrap "ext4: refresh parent inode"
    (gets (fun d sb => readInode d fsOffset sb (in_num dirIno))) in
  do! entries := gets (fun d sb => readDir d fsOffset sb dirIno) in
  do! existing := existing_file entries name in
  do! sb := get_sb in
  let nBlocks := blocks_for sb data in
  do! _ := match existing with
           | Some i => freeInodeBlocks fsOffset i
           | None => ret tt
           end in
  do! physBlocks := mwrap "ext4: alloc blocks" (allocBlocks fsOffset nBlocks) in
  do! _ := write_file_blocks (BlockSize sb) data physBlocks 0 in
  do! ino := match existing with
             | Some i => ret i
             | None =>
                 do! num := mwrap "ext4: alloc inode" (allocInode fsOffset false) in
                 ret (Inode (zeros (InodeSize sb)) num 0 0)
             end in
  do! ino := store_file ino data physBlocks nBlocks mode now in
  match existing with
  | Some _ => ret tt
  | None => do! _ := addDirEntry fsOffset dirIno (in_num ino) name FtRegFile in ret tt
  end.

End ops.
