(* ===== verification/OnDisk.v ===== *)
(** The on-disk structures ([src/superblock.go], [src/bgd.go], [src/inode.go],
    [src/blockmap.go], [src/write.go], [src/writeat.go], [src/alloc.go]): what
    decoding accepts, what encoding round-trips, and that the checksums the
    encoders store verify. *)

From S2P Require Import Prelude Bytes Crc Device Superblock Bgd Bitmap GoLib Extent Limits Inode Inline Dir Alloc Image.

(** * Nodes are byte lists *)

Lemma put_leaves_bytes_ok exts buf i buf' :
  bytes_ok buf -> put_leaves buf i exts = Ok buf' -> bytes_ok buf'.
Proof.
  revert buf i. induction exts as [|e exts IH]; intros buf i Hb Hp; cbn [put_leaves] in Hp.
  { by injection Hp as <-. }
  unfold put_leaf in Hp. res_inv. eauto 10 using putN_bytes_ok.
Qed.

Lemma put_header_bytes_ok buf a b c buf' :
  bytes_ok buf -> put_header buf a b c = Ok buf' -> bytes_ok buf'.
Proof. intros Hb Hp. unfold put_header in Hp. res_inv. eauto 10 using putN_bytes_ok. Qed.

Lemma inline_node_bytes_ok exts node : inline_node exts = Ok node -> bytes_ok node.
Proof.
  unfold inline_node. intros Hn. res_inv. eapply put_leaves_bytes_ok; [|done].
  eapply putN_bytes_ok; [|done]. eapply put_header_bytes_ok; [|done]. auto with bytes.
Qed.

Lemma index_node_bytes_ok l c node : index_node l c = Ok node -> bytes_ok node.
Proof.
  unfold index_node. intros Hn. res_inv.
  repeat (eapply putN_bytes_ok; [|eassumption]). eapply put_header_bytes_ok; [|done]. auto with bytes.
Qed.

(** [setExtentsFlag] over a new [i_block]. *)
Lemma setExtentsFlag_total raw node :
  100 <= zlen raw -> zlen node = 60 -> exists raw', setExtentsFlag (zsplice raw inodeOffBlock node) = Ok raw'.
Proof.
  intros Hl Hn. unfold setExtentsFlag, inodeOffFlags, inodeOffBlock.
  rewrite getN_ok by zl. cbn [rbind]. rewrite putN_ok by zl. eauto.
Qed.

(** * Properties *)

Section properties.
Context {D : Type} `{BlockDevLaws D} `{SortSlice} `{Safeio}.
Context (d : D) (fsOffset : Z) (sb : superblock).

(** C15: whatever the bytes of an inode and of the device, reading its extent tree
    returns without a panic, and a tree that is accepted has well-formed leaves
    which overlap neither in the file nor on the disk. *)
Theorem extents_safe i :
  bytes_ok (in_raw i) ->
  (100 <= zlen (in_raw i) -> extents d fsOffset sb i <> Panic) /\
  forall leaves, extents d fsOffset sb i = Ok leaves ->
    Forall leaf_ok leaves /\ runs_disjoint LogBlock leaves /\ runs_disjoint PhysBlock leaves.
Proof.
  intros Hb. split.
  - intros Hl. unfold extents, flags, inodeOffFlags, inodeOffBlock. rewrite getN_ok by lia. cbn [rbind].
    destruct (has_flag _ _); [done|]. destruct (has_flag _ _); [|done]. cbn [negb].
    rewrite subslice_ok by lia. cbn [rbind]. apply parseExtentRoot_np. auto with bytes.
  - intros leaves Hx. unfold extents in Hx. res_inv.
    eapply parseExtentRoot_disjoint; [|done]. unfold subslice in *. destruct (_ && _) in *; [|done].
    simplify_eq. auto with bytes.
Qed.


(** C29: the recursive walk over an ext2/ext3 block map yields exactly the blocks a
    pointer chase through the indirect blocks finds: the block at every index
    below the size, and nothing at or beyond it. *)
Theorem blockMapExtents_correct i leaves lb :
  4 <= BlockSize sb -> 100 <= zlen (in_raw i) -> bytes_ok (in_raw i) -> 0 < in_size i ->
  blockMapExtents d fsOffset sb i = Ok leaves -> 0 <= lb ->
  if lb <? size_blocks sb (in_size i)
  then lb < 12 + spans sb [0; 1; 2]%nat ->
    exists p, probe_block d fsOffset sb (zslice (in_raw i) 40 60) lb = Ok p /\
      block_at leaves lb = nz p
  else block_at leaves lb = None.
Proof. apply blockMapExtents_probe. Qed.

(** inline data of any inode and device is returned or refused, never a panic
    and never an endless attribute scan; what is returned has the size of the
    inode, and its first sixty bytes are those of [i_block]. *)
Theorem inlineData_correct i :
  bytes_ok (in_raw i) -> 128 <= zlen (in_raw i) -> 0 <= in_size i < 2 ^ 63 ->
  finishes (inlineData d fsOffset sb i) /\
  forall data, inlineData d fsOffset sb i = Ok data ->
    zlen data = in_size i /\
    zslice data 0 (Z.min 60 (in_size i)) = zslice (in_raw i) 40 (Z.min 60 (in_size i)).
Proof. apply inlineData_spec. Qed.

End properties.

(** The inode checksum the driver stores verifies, and storing it changes no
    byte but those of its two fields. *)
Theorem computeInodeCsum_correct sb i :
  128 <= zlen (in_raw i) -> bytes_ok (in_raw i) -> 0 <= csumSeed sb < 2 ^ 32 ->
  exists i', computeInodeCsum sb i = Ok i' /\ inode_csum_ok sb i' /\
    in_num i' = in_num i /\ in_size i' = in_size i /\ in_mode i' = in_mode i /\
    zlen (in_raw i') = zlen (in_raw i) /\
    forall n off, 0 <= off ->
      (off + Z.of_nat n <= 124 \/ 126 <= off /\ off + Z.of_nat n <= 130 \/ 132 <= off) ->
      uN n (in_raw i') off = uN n (in_raw i) off.
Proof. apply computeInodeCsum_ok. Qed.

(** the leaves built for a list of physical blocks expand to that list, cover
    the logical blocks from zero on without a gap, and stay within the length a
    leaf can hold. *)
Theorem buildExtents_correct blocks :
  Forall (fun p => 0 <= p < 2 ^ 64 - 1) blocks -> zlen blocks < 2 ^ 32 ->
  expand (buildExtents blocks) = blocks /\ contiguous 0 (buildExtents blocks).
Proof. apply buildExtents_spec. Qed.

(** Sorting and merging a disjoint leaf list maps every logical block to the
    same physical block as before. *)
Theorem coalesceExtents_correct `{SortSlice} exts lb :
  Forall leaf_ok exts -> runs_disjoint LogBlock exts ->
  block_at (coalesceExtents exts) lb = block_at exts lb.
Proof. apply coalesceExtents_block_at. Qed.

(** the bitmap search returns [n] distinct free bits exactly when there are
    that many, and the first contiguous run of [n] when there is one. *)
Theorem findFreeRun_correct bitmap m n :
  0 <= m <= 8 * zlen bitmap -> 0 <= n ->
  exists r, findFreeRun bitmap m n = Ok r /\
    (r = None <-> zlen (free_bits bitmap m) < n) /\
    (forall l, r = Some l -> free_choice bitmap m n l) /\
    (forall s, 0 < n -> run_at bitmap m n s ->
       exists s', r = Some (seqZ s' n) /\ run_at bitmap m n s' /\ s' <= s).
Proof. intros Hm. by apply findFreeRun_spec. Qed.

(** ** Superblock and group descriptors *)

(** C32: a superblock image of any content is decoded or refused, never a panic,
    and one that is accepted has a geometry the rest of the driver can divide and
    index by: a power-of-two block size up to 64 KiB, non-zero group sizes, a
    power-of-two inode size of at most a block, descriptors of at least 32
    bytes. *)
Theorem decodeSuperblock_safe raw :
  zlen raw = 1024 -> bytes_ok raw ->
  decodeSuperblock raw <> Panic /\
  forall sb, decodeSuperblock raw = Ok sb -> sb_wf sb /\ sb_raw sb = raw.
Proof.
  intros Hl Hb. split; [by apply decodeSuperblock_np|]. intros sb. by apply decodeSuperblock_wf.
Qed.

(** encoding a superblock whose counts have changed and decoding it again
    gives the same superblock, and under [metadata_csum] the stored checksum
    verifies. *)
Theorem superblock_roundtrip raw sb blocks free inodes :
  zlen raw = 1024 -> bytes_ok raw -> decodeSuperblock raw = Ok sb ->
  0 <= blocks < 2 ^ 64 -> 0 <= free < 2 ^ 64 -> 0 <= inodes < 2 ^ 32 ->
  let sb' := encodeRaw (with_counts sb blocks free inodes) in
  decodeSuperblock (sb_raw sb') = Ok sb' /\
  (has_flag (FeatureROCompat sb) FeatROCompatMetadataCsum = true -> sb_csum_ok (sb_raw sb')).
Proof.
  intros Hl Hb Hd Hbl Hfr Hin sb'. split; [by eapply encode_decode|].
  intros Hf. unfold sb', encodeRaw. cbn [sb_raw with_raw].
  destruct (decodeSuperblock_wf _ _ Hb Hd) as [_ Hraw].
  apply seal_csum_ok; [cbn [sb_raw with_counts]; rewrite Hraw; zl|
    cbn [sb_raw with_counts]; rewrite Hraw; auto 10 with bytes|exact Hf].
Qed.

(** for group numbers up to 5^13 the sparse-super rule terminates and holds
    exactly of group zero and the powers of 3, 5 and 7. *)
Theorem groupIsSparseBackup_correct g :
  0 <= g <= 5 ^ 13 ->
  exists r, groupIsSparseBackup 32 g = Some r /\
    (r = true <-> g = 0 \/ is_power_of 3 g \/ is_power_of 5 g \/ is_power_of 7 g).
Proof. apply groupIsSparseBackup_spec. Qed.

(** Beyond that bound the 32-bit products wrap: group 1808548329 is taken for
    a backup group though it is no power of 3, 5 or 7, and for group 4294967293
    the loop never stops, whatever the number of steps allowed. *)
Theorem groupIsSparseBackup_overflow :
  groupIsSparseBackup 32 1808548329 = Some true /\
  ~ (is_power_of 3 1808548329 \/ is_power_of 5 1808548329 \/ is_power_of 7 1808548329) /\
  forall fuel, groupIsSparseBackup fuel 4294967293 = None.
Proof.
  split_and!; [apply groupIsSparseBackup_wraps| |apply groupIsSparseBackup_diverges].
  assert (forall base, 2 <= base -> existsb (fun k => base ^ k =? 1808548329) (seqZ 0 31) = false ->
    ~ is_power_of base 1808548329) as Hp.
  { intros base Hb Hm [k [Hk He]]. apply not_true_iff_false in Hm. apply Hm, existsb_exists.
    exists k. split; [|by apply Z.eqb_eq]. apply list_elem_of_In, elem_of_seqZ.
    destruct (decide (k < 31)); [lia|].
    assert (2 ^ 31 <= base ^ k) as Hbig; [|change (2 ^ 31) with 2147483648 in Hbig; lia].
    transitivity (2 ^ k); [apply Z.pow_le_mono_r|apply Z.pow_le_mono_l]; lia. }
  intros [Hq|[Hq|Hq]]; revert Hq; apply Hp; by vm_compute.
Qed.

(** encoding a group descriptor with new counts and decoding it again gives
    the same descriptor with these counts, for every count the layout can hold. *)
Theorem bgd_roundtrip sb raw d fb fi ud :
  raw_fits sb raw -> decodeBGD raw sb = Ok d ->
  0 <= fb < count_max sb -> 0 <= fi < count_max sb -> 0 <= ud < count_max sb ->
  exists d', bgd_encode sb (bgd_with_counts d fb fi ud) = Ok d' /\
    decodeBGD (bgd_raw d') sb = Ok d' /\
    d' = bgd_with_raw (bgd_with_counts d fb fi ud) (bgd_raw d') /\
    zlen (bgd_raw d') = zlen raw.
Proof. apply bgd_encode_decode. Qed.

(** A block allocation and an inode allocation merged one after the other into
    the same descriptor compound: every byte outside the checksum comes from the
    allocator that owns it, and from the descriptor before otherwise. *)
Theorem mergeDescriptor_compounds sb g cur dblk dino m1 m2 i :
  32 <= DescSize sb -> zlen cur = DescSize sb -> zlen dblk = DescSize sb -> zlen dino = DescSize sb ->
  mergeDescriptor sb g cur dblk (blockAllocDescRanges sb) = Ok m1 ->
  mergeDescriptor sb g m1 dino (inodeAllocDescRanges sb) = Ok m2 ->
  0 <= i < 30 \/ 32 <= i < DescSize sb ->
  u8 m2 i = if in_ranges (inodeAllocDescRanges sb) i then u8 dino i
            else if in_ranges (blockAllocDescRanges sb) i then u8 dblk i
            else u8 cur i.
Proof. intros. by eapply merge_compounds. Qed.

(** after [SetLabel] the superblock reads back as before but for the label,
    which is the one given (up to trailing zero bytes), in memory and on disk;
    under [metadata_csum] its checksum verifies. *)
Theorem SetLabel_correct {D} `{BlockDevLaws D} partOffset sb0 b (d d' : D) sb sb' :
  readSuperblock d partOffset = Ok sb0 -> bytes_ok b ->
  SetLabel partOffset sb b d = (Ok sb', d') ->
  exists raw, readSuperblock d' partOffset = Ok (with_label sb0 raw (trim_zeros b)) /\
    sb_Label sb' = trim_zeros b /\
    (has_flag (FeatureROCompat sb0) FeatROCompatMetadataCsum = true -> sb_csum_ok raw).
Proof. apply SetLabel_spec. Qed.

(** ** Witnesses *)

Definition img_inode : inode := Inode (img_root 0) 2 1024 0x41ED.

Lemma img_inode_bytes : bytes_ok (in_raw img_inode).
Proof. by apply all_bytes_ok. Qed.

Lemma extents_safe_witness :
  extents (fs_dev (img 0)) 0 (img_sb 0) img_inode <> Panic /\
  Forall leaf_ok [Leaf 0 7 1] /\ runs_disjoint LogBlock [Leaf 0 7 1] /\
  runs_disjoint PhysBlock [Leaf 0 7 1].
Proof.
  destruct (extents_safe (fs_dev (img 0)) 0 (img_sb 0) img_inode img_inode_bytes) as [Hp Hl].
  split; [apply Hp; by vm_compute|apply Hl; vm_compute; reflexivity].
Defined.

Lemma two_leaves_disjoint :
  runs_disjoint LogBlock [Leaf 0 7 1; Leaf 4 30 2] /\ runs_disjoint PhysBlock [Leaf 0 7 1; Leaf 4 30 2].
Proof. split; (repeat constructor); unfold disjoint_on; cbn; lia. Qed.


(** An inode of the ext2 kind: the second direct block is block 30. *)
Definition bm_inode : inode := Inode (set32 (zeros 128) 44 30) 12 3000 0x81A4.
Definition bm_leaves : list extentLeaf :=
  the [] (blockMapExtents (fs_dev (img 0)) 0 (img_sb 0) bm_inode).

Lemma blockMapExtents_correct_witness : bm_leaves = [Leaf 1 30 1] /\ block_at bm_leaves 1 = Some 30.
Proof.
  split; [vm_compute; reflexivity|].
  assert (blockMapExtents (fs_dev (img 0)) 0 (img_sb 0) bm_inode = Ok bm_leaves) as Hl
    by (vm_compute; reflexivity).
  pose proof (blockMapExtents_correct (fs_dev (img 0)) 0 (img_sb 0) bm_inode bm_leaves 1
    ltac:(by vm_compute) ltac:(by vm_compute) ltac:(by apply all_bytes_ok) ltac:(by vm_compute) Hl
    ltac:(lia)) as Hw.
  replace (1 <? size_blocks (img_sb 0) (in_size bm_inode)) with true in Hw by (vm_compute; reflexivity).
  destruct Hw as (p & Hp & Hb); [by vm_compute|].
  vm_compute in Hp. injection Hp as <-. exact Hb.
Defined.

Definition inl_inode : inode :=
  Inode (zsplice (set32 (zeros 128) inodeOffFlags InodeFlagInlineData) 40 [104; 105]) 12 2 0x81A4.

Lemma inlineData_correct_witness :
  zlen [104; 105] = 2 /\ zslice [104; 105] 0 2 = zslice (in_raw inl_inode) 40 2.
Proof.
  destruct (inlineData_correct (fs_dev (img 0)) 0 (img_sb 0) inl_inode) as [_ Hd];
    [by apply all_bytes_ok|by vm_compute..|].
  apply (Hd [104; 105]). vm_compute. reflexivity.
Defined.

Lemma computeInodeCsum_correct_witness :
  exists i', computeInodeCsum (img_sb 0) img_inode = Ok i' /\ inode_csum_ok (img_sb 0) i'.
Proof.
  destruct (computeInodeCsum_correct (img_sb 0) img_inode) as (i' & Hc & Hok & _);
    [by vm_compute|apply img_inode_bytes|by vm_compute|eauto].
Defined.

Lemma buildExtents_correct_witness :
  expand (buildExtents [10; 11; 20]) = [10; 11; 20] /\ contiguous 0 (buildExtents [10; 11; 20]).
Proof. apply buildExtents_correct; [repeat constructor|]; by vm_compute. Defined.

Lemma coalesceExtents_correct_witness :
  block_at (coalesceExtents [Leaf 0 7 1; Leaf 4 30 2]) 5 = block_at [Leaf 0 7 1; Leaf 4 30 2] 5.
Proof.
  apply coalesceExtents_correct; [repeat constructor; by vm_compute|].
  apply two_leaves_disjoint.
Defined.

Lemma findFreeRun_correct_witness :
  exists r, findFreeRun img_bmap 64 3 = Ok r /\ (r = None <-> zlen (free_bits img_bmap 64) < 3).
Proof.
  destruct (findFreeRun_correct img_bmap 64 3) as (r & Hr & Hn & _); [by vm_compute|lia|eauto].
Defined.

Lemma decodeSuperblock_safe_witness : sb_wf (img_sb 0) /\ sb_raw (img_sb 0) = img_sb_raw 0.
Proof.
  destruct (decodeSuperblock_safe (img_sb_raw 0)) as [_ Hs];
    [by vm_compute|by apply all_bytes_ok|].
  apply Hs. vm_compute. reflexivity.
Defined.

Lemma superblock_roundtrip_witness :
  let sb' := encodeRaw (with_counts (img_sb 1024) 64 50 4) in
  decodeSuperblock (sb_raw sb') = Ok sb' /\ sb_csum_ok (sb_raw sb').
Proof.
  destruct (superblock_roundtrip (img_sb_raw 1024) (img_sb 1024) 64 50 4) as [Hd Hc];
    [by vm_compute|by apply all_bytes_ok|vm_compute; reflexivity|lia..|].
  split; [exact Hd|]. apply Hc. by vm_compute.
Defined.

Lemma groupIsSparseBackup_correct_witness :
  exists r, groupIsSparseBackup 32 49 = Some r /\
    (r = true <-> 49 = 0 \/ is_power_of 3 49 \/ is_power_of 5 49 \/ is_power_of 7 49).
Proof. apply groupIsSparseBackup_correct. by vm_compute. Defined.

Lemma bgd_roundtrip_witness :
  exists d', bgd_encode (img_sb 0) (bgd_with_counts (Bgd (img_desc 0) 3 4 5 56 5 1 0) 50 4 2) = Ok d' /\
    decodeBGD (bgd_raw d') (img_sb 0) = Ok d'.
Proof.
  destruct (bgd_roundtrip (img_sb 0) (img_desc 0) (Bgd (img_desc 0) 3 4 5 56 5 1 0) 50 4 2)
    as (d' & He & Hd & _); [by vm_compute|vm_compute; reflexivity|by vm_compute..|eauto].
Defined.

Lemma mergeDescriptor_compounds_witness :
  let m1 := the [] (mergeDescriptor (img_sb 0) 0 (zeros 32) (replicate 32 1) (blockAllocDescRanges (img_sb 0))) in
  let m2 := the [] (mergeDescriptor (img_sb 0) 0 m1 (replicate 32 2) (inodeAllocDescRanges (img_sb 0))) in
  u8 m2 12 = if in_ranges (inodeAllocDescRanges (img_sb 0)) 12 then 2
             else if in_ranges (blockAllocDescRanges (img_sb 0)) 12 then 1 else 0.
Proof.
  intros m1 m2.
  apply (mergeDescriptor_compounds (img_sb 0) 0 (zeros 32) (replicate 32 1) (replicate 32 2) m1 m2 12);
    [by vm_compute..|vm_compute; reflexivity|vm_compute; reflexivity|lia].
Defined.

(** The label write needs no more than the superblock. *)
Definition label_dev : memdev := MemDev (zeros 1024 ++ img_sb_raw 0).
Definition labelled : res superblock * memdev := SetLabel 0 (img_sb 0) [97; 98] label_dev.

Lemma SetLabel_correct_witness :
  exists raw, readSuperblock labelled.2 0 = Ok (with_label (img_sb 0) raw [97; 98]).
Proof.
  assert (labelled = (Ok (the ex_sb labelled.1), labelled.2)) as Hs by (vm_compute; reflexivity).
  assert (readSuperblock label_dev 0 = Ok (img_sb 0)) as Hr0 by (vm_compute; reflexivity).
  destruct (SetLabel_correct 0 (img_sb 0) [97; 98] label_dev labelled.2 (img_sb 0) (the ex_sb labelled.1)
    Hr0 (all_bytes_ok [97; 98] eq_refl) Hs) as (raw & Hr & _).
  exists raw. exact Hr.
Defined.
