(* ===== verification/AllocSpec.v ===== *)
(** What the allocators guarantee ([src/alloc.go]): on a file system at rest
    whose groups can be read, and a device that accepts writes where it can be
    read, an allocation always returns; it yields blocks that were free, marks
    exactly those used, and touches nothing but one bitmap, one descriptor and
    the superblock.  The error cases say why nothing was found. *)

From S2P Require Import Prelude Bytes Crc Device Superblock Bgd Bitmap GoLib Extent Limits Inode Alloc Image.

(** * Totality *)

(** A range that can be read can be written. *)
Definition dev_writable (D : Type) `{BlockDev D} : Prop :=
  forall (d : D) off bs, 0 < zlen bs ->
    (dev_ReadAt d off (zlen bs)).2 = None -> (dev_WriteAt d off bs).1 = None.

Lemma memdev_writable : dev_writable memdev.
Proof.
  intros d off bs Hb. cbn. unfold mem_ReadAt, mem_WriteAt.
  destruct (off <? 0) eqn:Eo; [done|]. rewrite zlen_fmap.
  destruct (_ <? zlen bs) eqn:El; [done|]. intros _. cbn [orb]. zbool.
  destruct (_ <? off + _) eqn:Ew; [|done]. zbool. exfalso.
  unfold zslice, zlen in *. rewrite length_take, length_drop in El. lia.
Qed.

Section total.
Context {D : Type} `{BlockDevLaws D}.
Context (fsOffset : Z).
Hypothesis Hwritable : dev_writable D.

Lemma write_at_total (d : D) off bs n r :
  n = zlen bs -> 0 < n -> read_at d off n = Ok r ->
  exists d', write_at off bs d = (Ok tt, d').
Proof.
  intros -> Hn Hr. unfold read_at, write_at in *. destruct (dev_ReadAt d off (zlen bs)) as [b [e|]] eqn:E; [done|].
  pose proof (Hwritable d off bs) as Hw. rewrite E in Hw. specialize (Hw Hn eq_refl).
  destruct (dev_WriteAt d off bs) as [[e|] d']; [done|]. eauto.
Qed.

(** One operation of a task, forwards. *)
Lemma applyTask_run g op ops (s : fsys D) data d' :
  32 <= DescSize (fs_sb s) ->
  (if zlen (op_data op) =? DescSize (fs_sb s)
   then recompute_bgd fsOffset (fs_dev s) (fs_sb s) g (op_data op) else Ok (op_data op)) = Ok data ->
  write_at (startAbs op) data (fs_dev s) = (Ok tt, d') ->
  applyTask fsOffset g (op :: ops) s =
  applyTask fsOffset g ops (Fsys d' (fs_sb s) (fs_cursor s) (fs_rsv s)).
Proof.
  intros Hd Hr Hw. cbn [applyTask]. unfold mbnd at 1, get_sb. unfold mbnd at 1.
  destruct (_ =? _); unfold gets, ret; rewrite ?Hr; [|injection Hr as ->];
    unfold mbnd at 1; rewrite writeAtWithTrace_write by (intros; by apply readBGD_np);
    unfold on_dev; by rewrite Hw.
Qed.

Lemma task_total (s : fsys D) g isBlock bg raw bmap bmap0 omap :
  let sb := fs_sb s in
  let own := if isBlock : bool then BlockBitmapBlock bg else InodeBitmapBlock bg in
  let other := if isBlock then InodeBitmapBlock bg else BlockBitmapBlock bg in
  layout fsOffset sb g (BlockBitmapBlock bg) (InodeBitmapBlock bg) ->
  raw_fits sb raw -> bytes_ok raw -> decodeBGD raw sb = Ok bg ->
  0 <= UsedDirsCount bg < count_max sb -> zlen (sb_raw sb) = 1024 -> bytes_ok (sb_raw sb) ->
  zlen bmap = BlockSize sb -> bytes_ok bmap -> readable fsOffset (fs_dev s) sb g ->
  read_block fsOffset (fs_dev s) sb own = Ok bmap0 ->
  read_block fsOffset (fs_dev s) sb other = Ok omap ->
  exists s', applyTask fsOffset g (metadata_ops fsOffset sb g own bmap raw) s = (Ok tt, s').
Proof.
  intros sb own other L Hf Hbr Hdec Hud Hsl Hsb Hbl Hbb [[r0 Hr0] [r1 Hr1]] Hown Hoth.
  pose proof L as []. unfold sep in *.
  assert (0 <= own /\ fsOffset + own * BlockSize sb < 2 ^ 63 /\ 0 <= other /\
    fsOffset + other * BlockSize sb < 2 ^ 63 /\
    (own * BlockSize sb + BlockSize sb <= other * BlockSize sb \/
     other * BlockSize sb + BlockSize sb <= own * BlockSize sb)) as (Ho1 & Ho2 & Ho3 & Ho4 & S1).
  { subst own other. destruct isBlock; lia. }
  unfold read_block in Hown, Hoth. rewrite i64_small in Hown, Hoth by lia.
  destruct (write_at_total (fs_dev s) (fsOffset + own * BlockSize sb) bmap (BlockSize sb) bmap0)
    as [d1 W1]; auto; [lia|].
  pose proof (write_read_same _ _ _ _ (BlockSize sb) _ W1 Hbb ltac:(lia) Hown) as O1.
  pose proof (write_read_ne _ _ _ _ _ _ _ W1 Hbb Hoth ltac:(lia)) as T1.
  destruct (write_at_readable _ _ _ _ _ _ _ W1 Hr0) as [g1 G1].
  destruct (write_at_readable _ _ _ _ _ _ _ W1 Hr1) as [b1 B1].
  destruct (recompute_bgd_spec fsOffset sb g ltac:(lia) ltac:(lia) ltac:(lia) d1 raw bg
    (if isBlock then bmap else omap) (if isBlock then omap else bmap))
    as (raw' & Hrec & [Hl' _] & Hbr' & _); auto.
  1,2: rewrite i64_small by lia; subst own other; by destruct isBlock.
  destruct (write_at_total d1 (fsOffset + bgd_offset sb g) raw' (DescSize sb) g1) as [d2 W2]; auto; [lia|].
  destruct (write_at_readable _ _ _ _ _ _ _ W2 B1) as [b2 B2].
  destruct (write_at_total d2 (fsOffset + 1024) (sb_raw sb) 1024 b2) as [d3 W3]; auto; [lia|].
  unfold metadata_ops.
  rewrite (applyTask_run g _ _ s bmap d1) by (fold sb; cbn [op_data startAbs]; rewrite ?eqb_false by lia; auto; lia).
  rewrite (applyTask_run g _ _ _ raw' d2); cbn [op_data startAbs fs_sb fs_dev fs_cursor fs_rsv];
    fold sb; [|lia|by rewrite eqb_true by apply Hf|done].
  rewrite (applyTask_run g _ _ _ (sb_raw sb) d3); cbn [op_data startAbs fs_sb fs_dev fs_cursor fs_rsv];
    fold sb; [|lia|by rewrite eqb_false by lia|done].
  eexists. reflexivity.
Qed.

Lemma persist_total (s : fsys D) g isBlock bits bg raw bmap bmap0 omap :
  let sb := fs_sb s in
  let own := if isBlock : bool then BlockBitmapBlock bg else InodeBitmapBlock bg in
  let other := if isBlock then InodeBitmapBlock bg else BlockBitmapBlock bg in
  layout fsOffset sb g (BlockBitmapBlock bg) (InodeBitmapBlock bg) ->
  raw_fits sb raw -> bytes_ok raw -> decodeBGD raw sb = Ok bg ->
  0 <= UsedDirsCount bg < count_max sb -> zlen (sb_raw sb) = 1024 -> bytes_ok (sb_raw sb) ->
  zlen bmap = BlockSize sb -> bytes_ok bmap -> readable fsOffset (fs_dev s) sb g ->
  read_block fsOffset (fs_dev s) sb own = Ok bmap0 ->
  read_block fsOffset (fs_dev s) sb other = Ok omap ->
  fs_rsv s = ∅ -> NoDup bits -> (forall i, i ∈ bits -> 0 <= i < max_bits sb isBlock) ->
  exists s', persist fsOffset g isBlock bits own bmap raw s = (Ok tt, s').
Proof.
  intros sb own other L Hf Hbr Hdec Hud Hsl Hsb Hbl Hbb Hrd Hown Hoth Hrsv Hnd Hin.
  destruct (reserve_empty s g isBlock bits Hrsv Hnd) as (b & Hres & Hb1 & Hb2 & Hb3); auto.
  { pose proof L as []. unfold max_bits. destruct isBlock; fold sb; lia. }
  destruct (task_total (with_rsv s {[(g, isBlock) := b]}) g isBlock bg raw bmap bmap0 omap)
    as [s3 Ht]; auto.
  pose proof Ht as Htd. eapply task_on_disk in Htd as (raw' & _ & _ & _ & _ & Hsb' & _ & Hrs); eauto.
  exists (with_rsv s3 ∅). unfold persist, mbnd at 1. rewrite Hres. unfold mbnd at 1, get_sb.
  unfold mbnd at 1, try, enqueueAndWait. fold own in Ht. rewrite Ht. unfold mbnd.
  cbn [fs_sb with_rsv fs_rsv] in *.
  by rewrite (unreserve_empty s3 g isBlock bits b) by (rewrite ?Hsb'; auto).
Qed.

(** The end of an operation on a group, as in [persist_group_done]. *)
Lemma persist_group_total (s : fsys D) g isBlock bits bg bg2 fb fi ud bmap imap bmapN sb1 :
  let own := if isBlock : bool then BlockBitmapBlock bg else InodeBitmapBlock bg in
  at_rest s -> group_at fsOffset s g bg bmap imap ->
  layout fsOffset (fs_sb s) g (BlockBitmapBlock bg) (InodeBitmapBlock bg) ->
  readable fsOffset (fs_dev s) (fs_sb s) g -> counts_only (fs_sb s) sb1 ->
  raw_fits (fs_sb s) (bgd_raw bg2) -> bytes_ok (bgd_raw bg2) ->
  decodeBGD (bgd_raw bg2) (fs_sb s) = Ok bg2 ->
  bg2 = bgd_with_raw (bgd_with_counts bg fb fi ud) (bgd_raw bg2) ->
  0 <= ud < count_max (fs_sb s) -> zlen bmapN = BlockSize (fs_sb s) -> bytes_ok bmapN ->
  NoDup bits -> (forall i, i ∈ bits -> 0 <= i < max_bits (fs_sb s) isBlock) ->
  exists s2, persist fsOffset g isBlock bits own bmapN (bgd_raw bg2)
    (Fsys (fs_dev s) (encodeRaw sb1) (fs_cursor s) (fs_rsv s)) = (Ok tt, s2).
Proof.
  intros own (Hrs & Hsl & Hsb) [G1 G2 G3 G4] L Hrd [k Hk] F2 B2 D2 E2 Hud Hl Hb Hnd Hin.
  destruct (encodeRaw_ok sb1) as [Hel Heb].
  assert (sb_raw sb1 = sb_raw (fs_sb s)) as Hraw by (by destruct Hk as [-> | ->]).
  rewrite Hraw in Hel, Heb. specialize (Heb Hsb).
  assert (BlockBitmapBlock bg2 = BlockBitmapBlock bg /\ InodeBitmapBlock bg2 = InodeBitmapBlock bg /\
    UsedDirsCount bg2 = ud) as (Q1 & Q2 & Q4) by (rewrite E2; done).
  pose proof (persist_total (Fsys (fs_dev s) (encodeRaw sb1) (fs_cursor s) (fs_rsv s)) g isBlock bits
    bg2 (bgd_raw bg2) bmapN (if isBlock then bmap else imap) (if isBlock then imap else bmap)) as Hd.
  cbv zeta in Hd. rewrite Q1, Q2, Q4 in Hd. subst own. cbn [fs_sb fs_dev fs_rsv] in Hd.
  pose proof (layout_counts fsOffset (fs_sb s) k _ _ _ L).
  pose proof (layout_icounts fsOffset (fs_sb s) k _ _ _ L).
  destruct Hk as [-> | ->]; destruct isBlock; apply Hd; auto; lia.
Qed.

Lemma allocBlocksLocked_total (s : fsys D) n g bg bmap imap :
  0 <= n -> at_rest s -> group_at fsOffset s g bg bmap imap ->
  layout fsOffset (fs_sb s) g (BlockBitmapBlock bg) (InodeBitmapBlock bg) ->
  readable fsOffset (fs_dev s) (fs_sb s) g ->
  exists r s', allocBlocksLocked fsOffset n g s = (Ok r, s').
Proof.
  intros Hn Hrest Hga L Hrd. pose proof Hrest as (Hrs & Hsl & Hsb). pose proof Hga as [G1 G2 G3 G4].
  pose proof L as []. set (m := BlocksPerGroup (fs_sb s)).
  unfold allocBlocksLocked, mbnd at 1, get_sb at 1. unfold mbnd at 1, gets at 1. rewrite G1.
  destruct (FreeBlocksCount bg <? n) eqn:Ef; zbool; [by eauto|].
  unfold mbnd at 1. rewrite (readBitmap_empty fsOffset s _ bmap) by (auto; lia).
  pose proof (read_block_ok _ _ _ _ _ G2 ltac:(lia)) as Hbl. pose proof (read_block_bytes _ _ _ _ _ G2) as Hbb.
  destruct (readBGD_ok fsOffset (fs_dev s) (fs_sb s) g bg ltac:(lia) G1) as (Hfit & Hbr & Hdec).
  destruct (decodeBGD_ranges _ _ _ Hbr Hdec) as (R1 & R2 & R3).
  assert (0 <= m <= 8 * zlen bmap) as Hm by (unfold m; lia).
  destruct (findFreeRun_spec bmap m Hm n Hn) as (run & Hrun & Hnone & Hsome & _).
  unfold mbnd at 1, mlift at 1. fold m. rewrite Hrun. destruct run as [bits|]; [|by eauto].
  destruct (Hsome bits eq_refl) as (Hbn & Hnd & Hfree).
  destruct (setBits_spec bmap bits m Hbb Hm Hnd Hfree) as (bmap' & Hset & Hl' & Hb' & _).
  unfold mbnd at 1, mlift at 1. rewrite Hset. cbv zeta.
  pose proof (count_max_le (fs_sb s)). rewrite (w32_small (FreeBlocksCount bg - n)) by lia.
  destruct (prepare_counts (fs_sb s) g (bgd_raw bg) bg true bmap' (FreeBlocksCount bg - n)
    (FreeInodesCount bg) (UsedDirsCount bg)) as (raw1 & bg2 & Hc1 & Hc2 & F2 & B2 & D2 & E2); auto; [lia|].
  unfold mbnd at 1, mlift at 1. cbn [bgd_raw bgd_with_counts]. rewrite Hc1.
  unfold mbnd at 1, mlift at 1. rewrite Hc2. unfold mbnd at 1, set_sb. unfold mbnd.
  destruct (persist_group_total s g true bits bg bg2 (FreeBlocksCount bg - n) (FreeInodesCount bg)
    (UsedDirsCount bg) bmap imap bmap'
    (with_FreeBlocks (fs_sb s) (w64 (sb_FreeBlocksCount (fs_sb s) - n)))) as [s2 Hp]; auto.
  { eexists. by left. } { lia. } { intros i Hi. by apply Hfree. }
  assert (BlockBitmapBlock bg2 = BlockBitmapBlock bg) as -> by (by rewrite E2).
  rewrite Hp. unfold ret. eauto.
Qed.

Lemma allocInodeIn_total (s : fsys D) isDir g bg bmap imap :
  at_rest s -> group_at fsOffset s g bg bmap imap ->
  layout fsOffset (fs_sb s) g (BlockBitmapBlock bg) (InodeBitmapBlock bg) ->
  readable fsOffset (fs_dev s) (fs_sb s) g -> UsedDirsCount bg + 1 < count_max (fs_sb s) ->
  exists r s', allocInodeIn fsOffset isDir g s = (Ok r, s').
Proof.
  intros Hrest Hga L Hrd Hud. pose proof Hrest as (Hrs & Hsl & Hsb). pose proof Hga as [G1 G2 G3 G4].
  pose proof L as []. set (m := InodesPerGroup (fs_sb s)).
  unfold allocInodeIn, mbnd at 1, get_sb at 1. unfold mbnd at 1, gets at 1. rewrite G1.
  destruct (FreeInodesCount bg =? 0) eqn:Ef; zbool; [by eauto|].
  unfold mbnd at 1. rewrite (readBitmap_empty fsOffset s _ imap) by (auto; lia).
  pose proof (read_block_ok _ _ _ _ _ G3 ltac:(lia)) as Hbl. pose proof (read_block_bytes _ _ _ _ _ G3) as Hbb.
  destruct (readBGD_ok fsOffset (fs_dev s) (fs_sb s) g bg ltac:(lia) G1) as (Hfit & Hbr & Hdec).
  destruct (decodeBGD_ranges _ _ _ Hbr Hdec) as (R1 & R2 & R3).
  assert (0 <= m <= 8 * zlen imap) as Hm by (unfold m; lia).
  pose proof (findFreeBit_spec imap m Hm) as Hff. unfold mbnd at 1, mlift at 1. fold m.
  destruct (findFreeBit imap m) as [[bit|]| |]; [|by eauto|done..]. destruct Hff as (Hbit & Hfree & _).
  destruct (setBit_spec imap bit Hbb ltac:(lia)) as (imap' & Hset & Hl' & Hb' & Hu').
  unfold mbnd at 1, mlift at 1. rewrite Hset. cbv zeta. pose proof (count_max_le (fs_sb s)).
  rewrite !w32_small with (x := FreeInodesCount bg - 1) by lia.
  rewrite !w32_small with (x := UsedDirsCount bg + 1) by lia.
  set (ud := if isDir : bool then UsedDirsCount bg + 1 else UsedDirsCount bg) in *.
  assert (0 <= ud < count_max (fs_sb s)) as Hud' by (unfold ud; destruct isDir; lia).
  destruct (prepare_counts (fs_sb s) g (bgd_raw bg) bg false imap' (FreeBlocksCount bg)
    (FreeInodesCount bg - 1) ud) as (raw1 & bg2 & Hc1 & Hc2 & F2 & B2 & D2 & E2); auto; [lia|].
  unfold mbnd at 1, mlift at 1. cbn [bgd_raw bgd_with_counts]. rewrite Hc1.
  unfold mbnd at 1, mlift at 1. rewrite Hc2. unfold mbnd at 1, set_sb. unfold mbnd.
  destruct (persist_group_total s g false [bit] bg bg2 (FreeBlocksCount bg) (FreeInodesCount bg - 1)
    ud bmap imap imap' (with_FreeInodes (fs_sb s) (w32 (sb_FreeInodesCount (fs_sb s) - 1))))
    as [s2 Hp]; auto.
  { eexists. by right. } { lia. } { apply NoDup_singleton. }
  { intros i Hi. apply list_elem_of_singleton in Hi as ->. done. }
  assert (InodeBitmapBlock bg2 = InodeBitmapBlock bg) as -> by (by rewrite E2).
  rewrite Hp. unfold ret. eauto.
Qed.

Lemma freeBlock_total (s : fsys D) blk bg bmap imap :
  let m := BlocksPerGroup (fs_sb s) in
  let g := w32 ((blk - FirstDataBlock (fs_sb s)) / m) in
  0 < m -> FirstDataBlock (fs_sb s) <= blk -> at_rest s -> group_at fsOffset s g bg bmap imap ->
  layout fsOffset (fs_sb s) g (BlockBitmapBlock bg) (InodeBitmapBlock bg) ->
  readable fsOffset (fs_dev s) (fs_sb s) g -> FreeBlocksCount bg + 1 < count_max (fs_sb s) ->
  exists s', freeBlock fsOffset blk s = (Ok tt, s').
Proof.
  intros m g Hm0 Hblk Hrest Hga L Hrd Hfb. pose proof Hrest as (Hrs & Hsl & Hsb).
  pose proof Hga as [G1 G2 G3 G4]. pose proof L as [].
  set (bit := (blk - FirstDataBlock (fs_sb s)) mod m).
  unfold freeBlock, mbnd at 1, get_sb at 1. rewrite ltb_false by lia. fold m. rewrite eqb_false by lia.
  cbv zeta. fold g bit. unfold mbnd at 1, gets at 1. rewrite G1.
  unfold mbnd at 1. rewrite (readBitmap_empty fsOffset s _ bmap) by (auto; lia).
  pose proof (read_block_ok _ _ _ _ _ G2 ltac:(lia)) as Hbl. pose proof (read_block_bytes _ _ _ _ _ G2) as Hbb.
  destruct (readBGD_ok fsOffset (fs_dev s) (fs_sb s) g bg ltac:(lia) G1) as (Hfit & Hbr & Hdec).
  destruct (decodeBGD_ranges _ _ _ Hbr Hdec) as (R1 & R2 & R3).
  assert (0 <= bit < m) as Hbit by (apply Z.mod_pos_bound; lia).
  destruct (clearBit_spec bmap bit Hbb ltac:(unfold m in *; lia)) as (bmap' & Hclr & Hl' & Hb' & Hu').
  unfold mbnd at 1, mlift at 1. rewrite Hclr.
  pose proof (count_max_le (fs_sb s)). rewrite !(w32_small (FreeBlocksCount bg + 1)) by lia.
  destruct (prepare_counts (fs_sb s) g (bgd_raw bg) bg true bmap' (FreeBlocksCount bg + 1)
    (FreeInodesCount bg) (UsedDirsCount bg)) as (raw1 & bg2 & Hc1 & Hc2 & F2 & B2 & D2 & E2); auto; [lia|].
  unfold mbnd at 1, mlift at 1. cbn [bgd_raw bgd_with_counts]. rewrite Hc1.
  unfold mbnd at 1, mlift at 1, prepareBGD. rewrite Hc2. cbn [rbind].
  destruct (setBGDChecksum (fs_sb s) g (bgd_raw bg2)) as [raw3| |] eqn:Hs3.
  2,3: rewrite setBGDChecksum_eq in Hs3 by (lia || apply F2); done.
  cbn [rbind]. destruct (decode_csum (fs_sb s) g (bgd_raw bg2) raw3 bg2) as [F3 D3]; auto.
  pose proof (setBGDChecksum_bytes_ok _ _ _ _ B2 Hs3) as B3. unfold mbnd, set_sb.
  destruct (persist_group_total s g true [bit] bg (bgd_with_raw bg2 raw3) (FreeBlocksCount bg + 1)
    (FreeInodesCount bg) (UsedDirsCount bg) bmap imap bmap'
    (with_FreeBlocks (fs_sb s) (w64 (sb_FreeBlocksCount (fs_sb s) + 1)))) as [s2 Hp]; auto.
  { eexists. by left. } { rewrite E2. done. } { lia. }
  { apply NoDup_singleton. } { intros i Hi. apply list_elem_of_singleton in Hi as ->. done. }
  exists s2. cbn [bgd_raw bgd_with_raw BlockBitmapBlock] in Hp |- *.
  assert (BlockBitmapBlock bg2 = BlockBitmapBlock bg) as -> by (by rewrite E2). exact Hp.
Qed.

End total.

(** * The scans over the groups *)

Section scans.
Context {D : Type} `{BlockDevLaws D}.
Context (fsOffset : Z).

(** A scan whose steps return and leave the state alone when they find nothing
    returns what some step found, or has visited every group in vain. *)
Lemma scan_groups_total {A} (body : Z -> M (fsys D) (option A)) n start i (s : fsys D) :
  0 < numBlockGroups (fs_sb s) ->
  (forall g, 0 <= g < numBlockGroups (fs_sb s) ->
     exists r s1, body g s = (Ok r, s1) /\ (r = None -> s1 = s)) ->
  (exists g a s', 0 <= g < numBlockGroups (fs_sb s) /\ body g s = (Ok (Some a), s') /\
     scan_groups body n start i s = (Ok (Some a), s')) \/
  (scan_groups body n start i s = (Ok None, s) /\
   forall j, i <= j < i + Z.of_nat n ->
     body (w32 (start + j) mod numBlockGroups (fs_sb s)) s = (Ok None, s)).
Proof.
  intros Hn Hb. revert i. induction n as [|n IH]; intros i; cbn [scan_groups].
  { right. split; [done|lia]. }
  pose proof (Z.mod_pos_bound (w32 (start + i)) _ Hn) as Hr.
  destruct (Hb _ Hr) as (r & s1 & Hbody & Hs). unfold mbnd at 1 3, get_sb. unfold mbnd.
  rewrite Hbody. destruct r as [a|].
  - left. exists (w32 (start + i) mod numBlockGroups (fs_sb s)), a, s1. auto.
  - rewrite (Hs eq_refl) in *. destruct (IH (i + 1)) as [?|[? Hall]]; [by left|right].
    split; [done|]. intros j Hj. destruct (decide (j = i)) as [->|]; [done|]. apply Hall. lia.
Qed.

(** The bitmaps mark the inode tables as used, so that no free block lies in
    one; block numbers fit in 64 bits. *)
Definition itables_used (s : fsys D) : Prop :=
  let sb := fs_sb s in
  0 <= FirstDataBlock sb < 2 ^ 32 /\ 0 < BlocksPerGroup sb < 2 ^ 31 /\
  forall g bg bmap imap b, 0 <= g < numBlockGroups sb -> group_at fsOffset s g bg bmap imap ->
    0 <= b < BlocksPerGroup sb -> used bmap b = false ->
    let blk := g * BlocksPerGroup sb + FirstDataBlock sb + b in
    blk < InodeTableBlock bg \/
    w64 (InodeTableBlock bg +
      w64 (InodesPerGroup sb * InodeSize sb + BlockSize sb - 1) / BlockSize sb) <= blk.

Lemma numBlockGroups_lt sb : numBlockGroups sb < 2 ^ 32.
Proof. apply w32_range. Qed.

(** The blocks of a group pass the check. *)
Lemma check_itable_ok (d : D) sb g bg bits :
  0 <= g < numBlockGroups sb -> 0 <= FirstDataBlock sb < 2 ^ 32 -> 0 < BlocksPerGroup sb < 2 ^ 31 ->
  readBGD d fsOffset sb g = Ok bg ->
  (forall b, b ∈ bits -> 0 <= b < BlocksPerGroup sb /\
     let blk := g * BlocksPerGroup sb + FirstDataBlock sb + b in
     (blk < InodeTableBlock bg \/
      w64 (InodeTableBlock bg +
        w64 (InodesPerGroup sb * InodeSize sb + BlockSize sb - 1) / BlockSize sb) <= blk)) ->
  check_itable fsOffset d sb
    ((fun b => w64 (g * BlocksPerGroup sb + FirstDataBlock sb + b)) <$> bits) = Ok tt.
Proof.
  intros Hg Hf Hm Hr Hb. pose proof (numBlockGroups_lt sb).
  induction bits as [|b bits IH]; [done|].
  destruct (Hb b ltac:(set_solver)) as [Hbr Hout]. cbv zeta in Hout.
  cbn [fmap list_fmap check_itable].
  assert (0 <= g * BlocksPerGroup sb <= (2 ^ 32 - 1) * (2 ^ 31 - 1)) by nia.
  rewrite w64_small by lia. rewrite ltb_false, eqb_false by lia. cbn [orb].
  replace ((g * BlocksPerGroup sb + FirstDataBlock sb + b - FirstDataBlock sb) / BlocksPerGroup sb)
    with g by (apply Z.div_unique with b; lia).
  rewrite w32_small by lia. rewrite leb_false by lia. rewrite Hr. cbn [rbind].
  destruct (0 <? BlockSize sb) eqn:Ebs; zbool.
  - match goal with |- context [if ?c then _ else _] => destruct c eqn:Ec end.
    + zbool. lia.
    + apply IH. intros b' Hb'. apply Hb. set_solver.
  - cbn [Z.ltb Z.compare andb]. apply IH. intros b' Hb'. apply Hb. set_solver.
Qed.

(** What an allocation of [n] blocks in group [g] leaves. *)
Definition allocated (s s' : fsys D) (n : Z) (blocks : list Z) : Prop :=
  let m := BlocksPerGroup (fs_sb s) in
  exists g c bg bmap imap bits raw' bmap',
    0 <= g < numBlockGroups (fs_sb s) /\ group_at fsOffset s g bg bmap imap /\
    blocks = (fun b => w64 (g * m + FirstDataBlock (fs_sb s) + b)) <$> bits /\
    free_choice bmap m n bits /\
    (forall j, 0 <= j -> used bmap' j = bool_decide (j ∈ bits) || used bmap j) /\
    zlen (free_bits bmap m) = zlen (free_bits bmap' m) + n /\
    group_done fsOffset (with_cursor s c) s' g (BlockBitmapBlock bg)
      (with_FreeBlocks (fs_sb s) (w64 (sb_FreeBlocksCount (fs_sb s) - n)))
      (recounted (fs_sb s) bg bmap' imap raw') bmap' imap.

(** No group can serve [n] blocks. *)
Definition exhausted (s : fsys D) (n : Z) : Prop :=
  forall g bg bmap imap, 0 <= g < numBlockGroups (fs_sb s) -> group_at fsOffset s g bg bmap imap ->
    FreeBlocksCount bg < n \/ zlen (free_bits bmap (BlocksPerGroup (fs_sb s))) < n.

Lemma group_at_det (s : fsys D) g bg bmap imap bg' bmap' imap' :
  group_at fsOffset s g bg bmap imap -> group_at fsOffset s g bg' bmap' imap' ->
  bg' = bg /\ bmap' = bmap /\ imap' = imap.
Proof. intros [A1 A2 A3 _] [B1 B2 B3 _]. split_and!; congruence. Qed.

Lemma locked_allocated (s s' : fsys D) c n g blocks :
  0 <= n -> fs_ok fsOffset s -> 0 <= g < numBlockGroups (fs_sb s) ->
  allocBlocksLocked fsOffset n g (with_cursor s c) = (Ok (Some blocks), s') ->
  allocated s s' n blocks.
Proof.
  intros Hn Hok Hg Ha. destruct (fs_ok_cursor fsOffset s c Hok) as (Hr & _ & Hgs).
  destruct (Hgs g Hg) as (bg & bmap & imap & Hga & L & Hrd & _).
  eapply allocBlocksLocked_spec in Ha as (bits & raw' & bmap' & Hb & Hc & Hu & Hf & Hd); eauto.
  exists g, c, bg, bmap, imap, bits, raw', bmap'. split_and!; auto; try lia.
  destruct Hga. by split.
Qed.

Hypothesis Hwritable : dev_writable D.

(** An allocation whose blocks are then checked passes the check. *)
Lemma allocBlocksIn_total (s : fsys D) n g :
  0 <= n -> fs_ok fsOffset s -> itables_used s -> 0 <= g < numBlockGroups (fs_sb s) ->
  exists r s', allocBlocksIn fsOffset n g s = (Ok r, s').
Proof.
  intros Hn Hok (Hf & Hm & Hit) Hg. destruct Hok as (Hr & Hng & Hgs).
  destruct (Hgs g Hg) as (bg & bmap & imap & Hga & L & Hrd & Hu).
  pose proof Hga as [G1 G2 G3 G4]. pose proof L as [].
  destruct (allocBlocksLocked_total fsOffset Hwritable s n g bg bmap imap) as (r & s' & Hal); auto.
  pose proof Hr as (Hrs & _).
  unfold allocBlocksIn, mbnd at 1, get_sb at 1. unfold mbnd at 1, gets at 1. rewrite G1.
  unfold mbnd at 1.
  assert (exists b : bool, (if FreeBlocksCount bg <? n then
       do! q := try (readBitmap fsOffset (BlockBitmapBlock bg)) in
       match q with
       | inr _ => ret true
       | inl bmap =>
           do! free := mlift (countFreeInBitmap bmap (BlocksPerGroup (fs_sb s))) in
           ret (free <? n)
       end
     else ret false) s = (Ok b, s)) as [b ->].
  { destruct (_ <? n); [|by eexists]. unfold mbnd at 1, try.
    rewrite (readBitmap_empty fsOffset s _ bmap) by (auto; lia). unfold mbnd, mlift.
    rewrite countFree_block by lia. by eexists. }
  destruct b; [by eexists _, _|]. unfold mbnd at 1. rewrite Hal. destruct r as [blocks|]; [|by eexists _, _].
  pose proof Hal as Hsp.
  eapply allocBlocksLocked_spec in Hsp as (bits & raw' & bmap' & Hb & (Hbn & Hnd & Hfree) & _ & _ & Hd); eauto.
  destruct Hd as ([N1 N2 N3 N4] & Hsb & _). unfold mbnd, gets. rewrite Hb.
  rewrite Hsb in *.
  pose proof (check_itable_ok (fs_dev s')
    (encodeRaw (with_FreeBlocks (fs_sb s) (w64 (sb_FreeBlocksCount (fs_sb s) - n)))) g
    (recounted (fs_sb s) bg bmap' imap raw') bits Hg Hf Hm N1) as Hci.
  cbn [BlocksPerGroup FirstDataBlock encodeRaw with_raw with_FreeBlocks with_counts] in Hci |- *.
  rewrite Hci; [by eexists _, _|].
  intros b Hin. destruct (Hfree b Hin) as [Hfr Hrng]. split; [done|]. cbv zeta.
  apply (Hit g bg bmap imap b Hg Hga Hrng Hfr).
Qed.

Lemma itables_used_cursor (s : fsys D) c : itables_used s -> itables_used (with_cursor s c).
Proof.
  intros (Hf & Hm & Hit). split_and!; try apply Hf; try apply Hm. intros g bg bmap imap b Hg [].
  apply (Hit g bg bmap imap b Hg). by split.
Qed.

(** The conservative pass over all groups. *)
Lemma lockedAllocBlocks_total (s : fsys D) n :
  0 <= n -> fs_ok fsOffset s ->
  (exists g blocks s', 0 <= g < numBlockGroups (fs_sb s) /\
     lockedAllocBlocks fsOffset n s = (Ok blocks, s') /\
     allocBlocksLocked fsOffset n g s = (Ok (Some blocks), s')) \/
  (exists e, lockedAllocBlocks fsOffset n s = (Err e, s) /\ exhausted s n).
Proof.
  intros Hn (Hr & Hng & Hgs). pose proof (numBlockGroups_lt (fs_sb s)).
  unfold lockedAllocBlocks, mbnd at 1 2, get_sb. unfold mbnd.
  destruct (scan_groups_total (allocBlocksLocked fsOffset n) (Z.to_nat (numBlockGroups (fs_sb s))) 0 0 s Hng)
    as [(g & a & s' & Hg & Hb & ->)|[-> Hall]].
  - intros g Hg. destruct (Hgs g Hg) as (bg & bmap & imap & Hga & L & Hrd & Hu).
    destruct (allocBlocksLocked_total fsOffset Hwritable s n g bg bmap imap) as (r & s' & Hal); auto.
    exists r, s'. split; [done|]. intros ->.
    by apply (allocBlocksLocked_None fsOffset s s' n g) in Hal; auto.
  - left. exists g, a, s'. auto.
  - right. eexists. split; [done|]. intros g bg bmap imap Hg Hga.
    specialize (Hall g ltac:(lia)). rewrite Z.add_0_l, w32_small, Z.mod_small in Hall by lia.
    destruct (Hgs g Hg) as (bg' & bmap' & imap' & Hga' & L & Hrd & Hu).
    destruct (group_at_det _ _ _ _ _ _ _ _ Hga Hga') as (-> & -> & ->).
    eapply allocBlocksLocked_spec in Hall as [_ Hex]; eauto.
Qed.

(** The scan of [allocBlocks], with the cursor moved. *)
Lemma allocBlocks_eq (s : fsys D) n :
  0 < numBlockGroups (fs_sb s) ->
  let c := w32 (fs_cursor s + 1) in
  allocBlocks fsOffset n s =
  (do! r := scan_groups (allocBlocksIn fsOffset n) (Z.to_nat (numBlockGroups (fs_sb s)))
     (c mod numBlockGroups (fs_sb s)) 0 in
   match r with
   | Some blocks => ret blocks
   | None =>
       do! r := try (lockedAllocBlocks fsOffset n) in
       match r with
       | inl blocks => ret blocks
       | inr _ => mfail (Errorf "ext4: no free blocks")
       end
   end) (with_cursor s c).
Proof.
  intros Hng c. unfold allocBlocks, mbnd at 1, nextStart. rewrite eqb_false by lia. done.
Qed.

Lemma allocBlocks_total (s : fsys D) n :
  0 <= n -> fs_ok fsOffset s -> itables_used s ->
  (exists blocks s', allocBlocks fsOffset n s = (Ok blocks, s') /\ allocated s s' n blocks) \/
  (exists e s', allocBlocks fsOffset n s = (Err e, s') /\
     s' = with_cursor s (w32 (fs_cursor s + 1)) /\ exhausted s n).
Proof.
  intros Hn Hok Hit. set (c := w32 (fs_cursor s + 1)).
  pose proof (fs_ok_cursor fsOffset s c Hok) as Hokc. pose proof Hokc as (Hr & Hng & Hgs).
  pose proof (allocBlocks_eq s n Hng) as Heq. cbv zeta in Heq. fold c in Heq. unfold mbnd in Heq.
  destruct (scan_groups_total (allocBlocksIn fsOffset n)
    (Z.to_nat (numBlockGroups (fs_sb s))) (c mod numBlockGroups (fs_sb s)) 0
    (with_cursor s c) Hng) as [(g & a & s' & Hg & Hb & Hs)|[Hs _]].
  - intros g Hg. destruct (allocBlocksIn_total (with_cursor s c) n g) as (r & s' & Hal); auto.
    { by apply itables_used_cursor. }
    exists r, s'. split; [done|]. intros ->.
    by apply (allocBlocksIn_spec fsOffset _ s' n g None) in Hal; auto.
  - rewrite Hs in Heq. left. exists a, s'. split; [done|].
    apply (allocBlocksIn_spec fsOffset _ s' n g) in Hb; auto. by apply (locked_allocated s s' c n g).
  - rewrite Hs in Heq. unfold try in Heq. destruct (lockedAllocBlocks_total (with_cursor s c) n Hn Hokc)
      as [(g & blocks & s' & Hg & Hl & Hb)|(e & Hl & Hex)]; rewrite Hl in Heq.
    + left. exists blocks, s'. split; [done|]. by apply (locked_allocated s s' c n g).
    + right. eexists _, _. split; [exact Heq|]. split; [done|]. intros g bg bmap imap Hg [].
      apply (Hex g bg bmap imap Hg). by split.
Qed.

(** What an allocation of an inode leaves. *)
Definition inode_allocated (s s' : fsys D) (isDir : bool) (ino : Z) : Prop :=
  let m := InodesPerGroup (fs_sb s) in
  exists g c bg bmap imap bit raw' imap',
    0 <= g < numBlockGroups (fs_sb s) /\ group_at fsOffset s g bg bmap imap /\
    ino = w32 (g * m + bit + 1) /\ 0 <= bit < m /\ used imap bit = false /\
    (forall j, 0 <= j -> used imap' j = bool_decide (j = bit) || used imap j) /\
    group_done fsOffset (with_cursor s c) s' g (InodeBitmapBlock bg)
      (with_FreeInodes (fs_sb s) (w32 (sb_FreeInodesCount (fs_sb s) - 1)))
      (recounted (fs_sb s) (bgd_with_counts bg (FreeBlocksCount bg) (FreeInodesCount bg - 1)
         (if isDir then UsedDirsCount bg + 1 else UsedDirsCount bg)) bmap imap' raw') bmap imap'.

Lemma allocInode_total (s : fsys D) isDir :
  fs_ok fsOffset s -> numBlockGroups (fs_sb s) < 2 ^ 31 ->
  (exists ino s', allocInode fsOffset isDir s = (Ok ino, s') /\ inode_allocated s s' isDir ino) \/
  (exists e s', allocInode fsOffset isDir s = (Err e, s') /\
     s' = with_cursor s (w32 (fs_cursor s + 1)) /\
     forall g bg bmap imap, 0 <= g < numBlockGroups (fs_sb s) -> group_at fsOffset s g bg bmap imap ->
       FreeInodesCount bg = 0 \/ forall i, 0 <= i < InodesPerGroup (fs_sb s) -> used imap i = true).
Proof.
  intros Hok Hlt. set (c := w32 (fs_cursor s + 1)).
  pose proof (fs_ok_cursor fsOffset s c Hok) as Hokc. pose proof Hokc as (Hr & Hng & Hgs).
  cbn [fs_sb with_cursor] in Hng, Hgs.
  assert (allocInode fsOffset isDir s =
    (do! r := scan_groups (allocInodeIn fsOffset isDir) (Z.to_nat (numBlockGroups (fs_sb s)))
       (c mod numBlockGroups (fs_sb s)) 0 in
     match r with
     | Some ino => ret ino
     | None => mfail (Errorf "ext4: no free inodes")
     end) (with_cursor s c)) as Heq.
  { unfold allocInode, mbnd at 1, nextStart. by rewrite eqb_false by lia. }
  unfold mbnd in Heq.
  pose proof (Z.mod_pos_bound c _ Hng) as Hst.
  destruct (scan_groups_total (allocInodeIn fsOffset isDir)
    (Z.to_nat (numBlockGroups (fs_sb s))) (c mod numBlockGroups (fs_sb s)) 0
    (with_cursor s c) Hng) as [(g & a & s' & Hg & Hb & Hs)|[Hs Hall]].
  - intros g Hg. destruct (Hgs g Hg) as (bg & bmap & imap & Hga & L & Hrd & Hu).
    destruct (allocInodeIn_total fsOffset Hwritable (with_cursor s c) isDir g bg bmap imap)
      as (r & s' & Hal); auto.
    exists r, s'. split; [done|]. intros ->.
    by apply (allocInodeIn_None fsOffset _ s' isDir g) in Hal; auto.
  - rewrite Hs in Heq. left. exists a, s'. split; [done|]. destruct (Hgs g Hg) as (bg & bmap & imap & Hga & L & Hrd & Hu).
    eapply allocInodeIn_spec in Hb as (bit & raw' & imap' & Hi & Hbit & Hf & Hu' & Hd); eauto.
    exists g, c, bg, bmap, imap, bit, raw', imap'. split_and!; auto; try apply Hg; try apply Hbit.
    destruct Hga. by split.
  - rewrite Hs in Heq. right. eexists _, _. split; [exact Heq|]. split; [done|].
    intros g bg bmap imap Hg Hga.
    cbn [fs_sb with_cursor] in Hall.
    set (n := numBlockGroups (fs_sb s)) in *. set (start := c mod n) in *.
    specialize (Hall ((g - start) mod n) ltac:(pose proof (Z.mod_pos_bound (g - start) n); lia)).
    pose proof (Z.mod_pos_bound (g - start) n Hng).
    rewrite w32_small, Z.add_mod_idemp_r, Zplus_minus, Z.mod_small in Hall by lia.
    destruct (Hgs g Hg) as (bg' & bmap' & imap' & Hga' & L & Hrd & Hu).
    assert (group_at fsOffset (with_cursor s c) g bg bmap imap) as Hgc by (destruct Hga; by split).
    destruct (group_at_det _ _ _ _ _ _ _ _ Hgc Hga') as (-> & -> & ->).
    eapply allocInodeIn_spec in Hall as [_ Hex]; eauto.
Qed.

End scans.

(** * Properties *)

Section properties.
Context {D : Type} `{BlockDevLaws D}.
Context (fsOffset : Z).

(** C1: allocating [n] blocks on a file system at rest always returns.  Either it
    yields [n] distinct blocks of one group, all free before, after which the
    group's bitmap has exactly these bits more, its descriptor carries the counts
    of the bitmaps, the superblock has [n] free blocks less in memory and on disk,
    no reservation is left and every other byte of the device is unchanged; or it
    fails, nothing but the cursor has changed, and no group had [n] free blocks. *)
Theorem allocBlocks_correct (s : fsys D) n :
  dev_writable D -> 0 <= n -> fs_ok fsOffset s -> itables_used fsOffset s ->
  (exists blocks s', allocBlocks fsOffset n s = (Ok blocks, s') /\ allocated fsOffset s s' n blocks) \/
  (exists e s', allocBlocks fsOffset n s = (Err e, s') /\
     s' = with_cursor s (w32 (fs_cursor s + 1)) /\ exhausted fsOffset s n).
Proof. intros Hw. by apply allocBlocks_total. Qed.

(** C19: allocating an inode on a file system at rest always returns.  Either it
    yields an inode whose bit was clear, after which exactly that bit is set, the
    descriptor counts the bitmaps (and one more directory, for a directory), the
    superblock has one free inode less, no reservation is left and every other
    byte of the device is unchanged; or it fails, nothing but the cursor has
    changed, and every group reports no free inode or has none. *)
Theorem allocInode_correct (s : fsys D) isDir :
  dev_writable D -> fs_ok fsOffset s -> numBlockGroups (fs_sb s) < 2 ^ 31 ->
  (exists ino s', allocInode fsOffset isDir s = (Ok ino, s') /\
     inode_allocated fsOffset s s' isDir ino) \/
  (exists e s', allocInode fsOffset isDir s = (Err e, s') /\
     s' = with_cursor s (w32 (fs_cursor s + 1)) /\
     forall g bg bmap imap, 0 <= g < numBlockGroups (fs_sb s) -> group_at fsOffset s g bg bmap imap ->
       FreeInodesCount bg = 0 \/ forall i, 0 <= i < InodesPerGroup (fs_sb s) -> used imap i = true).
Proof. intros Hw. by apply allocInode_total. Qed.

(** C9: freeing a block of a group at rest always succeeds: exactly its bit is
    cleared, the descriptor carries the counts of the bitmaps and, under
    [metadata_csum], a valid checksum, the superblock has one free block more, no
    reservation is left and every other byte of the device is unchanged. *)
Theorem freeBlock_correct (s : fsys D) blk bg bmap imap :
  let m := BlocksPerGroup (fs_sb s) in
  let g := w32 ((blk - FirstDataBlock (fs_sb s)) / m) in
  let bit := (blk - FirstDataBlock (fs_sb s)) mod m in
  dev_writable D -> 0 < m -> FirstDataBlock (fs_sb s) <= blk -> at_rest s ->
  group_at fsOffset s g bg bmap imap ->
  layout fsOffset (fs_sb s) g (BlockBitmapBlock bg) (InodeBitmapBlock bg) ->
  readable fsOffset (fs_dev s) (fs_sb s) g -> FreeBlocksCount bg + 1 < count_max (fs_sb s) ->
  exists s' raw' bmap', freeBlock fsOffset blk s = (Ok tt, s') /\
    (forall j, 0 <= j -> used bmap' j = negb (bool_decide (j = bit)) && used bmap j) /\
    (csum_on (fs_sb s) -> bgd_csum_ok (fs_sb s) g raw') /\
    group_done fsOffset s s' g (BlockBitmapBlock bg)
      (with_FreeBlocks (fs_sb s) (w64 (sb_FreeBlocksCount (fs_sb s) + 1)))
      (recounted (fs_sb s) (bgd_with_counts bg (FreeBlocksCount bg + 1) (FreeInodesCount bg)
         (UsedDirsCount bg)) bmap' imap raw') bmap' imap.
Proof.
  intros m g bit Hw Hm Hblk Hr Hga L Hrd Hfb.
  destruct (freeBlock_total fsOffset Hw s blk bg bmap imap) as [s' Hf]; auto.
  pose proof Hf as Hf'. eapply freeBlock_spec in Hf' as (raw' & bmap' & Hu & Hc & Hd); eauto.
  exists s', raw', bmap'. auto.
Qed.

(** The write path that watches for inode tables ([writeAtWithTrace]) is, for
    one client, a plain write: the candidates are stable when they are checked
    again under the locks, whatever the descriptors say. *)
Theorem writeAtWithTrace_is_write off data (s : fsys D) :
  32 <= DescSize (fs_sb s) ->
  writeAtWithTrace fsOffset off data s = on_dev (write_at off data) s.
Proof. intros Hd. apply writeAtWithTrace_write. intros g. by apply readBGD_np. Qed.

End properties.

(** ** Witnesses on the small image *)

Definition img_bg : bgd := the (Bgd [] 0 0 0 0 0 0 0) (readBGD (MemDev (img_bytes 0)) 0 (img_sb 0) 0).

Lemma img_group c : group_at 0 (with_cursor (img 0) c) 0 img_bg img_bmap img_imap.
Proof. split; [vm_compute; reflexivity..|]. vm_compute; split; congruence. Qed.

Lemma img_layout : layout 0 (img_sb 0) 0 (BlockBitmapBlock img_bg) (InodeBitmapBlock img_bg).
Proof. split; unfold sep; vm_compute; try (split; congruence); try congruence; auto; (left; congruence) || (right; congruence). Qed.

Lemma img_readable : readable 0 (MemDev (img_bytes 0)) (img_sb 0) 0.
Proof. split; eexists; vm_compute; reflexivity. Qed.

Lemma img_at_rest : at_rest (img 0).
Proof. split_and!; [done|vm_compute; reflexivity|by apply all_bytes_ok]. Qed.

Lemma img_ok : fs_ok 0 (img 0).
Proof.
  split_and!; [apply img_at_rest|by vm_compute|]. intros g Hg.
  assert (g = 0) as -> by (change (numBlockGroups (fs_sb (img 0))) with 1 in Hg; lia).
  exists img_bg, img_bmap, img_imap. split_and!;
    [apply (img_group 0)|apply img_layout|apply img_readable|by vm_compute].
Qed.

Lemma img_itables : itables_used 0 (img 0).
Proof.
  split_and!; [by vm_compute..|]. intros g bg bmap imap b Hg Hga Hb Hu.
  assert (g = 0) as -> by (change (numBlockGroups (fs_sb (img 0))) with 1 in Hg; lia).
  destruct (group_at_det 0 _ _ _ _ _ _ _ _ (img_group 0) Hga) as (-> & -> & ->).
  change (BlocksPerGroup (fs_sb (img 0))) with 64 in Hb.
  assert (7 <= b) as Hb7.
  { destruct (decide (7 <= b)) as [|Hn]; [done|].
    assert (b = 0 \/ b = 1 \/ b = 2 \/ b = 3 \/ b = 4 \/ b = 5 \/ b = 6) as Hc by lia.
    destruct_or! Hc; subst b; vm_compute in Hu; discriminate. }
  right. cbv zeta. change (FirstDataBlock (fs_sb (img 0))) with 1.
  change (w64 _) with 7. lia.
Qed.

Lemma allocBlocks_correct_witness :
  exists s', allocBlocks 0 3 (img 0) = (Ok [8; 9; 10], s') /\ allocated 0 (img 0) s' 3 [8; 9; 10].
Proof.
  destruct (allocBlocks_correct 0 (img 0) 3 memdev_writable ltac:(lia) img_ok img_itables)
    as [(blocks & s' & Ha & Hs)|(e & s' & Ha & _)].
  - assert (fst (allocBlocks 0 3 (img 0)) = Ok [8; 9; 10]) as Hb by (vm_compute; reflexivity).
    rewrite Ha in Hb. injection Hb as ->. eauto.
  - assert (is_ok (fst (allocBlocks 0 3 (img 0))) = true) as Hb by (vm_compute; reflexivity).
    rewrite Ha in Hb. discriminate.
Defined.

Lemma allocInode_correct_witness :
  exists s', allocInode 0 true (img 0) = (Ok 12, s') /\ inode_allocated 0 (img 0) s' true 12.
Proof.
  destruct (allocInode_correct 0 (img 0) true memdev_writable img_ok ltac:(by vm_compute))
    as [(ino & s' & Ha & Hs)|(e & s' & Ha & _)].
  - assert (fst (allocInode 0 true (img 0)) = Ok 12) as Hb by (vm_compute; reflexivity).
    rewrite Ha in Hb. injection Hb as ->. eauto.
  - assert (is_ok (fst (allocInode 0 true (img 0))) = true) as Hb by (vm_compute; reflexivity).
    rewrite Ha in Hb. discriminate.
Defined.

Lemma freeBlock_correct_witness :
  exists s' bmap', freeBlock 0 7 (img 0) = (Ok tt, s') /\
    (forall j, 0 <= j -> used bmap' j = negb (bool_decide (j = 6)) && used img_bmap j).
Proof.
  destruct (freeBlock_correct 0 (img 0) 7 img_bg img_bmap img_imap) as (s' & raw' & bmap' & Hf & Hu & _);
    [apply memdev_writable|by vm_compute|by vm_compute|apply img_at_rest|apply (img_group 0)|
     apply img_layout|apply img_readable|by vm_compute|].
  exists s', bmap'. split; [done|]. exact Hu.
Defined.

Lemma writeAtWithTrace_is_write_witness :
  writeAtWithTrace 0 6000 [1; 2; 3] (img 0) = on_dev (write_at 6000 [1; 2; 3]) (img 0).
Proof. apply writeAtWithTrace_is_write. by vm_compute. Defined.

