(* ===== verification/JournalSpec.v ===== *)
(** What the sidecar journal guarantees ([src/journal.go]): a log of complete
    transactions is replayed in order whatever the crash left in the blocks it
    covers, a commit appends exactly its record and applies exactly its entries,
    and what happens to each kind of torn tail. *)

From S2P Require Import Prelude Bytes Crc Device Superblock Bgd Bitmap GoLib Extent Limits Inode Alloc Journal Image AllocSpec.

(** The bytes of a sequence of committed transactions. *)
Definition log_bytes (txs : list (Z * list journalEntry)) : list Z :=
  concat ((fun p => tx_log p.1 p.2) <$> txs).
Definition max_seq (last : Z) (txs : list (Z * list journalEntry)) : Z :=
  fold_left (fun m p => if m <? p.1 then p.1 else m) txs last.
Definition log_entries (txs : list (Z * list journalEntry)) : list journalEntry :=
  concat (snd <$> txs).

(** The image, as bytes, after entries have been written over it. *)
Definition log_view (fsOffset bs : Z) (v : Z -> Z) (es : list journalEntry) : Z -> Z :=
  fold_left (fun v e => upd_bytes v (fsOffset + je_Block e * bs) (je_Data e)) es v.
Definition covered (fsOffset bs : Z) (es : list journalEntry) (i : Z) : Prop :=
  exists e, e ∈ es /\ fsOffset + je_Block e * bs <= i < fsOffset + je_Block e * bs + zlen (je_Data e).

Lemma log_view_app o bs v es1 es2 :
  log_view o bs v (es1 ++ es2) = log_view o bs (log_view o bs v es1) es2.
Proof. apply fold_left_app. Qed.

Lemma upd_bytes_ext v w off l i :
  v i = w i -> upd_bytes v off l i = upd_bytes w off l i.
Proof. unfold upd_bytes. by destruct (_ && _). Qed.

(** Outside the blocks of the entries only the start matters, inside only the
    entries. *)
Lemma log_view_agree o bs es v w i :
  covered o bs es i \/ v i = w i -> log_view o bs v es i = log_view o bs w es i.
Proof.
  revert v w. induction es as [|e es IH]; intros v w Hi; cbn.
  { destruct Hi as [(e & He & _)|]; [by apply elem_of_nil in He|done]. }
  apply IH. destruct Hi as [(e' & He & Hr)|Hi]; [|right; by apply upd_bytes_ext].
  apply elem_of_cons in He as [->|He]; [|left; by exists e'].
  right. unfold upd_bytes. by rewrite leb_true, ltb_true by lia.
Qed.

Lemma length_log_bytes txs : Forall tx_ok txs -> (length txs <= length (log_bytes txs))%nat.
Proof.
  induction 1 as [|p txs Hp _ IH]; [done|]. unfold log_bytes in *.
  cbn [fmap list_fmap concat length]. rewrite length_app. unfold tx_log at 1. rewrite length_app.
  pose proof (length_tx_body p Hp). lia.
Qed.

Lemma init_from_log txs t fuel last :
  Forall tx_ok txs ->
  init_from (length txs + fuel) (log_bytes txs ++ t) last = init_from fuel t (max_seq last txs).
Proof.
  intros Ht. revert last. induction Ht as [|p txs Hp _ IH]; intros last; [done|].
  cbn [log_bytes fmap list_fmap concat length Nat.add init_from]. rewrite <- app_assoc.
  destruct (parse_tx p (concat ((fun p => tx_log p.1 p.2) <$> txs) ++ t) Hp) as [_ ->].
  cbn [rbind]. apply IH.
Qed.

Section open.
Context {F : Type} `{Sidecar F}.

Lemma init_log_fuel (js : F) txs t :
  Forall tx_ok txs -> js_content js = log_bytes txs ++ t ->
  exists fuel, S (length (js_content js)) = (length txs + S fuel)%nat.
Proof.
  intros Ht ->. rewrite length_app. pose proof (length_log_bytes txs Ht).
  exists (length (log_bytes txs) + length t - length txs)%nat. lia.
Qed.

Lemma OpenJournal_log (js : F) bs txs t :
  Forall tx_ok txs -> js_content js = log_bytes txs ++ t -> init_parse t = Ok ScanBreak ->
  let n := w64 (max_seq 0 txs + 1) in
  OpenJournal js bs = MkJournal js true n n (zlen (js_content js)) bs.
Proof.
  intros Ht Hc Hp. unfold OpenJournal, initNextSeq. cbn [j_js].
  destruct (init_log_fuel js txs t Ht Hc) as [fuel ->]. rewrite Hc, init_from_log by done.
  cbn [init_from]. by rewrite Hp.
Qed.

Lemma OpenJournal_disabled (js : F) bs txs t e :
  Forall tx_ok txs -> js_content js = log_bytes txs ++ t -> init_parse t = Err e ->
  OpenJournal js bs = MkJournal js false 0 0 0 bs.
Proof.
  intros Ht Hc Hp. unfold OpenJournal, initNextSeq. cbn [j_js].
  destruct (init_log_fuel js txs t Ht Hc) as [fuel ->]. rewrite Hc, init_from_log by done.
  cbn [init_from]. by rewrite Hp.
Qed.

End open.

(** * Replay and apply *)

(** A device that can flush. *)
Definition dev_syncable (D : Type) `{BlockDev D} : Prop := forall d : D, (dev_Sync d).1 = None.

(** Two states of a file system that differ in the device only. *)
Definition same_meta {D} (s s' : fsys D) : Prop :=
  fs_sb s' = fs_sb s /\ fs_cursor s' = fs_cursor s /\ fs_rsv s' = fs_rsv s.

Lemma same_meta_trans {D} (s1 s2 s3 : fsys D) :
  same_meta s1 s2 -> same_meta s2 s3 -> same_meta s1 s3.
Proof. intros (? & ? & ?) (? & ? & ?). split_and!; congruence. Qed.

Section replay.
Context {D : Type} `{BlockDevLaws D}.
Context (fsOffset : Z).
Hypothesis Hwritable : dev_writable D.
Hypothesis Hsyncable : dev_syncable D.

(** An entry names a block of the file system that the device has. *)
Definition fits (s : fsys D) (bs : Z) (e : journalEntry) : Prop :=
  entry_ok e /\ 0 < zlen (je_Data e) /\ je_Block e < BlocksCount (fs_sb s) /\
  0 <= fsOffset + je_Block e * bs < 2 ^ 63 /\
  exists r, read_at (fs_dev s) (fsOffset + je_Block e * bs) (zlen (je_Data e)) = Ok r.

Lemma write_entry (s : fsys D) bs e :
  32 <= DescSize (fs_sb s) -> fits s bs e ->
  exists s', writeAtWithTrace fsOffset (block_off fsOffset bs (je_Block e)) (je_Data e) s = (Ok tt, s') /\
    same_meta s s' /\ (forall e', fits s bs e' -> fits s' bs e') /\
    forall i, dev_byte (fs_dev s') i = log_view fsOffset bs (dev_byte (fs_dev s)) [e] i.
Proof.
  intros Hd (He & Hl & Hb & Ho & r & Hr). unfold block_off. rewrite i64_small by lia.
  rewrite writeAtWithTrace_write by (intros; by apply readBGD_np). unfold on_dev.
  destruct (write_at_total Hwritable _ _ (je_Data e) _ _ eq_refl Hl Hr) as [d' Hw]. rewrite Hw.
  eexists. split; [done|]. split_and!; [done..| |].
  - intros e' (He' & Hl' & Hb' & Ho' & r' & Hr'). repeat (split; [done|]).
    by apply (write_at_readable _ _ _ _ _ _ _ Hw Hr').
  - cbn. apply write_at_Ok; [done|]. apply He.
Qed.

Lemma sync_total (s : fsys D) :
  exists s', on_dev sync_dev s = (Ok tt, s') /\ same_meta s s' /\
    (forall bs e, fits s bs e -> fits s' bs e) /\ (forall i, dev_byte (fs_dev s') i = dev_byte (fs_dev s) i).
Proof.
  unfold on_dev, sync_dev. pose proof (Hsyncable (fs_dev s)) as Hs.
  destruct (dev_Sync (fs_dev s)) as [r d'] eqn:E. cbn in Hs. subst r.
  eexists. split; [done|]. split_and!; [done..| |].
  - intros bs e (He & Hl & Hb & Ho & r & Hr). repeat (split; [done|]). exists r. rewrite <- Hr. cbn.
    unfold read_at. by rewrite (dev_sync_read _ _ _ _ _ E).
  - intros i. by apply (dev_sync_byte _ _ _ _ E).
Qed.

(** What a run over entries does to the state. *)
Definition applied (bs : Z) (es : list journalEntry) (s s' : fsys D) : Prop :=
  same_meta s s' /\ (forall e, fits s bs e -> fits s' bs e) /\
  forall i, dev_byte (fs_dev s') i = log_view fsOffset bs (dev_byte (fs_dev s)) es i.

Lemma log_view_ext bs es v w i :
  (forall i, v i = w i) -> log_view fsOffset bs v es i = log_view fsOffset bs w es i.
Proof. intros Hv. apply log_view_agree. auto. Qed.

Lemma applied_trans bs es1 es2 s1 s2 s3 :
  applied bs es1 s1 s2 -> applied bs es2 s2 s3 -> applied bs (es1 ++ es2) s1 s3.
Proof.
  intros (M1 & F1 & V1) (M2 & F2 & V2). split_and!; [by eapply same_meta_trans|auto|].
  intros i. rewrite V2, log_view_app. by apply log_view_ext.
Qed.

Lemma applied_refl bs s : applied bs [] s s.
Proof. split_and!; done. Qed.

Lemma replay_apply_total bs es (s : fsys D) :
  32 <= DescSize (fs_sb s) -> Forall (fits s bs) es ->
  exists s', replay_apply fsOffset bs es s = (Ok tt, s') /\ applied bs es s s'.
Proof.
  revert s. induction es as [|e es IH]; intros s Hd He; [by exists s; split; [|apply applied_refl]|].
  inversion_clear He as [|? ? Hfe Hfs]. cbn [replay_apply]. unfold mbnd at 1, get_sb.
  rewrite leb_false by apply Hfe.
  destruct (write_entry s bs e Hd Hfe) as (s1 & Hw & Hm & Hfit & Hv).
  unfold mbnd at 1, mwrap. rewrite Hw.
  destruct (IH s1) as (s2 & Hr & Ha).
  { by rewrite (proj1 Hm). }
  { eapply Forall_impl; [exact Hfs|auto]. }
  exists s2. split; [done|]. change (e :: es) with ([e] ++ es). eapply applied_trans; [|exact Ha]. done.
Qed.

Lemma apply_tx_total bs es (s : fsys D) :
  32 <= DescSize (fs_sb s) -> Forall (fits s bs) es ->
  exists s', apply_tx fsOffset bs es s = (Ok tt, s') /\ applied bs es s s'.
Proof.
  revert s. induction es as [|e es IH]; intros s Hd He; [by exists s; split; [|apply applied_refl]|].
  inversion_clear He as [|? ? Hfe Hfs]. cbn [apply_tx].
  destruct (write_entry s bs e Hd Hfe) as (s1 & Hw & Hm & Hfit & Hv).
  unfold mbnd at 1, mwrap. rewrite Hw.
  destruct (IH s1) as (s2 & Hr & Ha).
  { by rewrite (proj1 Hm). }
  { eapply Forall_impl; [exact Hfs|auto]. }
  exists s2. split; [done|]. change (e :: es) with ([e] ++ es). eapply applied_trans; [|exact Ha]. done.
Qed.

(** The sequence number after a replay. *)
Definition next_seq (next : Z) (txs : list (Z * list journalEntry)) : Z :=
  fold_left (fun m p => if m <=? p.1 then w64 (p.1 + 1) else m) txs next.

(** A log in front of any tail: the transactions are applied in order and the
    loop goes on with the tail. *)
Lemma replay_from_log bs txs t fuel next (s : fsys D) :
  32 <= DescSize (fs_sb s) -> Forall tx_ok txs -> Forall (fits s bs) (log_entries txs) ->
  exists s', replay_from fsOffset (length txs + fuel) bs (log_bytes txs ++ t) next s =
             replay_from fsOffset fuel bs t (next_seq next txs) s' /\
    applied bs (log_entries txs) s s'.
Proof.
  intros Hd Ht. revert next s Hd.
  induction Ht as [|p txs Hp _ IH]; intros next s Hd Hf; [by exists s; split; [|apply applied_refl]|].
  unfold log_entries in Hf. cbn [fmap list_fmap concat] in Hf. apply Forall_app in Hf as [Hf1 Hf2].
  unfold log_bytes. cbn [fmap list_fmap concat length Nat.add replay_from]. rewrite <- app_assoc.
  destruct (parse_tx p (concat ((fun p => tx_log p.1 p.2) <$> txs) ++ t) Hp) as [Hpt _].
  unfold mbnd at 1, mlift. rewrite Hpt.
  destruct (replay_apply_total bs p.2 s Hd Hf1) as (s1 & Ha & Hap). unfold mbnd at 1. rewrite Ha.
  destruct (sync_total s1) as (s2 & Hs & Hm2 & Hf3 & Hv2). unfold mbnd at 1. rewrite Hs.
  assert (applied bs p.2 s s2) as Hap2.
  { destruct Hap as (M1 & F1 & V1). split_and!; [by eapply same_meta_trans|auto|].
    intros i. by rewrite Hv2. }
  destruct (IH (if next <=? p.1 then w64 (p.1 + 1) else next) s2) as (s3 & Hr & Ha3).
  { by rewrite (proj1 (proj1 Hap2)). }
  { eapply Forall_impl; [exact Hf2|]. apply Hap2. }
  exists s3. split; [exact Hr|]. by eapply applied_trans.
Qed.

End replay.

(** * The sidecar file *)

Lemma file_write_append c bs : file_write c (zlen c) bs = c ++ bs.
Proof.
  unfold file_write. replace (zlen c + zlen bs - zlen c) with (zlen bs) by lia.
  rewrite zsplice_fits by (unfold zlen, zeros; rewrite ?length_app, ?length_replicate; lia).
  unfold zlen. rewrite !Nat2Z.id, take_app_length.
  rewrite drop_ge, app_nil_r; [done|]. unfold zeros. rewrite length_app, length_replicate. lia.
Qed.

Lemma file_write_fmap_w8 c off bs :
  bytes_ok bs -> w8 <$> file_write c off bs = file_write (w8 <$> c) off bs.
Proof.
  intros Hb. unfold file_write, zsplice. rewrite zlen_fmap, !fmap_app, !fmap_take, !fmap_drop, !fmap_app.
  assert (w8 <$> bs = bs) as ->.
  { clear -Hb. induction Hb as [|x l Hx _ IH]; [done|]. cbn. rewrite IH. f_equal.
    by apply w8_small. }
  rewrite !length_app, length_fmap. unfold zeros. by rewrite fmap_replicate.
Qed.

Lemma bytes_ok_fmap_w8 l : bytes_ok (w8 <$> l).
Proof. apply Forall_fmap, Forall_true. intros x. apply w8_range. Qed.

#[global] Instance memfile_SidecarLaws : SidecarLaws memfile.
Proof.
  split.
  - intros f. apply bytes_ok_fmap_w8.
  - intros f off bs f' Hw _ Hb. cbn in *. destruct (_ <? _); simplify_eq. cbn. by apply file_write_fmap_w8.
  - intros f off bs e f' Hw _. cbn in *. destruct (_ <? _); by simplify_eq.
Qed.

(** A file in memory that always grows. *)
Record growfile : Type := GrowFile { gf_bytes : list Z }.
#[global] Instance growfile_Sidecar : Sidecar growfile := {
  js_content := fun f => w8 <$> gf_bytes f;
  js_WriteAt := fun f off bs => (None, GrowFile (file_write (gf_bytes f) off bs));
  js_Truncate0 := fun f => GrowFile []
}.
#[global] Instance growfile_SidecarLaws : SidecarLaws growfile.
Proof.
  split.
  - intros f. apply bytes_ok_fmap_w8.
  - intros f off bs f' Hw _ Hb. cbn in *. simplify_eq. cbn. by apply file_write_fmap_w8.
  - intros f off bs e f' Hw _. by cbn in *.
Qed.

Definition sidecar_writable (F : Type) `{Sidecar F} : Prop :=
  forall (f : F) off bs, (js_WriteAt f off bs).1 = None.
Lemma growfile_writable : sidecar_writable growfile.
Proof. done. Qed.

(** * The journalled store *)

Lemma max_seq_le txs last p : p ∈ txs \/ p.1 <= last -> p.1 <= max_seq last txs.
Proof.
  revert last. induction txs as [|q txs IH]; intros last Hp; cbn.
  { destruct Hp as [Hp|]; [by apply elem_of_nil in Hp|done]. }
  apply IH. destruct Hp as [Hp|Hp]; [apply elem_of_cons in Hp as [->|Hp]|]; [|by left|];
    right; destruct (last <? _) eqn:E; zbool; lia.
Qed.

Lemma max_seq_range txs last :
  Forall tx_ok txs -> 0 <= last < 2 ^ 64 -> last <= max_seq last txs < 2 ^ 64.
Proof.
  intros Ht. revert last. induction Ht as [|q txs Hq _ IH]; intros last Hl; unfold max_seq in *; cbn [fold_left]; [lia|].
  pose proof (proj1 Hq). destruct (last <? q.1) eqn:E; zbool;
    [pose proof (IH q.1 ltac:(lia))|pose proof (IH last ltac:(lia))]; lia.
Qed.

Lemma next_seq_above next txs :
  (forall p, p ∈ txs -> p.1 < next) -> next_seq next txs = next.
Proof.
  revert next. induction txs as [|q txs IH]; intros next Hp; [done|].
  unfold next_seq in *. cbn [fold_left].
  rewrite leb_false by (apply Hp; set_solver). apply IH. intros p Hi. apply Hp. set_solver.
Qed.

Lemma log_bytes_app txs1 txs2 : log_bytes (txs1 ++ txs2) = log_bytes txs1 ++ log_bytes txs2.
Proof. unfold log_bytes. by rewrite fmap_app, concat_app. Qed.
Lemma log_entries_app txs1 txs2 : log_entries (txs1 ++ txs2) = log_entries txs1 ++ log_entries txs2.
Proof. unfold log_entries. by rewrite fmap_app, concat_app. Qed.
Lemma max_seq_app txs1 txs2 last : max_seq last (txs1 ++ txs2) = max_seq (max_seq last txs1) txs2.
Proof. apply fold_left_app. Qed.

Section store.
Context {D : Type} `{BlockDevLaws D} {F : Type} `{SidecarLaws F}.
Context (fsOffset : Z).
Hypothesis Hwritable : dev_writable D.
Hypothesis Hsyncable : dev_syncable D.

(** The abstract store is an image [v0] and the transactions committed since:
    the sidecar holds their records, the image their effect. *)
Record jstore (v0 : Z -> Z) (txs : list (Z * list journalEntry)) (st : jfs (D := D) (F := F)) : Prop := {
  jst_txs : Forall tx_ok txs;
  jst_log : js_content (j_js st.2) = log_bytes txs;
  jst_enabled : j_enabled st.2 = true;
  jst_next : j_nextSeq st.2 = max_seq 0 txs + 1 /\ j_nextSeq st.2 < 2 ^ 64;
  jst_apply : j_applySeq st.2 = j_nextSeq st.2;
  jst_off : j_appendOff st.2 <= zlen (log_bytes txs);
  jst_desc : 32 <= DescSize (fs_sb st.1);
  jst_fits : Forall (fits fsOffset st.1 (j_blockSize st.2)) (log_entries txs);
  jst_view : forall i, dev_byte (fs_dev st.1) i =
               log_view fsOffset (j_blockSize st.2) v0 (log_entries txs) i
}.

(** A crash keeps the sidecar and any part of what was written since [v0] to the
    blocks of the entries: each byte of them may be old, new or anything. *)
Definition crashed (v0 : Z -> Z) (bs : Z) (es : list journalEntry) (s : fsys D) : Prop :=
  32 <= DescSize (fs_sb s) /\ Forall (fits fsOffset s bs) es /\
  forall i, covered fsOffset bs es i \/ dev_byte (fs_dev s) i = v0 i.

Lemma replay_open (js : F) v0 bs txs t (s : fsys D) :
  Forall tx_ok txs -> max_seq 0 txs + 1 < 2 ^ 64 ->
  js_content js = log_bytes txs ++ t -> init_parse t = Ok ScanBreak -> crashed v0 bs (log_entries txs) s ->
  let n := max_seq 0 txs + 1 in
  exists s', applied fsOffset bs (log_entries txs) s s' /\
    (forall i, dev_byte (fs_dev s') i = log_view fsOffset bs v0 (log_entries txs) i) /\
    (forall e, replay_parse t = Err e -> ReplayOnOpen fsOffset (OpenJournal js bs) s = (Err e, s')) /\
    (replay_parse t = Ok None -> ReplayOnOpen fsOffset (OpenJournal js bs) s =
       (Ok (MkJournal js true n n (zlen (js_content js)) bs), s')).
Proof.
  intros Ht Hm Hc Hi (Hd & Hf & Hv) n. pose proof (max_seq_range txs 0 Ht ltac:(lia)).
  rewrite (OpenJournal_log js bs txs t) by done. rewrite w64_small by lia. fold n.
  unfold ReplayOnOpen. cbn [j_enabled negb j_js j_blockSize j_nextSeq j_applySeq j_appendOff].
  destruct (init_log_fuel js txs t Ht Hc) as [fuel Hfuel]. rewrite Hfuel.
  destruct (replay_from_log fsOffset Hwritable Hsyncable bs txs t (S fuel) n s) as (s' & Hr & Ha); auto.
  exists s'. split_and!; [done| | |].
  - intros i. rewrite (proj2 (proj2 Ha)). apply log_view_agree. apply Hv.
  - intros e He. unfold mbnd at 1. rewrite Hc, Hr. cbn [replay_from]. unfold mbnd at 1, mlift. by rewrite He.
  - intros Hn. unfold mbnd at 1. rewrite Hc, Hr. cbn [replay_from]. unfold mbnd at 1, mlift. rewrite Hn.
    unfold ret. rewrite next_seq_above; [done|].
    intros p Hp. pose proof (max_seq_le txs 0 p (or_introl Hp)). lia.
Qed.

(** Opening after a crash restores the store. *)
Lemma recover_store (js : F) v0 bs txs (s : fsys D) :
  Forall tx_ok txs -> max_seq 0 txs + 1 < 2 ^ 64 -> js_content js = log_bytes txs -> crashed v0 bs (log_entries txs) s ->
  exists s' j', ReplayOnOpen fsOffset (OpenJournal js bs) s = (Ok j', s') /\ j_js j' = js /\
    same_meta s s' /\ j_blockSize j' = bs /\ jstore v0 txs (s', j').
Proof.
  intros Ht Hm Hc Hcr. pose proof Hcr as (Hd & Hf & _).
  destruct (replay_open js v0 bs txs [] s) as (s' & Ha & Hv & _ & Hr); auto.
  { by rewrite app_nil_r. }
  exists s'. eexists. split; [by apply Hr|]. split_and!; [done|apply Ha|done|].
  split; cbn; try done.
  - by rewrite Hc.
  - rewrite (proj1 (proj1 Ha)). done.
  - eapply Forall_impl; [exact Hf|]. apply Ha.
Qed.

Hypothesis Hsidecar : sidecar_writable F.

Lemma js_write_total off bs (s : fsys D) (j : Journal F) :
  0 <= off -> bytes_ok bs ->
  exists js', js_write off bs (s, j) =
    (Ok tt, (s, MkJournal js' (j_enabled j) (j_nextSeq j) (j_applySeq j) (j_appendOff j) (j_blockSize j))) /\
    js_content js' = file_write (js_content (j_js j)) off bs.
Proof.
  intros Ho Hb. unfold js_write. pose proof (Hsidecar (j_js j) off bs) as Hw.
  destruct (js_WriteAt (j_js j) off bs) as [e js'] eqn:E. cbn in Hw. subst e.
  exists js'. split; [done|]. by apply (js_write_full _ _ _ _ E).
Qed.

Lemma commit_record_ok seq crc : bytes_ok (commit_record seq crc).
Proof. unfold commit_record. rewrite !bytes_ok_app. auto using bytes_ok_le_encode. Qed.

(** The two appends of a commit. *)
Lemma append_record c body crec :
  file_write (file_write c (zlen c) body) (zlen c + zlen body) crec = c ++ body ++ crec.
Proof.
  rewrite file_write_append. rewrite <- zlen_app, file_write_append. by rewrite <- app_assoc.
Qed.

(** Up to its turn a commit appends its record. *)
Lemma Commit_append (s : fsys D) (j : Journal F) tx :
  let c := js_content (j_js j) in let seq := j_nextSeq j in
  j_enabled j = true -> j_applySeq j = seq -> 0 <= seq -> seq + 1 < 2 ^ 64 -> j_appendOff j <= zlen c ->
  tx_committed tx = false -> tx_ok (seq, tx_entries tx) ->
  exists js, js_content js = c ++ tx_log seq (tx_entries tx) /\
    Commit fsOffset tx (s, j) =
    defer_advance seq (on_fs (apply_tx fsOffset (j_blockSize j) (tx_entries tx)))
      (s, MkJournal js true (seq + 1) seq (zlen (c ++ tx_log seq (tx_entries tx))) (j_blockSize j)).
Proof.
  intros c seq Hen Hap Hn0 Hmax Hoff Htx Hok. subst seq.
  unfold Commit. rewrite Htx. unfold mbnd at 1, get_j at 1. rewrite Hen. cbn [negb].
  unfold mbnd at 1, set_j at 1. unfold mbnd at 1, get_j at 1.
  unfold reserveAppend. cbn [with_nextSeq j_js j_appendOff j_enabled j_nextSeq j_applySeq j_blockSize].
  fold c. assert ((if j_appendOff j <? zlen c then zlen c else j_appendOff j) = zlen c) as ->
    by (destruct (_ <? _) eqn:E; zbool; lia).
  unfold mbnd at 1, set_j at 1. unfold tx_log. set (body := tx_body _ _). set (crec := commit_record _ _).
  pose proof (zlen_nonneg c). pose proof (zlen_nonneg body).
  edestruct (js_write_total (zlen c) body s) as (js1 & Hw1 & Hc1); [lia|by apply (tx_body_ok _ Hok)|].
  unfold mbnd at 1. rewrite Hw1. clear Hw1. cbn [j_js] in Hc1. fold c in Hc1.
  edestruct (js_write_total (zlen c + zlen body) crec s) as (js2 & Hw2 & Hc2);
    [lia|apply commit_record_ok|].
  unfold mbnd at 1. rewrite Hw2. clear Hw2. cbn [j_js] in Hc2. rewrite Hc1, append_record in Hc2.
  unfold mbnd at 1, get_j. cbn [j_enabled j_nextSeq j_applySeq j_appendOff j_blockSize].
  rewrite Hap, Z.eqb_refl. cbn [negb]. exists js2. split; [done|].
  rewrite w64_small, !zlen_app by lia. by rewrite Hen.
Qed.

Lemma Commit_store v0 txs (s : fsys D) (j : Journal F) tx :
  jstore v0 txs (s, j) -> tx_committed tx = false -> zlen (tx_entries tx) < 2 ^ 32 ->
  Forall (fits fsOffset s (j_blockSize j)) (tx_entries tx) -> j_nextSeq j + 1 < 2 ^ 64 ->
  exists s' j', Commit fsOffset tx (s, j) = (Ok tt, (s', j')) /\
    jstore v0 (txs ++ [(j_nextSeq j, tx_entries tx)]) (s', j') /\
    applied fsOffset (j_blockSize j) (tx_entries tx) s s' /\
    j_blockSize j' = j_blockSize j /\ j_nextSeq j' = j_nextSeq j + 1.
Proof.
  intros [Ht Hlog Hen [Hn Hn64] Hap Hoff Hds Hf Hv] Htx Hlen Hfit Hmax. cbn [fst snd] in *.
  pose proof (max_seq_range txs 0 Ht ltac:(lia)) as Hms.
  assert (tx_ok (j_nextSeq j, tx_entries tx)) as Hok.
  { split_and!; cbn; [lia..|]. eapply Forall_impl; [exact Hfit|]. by intros e (? & _). }
  destruct (Commit_append s j tx) as (js & Hc & ->); rewrite ?Hlog; auto; [lia|].
  rewrite Hlog in Hc. unfold defer_advance, on_fs.
  destruct (apply_tx_total fsOffset Hwritable (j_blockSize j) (tx_entries tx) s Hds Hfit) as (s' & -> & Ha).
  cbn [j_applySeq]. rewrite Z.eqb_refl, w64_small by lia.
  do 2 eexists. split; [done|]. split_and!; [|done..]. pose proof Ha as (Hm & Hff & Hvv).
  assert (log_bytes txs ++ tx_log (j_nextSeq j) (tx_entries tx) =
          log_bytes (txs ++ [(j_nextSeq j, tx_entries tx)])) as Hlb.
  { rewrite log_bytes_app. f_equal. unfold log_bytes. cbn [fmap list_fmap concat fst snd].
    by rewrite app_nil_r. }
  rewrite Hlb in *.
  split; cbn [fst snd with_applySeq j_js j_enabled j_nextSeq j_applySeq j_appendOff j_blockSize]; try done.
  - apply Forall_app. split; [done|]. by constructor.
  - rewrite max_seq_app. unfold max_seq at 1. cbn. rewrite ltb_true by lia. lia.
  - by rewrite (proj1 Hm).
  - rewrite log_entries_app. apply Forall_app. split; [eapply Forall_impl; [exact Hf|auto]|].
    unfold log_entries. cbn. rewrite app_nil_r. eapply Forall_impl; [exact Hfit|auto].
  - intros i. rewrite Hvv, log_entries_app, log_view_app. unfold log_entries at 2. cbn.
    rewrite app_nil_r. by apply log_view_ext.
Qed.

End store.
