(* ===== verification/JournalWrite.v ===== *)
(** Writing through the journal ([addRangeToTx] and [applyOrJournalWrite] of
    [src/journal.go]): the whole blocks staged into a transaction amount to the
    bytes of the range, so that a journalled write has the effect of a direct
    one. *)

From S2P Require Import Prelude Bytes Crc Device Superblock Bgd Bitmap GoLib Extent Limits Inode Alloc Journal Image AllocSpec JournalSpec.

(** A transaction of whole blocks, each at most once. *)
Record tx_full (bs : Z) (tx : Transaction) : Prop := {
  txf_open : tx_committed tx = false;
  txf_nodup : NoDup (je_Block <$> tx_entries tx);
  txf_len : Forall (fun e => zlen (je_Data e) = bs /\ bytes_ok (je_Data e)) (tx_entries tx)
}.

Lemma find_block_None es b : b ∉ je_Block <$> es -> find_block es b = None.
Proof.
  induction es as [|e es IH]; [done|]. cbn. intros Hb. apply not_elem_of_cons in Hb as [H1 H2].
  rewrite eqb_false by done. auto.
Qed.

Lemma find_block_Some es b data : find_block es b = Some data -> JEntry b data ∈ es.
Proof.
  induction es as [|[b' d'] es IH]; [done|]. cbn. destruct (b' =? b) eqn:E; zbool.
  - intros [= ->]. subst. left.
  - intros Hf. right. auto.
Qed.

(** The effect of whole blocks, byte by byte. *)
Lemma log_view_full o bs v es i :
  0 < bs -> NoDup (je_Block <$> es) -> Forall (fun e => zlen (je_Data e) = bs) es ->
  log_view o bs v es i =
  match find_block es ((i - o) / bs) with Some data => u8 data ((i - o) mod bs) | None => v i end.
Proof.
  intros Hbs Hn Hl. revert v. induction Hl as [|e es He _ IH]; intros v; [done|].
  cbn [fmap list_fmap] in Hn. apply NoDup_cons in Hn as [Hne Hn].
  unfold log_view in *. cbn [fold_left find_block]. rewrite IH by done.
  pose proof (Z.div_mod (i - o) bs ltac:(lia)) as Hdm. pose proof (Z.mod_pos_bound (i - o) bs Hbs) as Hmb.
  set (b := (i - o) / bs) in *. set (r := (i - o) mod bs) in *.
  destruct (je_Block e =? b) eqn:E; zbool.
  - rewrite find_block_None by (by rewrite <- E). unfold upd_bytes.
    rewrite leb_true, ltb_true by (rewrite ?He, E; nia). cbn. f_equal. nia.
  - destruct (find_block es b); [done|]. apply upd_bytes_ne. rewrite He. nia.
Qed.

Lemma log_view_upsert o bs v es b data i :
  0 < bs -> NoDup (je_Block <$> es) -> Forall (fun e => zlen (je_Data e) = bs) es -> zlen data = bs ->
  log_view o bs v (upsert es b data) i = upd_bytes (log_view o bs v es) (o + b * bs) data i.
Proof.
  intros Hbs Hn Hl Hd. rewrite log_view_full; [|done|by apply upsert_NoDup|].
  2: { clear Hn. induction Hl as [|e es He Hes IH]; cbn; [by repeat constructor|].
       destruct (_ =? b); constructor; auto. }
  rewrite find_block_upsert. unfold upd_bytes.
  pose proof (Z.div_mod (i - o) bs ltac:(lia)) as Hdm. pose proof (Z.mod_pos_bound (i - o) bs Hbs) as Hmb.
  rewrite log_view_full by done.
  set (q := (i - o) / bs) in *. set (r := (i - o) mod bs) in *.
  destruct (q =? b) eqn:E; zbool.
  - rewrite leb_true, ltb_true by (rewrite ?Hd; nia). cbn. f_equal. nia.
  - destruct (_ && _) eqn:E2; [|done]. zbool. rewrite Hd in *. nia.
Qed.

Lemma tx_full_AddBlock bs tx b data :
  tx_full bs tx -> zlen data = bs -> bytes_ok data ->
  exists tx', AddBlock tx b data = Ok tx' /\ tx_full bs tx' /\
    tx_entries tx' = upsert (tx_entries tx) b data.
Proof.
  intros [Ho Hn Hl] Hd Hb. unfold AddBlock. rewrite Ho. eexists. split; [done|]. split; [|done].
  split; cbn; [done|by apply upsert_NoDup|].
  clear Hn. induction Hl as [|e es He Hes IH]; cbn; [by repeat constructor|].
  destruct (_ =? b); constructor; auto.
Qed.

Lemma upd_bytes_overlay v off bs o chunk i :
  0 <= o -> o + zlen chunk <= zlen bs ->
  upd_bytes v off (zsplice bs o chunk) i = upd_bytes (upd_bytes v off bs) (off + o) chunk i.
Proof.
  intros Ho Hc. unfold upd_bytes at 1. rewrite zlen_zsplice. unfold upd_bytes.
  destruct (off + o <=? i) eqn:E1, (i <? off + o + zlen chunk) eqn:E2; cbn [andb]; zbool.
  - rewrite leb_true, ltb_true by lia. cbn. rewrite u8_zsplice_new by lia. f_equal. lia.
  - destruct (_ && _) eqn:E3; [|done]. zbool. by rewrite u8_zsplice_ne by lia.
  - destruct (_ && _) eqn:E3; [|done]. zbool. by rewrite u8_zsplice_ne by lia.
  - destruct (_ && _) eqn:E3; [|done]. zbool. by rewrite u8_zsplice_ne by lia.
Qed.

(** Writing back what is there changes nothing. *)
Lemma upd_bytes_same v off bs i :
  (forall k, 0 <= k < zlen bs -> u8 bs k = v (off + k)) -> upd_bytes v off bs i = v i.
Proof.
  intros Hk. unfold upd_bytes. destruct (_ && _) eqn:E; [|done]. zbool.
  rewrite Hk by lia. f_equal. lia.
Qed.

Section staging.
Context {D : Type} `{BlockDevLaws D}.
Context (fsOffset : Z) (d : D) (sb : superblock).
Hypothesis Hbs : 0 < BlockSize sb.

Notation bs := (BlockSize sb).
Notation view tx := (log_view fsOffset bs (dev_byte d) (tx_entries tx)).

(** The blocks under a range of bytes can be read. *)
Definition range_ok (start n : Z) : Prop :=
  forall k, start / bs <= k -> k * bs < start + n ->
    0 <= fsOffset + k * bs < 2 ^ 63 /\ exists r, read_at d (fsOffset + k * bs) bs = Ok r.

Lemma tx_full_lens tx : tx_full bs tx -> Forall (fun e => zlen (je_Data e) = bs) (tx_entries tx).
Proof. intros [_ _ Hl]. eapply Forall_impl; [exact Hl|]. by intros e []. Qed.

(** The base of a staged block: the copy in the transaction, or the image. *)
Lemma block_base tx b r :
  tx_full bs tx -> 0 <= fsOffset + b * bs < 2 ^ 63 -> read_at d (fsOffset + b * bs) bs = Ok r ->
  exists buf, match GetBlock tx b with
              | Some b => Ok b
              | None => rwrap "ext4: read block" (read_at d (i64 (fsOffset + b * bs)) bs)
              end = Ok buf /\ zlen buf = bs /\ bytes_ok buf /\
    forall k, 0 <= k < bs -> u8 buf k = view tx (fsOffset + b * bs + k).
Proof.
  intros Hf Ho Hr. pose proof Hf as [_ Hn Hl].
  assert (forall k, 0 <= k < bs -> view tx (fsOffset + b * bs + k) =
    match GetBlock tx b with Some data => u8 data k | None => dev_byte d (fsOffset + b * bs + k) end) as Hv.
  { intros k Hk. rewrite log_view_full; [|done|done|by apply tx_full_lens].
    replace (fsOffset + b * bs + k - fsOffset) with (k + b * bs) by lia.
    rewrite Z.div_add, Z.mod_add, Z.div_small, Z.mod_small by lia. by rewrite Z.add_0_l. }
  destruct (GetBlock tx b) as [buf|] eqn:E.
  - exists buf. apply find_block_Some in E. rewrite Forall_forall in Hl. destruct (Hl _ E) as [H1 H2].
    split_and!; [done..|]. intros. by rewrite Hv.
  - rewrite i64_small by lia. rewrite Hr. exists r. split; [done|].
    split_and!; [eapply read_at_zlen; [|exact Hr]; lia|by apply (read_at_bytes_ok _ _ _ _ Hr)|].
    intros k Hk. rewrite Hv by done. apply read_at_Ok in Hr as ->. by rewrite u8_bytes_of.
Qed.

Lemma elem_of_upsert es b data e : e ∈ upsert es b data -> e ∈ es \/ e = JEntry b data.
Proof.
  induction es as [|e' es IH]; cbn; [rewrite list_elem_of_singleton; auto|].
  destruct (je_Block e' =? b) eqn:E; zbool; rewrite !elem_of_cons.
  - intros [->|]; [|auto]. right. by rewrite E.
  - intros [->|He]; [auto|]. destruct (IH He); auto.
Qed.

Lemma stage_block tx b buf off chunk :
  tx_full bs tx -> zlen buf = bs -> bytes_ok buf -> bytes_ok chunk ->
  (forall k, 0 <= k < bs -> u8 buf k = view tx (fsOffset + b * bs + k)) ->
  0 <= off -> off + zlen chunk <= bs ->
  exists tx', AddBlock tx b (zsplice buf off chunk) = Ok tx' /\ tx_full bs tx' /\
    (forall i, view tx' i = upd_bytes (view tx) (fsOffset + b * bs + off) chunk i) /\
    (forall e, e ∈ tx_entries tx' -> e ∈ tx_entries tx \/ je_Block e = b).
Proof.
  intros Hf Hl Hb Hc Hv Ho Hoc.
  destruct (tx_full_AddBlock bs tx b (zsplice buf off chunk)) as (tx' & Ha & Hf' & He);
    [done|by rewrite zlen_zsplice|by apply bytes_ok_zsplice|].
  exists tx'. split_and!; [done..| |].
  - intros i. rewrite He, log_view_upsert; [|done|apply Hf|by apply tx_full_lens|by rewrite zlen_zsplice].
    rewrite upd_bytes_overlay by lia. apply upd_bytes_ext. apply upd_bytes_same.
    intros k Hk. apply Hv. lia.
  - intros e Hee. rewrite He in Hee. apply elem_of_upsert in Hee as [ | ->]; auto.
Qed.

(** The part of a range in its first block, and the rest. *)
Lemma upd_bytes_split v v1 v2 b off data i :
  let n := Z.min (bs - off) (zlen data) in 0 <= off < bs ->
  (forall i, v1 i = upd_bytes v (fsOffset + b * bs + off) (zslice data 0 n) i) ->
  (forall i, v2 i = upd_bytes v1 (fsOffset + (b + 1) * bs + 0) (drop (Z.to_nat n) data) i) ->
  v2 i = upd_bytes v (fsOffset + b * bs + off) data i.
Proof.
  intros n Ho Hv1 Hv2. pose proof (zlen_nonneg data). rewrite Hv2.
  assert (zlen (zslice data 0 n) = n) as Hn by (rewrite zlen_zslice; lia).
  destruct (decide (n = zlen data)) as [Hall|Hall].
  - rewrite upd_bytes_ne by (unfold zlen in *; rewrite length_drop; lia). rewrite Hv1. f_equal.
    unfold zslice. rewrite drop_0, take_ge; [done|]. unfold zlen in *. lia.
  - replace (fsOffset + (b + 1) * bs + 0) with (fsOffset + b * bs + off + zlen (zslice data 0 n)) by nia.
    rewrite (upd_bytes_ext _ _ _ _ _ (Hv1 i)), upd_bytes_app. f_equal.
    unfold zslice. by rewrite drop_0, take_drop.
Qed.

Lemma range_ok_split b off (data : list Z) :
  let n := Z.min (bs - off) (zlen data) in 0 <= off < bs -> 0 < zlen data ->
  range_ok (b * bs + off) (zlen data) ->
  range_ok ((b + 1) * bs + 0) (zlen (drop (Z.to_nat n) data)) /\
  0 <= fsOffset + b * bs < 2 ^ 63 /\ (exists r, read_at d (fsOffset + b * bs) bs = Ok r) /\
  zlen (drop (Z.to_nat n) data) = zlen data - n /\ zlen (zslice data 0 n) = n /\ 0 < n <= zlen data.
Proof.
  intros n Ho Hpos Hr.
  assert (zlen (drop (Z.to_nat n) data) = zlen data - n) as Hdl by (unfold zlen in *; rewrite length_drop; lia).
  assert ((b * bs + off) / bs = b) as Hq by (rewrite Z.add_comm, Z.div_add, Z.div_small by lia; lia).
  destruct (Hr b) as [Hb0 Hrd]; [lia|lia|]. split_and!; try done; try lia; [|rewrite zlen_zslice; lia].
  intros k Hk1 Hk2. rewrite Hdl in Hk2. rewrite Z.add_0_r, Z.div_mul in Hk1 by lia.
  apply Hr; [lia|]. destruct (Z.min_spec (bs - off) (zlen data)) as [[? Hmin]|[? Hmin]]; fold n in Hmin; nia.
Qed.

(** [addRangeToTx]: the transaction now also holds the range. *)
Lemma add_blocks_ok fuel tx b off data :
  (length data < fuel)%nat -> tx_full bs tx -> bytes_ok data -> 0 <= off < bs ->
  range_ok (b * bs + off) (zlen data) ->
  exists tx', add_blocks fsOffset fuel d sb tx b off data = Ok tx' /\ tx_full bs tx' /\
    (forall i, view tx' i = upd_bytes (view tx) (fsOffset + b * bs + off) data i) /\
    (forall e, e ∈ tx_entries tx' -> e ∈ tx_entries tx \/
       (b <= je_Block e /\ je_Block e * bs < b * bs + off + zlen data)).
Proof.
  revert tx b off data. induction fuel as [|fuel IH]; intros tx b off data Hfuel Hf Hd Ho Hr; [lia|].
  cbn [add_blocks]. destruct data as [|x data'] eqn:Ed.
  { exists tx. split_and!; [done..| |auto]. intros i. symmetry. apply upd_bytes_ne. rewrite zlen_nil. lia. }
  rewrite <- Ed in *. assert (0 < zlen data) as Hpos by (rewrite Ed, zlen_cons; pose proof (zlen_nonneg data'); lia).
  clear Ed x data'.
  destruct (range_ok_split b off data Ho Hpos Hr) as (Hr' & Hb0 & [r Hrd] & Hdl & Hn & Hn0).
  set (n := Z.min (bs - off) (zlen data)) in *.
  destruct (block_base tx b r Hf Hb0 Hrd) as (buf & -> & Hbl & Hbb & Hbv). cbn [rbind].
  rewrite subslice_ok by lia. cbn [rbind].
  destruct (stage_block tx b buf off (zslice data 0 n)) as (tx1 & -> & Hf1 & Hv1 & He1); auto;
    [by apply bytes_ok_zslice|lia|lia|]. cbn [rbind].
  destruct (IH tx1 (b + 1) 0 (drop (Z.to_nat n) data)) as (tx2 & -> & Hf2 & Hv2 & He2); auto; try lia.
  { rewrite length_drop. unfold zlen in *. lia. }
  { by apply Forall_drop. }
  exists tx2. split_and!; [done..| |].
  - intros i. by apply (upd_bytes_split _ (view tx1) (view tx2)).
  - intros e Hee. destruct (He2 e Hee) as [Hin|Hin]; [destruct (He1 e Hin); [auto|]|];
      right; rewrite ?Hdl in *; nia.
Qed.

Lemma addRangeToTx_ok tx start data :
  tx_full bs tx -> bytes_ok data -> 0 <= start -> range_ok start (zlen data) ->
  exists tx', addRangeToTx fsOffset d sb tx (fsOffset + start) data = Ok tx' /\ tx_full bs tx' /\
    (forall i, view tx' i = upd_bytes (view tx) (fsOffset + start) data i) /\
    (forall e, e ∈ tx_entries tx' -> e ∈ tx_entries tx \/
       (start / bs <= je_Block e /\ je_Block e * bs < start + zlen data)).
Proof.
  intros Hf Hd Hs Hr. unfold addRangeToTx. rewrite eqb_false by lia.
  replace (fsOffset + start - fsOffset) with start by lia. rewrite ltb_false by lia.
  pose proof (Z.div_mod start bs ltac:(lia)) as Hdm. pose proof (Z.mod_pos_bound start bs Hbs) as Hmb.
  destruct (add_blocks_ok (S (length data)) tx (start / bs) (start mod bs) data)
    as (tx' & Ha & Hf' & Hv & He); auto; [by rewrite Z.mul_comm, <- Hdm|].
  exists tx'. split_and!; [done..| |].
  - intros i. rewrite Hv. f_equal. lia.
  - intros e Hee. destruct (He e Hee); [auto|]. right. lia.
Qed.

(** A block that the transaction does not hold is seen as on the image. *)
Lemma view_fresh tx b k :
  tx_full bs tx -> b ∉ je_Block <$> tx_entries tx -> 0 <= k < bs ->
  view tx (fsOffset + b * bs + k) = dev_byte d (fsOffset + b * bs + k).
Proof.
  intros Hf Hb Hk. rewrite log_view_full; [|done|apply Hf|by apply tx_full_lens].
  replace (fsOffset + b * bs + k - fsOffset) with (k + b * bs) by lia.
  rewrite Z.div_add, Z.div_small by lia. by rewrite Z.add_0_l, find_block_None.
Qed.

(** One block of [applyOrJournalWrite]: read, overlaid and staged whole. *)
Lemma journal_block_ok tx b off chunk r :
  tx_full bs tx -> 0 <= b -> b ∉ je_Block <$> tx_entries tx ->
  0 <= fsOffset + b * bs < 2 ^ 63 -> read_at d (fsOffset + b * bs) bs = Ok r ->
  bytes_ok chunk -> 0 <= off -> off + zlen chunk <= bs ->
  exists tx', addRangeToTx fsOffset d sb tx (fsOffset + b * bs) (zsplice r off chunk) = Ok tx' /\
    tx_full bs tx' /\
    (forall i, view tx' i = upd_bytes (view tx) (fsOffset + b * bs + off) chunk i) /\
    (forall e, e ∈ tx_entries tx' -> e ∈ tx_entries tx \/ je_Block e = b).
Proof.
  intros Hf Hb Hfresh Ho Hr Hc Hoff Hlen.
  assert (zlen r = bs) as Hrl by (eapply read_at_zlen; [|exact Hr]; lia).
  pose proof (read_at_bytes_ok _ _ _ _ Hr) as Hrb.
  destruct (addRangeToTx_ok tx (b * bs) (zsplice r off chunk)) as (tx' & Ha & Hf' & Hv & He); auto.
  { by apply bytes_ok_zsplice. }
  { lia. }
  { intros k Hk1 Hk2. rewrite zlen_zsplice, Hrl in Hk2. rewrite Z.div_mul in Hk1 by lia.
    assert (k = b) as -> by nia. eauto. }
  exists tx'. split_and!; [done..| |].
  - intros i. rewrite Hv, upd_bytes_overlay by lia. apply upd_bytes_ext, upd_bytes_same.
    intros k Hk. rewrite view_fresh by (auto; lia). apply read_at_Ok in Hr as ->. by rewrite u8_bytes_of by lia.
  - intros e Hee. destruct (He e Hee) as [|[H1 H2]]; [auto|]. right.
    rewrite Z.div_mul in H1 by lia. rewrite zlen_zsplice, Hrl in H2. nia.
Qed.

Lemma journal_blocks_ok fuel tx b off data :
  (length data < fuel)%nat -> tx_full bs tx -> bytes_ok data -> 0 <= b -> 0 <= off < bs ->
  range_ok (b * bs + off) (zlen data) -> Forall (fun e => je_Block e < b) (tx_entries tx) ->
  exists tx', journal_blocks fsOffset fuel d sb tx b off data = Ok tx' /\ tx_full bs tx' /\
    (forall i, view tx' i = upd_bytes (view tx) (fsOffset + b * bs + off) data i) /\
    (forall e, e ∈ tx_entries tx' -> e ∈ tx_entries tx \/
       (b <= je_Block e /\ je_Block e * bs < b * bs + off + zlen data)).
Proof.
  revert tx b off data. induction fuel as [|fuel IH]; intros tx b off data Hfuel Hf Hd Hb Ho Hr Hlt; [lia|].
  cbn [journal_blocks]. destruct data as [|x data'] eqn:Ed.
  { exists tx. split_and!; [done..| |auto]. intros i. symmetry. apply upd_bytes_ne. rewrite zlen_nil. lia. }
  rewrite <- Ed in *. assert (0 < zlen data) as Hpos by (rewrite Ed, zlen_cons; pose proof (zlen_nonneg data'); lia).
  clear Ed x data'.
  destruct (range_ok_split b off data Ho Hpos Hr) as (Hr' & Hb0 & [r Hrd] & Hdl & Hn & Hn0).
  set (n := Z.min (bs - off) (zlen data)) in *.
  unfold readRawBlock. rewrite i64_small by lia. rewrite Hrd. cbn [rwrap rbind].
  assert (zlen r = bs) as Hrl by (eapply read_at_zlen; [|exact Hrd]; lia).
  rewrite subslice_ok by lia. cbn [rbind]. rewrite Forall_forall in Hlt.
  destruct (journal_block_ok tx b off (zslice data 0 n) r) as (tx1 & -> & Hf1 & Hv1 & He1); auto;
    [intros (e & -> & He)%list_elem_of_fmap; specialize (Hlt e He); lia
    |by apply bytes_ok_zslice|lia|lia|]. cbn [rbind].
  destruct (IH tx1 (b + 1) 0 (drop (Z.to_nat n) data)) as (tx2 & -> & Hf2 & Hv2 & He2); auto; try lia.
  { rewrite length_drop. unfold zlen in *. lia. }
  { by apply Forall_drop. }
  { apply Forall_forall. intros e He. destruct (He1 e He) as [Hin|]; [specialize (Hlt e Hin)|]; lia. }
  exists tx2. split_and!; [done..| |].
  - intros i. by apply (upd_bytes_split _ (view tx1) (view tx2)).
  - intros e Hee. destruct (He2 e Hee) as [Hin|Hin]; [destruct (He1 e Hin); [auto|]|];
      right; rewrite ?Hdl in *; nia.
Qed.

End staging.

(** * The properties *)

Section properties.
Context {D : Type} `{BlockDevLaws D} {F : Type} `{SidecarLaws F}.
Context (fsOffset : Z).

Fixpoint commit_all (ts : list Transaction) : M (jfs (D := D) (F := F)) unit :=
  match ts with
  | [] => ret tt
  | t :: ts => do! _ := Commit fsOffset t in commit_all ts
  end.

(** A transaction that can be committed on a state. *)
Definition committable (s : fsys D) (bs : Z) (t : Transaction) : Prop :=
  tx_committed t = false /\ zlen (tx_entries t) < 2 ^ 32 /\
  Forall (fits fsOffset s bs) (tx_entries t).

Lemma commit_all_store v0 txs ts (s : fsys D) (j : Journal F) :
  dev_writable D -> sidecar_writable F ->
  jstore fsOffset v0 txs (s, j) -> Forall (committable s (j_blockSize j)) ts ->
  j_nextSeq j + zlen ts < 2 ^ 64 ->
  exists s' j' txs', commit_all ts (s, j) = (Ok tt, (s', j')) /\
    jstore fsOffset v0 txs' (s', j') /\ j_blockSize j' = j_blockSize j /\
    log_entries txs' = log_entries txs ++ concat (tx_entries <$> ts) /\
    applied fsOffset (j_blockSize j) (concat (tx_entries <$> ts)) s s'.
Proof.
  intros Hw Hsw. revert txs s j. induction ts as [|t ts IH]; intros txs s j Hst Hc Hmax.
  { exists s, j, txs. split_and!; [done..| |apply applied_refl]. by rewrite app_nil_r. }
  inversion_clear Hc as [|? ? (Ht & Hl & Hf) Hts]. rewrite zlen_cons in Hmax. pose proof (zlen_nonneg ts).
  destruct (Commit_store fsOffset Hw Hsw v0 txs s j t) as (s1 & j1 & Hr & Hst1 & Ha & Hb1 & Hn1); auto; [lia|].
  cbn [commit_all]. unfold mbnd. rewrite Hr.
  destruct (IH _ s1 j1 Hst1) as (s2 & j2 & txs2 & Hr2 & Hst2 & Hb2 & Hl2 & Ha2); [|lia|].
  { eapply Forall_impl; [exact Hts|]. intros t' (? & ? & Hf'). rewrite Hb1. split_and!; [done..|].
    eapply Forall_impl; [exact Hf'|]. apply Ha. }
  exists s2, j2, txs2. split_and!; [done|done|congruence| |].
  - rewrite Hl2, log_entries_app. unfold log_entries at 2. cbn. by rewrite app_nil_r, <- app_assoc.
  - cbn. rewrite Hb1 in Ha2. by eapply applied_trans.
Qed.

(** C2: the journal makes committed transactions survive a crash: on a journalled
    store any sequence of transactions commits and applies its entries in order,
    and after a crash that keeps the sidecar but leaves the blocks of the log in
    any state (old, new, torn), opening the journal again and replaying it
    restores the image byte for byte and leaves a store that can go on. *)
Theorem journal_crash_safe v0 txs ts (s : fsys D) (j : Journal F) :
  let bs := j_blockSize j in let new := concat (tx_entries <$> ts) in
  dev_writable D -> dev_syncable D -> sidecar_writable F ->
  jstore fsOffset v0 txs (s, j) -> Forall (committable s bs) ts ->
  j_nextSeq j + zlen ts < 2 ^ 64 ->
  exists s' j', commit_all ts (s, j) = (Ok tt, (s', j')) /\
    (forall i, dev_byte (fs_dev s') i = log_view fsOffset bs (dev_byte (fs_dev s)) new i) /\
    forall s1, crashed fsOffset v0 bs (log_entries txs ++ new) s1 ->
    exists s2 j2 txs', ReplayOnOpen fsOffset (OpenJournal (j_js j') bs) s1 = (Ok j2, s2) /\
      (forall i, dev_byte (fs_dev s2) i = dev_byte (fs_dev s') i) /\
      jstore fsOffset v0 txs' (s2, j2) /\ log_entries txs' = log_entries txs ++ new.
Proof.
  intros bs new Hw Hsy Hsw Hst Hc Hmax.
  destruct (commit_all_store v0 txs ts s j) as (s' & j' & txs' & Hr & Hst' & Hb & Hl & Ha); auto.
  exists s', j'. split_and!; [done|apply Ha|]. intros s1 Hcr. fold new in Hl. rewrite <- Hl in Hcr.
  destruct (recover_store fsOffset Hw Hsy (j_js j') v0 bs txs' s1)
    as (s2 & j2 & Hr2 & _ & _ & Hb2 & Hst2); [apply Hst'| |apply Hst'|done|].
  { pose proof (jst_next _ _ _ _ Hst'). cbn in *. lia. }
  exists s2, j2, txs'. split_and!; [done| |done|done]. intros i.
  rewrite (jst_view _ _ _ _ Hst2), (jst_view _ _ _ _ Hst'). cbn. by rewrite Hb2, Hb.
Qed.

(** C17: what opening makes of a log whose last record was cut by a crash, by the
    place of the cut.  Nothing of the torn transaction is ever applied.  Cut at a
    record boundary or just before its commit record, the complete transactions
    are replayed.  Cut inside its descriptors or data they are replayed too, but
    the replay fails with [ErrTooLarge].  Cut inside its header or its commit
    record, the journal is disabled and nothing is replayed. *)
Theorem journal_torn_tail (js : F) v0 bs txs p k (s : fsys D) :
  dev_writable D -> dev_syncable D -> Forall tx_ok txs -> max_seq 0 txs + 1 < 2 ^ 64 -> tx_ok p ->
  (k < length (tx_log p.1 p.2))%nat -> js_content js = log_bytes txs ++ take k (tx_log p.1 p.2) ->
  crashed fsOffset v0 bs (log_entries txs) s ->
  let restored s' := forall i, dev_byte (fs_dev s') i = log_view fsOffset bs v0 (log_entries txs) i in
  match tear_at p k with
  | TearClean => exists j' s', ReplayOnOpen fsOffset (OpenJournal js bs) s = (Ok j', s') /\ restored s' /\
                   j_enabled j' = true /\ j_nextSeq j' = max_seq 0 txs + 1
  | TearBody => exists e s', ReplayOnOpen fsOffset (OpenJournal js bs) s = (Err e, s') /\ restored s' /\
                  errors_cause e = ErrTooLarge
  | TearField => exists j', ReplayOnOpen fsOffset (OpenJournal js bs) s = (Ok j', s) /\
                   j_enabled j' = false
  end.
Proof.
  intros Hw Hsy Ht Hm Hp Hk Hc Hcr restored. destruct (parse_torn p k Hp Hk) as [Hi Hr].
  destruct (tear_at p k); cbn [tear_init tear_replay] in *.
  - destruct (replay_open fsOffset Hw Hsy js v0 bs txs _ s Ht Hm Hc Hi Hcr) as (s' & _ & Hv & _ & Hok).
    eexists _, s'. split; [exact (Hok Hr)|]. done.
  - destruct Hr as (e & Hr & He).
    destruct (replay_open fsOffset Hw Hsy js v0 bs txs _ s Ht Hm Hc Hi Hcr) as (s' & _ & Hv & Herr & _).
    exists e, s'. split; [exact (Herr e Hr)|]. done.
  - destruct Hi as (e & Hi). rewrite (OpenJournal_disabled js bs txs _ e Ht Hc Hi). by eexists.
Qed.

(** A record whose commit record is missing hides what follows it. *)
Lemma parse_dead p seq es r :
  tx_ok p -> tx_ok (seq, es) ->
  init_parse (tx_body p.1 p.2 ++ tx_log seq es ++ r) = Ok ScanBreak /\
  replay_parse (tx_body p.1 p.2 ++ tx_log seq es ++ r) = Ok None.
Proof.
  intros Hp Hq. pose proof Hp as (Hs & Hn & _). pose proof (zlen_nonneg p.2).
  rewrite (tx_body_eq p Hp), <- !app_assoc. set (t := tx_log seq es ++ r).
  destruct (parse_header p.1 (zlen p.2)
    (concat ((fun q => tx_desc q.1 q.2) <$> (desc_of <$> p.2)) ++ concat (je_Data <$> p.2) ++ t))
    as [-> ->]; [done|lia|].
  destruct (parse_body p t Hp) as [-> ->]. unfold init_commit, replay_commit, t, tx_log.
  change (tx_body seq es) with (tx_body (seq, es).1 (seq, es).2) at 1 3. rewrite (tx_body_eq _ Hq).
  unfold tx_header. cbn [fst snd]. rewrite <- !app_assoc. by rewrite bin_Read_encode by (done || lia).
Qed.

(** transactions committed behind a record that lost its commit record are not
    recovered: opening leaves the torn record in the sidecar and later commits are
    appended behind it, but the next replay stops at it. *)
Theorem journal_dead_tail (js : F) v0 bs txs p q rest (s : fsys D) :
  dev_writable D -> dev_syncable D -> Forall tx_ok txs -> max_seq 0 txs + 1 < 2 ^ 64 ->
  tx_ok p -> tx_ok q ->
  js_content js = log_bytes txs ++ tx_body p.1 p.2 ++ log_bytes (q :: rest) ->
  crashed fsOffset v0 bs (log_entries txs) s ->
  exists j' s', ReplayOnOpen fsOffset (OpenJournal js bs) s = (Ok j', s') /\
    j_appendOff j' = zlen (js_content js) /\
    forall i, dev_byte (fs_dev s') i = log_view fsOffset bs v0 (log_entries txs) i.
Proof.
  intros Hw Hsy Ht Hm Hp Hq Hc Hcr. destruct q as [seq es].
  destruct (parse_dead p seq es (log_bytes rest) Hp Hq) as [Hi Hr].
  destruct (replay_open fsOffset Hw Hsy js v0 bs txs _ s Ht Hm Hc Hi Hcr) as (s' & _ & Hv & _ & Hok).
  eexists _, s'. split; [exact (Hok Hr)|]. done.
Qed.

(** ** A commit that fails before its turn *)

(** Some sequence number was taken and will never be applied. *)
Definition stuck (j : Journal F) : Prop := j_enabled j = true /\ j_applySeq j < j_nextSeq j.

(** Independent attempts: a caller that fails does not stop the others. *)
Fixpoint commit_each (ts : list Transaction) (st : jfs (D := D) (F := F)) : list (res unit) * jfs :=
  match ts with
  | [] => ([], st)
  | t :: ts => let '(r, st) := Commit fsOffset t st in
               let '(rs, st) := commit_each ts st in (r :: rs, st)
  end.

Lemma js_write_inv off bs (s : fsys D) (j : Journal F) :
  exists js' r, js_write off bs (s, j) =
    (r, (s, MkJournal js' (j_enabled j) (j_nextSeq j) (j_applySeq j) (j_appendOff j) (j_blockSize j))) /\
    (js_WriteAt (j_js j) off bs).1 = match r with Ok _ => None | Err e => Some e | Panic => None end /\
    r <> Panic.
Proof.
  unfold js_write. destruct (js_WriteAt (j_js j) off bs) as [[e|] js']; [exists js', (Err e)|exists js', (Ok tt)];
    by split_and!.
Qed.

Lemma commit_stuck t (s : fsys D) (j : Journal F) :
  stuck j -> 0 <= j_applySeq j -> j_nextSeq j + 1 < 2 ^ 64 ->
  exists r j', Commit fsOffset t (s, j) = (r, (s, j')) /\ r <> Ok tt /\ stuck j' /\
    j_nextSeq j' <= j_nextSeq j + 1 /\ 0 <= j_applySeq j'.
Proof.
  intros [Hen Hlt] H0' Hmax. unfold stuck, Commit. destruct (tx_committed t).
  { exists (Err (Errorf "transaction already committed")), j. split_and!; try done; lia. }
  unfold mbnd at 1, get_j at 1. rewrite Hen. cbn [negb].
  unfold mbnd at 1, set_j at 1. unfold mbnd at 1, get_j at 1.
  destruct (reserveAppend _ _) as [off j1] eqn:E. unfold reserveAppend in E. injection E as <- <-.
  unfold mbnd at 1, set_j at 1. unfold mbnd at 1.
  cbn [with_nextSeq j_js j_appendOff j_enabled j_nextSeq j_applySeq j_blockSize].
  edestruct js_write_inv as (js1 & r1 & -> & _ & Hnp1). rewrite w64_small by lia.
  destruct r1 as [[]|e|]; [|eexists _, _; split; [done|]; split_and!; cbn; try done; lia|done].
  unfold mbnd at 1. edestruct js_write_inv as (js2 & r2 & -> & _ & Hnp2).
  destruct r2 as [[]|e|]; [|eexists _, _; split; [done|]; split_and!; cbn; try done; lia|done].
  unfold mbnd at 1, get_j. cbn [j_js j_appendOff j_enabled j_nextSeq j_applySeq j_blockSize].
  rewrite eqb_false by lia. cbn [negb]. eexists _, _. split; [done|]. split_and!; cbn; try done; lia.
Qed.

(** C34: when the sidecar refuses the record of a commit, that commit fails and no
    later one can succeed: its sequence number was taken and is never applied, so
    every later commit fails or waits for its turn forever, and the image is not
    written again. *)
Theorem failed_commit_blocks t e ts (s : fsys D) (j : Journal F) :
  let seq := j_nextSeq j in
  let off := if j_appendOff j <? zlen (js_content (j_js j)) then zlen (js_content (j_js j)) else j_appendOff j in
  j_enabled j = true -> j_applySeq j = seq -> 0 <= seq -> seq + 1 + zlen ts < 2 ^ 64 ->
  tx_committed t = false ->
  (js_WriteAt (j_js j) off (tx_body seq (tx_entries t))).1 = Some e ->
  exists j1, Commit fsOffset t (s, j) = (Err e, (s, j1)) /\
    let '(rs, (s', _)) := commit_each ts (s, j1) in Forall (fun r => r <> Ok tt) rs /\ s' = s.
Proof.
  intros seq off Hen Hap Hn0 Hmax Htx Hwe. pose proof (zlen_nonneg ts) as Hz.
  unfold Commit. rewrite Htx. unfold mbnd at 1, get_j at 1. rewrite Hen. cbn [negb].
  unfold mbnd at 1, set_j at 1. unfold mbnd at 1, get_j at 1, reserveAppend.
  cbn [with_nextSeq j_js j_appendOff j_enabled j_nextSeq j_applySeq j_blockSize]. fold seq off.
  unfold mbnd at 1, set_j at 1. unfold mbnd at 1. rewrite w64_small by lia.
  edestruct js_write_inv as (js1 & r1 & -> & Hw & Hnp). cbn [j_js] in Hw. rewrite Hwe in Hw.
  destruct r1 as [|e'|]; [done| |done]. injection Hw as <-.
  cbn [j_js j_appendOff j_enabled j_nextSeq j_applySeq j_blockSize].
  match goal with |- context [(s, ?j1)] => set (j' := j1) end.
  exists j'. split; [done|].
  assert (stuck j' /\ 0 <= j_applySeq j' /\ j_nextSeq j' + zlen ts < 2 ^ 64) as Hj.
  { unfold j', stuck. cbn. split_and!; try done; lia. }
  clearbody j'. clear -Hj. revert j' Hj. induction ts as [|t ts IH]; intros j' (Hs & Hn0 & Hmax); [by split|].
  rewrite zlen_cons in Hmax. pose proof (zlen_nonneg ts). cbn [commit_each].
  destruct (commit_stuck t s j' Hs Hn0) as (r & j2 & -> & Hr & Hs2 & Hn2 & Hn02); [lia|].
  specialize (IH j2). destruct (commit_each ts (s, j2)) as [rs [s' j3]]. destruct IH as [IH ->]; [split_and!; auto; lia|].
  split; [by constructor|done].
Qed.

(** ** Writing through the journal *)

Lemma NoDup_below (l : list Z) n : NoDup l -> Forall (fun b => 0 <= b < n) l -> zlen l <= Z.max 0 n.
Proof.
  intros Hn Hl. assert (l ⊆+ seqZ 0 n) as Hs.
  { apply NoDup_submseteq; [done|]. intros x Hx. rewrite Forall_forall in Hl.
    apply elem_of_seqZ. specialize (Hl x Hx). lia. }
  apply submseteq_length in Hs. rewrite length_seqZ in Hs. unfold zlen. lia.
Qed.

(** The range of a write lies within the file system. *)
Record writes_in (s : fsys D) (start : Z) (data : list Z) : Prop := {
  wi_bs : 0 < BlockSize (fs_sb s) < 2 ^ 32;
  wi_desc : 32 <= DescSize (fs_sb s);
  wi_start : 0 <= start;
  wi_end : start + zlen data <= BlocksCount (fs_sb s) * BlockSize (fs_sb s);
  wi_count : BlocksCount (fs_sb s) < 2 ^ 32;
  wi_bytes : bytes_ok data;
  wi_read : range_ok fsOffset (fs_dev s) (fs_sb s) start (zlen data)
}.

Lemma staged_committable (s : fsys D) start data tx :
  writes_in s start data -> tx_full (BlockSize (fs_sb s)) tx ->
  (forall e, e ∈ tx_entries tx -> start / BlockSize (fs_sb s) <= je_Block e /\
     je_Block e * BlockSize (fs_sb s) < start + zlen data) ->
  committable s (BlockSize (fs_sb s)) tx.
Proof.
  intros [Hbs Hds Hs He Hcnt Hb Hr] [Hop Hnd Hl] Hin.
  pose proof (Z.div_pos start (BlockSize (fs_sb s)) Hs ltac:(lia)) as Hq.
  assert (forall e, e ∈ tx_entries tx -> 0 <= je_Block e < BlocksCount (fs_sb s)) as Hblk.
  { intros e Hee. destruct (Hin e Hee). nia. }
  split_and!; [done| |].
  - apply Z.le_lt_trans with (Z.max 0 (BlocksCount (fs_sb s))); [|lia].
    rewrite <- (zlen_fmap je_Block). apply NoDup_below; [done|].
    apply Forall_fmap, Forall_forall. exact Hblk.
  - apply Forall_forall. intros e Hee. rewrite Forall_forall in Hl. destruct (Hl e Hee) as [Hle Hbe].
    destruct (Hin e Hee) as [H1' H2']. destruct (Hr _ H1' H2') as [Ho Hrd]. specialize (Hblk e Hee).
    split_and!; try lia; [split_and!; try lia; done|]. by rewrite Hle.
Qed.

(** C16: a write through the journal has the effect of a direct write: with the
    journal enabled the range is expanded to whole blocks, committed as one
    transaction and applied, and the image ends up with exactly the bytes of the
    range changed, as it does when there is no journal. *)
Theorem applyOrJournalWrite_correct v0 txs (s : fsys D) (j : Journal F) start data :
  dev_writable D -> sidecar_writable F -> writes_in s start data ->
  (jstore fsOffset v0 txs (s, j) /\ j_blockSize j = BlockSize (fs_sb s) /\ j_nextSeq j + 1 < 2 ^ 64) \/
  (j_enabled j = false /\ 0 < zlen data /\
     exists r, read_at (fs_dev s) (fsOffset + start) (zlen data) = Ok r) ->
  exists s' j', applyOrJournalWrite fsOffset (fsOffset + start) data (s, j) = (Ok tt, (s', j')) /\
    same_meta s s' /\
    (forall i, dev_byte (fs_dev s') i = upd_bytes (dev_byte (fs_dev s)) (fsOffset + start) data i) /\
    (j_enabled j = true -> exists es, jstore fsOffset v0 (txs ++ [(j_nextSeq j, es)]) (s', j')).
Proof.
  intros Hw Hsw Hwi Hcase. pose proof Hwi as [Hbs Hds Hs He Hcnt Hb Hr].
  unfold applyOrJournalWrite. unfold mbnd at 1, get_j at 1. unfold mbnd at 1, on_fs at 1, get_sb.
  rewrite (eqb_false (BlockSize _)) by lia. cbn [orb].
  destruct Hcase as [(Hst & Hjb & Hmax)|(Hen & Hpos & r & Hrd)].
  - rewrite (jst_enabled _ _ _ _ Hst : j_enabled j = true). cbn [negb].
    replace (fsOffset + start - fsOffset) with start by lia. rewrite ltb_false by lia.
    pose proof (Z.div_mod start (BlockSize (fs_sb s)) ltac:(lia)) as Hdm.
    destruct (journal_blocks_ok fsOffset (fs_dev s) (fs_sb s) ltac:(lia) (S (length data)) StartTx
      (start / BlockSize (fs_sb s)) (start mod BlockSize (fs_sb s)) data) as (tx & Htx & Hf & Hv & Hin).
    { lia. }
    { split; cbn; constructor. }
    { done. }
    { apply Z.div_pos; lia. }
    { apply Z.mod_pos_bound. lia. }
    { by rewrite Z.mul_comm, <- Hdm. }
    { constructor. }
    unfold mbnd at 1, on_fs at 1, gets. rewrite Htx.
    destruct (staged_committable s start data tx Hwi Hf) as (Hop & Hlen & Hfit).
    { intros e Hee. destruct (Hin e Hee) as [Hnil|Hb']; [by apply elem_of_nil in Hnil|]. lia. }
    rewrite <- Hjb in Hfit.
    destruct (Commit_store fsOffset Hw Hsw v0 txs s j tx) as (s' & j' & Hr' & Hst' & Ha & _); auto.
    exists s', j'. split_and!; [done|apply Ha| |eauto].
    intros i. rewrite (proj2 (proj2 Ha)), Hjb, Hv. f_equal. lia.
  - rewrite Hen. cbn [negb]. unfold mwrap, on_fs.
    rewrite writeAtWithTrace_write by (intros; by apply readBGD_np). unfold on_dev.
    destruct (write_at_total Hw _ _ data _ _ eq_refl Hpos Hrd) as [d' Hwr]. rewrite Hwr.
    eexists _, j. split; [done|]. split_and!; [done..| |done]. cbn. by apply write_at_Ok.
Qed.

End properties.

(** ** Witnesses on the small image *)

Definition blk (x : Z) : list Z := replicate 1024 x.
Definition ex_tx1 : Transaction := Tx [JEntry 20 (blk 7); JEntry 21 (blk 8)] false.
Definition ex_tx2 : Transaction := Tx [JEntry 20 (blk 9)] false.
Definition ex_j (js : growfile) : Journal growfile := MkJournal js true 1 1 0 1024.

Lemma memdev_syncable : dev_syncable memdev.
Proof. done. Qed.

Lemma img_fits b x : 0 <= x < 256 -> b = 20 \/ b = 21 -> fits 0 (img 0) 1024 (JEntry b (blk x)).
Proof.
  intros Hx Hb. assert (zlen (blk x) = 1024) as Hl by (unfold zlen, blk; by rewrite length_replicate).
  split_and!; cbn [je_Block je_Data]; rewrite ?Hl; try lia.
  - split_and!; cbn [je_Block je_Data]; rewrite ?Hl; try lia. by apply Forall_replicate.
  - destruct Hb as [-> | ->]; by vm_compute.
  - destruct Hb as [-> | ->]; eexists; vm_compute; reflexivity.
Qed.

Definition ex_p : Z * list journalEntry := (2, [JEntry 21 (blk 8)]).
Definition ex_q : Z * list journalEntry := (3, [JEntry 21 (blk 9)]).
Definition ex_txs : list (Z * list journalEntry) := [(1, [JEntry 20 (blk 7)])].

Ltac all_fit :=
  unfold log_entries;
  cbn [app fmap list_fmap concat tx_entries ex_tx1 ex_tx2 ex_txs snd];
  repeat (apply Forall_cons; split); try apply Forall_nil; try (apply img_fits; lia); try done.

Lemma ex_committable : Forall (committable 0 (img 0) 1024) [ex_tx1; ex_tx2].
Proof. repeat (apply Forall_cons; split); [..|done]; (split_and!; [done|done|all_fit]). Qed.

Lemma ex_jstore : jstore 0 (dev_byte (fs_dev (img 0))) [] (img 0, ex_j (GrowFile [])).
Proof. split; cbn [fst snd]; try done. Qed.

Lemma journal_crash_safe_witness :
  exists s' j' s2 j2, commit_all 0 [ex_tx1; ex_tx2] (img 0, ex_j (GrowFile [])) = (Ok tt, (s', j')) /\
    ReplayOnOpen 0 (OpenJournal (j_js j') 1024) (img 0) = (Ok j2, s2) /\
    forall i, dev_byte (fs_dev s2) i = dev_byte (fs_dev s') i.
Proof.
  destruct (journal_crash_safe 0 (dev_byte (fs_dev (img 0))) [] [ex_tx1; ex_tx2] (img 0) (ex_j (GrowFile [])))
    as (s' & j' & Hc & _ & Hr);
    [apply memdev_writable|apply memdev_syncable|apply growfile_writable|apply ex_jstore|apply ex_committable|done|].
  destruct (Hr (img 0)) as (s2 & j2 & _ & Hr2 & Hv & _).
  { split_and!; [by vm_compute|all_fit|by right]. }
  exists s', j', s2, j2. split; [exact Hc|]. split; [exact Hr2|exact Hv].
Defined.

Lemma ex_tx_ok n b x : 0 <= n < 100 -> b = 20 \/ b = 21 -> 0 <= x < 256 -> tx_ok (n, [JEntry b (blk x)]).
Proof.
  intros Hn Hb Hx. split_and!; cbn [fst snd]; [lia..|by vm_compute|].
  apply Forall_cons. split; [apply (img_fits b x Hx Hb)|done].
Qed.
Lemma ex_p_ok : tx_ok ex_p.
Proof. apply ex_tx_ok; lia. Qed.
Lemma ex_txs_ok : Forall tx_ok ex_txs.
Proof. apply Forall_cons. split; [apply ex_tx_ok; lia|done]. Qed.
Lemma ex_crashed : crashed 0 (dev_byte (fs_dev (img 0))) 1024 (log_entries ex_txs) (img 0).
Proof.
  split_and!; [by vm_compute|all_fit|by right].
Qed.

Lemma grow_content bs : bytes_ok bs -> js_content (GrowFile bs) = bs.
Proof.
  intros Hb. cbn. induction Hb as [|x l Hx _ IH]; [done|]. cbn. rewrite IH. f_equal. by apply w8_small.
Qed.

Lemma journal_torn_tail_witness :
  tear_at ex_p 100 = TearBody /\
  exists e s', ReplayOnOpen 0 (OpenJournal (GrowFile (log_bytes ex_txs ++ take 100 (tx_log 2 ex_p.2))) 1024) (img 0) =
    (Err e, s') /\ errors_cause e = ErrTooLarge.
Proof.
  assert (tear_at ex_p 100 = TearBody) as Ht by (vm_compute; reflexivity). split; [done|].
  pose proof (journal_torn_tail 0 (GrowFile (log_bytes ex_txs ++ take 100 (tx_log 2 ex_p.2)))
    (dev_byte (fs_dev (img 0))) 1024 ex_txs ex_p 100 (img 0)) as Hth. rewrite Ht in Hth.
  destruct Hth as (e & s' & Hr & _ & He);
    [apply memdev_writable|apply memdev_syncable|apply ex_txs_ok|by vm_compute|apply ex_p_ok| | |apply ex_crashed|
     exists e, s'; split; [exact Hr|exact He]].
  - apply Nat.ltb_lt. vm_compute. reflexivity.
  - apply grow_content. apply all_bytes_ok. vm_compute. reflexivity.
Defined.

Lemma journal_dead_tail_witness :
  exists j' s', ReplayOnOpen 0 (OpenJournal (GrowFile (log_bytes ex_txs ++ tx_body 2 ex_p.2 ++ log_bytes [ex_q])) 1024)
    (img 0) = (Ok j', s') /\ forall i, dev_byte (fs_dev s') i =
      log_view 0 1024 (dev_byte (fs_dev (img 0))) (log_entries ex_txs) i.
Proof.
  destruct (journal_dead_tail 0 (GrowFile (log_bytes ex_txs ++ tx_body 2 ex_p.2 ++ log_bytes [ex_q]))
    (dev_byte (fs_dev (img 0))) 1024 ex_txs ex_p ex_q [] (img 0)) as (j' & s' & Hr & _ & Hv);
    [apply memdev_writable|apply memdev_syncable|apply ex_txs_ok|by vm_compute|apply ex_p_ok
    |apply ex_tx_ok; lia| |apply ex_crashed|exists j', s'; split; [exact Hr|exact Hv]].
  apply grow_content. apply all_bytes_ok. vm_compute. reflexivity.
Defined.

Lemma failed_commit_blocks_witness :
  let j := MkJournal (MemFile [] 100) true 1 1 0 1024 in
  exists e j1, Commit 0 ex_tx1 (img 0, j) = (Err e, (img 0, j1)) /\
    fst (commit_each 0 [Tx [] false; ex_tx2] (img 0, j1)) <> [] /\
    Forall (fun r => r <> Ok tt) (fst (commit_each 0 [Tx [] false; ex_tx2] (img 0, j1))).
Proof.
  intros j. destruct (failed_commit_blocks 0 ex_tx1 (ErrDevice 28) [Tx [] false; ex_tx2] (img 0) j) as (j1 & Hc & Hr);
    [done|done|done|done|done|by vm_compute|].
  exists (ErrDevice 28), j1. split; [done|]. cbn [commit_each] in *.
  destruct (Commit 0 (Tx [] false) (img 0, j1)) as [r1 st1]. destruct (Commit 0 ex_tx2 st1) as [r2 st2].
  destruct st2 as [s2 j2]. cbn in *. destruct Hr. by split.
Defined.

Lemma applyOrJournalWrite_correct_witness :
  exists s' j', applyOrJournalWrite 0 (0 + 20990) [1; 2; 3] (img 0, ex_j (GrowFile [])) = (Ok tt, (s', j')) /\
    forall i, dev_byte (fs_dev s') i = upd_bytes (dev_byte (fs_dev (img 0))) (0 + 20990) [1; 2; 3] i.
Proof.
  destruct (applyOrJournalWrite_correct 0 (dev_byte (fs_dev (img 0))) [] (img 0) (ex_j (GrowFile [])) 20990 [1; 2; 3])
    as (s' & j' & Hr & _ & Hv & _); [apply memdev_writable|apply growfile_writable| | |
     exists s', j'; split; [exact Hr|exact Hv]].
  - split; [by vm_compute|by vm_compute|done|by vm_compute|by vm_compute|by apply all_bytes_ok|].
    unfold range_ok. change (BlockSize (fs_sb (img 0))) with 1024. intros k Hk1 Hk2. change (20990 / 1024) with 20 in Hk1.
    change (zlen [1; 2; 3]) with 3 in Hk2. assert (k = 20) as -> by lia.
    split; [done|]. eexists. vm_compute. reflexivity.
  - left. split_and!; [apply ex_jstore|by vm_compute|done].
Defined.

(** * Opening *)

Section opening.
Context {D : Type} `{BlockDevLaws D} {F : Type} `{SidecarLaws F}.
Context (fsOffset : Z).

Definition open_sb (dev : D) (sb : superblock) : superblock :=
  let devSize := match dev_Size dev with Ok n => n | _ => 0 end in
  if fsOffset <? devSize then with_deviceBytes sb (devSize - fsOffset) else sb.

(** C18: opening an image after a crash replays its journal: the image is the one
    the committed transactions describe and the journal can go on.  The
    superblock in memory is the one that was on the image before the replay,
    whatever the log says about it. *)
Theorem openFromDevice_recovers (dev : D) (js : F) sb v0 txs :
  dev_writable D -> dev_syncable D -> readSuperblock dev fsOffset = Ok sb ->
  let sb' := open_sb dev sb in
  Forall tx_ok txs -> max_seq 0 txs + 1 < 2 ^ 64 -> js_content js = log_bytes txs ->
  crashed fsOffset v0 (BlockSize sb') (log_entries txs) (Fsys dev sb' 0 ∅) ->
  exists s j, openFromDevice fsOffset dev js = (Ok (s, j), fs_dev s) /\
    jstore fsOffset v0 txs (s, j) /\ fs_sb s = sb' /\ fs_rsv s = ∅.
Proof.
  intros Hw Hsy Hsb sb' Ht Hm Hc Hcr. unfold openFromDevice. rewrite Hsb.
  fold (open_sb dev sb). fold sb'.
  destruct (recover_store fsOffset Hw Hsy js v0 _ txs _ Ht Hm Hc Hcr)
    as (s & j & -> & _ & (Hs1 & _ & Hs2) & _ & Hst).
  by exists s, j.
Qed.

End opening.

(** A transaction that takes one free block off the superblock of the image. *)
Definition ex_sb_block : list Z := set32 (img_sb_raw 0) 12 55.
Definition ex_sb_txs : list (Z * list journalEntry) := [(1, [JEntry 1 ex_sb_block])].

Lemma ex_sb_entry_ok : entry_ok (JEntry 1 ex_sb_block).
Proof. split; [done|]. split; [by vm_compute|apply all_bytes_ok; vm_compute; reflexivity]. Qed.

Lemma ex_sb_txs_ok : Forall tx_ok ex_sb_txs.
Proof.
  apply Forall_cons. split; [|apply Forall_nil_2]. split; [cbn; lia|]. split; [change (1 < 2 ^ 32); lia|].
  apply Forall_cons. split; [exact ex_sb_entry_ok|apply Forall_nil_2].
Qed.

Lemma openFromDevice_recovers_witness :
  exists s j sb, openFromDevice 0 (MemDev (img_bytes 0)) (GrowFile (log_bytes ex_sb_txs)) = (Ok (s, j), fs_dev s) /\
    readSuperblock (MemDev (img_bytes 0)) 0 = Ok sb /\
    sb_FreeBlocksCount (fs_sb s) = 56 /\ u32 ex_sb_block 12 = 55 /\
    forall i, dev_byte (fs_dev s) i =
      log_view 0 (j_blockSize j) (dev_byte (MemDev (img_bytes 0))) [JEntry 1 ex_sb_block] i.
Proof.
  set (sb := img_sb 0). assert (readSuperblock (MemDev (img_bytes 0)) 0 = Ok sb) as Hsb by (vm_compute; reflexivity).
  destruct (openFromDevice_recovers 0 (MemDev (img_bytes 0)) (GrowFile (log_bytes ex_sb_txs)) sb
    (dev_byte (MemDev (img_bytes 0))) ex_sb_txs) as (s & j & Ho & Hst & Hs & _);
    [apply memdev_writable|apply memdev_syncable|exact Hsb|exact ex_sb_txs_ok
    |vm_compute; reflexivity| | |].
  - apply grow_content. apply all_bytes_ok. vm_compute. reflexivity.
  - split; [by vm_compute|split; [|by right]]. apply Forall_cons. split; [|apply Forall_nil_2].
    split; [exact ex_sb_entry_ok|]. split; [by vm_compute|]. split; [by vm_compute|].
    assert (BlockSize (open_sb 0 (MemDev (img_bytes 0)) sb) = 1024) as -> by (vm_compute; reflexivity).
    cbn [je_Block]. split; [lia|]. eexists. vm_compute. reflexivity.
  - exists s, j, sb. split; [exact Ho|]. split; [exact Hsb|]. split; [rewrite Hs; vm_compute; reflexivity|].
    split; [vm_compute; reflexivity|]. intros i. exact (jst_view _ _ _ _ Hst i).
Defined.
