(* ===== verification/NamespaceSpec.v ===== *)
(** What the operations on inodes and directories guarantee ([src/inode.go],
    [src/dir.go], [src/delete.go]): an inode written is the inode read back and
    no other byte changes; an entry added to or removed from a directory changes
    its listing by exactly that entry.  Then what removal does to symbolic
    links. *)

From S2P Require Import Prelude Bytes Crc Device Superblock Bgd Bitmap GoLib Extent Limits Inode Inline FileRead Dir DirTail Alloc Image Lookup Namespace AllocSpec JournalSpec.

(** * Reading what has not changed *)

Section frame.
Context {D : Type} `{BlockDevLaws D}.

Lemma read_at_frame (d d' : D) off n bs bs' :
  read_at d off n = Ok bs -> read_at d' off n = Ok bs' ->
  (forall i, off <= i < off + n -> dev_byte d' i = dev_byte d i) -> read_at d' off n = Ok bs.
Proof.
  intros Hr Hr' Hb. rewrite Hr'. f_equal. apply read_at_Ok in Hr as ->. apply read_at_Ok in Hr' as ->.
  by apply bytes_of_ext.
Qed.

Lemma readBGD_write (d d' : D) fsOffset sb g bg off bs :
  write_at off bs d = (Ok tt, d') -> bytes_ok bs ->
  readBGD d fsOffset sb g = Ok bg ->
  sep off (zlen bs) (fsOffset + bgd_offset sb g) (DescSize sb) ->
  readBGD d' fsOffset sb g = Ok bg.
Proof.
  intros Hw Hb Hr Hs. unfold readBGD in *. apply rbind_Ok in Hr as (raw & Hr & Hdec).
  apply rwrap_Ok in Hr. unfold sep in Hs. rewrite (write_read_ne _ _ _ _ _ _ _ Hw Hb Hr) by lia. done.
Qed.

End frame.

(** * Inodes *)

(** The fields of an inode agree with its bytes. *)
Definition inode_wf (i : inode) : Prop := decodeInode (in_num i) (in_raw i) = Ok i.

Lemma computeInodeCsum_bytes sb i i' :
  bytes_ok (in_raw i) -> computeInodeCsum sb i = Ok i' -> bytes_ok (in_raw i').
Proof.
  intros Hb Hc. unfold computeInodeCsum in Hc.
  apply rbind_Ok in Hc as (r1 & H1 & Hc). apply rbind_Ok in Hc as (r2 & H2 & Hc).
  apply rbind_Ok in Hc as (gen & _ & Hc). apply rbind_Ok in Hc as (r3 & H3 & Hc).
  apply rbind_Ok in Hc as (r4 & H4 & Hc). injection Hc as <-. cbn.
  assert (forall l off v l', bytes_ok l -> put16 l off v = Ok l' -> bytes_ok l') as Hp.
  { intros l off v l' Hl Hpu. unfold putN in Hpu. destruct (in_range _ _ _); [|done].
    injection Hpu as <-. auto with bytes. }
  destruct (_ <? _); simplify_eq; eauto 10.
Qed.

(** The two checksum fields do not matter to the decoded inode. *)
Lemma computeInodeCsum_wf sb i i' :
  128 <= zlen (in_raw i) -> bytes_ok (in_raw i) -> 0 <= csumSeed sb < 2 ^ 32 ->
  inode_wf i -> computeInodeCsum sb i = Ok i' -> inode_wf i'.
Proof.
  intros Hl Hb Hs Hwf Hc. destruct (computeInodeCsum_ok sb i Hl Hb Hs) as (i2 & Hc2 & _ & Hn & Hsz & Hm & Hzl & Hu).
  rewrite Hc in Hc2. injection Hc2 as <-. unfold inode_wf, decodeInode in *.
  rewrite (getN_ok 2), (getN_ok 4 _ 4), (getN_ok 4 _ 108) in Hwf by lia.
  rewrite (getN_ok 2), (getN_ok 4 _ 4), (getN_ok 4 _ 108) by lia. cbn [rbind] in *.
  rewrite !Hu by (lia || (left; lia)). rewrite Hn. injection Hwf as Hwf.
  destruct i as [raw num size mode], i' as [raw' num' size' mode']. cbn in *. simplify_eq. done.
Qed.

Section inode_io.
Context {D : Type} `{BlockDevLaws D} `{SortSlice} `{Safeio}.
Context (fsOffset : Z).

(** Where an inode lives, and that it lives apart from its descriptor. *)
Record inode_slot (s : fsys D) (num : Z) (bg : bgd) (pos : Z) : Prop := {
  sl_num : 0 < num <= InodesCount (fs_sb s) /\ InodesCount (fs_sb s) < 2 ^ 32;
  sl_ipg : 0 < InodesPerGroup (fs_sb s);
  sl_desc : 32 <= DescSize (fs_sb s);
  sl_size : 128 <= InodeSize (fs_sb s);
  sl_bgd : readBGD (fs_dev s) fsOffset (fs_sb s) ((num - 1) / InodesPerGroup (fs_sb s)) = Ok bg;
  sl_pos : pos = fsOffset + InodeTableBlock bg * BlockSize (fs_sb s) +
                 ((num - 1) mod InodesPerGroup (fs_sb s)) * InodeSize (fs_sb s);
  sl_range : 0 <= fsOffset /\ 0 <= pos - fsOffset /\ pos < 2 ^ 63;
  sl_sep : sep pos (InodeSize (fs_sb s))
             (fsOffset + bgd_offset (fs_sb s) ((num - 1) / InodesPerGroup (fs_sb s))) (DescSize (fs_sb s));
  sl_read : exists raw, read_at (fs_dev s) pos (InodeSize (fs_sb s)) = Ok raw
}.

Lemma inode_group_ok sb num :
  0 < num -> num < 2 ^ 32 -> 0 < InodesPerGroup sb ->
  inode_group sb num = Ok ((num - 1) / InodesPerGroup sb, (num - 1) mod InodesPerGroup sb).
Proof. intros. unfold inode_group. rewrite eqb_false by lia. by rewrite w32_small by lia. Qed.

Lemma readInode_slot (s : fsys D) num bg pos raw :
  inode_slot s num bg pos -> read_at (fs_dev s) pos (InodeSize (fs_sb s)) = Ok raw ->
  readInode (fs_dev s) fsOffset (fs_sb s) num = decodeInode num raw.
Proof.
  intros [Hn Hipg Hd Hsz Hb Hp Hr _ _] Hraw. unfold readInode.
  rewrite eqb_false, ltb_false by lia. rewrite inode_group_ok by lia. cbn [rbind].
  cbn [readInode_attempts]. rewrite Hb. cbn [rbind]. rewrite eqb_true by done. cbn [negb].
  rewrite i64_small by (rewrite Hp in Hr; lia). replace (fsOffset + _) with pos by lia.
  by rewrite Hraw.
Qed.

Lemma inode_slot_write (s : fsys D) num bg pos bs d' :
  inode_slot s num bg pos -> zlen bs = InodeSize (fs_sb s) -> bytes_ok bs ->
  write_at pos bs (fs_dev s) = (Ok tt, d') ->
  inode_slot (Fsys d' (fs_sb s) (fs_cursor s) (fs_rsv s)) num bg pos.
Proof.
  intros [Hn Hipg Hd Hsz Hb Hp Hr Hs [raw Hrd]] Hl Hbs Hw. split; cbn; auto.
  - eapply readBGD_write; eauto. by rewrite Hl.
  - by apply (write_at_readable _ _ _ _ _ _ _ Hw Hrd).
Qed.

(** Writing an inode stores it in its slot, with its checksum when the image
    has checksums. *)
Lemma writeInode_ok (s : fsys D) i bg pos :
  dev_writable D -> inode_slot s (in_num i) bg pos ->
  zlen (in_raw i) = InodeSize (fs_sb s) -> bytes_ok (in_raw i) -> inode_wf i ->
  0 <= csumSeed (fs_sb s) < 2 ^ 32 ->
  exists i' s', writeInode fsOffset i s = (Ok i', s') /\ same_meta s s' /\
    readInode (fs_dev s') fsOffset (fs_sb s') (in_num i) = Ok i' /\
    (if has_flag (FeatureROCompat (fs_sb s)) FeatROCompatMetadataCsum
     then computeInodeCsum (fs_sb s) i = Ok i' else i' = i) /\
    inode_slot s' (in_num i) bg pos /\ bytes_ok (in_raw i') /\
    write_at pos (in_raw i') (fs_dev s) = (Ok tt, fs_dev s').
Proof.
  intros Hw Hsl Hl Hb Hwf Hseed. pose proof Hsl as [Hn Hipg Hd Hsz Hbg Hp Hr Hsep [raw Hrd]].
  assert (exists i', (if has_flag (FeatureROCompat (fs_sb s)) FeatROCompatMetadataCsum
    then computeInodeCsum (fs_sb s) i else Ok i) = Ok i' /\ in_num i' = in_num i /\ inode_wf i' /\
    zlen (in_raw i') = InodeSize (fs_sb s) /\ bytes_ok (in_raw i')) as (i' & Hc & Hnum & Hwf' & Hl' & Hb').
  { destruct (has_flag _ _); [|eauto 10].
    destruct (computeInodeCsum_ok (fs_sb s) i ltac:(lia) Hb Hseed) as (i2 & Hc2 & _ & Hn2 & _ & _ & Hz2 & _).
    exists i2. split_and!; [done|done|by eapply computeInodeCsum_wf; eauto; lia|lia|by eapply computeInodeCsum_bytes]. }
  destruct (write_at_total Hw (fs_dev s) pos (in_raw i') _ raw (eq_sym Hl')) as [d' Hwr]; [lia|done|].
  set (s' := Fsys d' (fs_sb s) (fs_cursor s) (fs_rsv s)).
  assert (inode_slot s' (in_num i) bg pos) as Hsl' by (by eapply inode_slot_write).
  exists i', s'. split.
  { unfold writeInode, addInode, mwrap, mbnd at 1, get_sb. unfold mbnd at 1, mlift at 1.
    rewrite inode_group_ok by lia. unfold mbnd at 1, gets. rewrite Hbg. unfold mbnd at 1, mlift at 1.
    rewrite Hc. unfold mbnd. rewrite (i64_small (_ * _ + _)) by lia. rewrite i64_small by lia.
    replace (fsOffset + _) with pos by lia.
    rewrite writeAtWithTrace_write by (intros; by apply readBGD_np). unfold on_dev. by rewrite Hwr. }
  split; [done|]. split; [|split; [|done]].
  - rewrite (readInode_slot s' _ _ _ (in_raw i') Hsl'); [by rewrite <- Hnum|].
    by eapply write_read_same; eauto.
  - destruct (has_flag _ _); [done|]. by injection Hc.
Qed.

End inode_io.

(** * Directories *)

Section dirs.
Context {D : Type} `{BlockDevLaws D} `{SortSlice} `{Safeio}.
Context (fsOffset : Z).

Notation FS := (M (fsys D)).

(** What can be read of [d] away from some blocks reads the same on [d']. *)
Definition agree_off (sb : superblock) (blks : list Z) (d d' : D) : Prop :=
  forall off n r, (forall b, b ∈ blks -> sep off n (fsOffset + b * BlockSize sb) (BlockSize sb)) ->
    read_at d off n = Ok r -> read_at d' off n = Ok r.

Lemma agree_off_trans sb blks d1 d2 d3 :
  agree_off sb blks d1 d2 -> agree_off sb blks d2 d3 -> agree_off sb blks d1 d3.
Proof. intros H12 H23 off n r Hs Hr. eauto. Qed.

(** A directory: its extent tree lies apart from its blocks, which hold
    well-formed records. *)
Record dir_at (s : fsys D) (i : inode) (blks : list (Z * Z)) (bufs : list (list Z)) : Prop := {
  da_exts : exists exts, blks = dir_blocks exts /\
    forall d', agree_off (fs_sb s) (snd <$> blks) (fs_dev s) d' ->
      extents d' fsOffset (fs_sb s) i = Ok exts;
  da_bufs : Forall2 (fun b buf => read_block fsOffset (fs_dev s) (fs_sb s) b.2 = Ok buf /\
                                  dir_buf (fs_sb s) buf) blks bufs;
  da_nodup : NoDup (snd <$> blks);
  da_pos : Forall (fun b => 0 <= b.2 /\ 0 <= fsOffset + b.2 * BlockSize (fs_sb s) < 2 ^ 63) blks;
  da_raw : 104 <= zlen (in_raw i);
  da_desc : 32 <= DescSize (fs_sb s);
  da_seed : 0 <= csumSeed (fs_sb s) < 2 ^ 32
}.

Lemma da_extents s i blks bufs :
  dir_at s i blks bufs -> exists exts, blks = dir_blocks exts /\
    extents (fs_dev s) fsOffset (fs_sb s) i = Ok exts.
Proof. intros [(exts & He & Hx) _ _ _ _ _ _]. exists exts. split; [done|]. apply Hx. by intros off n r _. Qed.

(** [extents] succeeds on extent-mapped inodes only. *)
Lemma extents_readExtents (d : D) sb i exts :
  extents d fsOffset sb i = Ok exts ->
  readExtents d fsOffset sb i = Ok exts /\ isInline i = Ok false.
Proof.
  unfold extents, readExtents, isInline. intros He. apply rbind_Ok in He as (fl & Hfl & He). rewrite Hfl. cbn [rbind].
  destruct (has_flag fl InodeFlagInlineData) eqn:E1; [done|]. destruct (negb (has_flag fl InodeFlagExtents)); [done|].
  done.
Qed.

Lemma readDir_blocks_at (d : D) sb n phys bufs :
  Forall2 (fun b buf => readRawBlock d fsOffset sb b = Ok buf)
    ((fun k => w64 (phys + k)) <$> seqZ 0 (Z.of_nat n)) bufs ->
  readDir_blocks d fsOffset sb n phys = Ok (concat (entries <$> bufs)).
Proof.
  revert phys bufs. induction n as [|n IH]; intros phys bufs Hf.
  { apply Forall2_nil_inv_l in Hf as ->. done. }
  rewrite Nat2Z.inj_succ, <- Z.add_1_r, Z.add_comm, seqZ_app in Hf by lia. cbn in Hf.
  apply Forall2_cons_inv_l in Hf as (buf & bufs' & Hb & Hf & ->). rewrite Z.add_0_r in Hb.
  cbn [readDir_blocks]. rewrite Hb. cbn [rwrap rbind]. rewrite parseDirBlock_recs. cbn [rbind].
  rewrite (IH (phys + 1) bufs').
  - done.
  - replace ((fun k => w64 (phys + 1 + k)) <$> seqZ 0 (Z.of_nat n))
      with ((fun k => w64 (phys + k)) <$> seqZ 1 (Z.of_nat n)); [done|].
    rewrite <- (Z.add_0_r 1) at 1. rewrite <- fmap_add_seqZ, <- list_fmap_compose.
    apply list_fmap_ext. intros j x _. unfold compose. f_equal. lia.
Qed.

Lemma readDir_extents_at (d : D) sb exts bufs :
  Forall2 (fun b buf => readRawBlock d fsOffset sb b.2 = Ok buf) (dir_blocks exts) bufs ->
  readDir_extents d fsOffset sb exts = Ok (concat (entries <$> bufs)).
Proof.
  revert bufs. induction exts as [|e exts IH]; intros bufs Hf.
  { apply Forall2_nil_inv_l in Hf as ->. done. }
  change (dir_blocks (e :: exts)) with
    (((fun k => (w32 (LogBlock e + k), w64 (PhysBlock e + k))) <$> seqZ 0 (Count e)) ++ dir_blocks exts) in Hf.
  apply Forall2_app_inv_l in Hf as (b1 & b2 & Hf1 & Hf2 & ->).
  cbn [readDir_extents]. rewrite (readDir_blocks_at d sb _ (PhysBlock e) b1).
  - cbn [rbind]. rewrite (IH b2 Hf2). cbn [rbind]. by rewrite fmap_app, concat_app.
  - replace (seqZ 0 (Z.of_nat (Z.to_nat (Count e)))) with (seqZ 0 (Count e)).
    + apply Forall2_fmap_l in Hf1. by apply Forall2_fmap_l.
    + destruct (decide (0 <= Count e)); [by rewrite Z2Nat.id|].
      by rewrite (seqZ_nil 0 (Count e)), Z2Nat.nonpos by lia.
Qed.

Lemma read_block_raw (d : D) sb b buf :
  read_block fsOffset d sb b = Ok buf -> readRawBlock d fsOffset sb b = Ok buf.
Proof. unfold read_block, readRawBlock. by intros ->. Qed.

Lemma readDir_at (s : fsys D) i blks bufs :
  dir_at s i blks bufs -> readDir (fs_dev s) fsOffset (fs_sb s) i = Ok (concat (entries <$> bufs)).
Proof.
  intros Hda. destruct (da_extents _ _ _ _ Hda) as (exts & -> & He).
  destruct (extents_readExtents _ _ _ _ He) as [Hr Hi].
  unfold readDir. rewrite Hi. cbn [rbind]. rewrite Hr. cbn [rbind]. apply readDir_extents_at.
  eapply Forall2_impl; [apply Hda|]. intros b buf [Hb _]. by apply read_block_raw.
Qed.

(** Writing one block of a directory. *)
Lemma dir_at_write (s : fsys D) i blks bufs k b buf' d' :
  dir_at s i blks bufs -> blks !! k = Some b -> dir_buf (fs_sb s) buf' ->
  write_at (fsOffset + b.2 * BlockSize (fs_sb s)) buf' (fs_dev s) = (Ok tt, d') ->
  dir_at (Fsys d' (fs_sb s) (fs_cursor s) (fs_rsv s)) i blks (<[k:=buf']> bufs).
Proof.
  intros [(exts & He & Hx) Hb Hn Hp Hr Hds Hsd] Hk Hbuf Hw. pose proof (db_bytes _ _ Hbuf) as Hbb.
  destruct (db_len _ _ Hbuf) as [Hbl Hbs].
  assert (agree_off (fs_sb s) (snd <$> blks) (fs_dev s) d') as Hag.
  { intros off n r Hs Hrd. eapply write_read_ne; eauto. rewrite Hbl.
    specialize (Hs b.2). unfold sep in Hs. destruct Hs; [|lia..].
    apply list_elem_of_fmap. exists b. split; [done|]. by eapply list_elem_of_lookup_2. }
  split; cbn; auto.
  - exists exts. split; [done|]. intros d2 Hag2. apply Hx. by eapply agree_off_trans.
  - apply Forall2_same_length_lookup_2; [rewrite length_insert; by eapply Forall2_length|].
    intros m b2 buf2 Hb2 Hbf2. rewrite Forall_lookup in Hp.
    pose proof (Hp _ _ Hk) as [Hk0 Hk1]. pose proof (Hp _ _ Hb2) as [Hm0 Hm1].
    destruct (decide (m = k)) as [->|Hmk].
    + rewrite Hk in Hb2. injection Hb2 as <-. pose proof (Forall2_lookup_l _ _ _ _ _ Hb Hk) as (buf0 & Hb0 & Hrd0 & _).
      rewrite list_lookup_insert_eq in Hbf2 by (by eapply lookup_lt_Some). injection Hbf2 as <-.
      split; [|done]. unfold read_block in *. rewrite i64_small in * by lia. eapply write_read_same; eauto.
    + rewrite list_lookup_insert_ne in Hbf2 by done.
      pose proof (Forall2_lookup_lr _ _ _ _ _ _ Hb Hb2 Hbf2) as [Hrd2 Hd2]. split; [|done].
      unfold read_block in *. rewrite i64_small in * by lia. eapply write_read_ne; eauto. rewrite Hbl.
      assert (b2.2 <> b.2); [|nia]. intros Heq. apply Hmk.
      eapply (NoDup_lookup _ m k b.2 Hn); rewrite list_lookup_fmap; [by rewrite Hb2; cbn; rewrite Heq|by rewrite Hk].
Qed.

(** The write of a sealed block of a directory. *)
Lemma write_dir_block (s : fsys D) i blks bufs k b buf0 buf' :
  dev_writable D -> dir_at s i blks bufs -> blks !! k = Some b -> bufs !! k = Some buf0 ->
  dir_buf (fs_sb s) buf' ->
  exists s', writeRawBlock fsOffset b.2 buf' s = (Ok tt, s') /\ same_meta s s' /\
    dir_at s' i blks (<[k:=buf']> bufs) /\
    write_at (fsOffset + b.2 * BlockSize (fs_sb s)) buf' (fs_dev s) = (Ok tt, fs_dev s') /\
    forall x, x < fsOffset + b.2 * BlockSize (fs_sb s) \/
              fsOffset + b.2 * BlockSize (fs_sb s) + BlockSize (fs_sb s) <= x ->
      dev_byte (fs_dev s') x = dev_byte (fs_dev s) x.
Proof.
  intros Hw Hda Hk Hbk Hbuf. pose proof Hda as [_ Hb _ Hp _ Hds _].
  rewrite Forall_lookup in Hp. destruct (Hp _ _ Hk) as [Hk0 Hk1].
  destruct (Forall2_lookup_lr _ _ _ _ _ _ Hb Hk Hbk) as [Hrd _].
  unfold read_block in Hrd. rewrite i64_small in Hrd by lia.
  destruct (db_len _ _ Hbuf) as [Hl Hl12].
  destruct (write_at_total Hw _ _ buf' _ _ (eq_sym Hl) ltac:(lia) Hrd) as [d' Hwr].
  exists (Fsys d' (fs_sb s) (fs_cursor s) (fs_rsv s)). split_and!; [|done..| |done|].
  - unfold writeRawBlock, mbnd, get_sb, mwrap. rewrite i64_small by lia.
    rewrite writeAtWithTrace_write by (intros; by apply readBGD_np). unfold on_dev. by rewrite Hwr.
  - by eapply dir_at_write.
  - intros x Hx. cbn. rewrite (write_at_Ok _ _ _ _ Hwr) by apply Hbuf. apply upd_bytes_ne. lia.
Qed.

Lemma concat_insert {A B} (f : A -> list B) bufs m buf buf' l1 l2 l2' :
  bufs !! m = Some buf -> f buf = l1 ++ l2 -> f buf' = l1 ++ l2' ->
  exists L1 L2, concat (f <$> bufs) = L1 ++ l1 ++ l2 ++ L2 /\
    concat (f <$> <[m:=buf']> bufs) = L1 ++ l1 ++ l2' ++ L2 /\
    L1 = concat (f <$> take m bufs) /\ L2 = concat (f <$> drop (S m) bufs).
Proof.
  intros Hm H1' H2'. exists (concat (f <$> take m bufs)), (concat (f <$> drop (S m) bufs)).
  pose proof (lookup_lt_Some _ _ _ Hm) as Hlt. split_and!; [| |done..].
  - rewrite <- (take_drop_middle bufs m buf Hm) at 1. rewrite fmap_app, concat_app. cbn. rewrite H1'.
    by rewrite <- app_assoc.
  - rewrite insert_take_drop by done. rewrite fmap_app, concat_app. cbn. rewrite H2'. by rewrite <- app_assoc.
Qed.

Definition no_room (name : list Z) (buf : list Z) : Prop :=
  Forall (fun r => r_ft r = FtDirTail \/ room r < minDirentSize (zlen name)) (recs buf 0).

Lemma insert_blocks_spec (s : fsys D) i fl ino name ft blks bufs rest k :
  dev_writable D -> dir_at s i blks bufs -> new_entry_ok ino name ft ->
  flags i = Ok fl -> has_flag fl InodeFlagHashIndex = false -> drop k blks = rest ->
  (insert_in_blocks fsOffset i ino name ft rest s = (Ok false, s) /\ Forall (no_room name) (drop k bufs)) \/
  exists m b buf buf' l1 l2 s', insert_in_blocks fsOffset i ino name ft rest s = (Ok true, s') /\
    same_meta s s' /\ blks !! m = Some b /\ bufs !! m = Some buf /\
    dir_at s' i blks (<[m:=buf']> bufs) /\
    entries buf = l1 ++ l2 /\ entries buf' = l1 ++ Dirent ino name ft :: l2 /\ dir_buf (fs_sb s) buf' /\
    write_at (fsOffset + b.2 * BlockSize (fs_sb s)) buf' (fs_dev s) = (Ok tt, fs_dev s') /\
    forall x, x < fsOffset + b.2 * BlockSize (fs_sb s) \/
              fsOffset + b.2 * BlockSize (fs_sb s) + BlockSize (fs_sb s) <= x ->
      dev_byte (fs_dev s') x = dev_byte (fs_dev s) x.
Proof.
  intros Hw Hda Hok Hfl Hh. pose proof Hda as [_ Hb _ _ Hraw _ Hseed]. revert k.
  induction rest as [|[lg ph] rest IH]; intros k Hk.
  { left. split; [done|]. rewrite drop_ge; [constructor|]. apply (f_equal length) in Hk.
    rewrite length_drop in Hk. apply Forall2_length in Hb. cbn in Hk. lia. }
  assert (blks !! k = Some (lg, ph)) as Hbk by (by rewrite <- (Nat.add_0_r k), <- lookup_drop, Hk).
  assert (drop (S k) blks = rest) as Hk' by (by rewrite <- (drop_drop _ k 1 : _ = drop (k + 1) blks), Hk || (rewrite <- Nat.add_1_r, <- drop_drop, Hk)).
  destruct (Forall2_lookup_l _ _ _ _ _ Hb Hbk) as (buf & Hbuf & Hrd & Hdb). cbn in Hrd.
  assert (insert_in_blocks fsOffset i ino name ft ((lg, ph) :: rest) s =
    (do! r := mlift (tryInsertDirEntry buf ino name ft (minDirentSize (zlen name))) in
     match r with
     | Some buf => do! sb := get_sb in
                   do! buf := mlift (updateDirBlockCsum sb i buf) in
                   do! _ := writeRawBlock fsOffset ph buf in ret true
     | None => insert_in_blocks fsOffset i ino name ft rest
     end) s) as Heq.
  { cbn [insert_in_blocks]. unfold mbnd at 1, mlift at 1. rewrite Hfl, Hh. cbn [andb].
    unfold mbnd at 1, gets at 1. by rewrite (read_block_raw _ _ _ _ Hrd). }
  rewrite Heq. clear Heq.
  pose proof (tryInsertDirEntry_correct buf ino name ft Hok (db_bytes _ _ Hdb) (db_chain _ _ Hdb)) as Hins.
  cbv zeta in Hins. destruct (tryInsertDirEntry _ _ _ _ _) as [[buf1|]|e|] eqn:Et; try done.
  - right. destruct (insert_dir_buf _ _ _ _ _ _ Hok Hdb Et) as (Hdb1 & l1 & l2 & E1 & E2).
    destruct (seal_dir_buf (fs_sb s) i buf1 Hdb1 Hseed Hraw) as (buf2 & Hseal & Hdb2 & E3).
    destruct (write_dir_block s i blks bufs k (lg, ph) buf buf2 Hw Hda Hbk Hbuf Hdb2) as (s' & Hwr & Hm & Hda' & Hwa & Hx).
    exists k, (lg, ph), buf, buf2, l1, l2, s'. split.
    { unfold mbnd, mlift, get_sb. rewrite Hseal. cbn [snd] in Hwr. by rewrite Hwr. }
    split_and!; auto. by rewrite E3.
  - destruct (IH (S k) Hk') as [[Hr Hno]|(m & b & bf & bf' & l1 & l2 & s' & Hr & Hrest)]; [left|right].
    + split; [done|]. rewrite (drop_S _ _ _ Hbuf). by constructor.
    + exists m, b, bf, bf', l1, l2, s'. by split.
Qed.

Lemma zero_blocks_spec (s : fsys D) i name blks bufs rest k :
  dev_writable D -> dir_at s i blks bufs -> Forall (no_stale name) bufs -> drop k blks = rest ->
  (zero_in_blocks fsOffset i name rest s = (Ok tt, s) /\
     Forall (fun buf => name ∉ (de_Name <$> entries buf)) (drop k bufs)) \/
  exists m b buf buf' l1 e l2 s', zero_in_blocks fsOffset i name rest s = (Ok tt, s') /\
    same_meta s s' /\ blks !! m = Some b /\ bufs !! m = Some buf /\
    dir_at s' i blks (<[m:=buf']> bufs) /\
    Forall (fun buf => name ∉ (de_Name <$> entries buf)) (take (m - k) (drop k bufs)) /\
    entries buf = l1 ++ e :: l2 /\ entries buf' = l1 ++ l2 /\ de_Name e = name /\
    (name ∉ (de_Name <$> l1)) /\ (k <= m)%nat /\
    forall x, x < fsOffset + b.2 * BlockSize (fs_sb s) \/
              fsOffset + b.2 * BlockSize (fs_sb s) + BlockSize (fs_sb s) <= x ->
      dev_byte (fs_dev s') x = dev_byte (fs_dev s) x.
Proof.
  intros Hw Hda Hst. pose proof Hda as [_ Hb _ _ Hraw _ Hseed]. revert k.
  induction rest as [|[lg ph] rest IH]; intros k Hk.
  { left. split; [done|]. rewrite drop_ge; [constructor|]. apply (f_equal length) in Hk.
    rewrite length_drop in Hk. apply Forall2_length in Hb. cbn in Hk. lia. }
  assert (blks !! k = Some (lg, ph)) as Hbk by (by rewrite <- (Nat.add_0_r k), <- lookup_drop, Hk).
  assert (drop (S k) blks = rest) as Hk' by (rewrite <- Nat.add_1_r, <- drop_drop, Hk; done).
  destruct (Forall2_lookup_l _ _ _ _ _ Hb Hbk) as (buf & Hbuf & Hrd & Hdb). cbn in Hrd.
  assert (zero_in_blocks fsOffset i name ((lg, ph) :: rest) s =
    (do! r := mlift (zeroEntryInBlock buf name) in
     match r with
     | Some buf => do! sb := get_sb in
                   do! buf := mlift (updateDirBlockCsum sb i buf) in
                   writeRawBlock fsOffset ph buf
     | None => zero_in_blocks fsOffset i name rest
     end) s) as Heq.
  { cbn [zero_in_blocks]. unfold mbnd at 1, gets at 1. by rewrite (read_block_raw _ _ _ _ Hrd). }
  rewrite Heq. clear Heq. rewrite Forall_lookup in Hst.
  pose proof (zeroEntryInBlock_spec buf name (db_bytes _ _ Hdb) (db_chain _ _ Hdb)) as Hz.
  destruct (zeroEntryInBlock _ _) as [[buf1|]|er|] eqn:Et; try done.
  - right. destruct (zero_dir_buf _ _ _ _ Hdb (Hst _ _ Hbuf) Et) as (Hdb1 & l1 & e & l2 & E1 & Hn & Hnot & E2).
    destruct (seal_dir_buf (fs_sb s) i buf1 Hdb1 Hseed Hraw) as (buf2 & Hseal & Hdb2 & E3).
    destruct (write_dir_block s i blks bufs k (lg, ph) buf buf2 Hw Hda Hbk Hbuf Hdb2) as (s' & Hwr & Hm & Hda' & _ & Hx).
    exists k, (lg, ph), buf, buf2, l1, e, l2, s'. split.
    { unfold mbnd, mlift, get_sb. rewrite Hseal. cbn [snd] in Hwr. by rewrite Hwr. }
    rewrite Nat.sub_diag, take_0. split_and!; auto. by rewrite E3.
  - rewrite (drop_S _ _ _ Hbuf).
    destruct (IH (S k) Hk') as [[Hr Hno]|(m & b & bf & bf' & l1 & e & l2 & s' & Hr & Hm & M1 & M2 & M3 & M4 & M5)];
      [left|right].
    + split; [done|]. by constructor.
    + exists m, b, bf, bf', l1, e, l2, s'. destruct M5 as (N1 & N2 & N3 & N4 & N5 & N6).
      assert (m - k = S (m - S k))%nat as -> by lia. cbn [take].
      split_and!; auto; lia.
Qed.

(** * Properties *)


Lemma concat_names (bufs : list (list Z)) name :
  Forall (fun buf => name ∉ (de_Name <$> entries buf)) bufs ->
  name ∉ (de_Name <$> concat (entries <$> bufs)).
Proof.
  induction 1 as [|buf bufs Hb _ IH]; cbn; [apply not_elem_of_nil|].
  rewrite fmap_app. rewrite not_elem_of_app. auto.
Qed.


(** C23: an inode that is written is the inode that is read back, with a checksum
    that verifies when the image has checksums; only the bytes of its slot
    change. *)
Theorem writeInode_correct (s : fsys D) i bg pos :
  dev_writable D -> inode_slot fsOffset s (in_num i) bg pos ->
  zlen (in_raw i) = InodeSize (fs_sb s) -> bytes_ok (in_raw i) -> inode_wf i ->
  0 <= csumSeed (fs_sb s) < 2 ^ 32 ->
  exists i' s', writeInode fsOffset i s = (Ok i', s') /\ same_meta s s' /\
    readInode (fs_dev s') fsOffset (fs_sb s') (in_num i) = Ok i' /\
    (has_flag (FeatureROCompat (fs_sb s)) FeatROCompatMetadataCsum = true -> inode_csum_ok (fs_sb s) i') /\
    in_size i' = in_size i /\ in_mode i' = in_mode i /\
    (forall n off, 0 <= off ->
      (off + Z.of_nat n <= 124 \/ 126 <= off /\ off + Z.of_nat n <= 130 \/ 132 <= off) ->
      uN n (in_raw i') off = uN n (in_raw i) off) /\
    forall x, x < pos \/ pos + InodeSize (fs_sb s) <= x ->
      dev_byte (fs_dev s') x = dev_byte (fs_dev s) x.
Proof.
  intros Hw Hsl Hl Hb Hwf Hseed. pose proof (sl_size _ _ _ _ _ Hsl) as Hsz.
  destruct (writeInode_ok fsOffset s i bg pos Hw Hsl Hl Hb Hwf Hseed) as (i' & s' & Hwr & Hm & Hrd & Hc & Hsl' & Hb' & Hx).
  exists i', s'. split; [done|]. split; [done|]. split; [done|].
  assert (zlen (in_raw i') = InodeSize (fs_sb s)) as Hl'.
  { destruct (has_flag _ _); [|by rewrite Hc].
    destruct (computeInodeCsum_ok (fs_sb s) i ltac:(lia) Hb Hseed) as (i2 & Hc2 & _ & _ & _ & _ & Hz & _).
    rewrite Hc in Hc2. injection Hc2 as <-. lia. }
  assert (forall x, x < pos \/ pos + InodeSize (fs_sb s) <= x ->
    dev_byte (fs_dev s') x = dev_byte (fs_dev s) x) as Hout.
  { intros x Hxx. rewrite (write_at_Ok _ _ _ _ Hx Hb'). apply upd_bytes_ne. rewrite Hl'. lia. }
  destruct (has_flag _ _); [|subst i'; by split_and!].
  destruct (computeInodeCsum_ok (fs_sb s) i ltac:(lia) Hb Hseed) as (i2 & Hc2 & Hok & _ & H1' & H2' & _ & Hu).
  rewrite Hc in Hc2. injection Hc2 as <-. by split_and!.
Qed.

End dirs.

(** ** Witnesses on the small image *)

Definition root_ino : inode := the (Inode [] 0 0 0) (readInode (MemDev (img_bytes 0)) 0 (img_sb 0) RootIno).
Definition root_buf : list Z := the [] (read_block 0 (MemDev (img_bytes 0)) (img_sb 0) 7).

Lemma root_dir_buf : dir_buf (img_sb 0) root_buf.
Proof.
  split.
  - apply all_bytes_ok. vm_compute. reflexivity.
  - split; vm_compute; [reflexivity|discriminate].
  - do 2 (apply chain_rec; [by vm_compute..|]). apply chain_end. by vm_compute.
  - by vm_compute.
Qed.

Lemma root_dir_at : dir_at 0 (img 0) root_ino [(0, 7)] [root_buf].
Proof.
  split.
  - exists [Leaf 0 7 1]. split; [vm_compute; reflexivity|]. intros d' _. vm_compute. reflexivity.
  - constructor; [|constructor]. split; [vm_compute; reflexivity|exact root_dir_buf].
  - apply NoDup_singleton.
  - constructor; [|constructor]. split; [done|]. change (BlockSize (fs_sb (img 0))) with 1024. cbn. lia.
  - by vm_compute.
  - by vm_compute.
  - by vm_compute.
Qed.



Lemma root_slot : inode_slot 0 (img 0) 2 (the (Bgd [] 0 0 0 0 0 0 0) (readBGD (MemDev (img_bytes 0)) 0 (img_sb 0) 0)) 5248.
Proof.
  split; try (by vm_compute).
  - right. by vm_compute.
  - eexists. vm_compute. reflexivity.
Qed.

Lemma writeInode_correct_witness :
  exists i' s', writeInode 0 root_ino (img 0) = (Ok i', s') /\
    readInode (fs_dev s') 0 (fs_sb s') 2 = Ok i'.
Proof.
  destruct (writeInode_correct 0 (img 0) root_ino (the (Bgd [] 0 0 0 0 0 0 0) (readBGD (MemDev (img_bytes 0)) 0 (img_sb 0) 0)) 5248)
    as (i' & s' & Hw & _ & Hr & _);
    [apply memdev_writable|exact root_slot|by vm_compute|apply all_bytes_ok; vm_compute; reflexivity
    |vm_compute; reflexivity|by vm_compute|exists i', s'; split; [exact Hw|exact Hr]].
Defined.

(** * Removal through a symbolic link *)

(** An empty regular file [f], inode 12, and a symbolic link [l] to it. *)
Definition ex_file : inode :=
  Inode (set16 (set16 (zeros 128) 0 0x81A4) 26 1) 12 0 0x81A4.
Definition ex_link_fs : fsys memdev :=
  let s := (allocInode 0 false (img 0)).2 in
  let s := (writeInode 0 ex_file s).2 in
  let s := (addDirEntry 0 root_ino 12 [102] FtRegFile s).2 in
  (makeSymlink 0 [102] [47; 108] 1000 s).2.

Definition names_of (s : fsys memdev) : res (list (list Z * Z)) :=
  let! es := readDir (fs_dev s) 0 (fs_sb s) root_ino in
  Ok ((fun e => (de_Name e, de_Inode e)) <$> es).

