(* ===== verification/InodeMap.v ===== *)
(** The block map inside an inode: what the edits of [commitLocked]
    ([src/writeat.go]) and [writeExtentTree] ([src/alloc.go]) do to the bytes, and
    what the readers of the map make of them. *)

From S2P Require Import Prelude Bytes Crc Device Superblock Bgd Bitmap GoLib Extent Limits Inode Inline FileRead Dir Alloc Image Lookup Namespace OnDisk AllocSpec NamespaceSpec.

(** The 60 bytes of [i_block]. *)
Definition node_of (i : inode) : list Z := zslice (in_raw i) inodeOffBlock 60.

(** The block an index node with a single entry points to. *)
Definition child_of (node : list Z) : option Z :=
  if (u16 node 0 =? ExtentMagic) && (u16 node 6 =? 1) && (u16 node 2 =? 1)
  then Some (Z.lor (u32 node 16) (Z.shiftl (u16 node 20) 32)) else None.

Lemma zlen_node i : 100 <= zlen (in_raw i) -> zlen (node_of i) = 60.
Proof. intros. unfold node_of, inodeOffBlock. rewrite zlen_zslice; lia. Qed.

Lemma singleExtentChild_node i :
  100 <= zlen (in_raw i) -> singleExtentChild i = Ok (child_of (node_of i)).
Proof.
  intros Hl. unfold singleExtentChild, child_of. rewrite subslice_ok by (unfold inodeOffBlock; lia).
  cbn [rbind]. replace (inodeOffBlock + 60 - inodeOffBlock) with 60 by done. fold (node_of i).
  pose proof (zlen_node i Hl) as Hn. rewrite !getN_ok by lia. cbn [rbind].
  destruct (u16 (node_of i) 0 =? ExtentMagic), (u16 (node_of i) 6 =? 1), (u16 (node_of i) 2 =? 1); done.
Qed.

(** Everything but the map, the flags, the mode and the links may differ. *)
Record same_map (i i' : inode) : Prop := {
  sm_len : zlen (in_raw i') = zlen (in_raw i);
  sm_bytes : bytes_ok (in_raw i) -> bytes_ok (in_raw i');
  sm_node : node_of i' = node_of i;
  sm_flags : u32 (in_raw i') inodeOffFlags = u32 (in_raw i) inodeOffFlags;
  sm_mode : u16 (in_raw i') 0 = u16 (in_raw i) 0;
  sm_links : u16 (in_raw i') inodeOffLinksCount = u16 (in_raw i) inodeOffLinksCount;
  sm_imode : in_mode i' = in_mode i;
  sm_num : in_num i' = in_num i
}.

Lemma same_map_refl i : same_map i i.
Proof. by split. Qed.
Lemma same_map_trans i1 i2 i3 : same_map i1 i2 -> same_map i2 i3 -> same_map i1 i3.
Proof. intros [] []. split; try congruence; auto. Qed.

Lemma same_map_mapped i i' :
  same_map i i' -> 0 <= in_size i' < 2 ^ 63 -> extent_mapped i -> extent_mapped i'.
Proof.
  intros [S1 S2 S3 S4 _ _ _ _] Hs (B & L & _ & F1 & F2). rewrite <- S4 in F1, F2. split; [auto|].
  split; [lia|]. done.
Qed.

(** The size, the block count and the times. *)
Definition finish_inode (i : inode) (size blocks now : Z) : res inode :=
  let! i := setSize i size in
  let! i := setBlocks512 i blocks in
  stamp i now.

Lemma finish_inode_ok i size blocks now :
  128 <= zlen (in_raw i) -> bytes_ok (in_raw i) -> 0 <= size < 2 ^ 64 -> u16 (in_raw i) 0 = in_mode i ->
  exists i', finish_inode i size blocks now = Ok i' /\ same_map i i' /\ inode_wf i' /\ in_size i' = size.
Proof.
  intros Hl Hb Hs Hm. unfold finish_inode, setSize, setBlocks512, stamp, inode_put32, inodeOffATime, inodeOffCTime, inodeOffMTime.
  bytes. cbn [in_raw in_with_raw]. bytes. cbn [in_raw in_with_raw]. bytes. cbn [in_raw in_with_raw]. bytes.
  cbn [in_raw in_with_raw]. bytes. eexists. split; [done|]. split; [split; cbn [in_raw in_with_raw in_mode in_num]|split; [|done]].
  - zl.
  - intros _. auto 10 with bytes.
  - unfold node_of, inodeOffBlock. cbn [in_raw in_with_raw]. bytes. done.
  - unfold inodeOffFlags. bytes. done.
  - bytes. done.
  - unfold inodeOffLinksCount. bytes. done.
  - done.
  - done.
  - unfold inode_wf, decodeInode. cbn [in_raw in_with_raw in_num in_size in_mode]. bytes.
    rewrite split_hi_lo by done. by rewrite Hm.
Qed.

Lemma computeInodeCsum_same_map sb i i' :
  128 <= zlen (in_raw i) -> bytes_ok (in_raw i) -> 0 <= csumSeed sb < 2 ^ 32 ->
  computeInodeCsum sb i = Ok i' -> same_map i i' /\ in_size i' = in_size i.
Proof.
  intros Hl Hb Hs Hc. destruct (computeInodeCsum_ok sb i Hl Hb Hs) as (i2 & Hc2 & _ & Hn & Hsz & Hm & Hzl & Hu).
  rewrite Hc in Hc2. injection Hc2 as <-. split; [|done]. split; auto.
  - intros _. by eapply computeInodeCsum_bytes.
  - specialize (Hu 60%nat 40 ltac:(lia) ltac:(left; lia)). unfold node_of, inodeOffBlock.
    assert (forall l, bytes_ok l -> 128 <= zlen l -> le_encode 60 (uN 60 l 40) = zslice l 40 60) as Hinv.
    { intros l Hbl Hll. apply le_encode_decode; [by apply bytes_ok_zslice|].
      apply Nat2Z.inj. change (zlen (zslice l 40 60) = 60). rewrite zlen_zslice; lia. }
    rewrite <- (Hinv (in_raw i')), <- (Hinv (in_raw i)), Hu by (auto; lia || by eapply computeInodeCsum_bytes). done.
  - unfold inodeOffFlags. apply Hu; lia.
  - apply Hu; lia.
  - unfold inodeOffLinksCount. apply Hu; lia.
Qed.

(** * New maps *)

(** An inode that can be given a map: its contents are not inline. *)
Definition mappable (i : inode) : Prop :=
  bytes_ok (in_raw i) /\ 128 <= zlen (in_raw i) /\ 0 <= in_size i < 2 ^ 63 /\
  has_flag (u32 (in_raw i) inodeOffFlags) InodeFlagInlineData = false.

Lemma mapped_mappable i : extent_mapped i -> mappable i.
Proof. intros (B & L & Hs & F1 & _). done. Qed.

(** [i_block] replaced by [node]. *)
Lemma set_node_ok i node :
  mappable i -> zlen node = 60 -> bytes_ok node ->
  exists raw', setExtentsFlag (zsplice (in_raw i) inodeOffBlock node) = Ok raw' /\
    let i' := in_with_raw i raw' in
    extent_mapped i' /\ node_of i' = node /\ zlen raw' = zlen (in_raw i) /\ u16 raw' 0 = u16 (in_raw i) 0 /\
    u16 raw' inodeOffLinksCount = u16 (in_raw i) inodeOffLinksCount /\ (inode_wf i -> inode_wf i').
Proof.
  intros (B & L & Hs & F1) Hn Hb. unfold setExtentsFlag, inodeOffFlags, inodeOffBlock in *.
  rewrite getN_ok by zl. cbn [rbind]. rewrite putN_ok by zl. eexists. split; [done|].
  rewrite uN_zsplice_ne by zl. set (fl := u32 (in_raw i) 32) in *.
  pose proof (u32_range (in_raw i) 32 B) as Hfl. fold fl in Hfl.
  assert (0 <= Z.lor fl InodeFlagExtents < 2 ^ 32) as Hr by (apply lor_range; unfold InodeFlagExtents; lia).
  cbv zeta. split; [|split; [|split; [|split; [|split]]]].
  - unfold extent_mapped, inodeOffFlags. cbn [in_raw in_with_raw in_size]. split; [auto with bytes|].
    split; [zl|]. split; [done|]. rewrite uN_setN_same by zl. rewrite Z.mod_small by done.
    unfold has_flag in *. rewrite !Z.land_lor_distr_l. change (Z.land InodeFlagExtents InodeFlagInlineData) with 0.
    rewrite Z.lor_0_r. split; [done|]. apply negb_true_iff, eqb_false. intros Hz. apply Z.lor_eq_0_iff in Hz as [_ ?]. done.
  - unfold node_of, inodeOffBlock. cbn [in_raw in_with_raw]. rewrite zslice_setN_ne by zl. by rewrite zslice_zsplice_same by zl.
  - zl.
  - rewrite uN_setN_ne by zl. by rewrite uN_zsplice_ne by zl.
  - unfold inodeOffLinksCount. rewrite uN_setN_ne by zl. by rewrite uN_zsplice_ne by zl.
  - unfold inode_wf, decodeInode. cbn [in_raw in_with_raw in_num]. rewrite !getN_ok by zl. cbn [rbind].
    rewrite !uN_setN_ne by zl. rewrite !uN_zsplice_ne by zl. intros [= E].
    destruct i as [raw num size mode]. cbn in *. by simplify_eq.
Qed.

Lemma child_node_bytes_ok bs exts node : child_node bs exts = Ok node -> bytes_ok node.
Proof.
  unfold child_node. intros Hn. res_inv. eapply put_leaves_bytes_ok; [|done]. eapply put_header_bytes_ok; [|done]. auto with bytes.
Qed.

Lemma child_of_leaf node exts : leaf_node node exts -> child_of node = None.
Proof. intros [_ _ _ Hd _]. unfold child_of. rewrite Hd. by rewrite andb_false_r. Qed.

Section tree.
Context {D : Type} `{BlockDevLaws D} `{SortSlice} `{Safeio}.
Context (fsOffset : Z).

Lemma extents_node (d : D) sb i :
  extent_mapped i -> extents d fsOffset sb i = parseExtentRoot d fsOffset sb (node_of i).
Proof.
  intros Hm. unfold extents. rewrite (extent_mapped_flags i Hm). cbn [rbind]. destruct Hm as (_ & L & _ & -> & ->).
  cbn [negb]. rewrite subslice_ok by (unfold inodeOffBlock; lia). done.
Qed.

(** Only the blocks of the tree matter, and only the geometry. *)
Definition tree_blocks (d : D) (sb : superblock) (node : list Z) (T : list Z) (exts : list extentLeaf) : Prop :=
  forall d', (forall b, b ∈ T -> readRawBlock d' fsOffset sb b = readRawBlock d fsOffset sb b) ->
    parseExtentRoot d' fsOffset sb node = Ok exts.

(** The two shapes the driver writes. *)
Lemma inline_tree (d : D) sb i exts :
  mappable i -> zlen exts <= 4 -> Forall leaf_ok exts ->
  runs_disjoint LogBlock exts -> runs_disjoint PhysBlock exts ->
  exists i', setInlineExtents i exts = Ok i' /\ extent_mapped i' /\ tree_blocks d sb (node_of i') [] exts /\
    child_of (node_of i') = None /\ zlen (in_raw i') = zlen (in_raw i) /\ u16 (in_raw i') 0 = u16 (in_raw i) 0 /\
    in_num i' = in_num i /\ in_mode i' = in_mode i /\ in_size i' = in_size i /\
    u16 (in_raw i') inodeOffLinksCount = u16 (in_raw i) inodeOffLinksCount /\ (inode_wf i -> inode_wf i').
Proof.
  intros Hm Hl Hok Hd Hp. unfold setInlineExtents. rewrite ltb_false by lia.
  rewrite subslice_ok by (destruct Hm as (_ & ? & _); unfold inodeOffBlock; lia). cbn [rbind].
  destruct (inline_node_ok exts Hl) as (node & Hn & Hnl & Hln). rewrite Hn. cbn [rbind].
  destruct (set_node_ok i node Hm Hnl) as (raw' & -> & Hm' & Hnode & Hlen & Hmode & Hlk & Hwf); [by eapply inline_node_bytes_ok|].
  cbn [rbind]. eexists. split; [done|]. split; [done|]. rewrite Hnode. split.
  - intros d' _. by apply parseExtentRoot_leaf_node.
  - split; [by eapply child_of_leaf|]. done.
Qed.

Lemma index_tree (d : D) sb i exts child node lb0 :
  mappable i -> Forall leaf_ok exts -> runs_disjoint LogBlock exts -> runs_disjoint PhysBlock exts ->
  0 < child < BlocksCount sb -> child < 2 ^ 48 -> leaf_node node exts -> readRawBlock d fsOffset sb child = Ok node ->
  exists i', setExtentIndex i lb0 child = Ok i' /\ extent_mapped i' /\ tree_blocks d sb (node_of i') [child] exts /\
    child_of (node_of i') = Some child /\ zlen (in_raw i') = zlen (in_raw i) /\ u16 (in_raw i') 0 = u16 (in_raw i) 0 /\
    in_num i' = in_num i /\ in_mode i' = in_mode i /\ in_size i' = in_size i /\
    u16 (in_raw i') inodeOffLinksCount = u16 (in_raw i) inodeOffLinksCount /\ (inode_wf i -> inode_wf i').
Proof.
  intros Hm Hok Hd Hp Hc Hc48 Hln Hrd. unfold setExtentIndex.
  rewrite subslice_ok by (destruct Hm as (_ & ? & _); unfold inodeOffBlock; lia). cbn [rbind].
  destruct (index_node_ok lb0 child ltac:(lia)) as (buf & Hx & Hxl & Hmg & He & Hdp & Hch). rewrite Hx. cbn [rbind].
  destruct (set_node_ok i buf Hm Hxl) as (raw' & -> & Hm' & Hnode & Hlen & Hmode & Hlk & Hwf); [by eapply index_node_bytes_ok|].
  cbn [rbind]. eexists. split; [done|]. split; [done|]. rewrite Hnode. split; [|split].
  - intros d' Hd'. apply (parseExtentRoot_index d' fsOffset sb buf child node); auto; [lia|lia|].
    rewrite Hd'; [done|by left].
  - unfold child_of. rewrite Hmg, Hdp, He, !Z.eqb_refl. cbn [andb]. by rewrite Z.lor_comm, Hch.
  - done.
Qed.

End tree.
