(* ===== verification/Fsck.v ===== *)
(** The consistency check and the repair of the free counts ([src/fsck.go]),
    and the theorem that a repaired image passes the check. *)

From S2P Require Import Prelude Bytes Crc Device Superblock Bgd Bitmap Inode Alloc Image AllocSpec JournalSpec.

Section ops.
Context {D : Type} `{BlockDev D}.
Context (fsOffset : Z).

Notation FS := (M (fsys D)).

(** The loop over the groups: the sums of the free counts, at their widths, and
    whether a group reported a mismatch. *)
Fixpoint each_group (body : Z -> FS (Z * Z * bool)) (n : nat) (g totalFreeBlocks totalFreeInodes : Z)
    (errs : bool) : FS (Z * Z * bool) :=
  match n with
  | O => ret (totalFreeBlocks, totalFreeInodes, errs)
  | S n' =>
      do! (freeBlocks, freeInodes, bad) := body g in
      each_group body n' (g + 1) (w64 (totalFreeBlocks + freeBlocks))
        (w32 (totalFreeInodes + w32 freeInodes)) (errs || bad)
  end.

Definition check_group (g : Z) : FS (Z * Z * bool) :=
  do! sb := get_sb in
  do! d := mwrap "ext4: read BGD" (gets (fun d sb => readBGD d fsOffset sb g)) in
  do! bmap := mwrap "ext4: read block bitmap" (readBitmap fsOffset (BlockBitmapBlock d)) in
  do! freeBlocks := mlift (countZeroBits bmap (BlocksPerGroup sb)) in
  do! imap := mwrap "ext4: read inode bitmap" (readBitmap fsOffset (InodeBitmapBlock d)) in
  do! freeInodes := mlift (countZeroBits imap (InodesPerGroup sb)) in
  ret (freeBlocks, freeInodes,
       negb (w32 freeBlocks =? FreeBlocksCount d) || negb (w32 freeInodes =? FreeInodesCount d)).

Definition CheckImage : FS unit :=
  do! sb := get_sb in
  do! (totalFreeBlocks, totalFreeInodes, errs) :=
    each_group check_group (Z.to_nat (numBlockGroups sb)) 0 0 0 false in
  if errs || negb (totalFreeBlocks =? sb_FreeBlocksCount sb)
          || negb (totalFreeInodes =? sb_FreeInodesCount sb)
  then mfail (Errorf "ext4: consistency errors") else ret tt.

(** [writeBGD] encodes into the descriptor it is given, which the caller goes on
    using. *)
Definition rewriteBGD (g : Z) (d : bgd) : FS bgd :=
  do! sb := get_sb in
  do! _ := mwrap "ext4: write updated BGD" (writeBGD fsOffset g d) in
  mlift (prepareBGD sb g d).

Definition repair_group (g : Z) : FS (Z * Z * bool) :=
  do! sb := get_sb in
  do! d := mwrap "ext4: read BGD" (gets (fun d sb => readBGD d fsOffset sb g)) in
  do! bmap := mwrap "ext4: read block bitmap" (readBitmap fsOffset (BlockBitmapBlock d)) in
  do! freeBlocks := mlift (countZeroBits bmap (BlocksPerGroup sb)) in
  do! d := (if w32 freeBlocks =? FreeBlocksCount d then ret d else
            rewriteBGD g (bgd_with_counts d (w32 freeBlocks) (FreeInodesCount d) (UsedDirsCount d))) in
  do! imap := mwrap "ext4: read inode bitmap" (readBitmap fsOffset (InodeBitmapBlock d)) in
  do! freeInodes := mlift (countZeroBits imap (InodesPerGroup sb)) in
  do! _ := (if w32 freeInodes =? FreeInodesCount d then ret d else
            rewriteBGD g (bgd_with_counts d (FreeBlocksCount d) (w32 freeInodes) (UsedDirsCount d))) in
  ret (freeBlocks, freeInodes, false).

Definition RepairImage : FS unit :=
  do! sb := get_sb in
  do! (totalFreeBlocks, totalFreeInodes, _) :=
    each_group repair_group (Z.to_nat (numBlockGroups sb)) 0 0 0 false in
  do! sb := get_sb in
  if negb (totalFreeBlocks =? sb_FreeBlocksCount sb)
     || negb (totalFreeInodes =? sb_FreeInodesCount sb)
  then
    do! _ := set_sb (with_counts sb (BlocksCount sb) totalFreeBlocks totalFreeInodes) in
    mwrap "ext4: write updated superblock" (writeSuperblock fsOffset)
  else ret tt.

End ops.

(** * The counts of an image *)

Section spec.
Context {D : Type} `{BlockDevLaws D}.
Context (fsOffset : Z).

(** The two bitmaps of a group, read from the device. *)
Definition disk_map (d : D) (sb : superblock) (g : Z) (isBlock : bool) : list Z :=
  match readBGD d fsOffset sb g with
  | Ok bg =>
      match read_block fsOffset d sb (if isBlock then BlockBitmapBlock bg else InodeBitmapBlock bg) with
      | Ok b => b
      | _ => []
      end
  | _ => []
  end.
Definition free_in (d : D) (sb : superblock) (g : Z) (isBlock : bool) : Z :=
  free_count sb isBlock (disk_map d sb g isBlock).

(** The sums over the groups [g], ..., at the widths of the code. *)
Fixpoint total_free (d : D) (sb : superblock) (n : nat) (g tb ti : Z) : Z * Z :=
  match n with
  | O => (tb, ti)
  | S n' => total_free d sb n' (g + 1) (w64 (tb + free_in d sb g true)) (w32 (ti + free_in d sb g false))
  end.

(** The counts of a descriptor are those of the bitmaps. *)
Definition group_counted (d : D) (sb : superblock) (g : Z) : Prop :=
  exists bg, readBGD d fsOffset sb g = Ok bg /\
    FreeBlocksCount bg = free_in d sb g true /\ FreeInodesCount bg = free_in d sb g false.

Definition counted (s : fsys D) : Prop :=
  (forall g, 0 <= g < numBlockGroups (fs_sb s) -> group_counted (fs_dev s) (fs_sb s) g) /\
  total_free (fs_dev s) (fs_sb s) (Z.to_nat (numBlockGroups (fs_sb s))) 0 0 0 =
    (sb_FreeBlocksCount (fs_sb s), sb_FreeInodesCount (fs_sb s)).

Lemma countZero_block (s : fsys D) g bg bmap imap :
  group_at fsOffset s g bg bmap imap ->
  layout fsOffset (fs_sb s) g (BlockBitmapBlock bg) (InodeBitmapBlock bg) ->
  countZeroBits bmap (BlocksPerGroup (fs_sb s)) = Ok (free_in (fs_dev s) (fs_sb s) g true) /\
  countZeroBits imap (InodesPerGroup (fs_sb s)) = Ok (free_in (fs_dev s) (fs_sb s) g false).
Proof.
  intros [G1 G2 G3 G4] []. unfold free_in, disk_map. rewrite G1, G2, G3. unfold free_count, max_bits.
  pose proof (read_block_ok _ _ _ _ _ G2 ltac:(lia)). pose proof (read_block_ok _ _ _ _ _ G3 ltac:(lia)).
  split; rewrite countZeroBits_spec by lia; by rewrite Z.min_l by lia.
Qed.

Lemma free_in_range (s : fsys D) g bg bmap imap b :
  group_at fsOffset s g bg bmap imap ->
  layout fsOffset (fs_sb s) g (BlockBitmapBlock bg) (InodeBitmapBlock bg) ->
  0 <= free_in (fs_dev s) (fs_sb s) g b < count_max (fs_sb s).
Proof. intros _ []. apply free_count_range; lia. Qed.

Lemma w32_free (s : fsys D) g bg bmap imap b :
  group_at fsOffset s g bg bmap imap ->
  layout fsOffset (fs_sb s) g (BlockBitmapBlock bg) (InodeBitmapBlock bg) ->
  w32 (free_in (fs_dev s) (fs_sb s) g b) = free_in (fs_dev s) (fs_sb s) g b.
Proof.
  intros Hg Hl. pose proof (free_in_range s g _ _ _ b Hg Hl). pose proof (count_max_le (fs_sb s)).
  rewrite w32_small; lia.
Qed.

(** ** The check *)

Definition mismatch (d : D) (sb : superblock) (g : Z) (bg : bgd) : bool :=
  negb (free_in d sb g true =? FreeBlocksCount bg) || negb (free_in d sb g false =? FreeInodesCount bg).

Lemma check_group_run (s : fsys D) g bg bmap imap :
  fs_rsv s = ∅ -> group_at fsOffset s g bg bmap imap ->
  layout fsOffset (fs_sb s) g (BlockBitmapBlock bg) (InodeBitmapBlock bg) ->
  check_group fsOffset g s = (Ok (free_in (fs_dev s) (fs_sb s) g true, free_in (fs_dev s) (fs_sb s) g false,
    mismatch (fs_dev s) (fs_sb s) g bg), s).
Proof.
  intros Hr Hg L. destruct (countZero_block _ _ _ _ _ Hg L) as [Hb Hi]. pose proof Hg as [G1 G2 G3 _].
  pose proof L as []. unfold check_group. run_sb. run G1.
  run_with ltac:(apply (readBitmap_empty fsOffset s _ bmap); [lia|done..]). run Hb.
  run_with ltac:(apply (readBitmap_empty fsOffset s _ imap); [lia|done..]). run Hi.
  unfold ret, mismatch. by rewrite !(w32_free _ _ _ _ _ _ Hg L).
Qed.

(** A loop whose body succeeds, with an invariant of the state. *)
Lemma each_group_run (body : Z -> M (fsys D) (Z * Z * bool)) (P : Z -> fsys D -> Prop) d sb
    (bad : Z -> bool) n :
  (forall g s, 0 <= g < numBlockGroups sb -> P g s -> exists s',
     body g s = (Ok (free_in d sb g true, free_in d sb g false, bad g), s') /\
     w32 (free_in d sb g false) = free_in d sb g false /\ P (g + 1) s') ->
  forall g tb ti e s, 0 <= g -> g + Z.of_nat n = numBlockGroups sb -> P g s ->
  exists s', P (numBlockGroups sb) s' /\
    each_group body n g tb ti e s = (Ok (total_free d sb n g tb ti, e || existsb bad (seqZ g (Z.of_nat n))), s').
Proof.
  intros Hb. induction n as [|n IH]; intros g tb ti e s Hg0 Hg Hp.
  { exists s. replace (numBlockGroups sb) with g by lia. split; [done|].
    cbn. by rewrite orb_false_r. }
  destruct (Hb g s) as (s1 & Hrun & Hw & Hp1); [lia|done|].
  destruct (IH (g + 1) (w64 (tb + free_in d sb g true)) (w32 (ti + free_in d sb g false)) (e || bad g) s1)
    as (s' & Hp' & Hrest); [lia..|done|]. exists s'. split; [done|].
  cbn [each_group]. unfold mbnd. rewrite Hrun, Hw, Hrest. cbn [total_free].
  rewrite (seqZ_cons g (Z.of_nat (S n))) by lia. replace (Z.pred (Z.of_nat (S n))) with (Z.of_nat n) by lia.
  rewrite <- Z.add_1_r. cbn [existsb]. by rewrite orb_assoc.
Qed.

Definition group_bad (d : D) (sb : superblock) (g : Z) : bool :=
  match readBGD d fsOffset sb g with Ok bg => mismatch d sb g bg | _ => false end.

Lemma group_bad_counted (s : fsys D) g :
  group_ok fsOffset s g -> group_bad (fs_dev s) (fs_sb s) g = false <-> group_counted (fs_dev s) (fs_sb s) g.
Proof.
  intros (bg & bmap & imap & [G1 _ _ _] & _). unfold group_bad, group_counted, mismatch. rewrite G1.
  rewrite orb_false_iff, !negb_false_iff, !Z.eqb_eq. split; [intros [? ?]; exists bg; auto|].
  intros (bg' & [= <-] & ? & ?). done.
Qed.

Lemma existsb_false {A} (f : A -> bool) l : existsb f l = false <-> forall x, x ∈ l -> f x = false.
Proof.
  induction l as [|x l IH]; cbn; [split; [|done]; intros _ x Hx; by apply elem_of_nil in Hx|].
  rewrite orb_false_iff, IH. setoid_rewrite elem_of_cons. naive_solver.
Qed.

Lemma CheckImage_run (s : fsys D) :
  fs_ok fsOffset s -> exists r, CheckImage fsOffset s = (r, s) /\
    r <> Panic /\ (r = Ok tt <-> counted s).
Proof.
  intros ((Hr & _) & Hn & Hok). set (n := numBlockGroups (fs_sb s)).
  destruct (each_group_run (check_group fsOffset) (fun _ s' => s' = s) (fs_dev s) (fs_sb s)
    (group_bad (fs_dev s) (fs_sb s)) (Z.to_nat n)) with (g := 0) (tb := 0) (ti := 0) (e := false) (s := s)
    as (s' & -> & Hrun); [|done|fold n; lia|done|].
  { intros g s1 Hg ->. destruct (Hok g Hg) as (bg & bmap & imap & Hga & L & _). exists s.
    rewrite (check_group_run s g bg bmap imap) by done. unfold group_bad. rewrite (ga_bgd _ _ _ _ _ _ Hga).
    split_and!; [done| |done]. by eapply w32_free. }
  unfold CheckImage. run_sb. fold n. run Hrun. destruct (total_free _ _ _ _ _ _) as [tb ti] eqn:Et.
  assert (counted s <-> (existsb (group_bad (fs_dev s) (fs_sb s)) (seqZ 0 n) = false /\
    tb = sb_FreeBlocksCount (fs_sb s) /\ ti = sb_FreeInodesCount (fs_sb s))) as Hc.
  { unfold counted. fold n. rewrite Et, existsb_false. setoid_rewrite elem_of_seqZ. split.
    - intros [Hg [= -> ->]]. split_and!; auto. intros g Hgn. apply group_bad_counted; [apply Hok; lia|].
      apply Hg. lia.
    - intros (Hg & -> & ->). split; [|done]. intros g Hgn. apply group_bad_counted; [by apply Hok|].
      apply Hg. lia. }
  rewrite Z2Nat.id by lia. cbn [orb]. clear Hrun. rewrite (assoc and) in Hc.
  rewrite <- !Z.eqb_eq, <- !negb_false_iff, <- !orb_false_iff in Hc.
  destruct (_ || _) in Hc |- *; eexists; (split; [reflexivity|]); (split; [done|]).
  - split; [done|]. by intros ?%Hc.
  - split; [|done]. intros _. by apply Hc.
Qed.

(** ** The repair *)

Hypothesis Hwritable : dev_writable D.

(** What can be read apart from one range reads the same. *)
Definition keeps (off n : Z) (d d' : D) : Prop :=
  (forall off' n' r, sep off' n' off n -> read_at d off' n' = Ok r -> read_at d' off' n' = Ok r) /\
  (forall off' n' r, read_at d off' n' = Ok r -> exists r', read_at d' off' n' = Ok r').

Lemma keeps_refl off n d : keeps off n d d.
Proof. split; eauto. Qed.
Lemma keeps_trans off n d1 d2 d3 : keeps off n d1 d2 -> keeps off n d2 d3 -> keeps off n d1 d3.
Proof. intros [A1 A2] [B1 B2]. split; [by eauto|]. intros off' n' r [r1 Hr]%A2. eauto. Qed.
Lemma keeps_write off bs (d d' : D) :
  write_at off bs d = (Ok tt, d') -> bytes_ok bs -> keeps off (zlen bs) d d'.
Proof.
  intros Hw Hb. split.
  - intros off' n' r Hs Hr. unfold sep in Hs. eapply write_read_ne; eauto; lia.
  - intros off' n' r Hr. by eapply write_at_readable.
Qed.

(** A descriptor in memory for the group that [bg] describes. *)
Record twin (sb : superblock) (bg b : bgd) : Prop := {
  tw_fits : raw_fits sb (bgd_raw b);
  tw_bytes : bytes_ok (bgd_raw b);
  tw_dec : decodeBGD (bgd_raw b) sb = Ok b;
  tw_bb : BlockBitmapBlock b = BlockBitmapBlock bg;
  tw_ib : InodeBitmapBlock b = InodeBitmapBlock bg;
  tw_used : UsedDirsCount b = UsedDirsCount bg
}.

Lemma twin_trans sb bg b1 b2 : twin sb bg b1 -> twin sb b1 b2 -> twin sb bg b2.
Proof. intros [] []. split; auto; congruence. Qed.

(** [writeBGD] encodes a descriptor that can be read back. *)
Lemma prepareBGD_twin sb g bg b fb fi :
  32 <= DescSize sb -> twin sb bg b -> 0 <= UsedDirsCount bg < count_max sb ->
  0 <= fb < count_max sb -> 0 <= fi < count_max sb ->
  exists b1, prepareBGD sb g (bgd_with_counts b fb fi (UsedDirsCount b)) = Ok b1 /\ twin sb bg b1 /\
    FreeBlocksCount b1 = fb /\ FreeInodesCount b1 = fi /\
    (csum_on sb -> bgd_csum_ok sb g (bgd_raw b1)).
Proof.
  intros Hd [F B E T1 T2 T3] Hu Hfb Hfi.
  destruct (bgd_encode_decode sb (bgd_raw b) b fb fi (UsedDirsCount b)) as (b' & He & Hdec & Heq & Hl);
    [done..|by rewrite T3|].
  assert (bytes_ok (bgd_raw b')) as Hbe by (eapply bgd_encode_bytes_ok; [|exact He]; done).
  unfold prepareBGD. rewrite He. cbn [rbind].
  destruct (setBGDChecksum sb g (bgd_raw b')) as [raw'| |] eqn:Hs.
  2,3: rewrite setBGDChecksum_eq in Hs by (rewrite ?Hl; apply F || lia); done.
  destruct (decode_csum sb g (bgd_raw b') raw' b') as [Hf' Hd']; auto.
  { split; [rewrite Hl; apply F|done]. }
  exists (bgd_with_raw b' raw'). split; [done|]. rewrite Heq. cbn. split_and!; [|done..|].
  - split; cbn; auto; [by eapply setBGDChecksum_bytes_ok|]. rewrite Hd', Heq. done.
  - intros Hc. apply (setBGDChecksum_ok sb g Hd (bgd_raw b')); auto. rewrite Hl. apply F.
Qed.

(** The counts of group [g] are right in [s'], and nothing but its descriptor
    has changed since [s]. *)
Definition repaired (s s' : fsys D) (g : Z) (bg : bgd) (bmap imap : list Z) : Prop :=
  same_meta s s' /\
  keeps (fsOffset + bgd_offset (fs_sb s) g) (DescSize (fs_sb s)) (fs_dev s) (fs_dev s') /\
  exists bg', group_at fsOffset s' g bg' bmap imap /\ twin (fs_sb s) bg bg' /\
    FreeBlocksCount bg' = free_count (fs_sb s) true bmap /\
    FreeInodesCount bg' = free_count (fs_sb s) false imap.

Lemma write_desc_ok (s : fsys D) g bg bmap imap b1 :
  group_at fsOffset s g bg bmap imap ->
  layout fsOffset (fs_sb s) g (BlockBitmapBlock bg) (InodeBitmapBlock bg) ->
  twin (fs_sb s) bg b1 ->
  exists s', applyTask fsOffset g [CommitOp (fsOffset + bgd_offset (fs_sb s) g) (bgd_raw b1)] s = (Ok tt, s') /\
    repaired s s' g bg bmap imap.
Proof.
  intros [G1 G2 G3 G4] L T. pose proof L as []. pose proof T as [F B E T1 T2 T3]. set (sb := fs_sb s) in *.
  unfold readBGD in G1. apply rbind_Ok in G1 as (raw0 & Hr0%rwrap_Ok & _).
  destruct (recompute_bgd_spec fsOffset sb g ltac:(lia) ly_bpg ly_ipg (fs_dev s) (bgd_raw b1) b1 bmap imap)
    as (raw' & Hre & F' & B' & _ & Hdec'); auto; [by rewrite T3|by rewrite T1|by rewrite T2|].
  assert (zlen raw' = DescSize sb) as Hlr by apply F'.
  destruct (write_at_total Hwritable (fs_dev s) (fsOffset + bgd_offset sb g) raw' _ raw0 (eq_sym Hlr))
    as [d' W]; [lia|done|].
  exists (Fsys d' sb (fs_cursor s) (fs_rsv s)). split.
  { rewrite (applyTask_run fsOffset g _ [] s raw' d'); [done|fold sb; lia| |done].
    cbn [op_data]. rewrite eqb_true by apply F. done. }
  pose proof (keeps_write _ _ _ _ W B') as Hk. rewrite Hlr in Hk. unfold sep in *.
  split; [done|]. split; [done|]. exists (recounted sb b1 bmap imap raw'). split_and!.
  - split; cbn; fold sb.
    + unfold readBGD. rewrite (write_read_same _ _ _ _ _ _ W B' (eq_sym Hlr) Hr0). done.
    + rewrite T1. unfold read_block in *. rewrite i64_small in * by lia. apply Hk; [unfold sep; lia|done].
    + rewrite T2. unfold read_block in *. rewrite i64_small in * by lia. apply Hk; [unfold sep; lia|done].
    + by rewrite T3.
  - split; cbn; auto.
  - done.
  - done.
Qed.

(** Without a claim on the counts. *)
Definition touched (s s' : fsys D) (g : Z) (bg : bgd) (bmap imap : list Z) : Prop :=
  same_meta s s' /\
  keeps (fsOffset + bgd_offset (fs_sb s) g) (DescSize (fs_sb s)) (fs_dev s) (fs_dev s') /\
  exists bg', group_at fsOffset s' g bg' bmap imap /\ twin (fs_sb s) bg bg'.

Lemma repaired_touched s s' g bg bmap imap :
  repaired s s' g bg bmap imap -> touched s s' g bg bmap imap.
Proof. intros (M1 & K & bg' & G & T & _). split_and!; eauto. Qed.

Lemma touched_layout s s' g bg b bmap imap :
  touched s s' g bg bmap imap -> twin (fs_sb s) bg b ->
  layout fsOffset (fs_sb s) g (BlockBitmapBlock bg) (InodeBitmapBlock bg) ->
  exists bg', group_at fsOffset s' g bg' bmap imap /\ twin (fs_sb s') bg' b /\
    layout fsOffset (fs_sb s') g (BlockBitmapBlock bg') (InodeBitmapBlock bg').
Proof.
  intros ((-> & _) & _ & bg' & Hg & []) [] L. exists bg'.
  split_and!; auto; [split; auto; congruence|by rewrite tw_bb0, tw_ib0].
Qed.

Lemma repaired_trans s1 s2 s3 g bg bg2 bmap imap :
  touched s1 s2 g bg bmap imap -> group_at fsOffset s2 g bg2 bmap imap ->
  repaired s2 s3 g bg2 bmap imap -> repaired s1 s3 g bg bmap imap.
Proof.
  intros (M1 & K1 & b1 & G1 & T1) G2 (M2 & K2 & b2 & G3 & T2 & C1 & C2).
  destruct (group_at_det _ _ _ _ _ _ _ _ _ G1 G2) as (-> & _).
  pose proof M1 as (Hsb & _). rewrite Hsb in *.
  split; [by eapply same_meta_trans|]. split; [by eapply keeps_trans|].
  exists b2. split_and!; auto. by eapply twin_trans.
Qed.

Lemma rewriteBGD_ok (s : fsys D) g bg b bmap imap fb fi :
  group_at fsOffset s g bg bmap imap ->
  layout fsOffset (fs_sb s) g (BlockBitmapBlock bg) (InodeBitmapBlock bg) ->
  twin (fs_sb s) bg b -> 0 <= fb < count_max (fs_sb s) -> 0 <= fi < count_max (fs_sb s) ->
  exists b1 s', rewriteBGD fsOffset g (bgd_with_counts b fb fi (UsedDirsCount b)) s = (Ok b1, s') /\
    twin (fs_sb s) bg b1 /\ FreeBlocksCount b1 = fb /\ FreeInodesCount b1 = fi /\
    repaired s s' g bg bmap imap.
Proof.
  intros G L T Hfb Hfi. pose proof L as [].
  destruct (prepareBGD_twin (fs_sb s) g bg b fb fi) as (b1 & Hp & T1 & Q1 & Q2 & _);
    [lia|done|apply G|done..|].
  destruct (write_desc_ok s g bg bmap imap b1 G L T1) as (s' & Hw & R).
  exists b1, s'. split; [|done]. unfold rewriteBGD. run_sb.
  assert (writeBGD fsOffset g (bgd_with_counts b fb fi (UsedDirsCount b)) s = (Ok tt, s')) as Hwr.
  { unfold writeBGD. run_sb. run Hp. by apply mwrap_run. }
  run Hwr. unfold mlift. by rewrite Hp.
Qed.

Lemma free_in_eq (s : fsys D) g bg bmap imap :
  group_at fsOffset s g bg bmap imap ->
  free_in (fs_dev s) (fs_sb s) g true = free_count (fs_sb s) true bmap /\
  free_in (fs_dev s) (fs_sb s) g false = free_count (fs_sb s) false imap.
Proof. intros [G1 G2 G3 _]. unfold free_in, disk_map. by rewrite G1, G2, G3. Qed.

Lemma group_twin (s : fsys D) g bg bmap imap :
  32 <= DescSize (fs_sb s) -> group_at fsOffset s g bg bmap imap -> twin (fs_sb s) bg bg.
Proof. intros Hd [G1 _ _ _]. apply readBGD_ok in G1 as (? & ? & ?); [|done]. by split. Qed.

(** The first of the two writes, for the blocks. *)
Lemma repair_blocks (s : fsys D) g bg bmap imap :
  let fb := free_in (fs_dev s) (fs_sb s) g true in
  group_at fsOffset s g bg bmap imap ->
  layout fsOffset (fs_sb s) g (BlockBitmapBlock bg) (InodeBitmapBlock bg) ->
  exists b s1, (if w32 fb =? FreeBlocksCount bg then ret bg
      else rewriteBGD fsOffset g (bgd_with_counts bg (w32 fb) (FreeInodesCount bg) (UsedDirsCount bg))) s = (Ok b, s1) /\
    twin (fs_sb s) bg b /\ FreeBlocksCount b = fb /\ FreeInodesCount b = FreeInodesCount bg /\
    touched s s1 g bg bmap imap /\
    (FreeInodesCount bg = free_in (fs_dev s) (fs_sb s) g false -> repaired s s1 g bg bmap imap).
Proof.
  intros fb G L. pose proof L as []. destruct (free_in_eq _ _ _ _ _ G) as [Eb Ei].
  pose proof (free_in_range _ _ _ _ _ true G L) as Rb. fold fb in Rb, Eb.
  assert (32 <= DescSize (fs_sb s)) as Hds by lia. pose proof (group_twin _ _ _ _ _ Hds G) as T.
  pose proof (decodeBGD_ranges _ _ _ (tw_bytes _ _ _ T) (tw_dec _ _ _ T)) as (Q1 & Q2 & Q3).
  unfold fb at 1 2. rewrite !(w32_free _ _ _ _ _ _ G L). fold fb.
  destruct (Z.eqb_spec fb (FreeBlocksCount bg)).
  - exists bg, s. split_and!; auto; [by split_and!; eauto using keeps_refl|].
    intros Hi. split; [done|]. split; [apply keeps_refl|]. exists bg. split_and!; auto; congruence.
  - destruct (rewriteBGD_ok s g bg bg bmap imap fb (FreeInodesCount bg)) as (b1 & s1 & H1 & H2 & H3 & H4 & H5); auto.
    exists b1, s1. split_and!; auto. by apply repaired_touched.
Qed.

Lemma repair_group_ok (s : fsys D) g bg bmap imap :
  fs_rsv s = ∅ -> group_at fsOffset s g bg bmap imap ->
  layout fsOffset (fs_sb s) g (BlockBitmapBlock bg) (InodeBitmapBlock bg) ->
  exists s', repair_group fsOffset g s =
      (Ok (free_in (fs_dev s) (fs_sb s) g true, free_in (fs_dev s) (fs_sb s) g false, false), s') /\
    repaired s s' g bg bmap imap.
Proof.
  intros Hr G L. pose proof L as []. destruct (countZero_block _ _ _ _ _ G L) as [Hb Hi].
  pose proof (free_in_range _ _ _ _ _ true G L) as Rb. pose proof (free_in_range _ _ _ _ _ false G L) as Ri.
  pose proof G as [G1 G2 G3 G4].
  destruct (repair_blocks s g bg bmap imap G L) as (b & s1 & Hfirst & Tb & Cb & Ci & Hs1 & Hrep1).
  destruct (touched_layout _ _ _ _ b _ _ Hs1 Tb L) as (bg1 & Gs1 & Ts1 & L1).
  pose proof Hs1 as ((Hsb & Hcu & Hrs) & _). pose proof Gs1 as [_ _ G13 _].
  set (fi := free_in (fs_dev s) (fs_sb s) g false) in *.
  assert (exists b' s', (if w32 fi =? FreeInodesCount b then ret b
      else rewriteBGD fsOffset g (bgd_with_counts b (FreeBlocksCount b) (w32 fi) (UsedDirsCount b))) s1 = (Ok b', s') /\
    repaired s s' g bg bmap imap) as (b' & s' & Hsecond & Hrep).
  { unfold fi at 1 2. rewrite !(w32_free _ _ _ _ _ _ G L). fold fi. destruct (Z.eqb_spec fi (FreeInodesCount b)).
    - exists b, s1. split; [done|]. apply Hrep1. congruence.
    - destruct (rewriteBGD_ok s1 g bg1 b bmap imap (FreeBlocksCount b) fi) as (b1 & s2 & H1 & _ & _ & _ & R);
        auto; [rewrite Hsb; lia..|]. exists b1, s2. split; [done|]. by eapply repaired_trans. }
  exists s'. split; [|done]. unfold repair_group. run_sb. run G1.
  run_with ltac:(apply (readBitmap_empty fsOffset s _ bmap); [lia|done..]). run Hb. run Hfirst.
  run_with ltac:(apply (readBitmap_empty fsOffset s1 _ imap); [rewrite Hsb; lia|congruence|
    rewrite (tw_ib _ _ _ Ts1); exact G13]).
  run Hi. by run Hsecond.
Qed.

(** The bitmaps lie apart from the descriptors of every group. *)
Definition maps_apart (d : D) (sb : superblock) : Prop :=
  forall g g' bg, 0 <= g < numBlockGroups sb -> 0 <= g' < numBlockGroups sb ->
    readBGD d fsOffset sb g = Ok bg ->
    sep (BlockBitmapBlock bg * BlockSize sb) (BlockSize sb) (bgd_offset sb g') (DescSize sb) /\
    sep (InodeBitmapBlock bg * BlockSize sb) (BlockSize sb) (bgd_offset sb g') (DescSize sb).

(** What a range must avoid to survive a repair. *)
Definition off_descs (sb : superblock) (off n : Z) : Prop :=
  forall g, 0 <= g < numBlockGroups sb -> sep off n (fsOffset + bgd_offset sb g) (DescSize sb).

(** The state of the loop before group [g]. *)
Record repairing (s : fsys D) (g : Z) (s' : fsys D) : Prop := {
  rp_meta : same_meta s s';
  rp_same : forall off n r, off_descs (fs_sb s) off n ->
    read_at (fs_dev s) off n = Ok r -> read_at (fs_dev s') off n = Ok r;
  rp_readable : forall off n r, read_at (fs_dev s) off n = Ok r -> exists r', read_at (fs_dev s') off n = Ok r';
  rp_groups : forall g' bg bmap imap, 0 <= g' < numBlockGroups (fs_sb s) ->
    group_at fsOffset s g' bg bmap imap ->
    exists bg', group_at fsOffset s' g' bg' bmap imap /\ twin (fs_sb s) bg bg' /\
      (g' < g -> FreeBlocksCount bg' = free_count (fs_sb s) true bmap /\
                 FreeInodesCount bg' = free_count (fs_sb s) false imap)
}.

Lemma repairing_start s : fs_ok fsOffset s -> repairing s 0 s.
Proof.
  intros (_ & _ & Hok). split; eauto; [done|]. intros g bg bmap imap Hg G. exists bg.
  split_and!; auto; [|lia]. destruct (Hok g Hg) as (? & ? & ? & _ & [] & _).
  eapply group_twin; eauto; lia.
Qed.

Lemma descs_sep sb g g' :
  0 <= DescSize sb -> g <> g' -> sep (bgd_offset sb g) (DescSize sb) (bgd_offset sb g') (DescSize sb).
Proof. unfold sep, bgd_offset. intros. nia. Qed.

(** A group other than the one repaired. *)
Lemma group_at_keeps (s s' : fsys D) g g' bg bmap imap :
  same_meta s s' -> g <> g' ->
  keeps (fsOffset + bgd_offset (fs_sb s) g) (DescSize (fs_sb s)) (fs_dev s) (fs_dev s') ->
  sep (BlockBitmapBlock bg * BlockSize (fs_sb s)) (BlockSize (fs_sb s)) (bgd_offset (fs_sb s) g) (DescSize (fs_sb s)) ->
  sep (InodeBitmapBlock bg * BlockSize (fs_sb s)) (BlockSize (fs_sb s)) (bgd_offset (fs_sb s) g) (DescSize (fs_sb s)) ->
  layout fsOffset (fs_sb s) g' (BlockBitmapBlock bg) (InodeBitmapBlock bg) ->
  group_at fsOffset s g' bg bmap imap -> group_at fsOffset s' g' bg bmap imap.
Proof.
  intros (Hsb & _) Hne [K _] S1 S2 [] [G1 G2 G3 G4]. unfold sep in *.
  split; rewrite ?Hsb; auto.
  - unfold readBGD in *. apply rbind_Ok in G1 as (raw & Hr%rwrap_Ok & Hd).
    rewrite (K _ _ raw); [done| |done]. destruct (descs_sep (fs_sb s) g' g); lia.
  - unfold read_block in *. rewrite i64_small in * by lia. apply K; [lia|done].
  - unfold read_block in *. rewrite i64_small in * by lia. apply K; [lia|done].
Qed.

Lemma repairing_step s g s1 :
  fs_ok fsOffset s -> maps_apart (fs_dev s) (fs_sb s) -> 0 <= g < numBlockGroups (fs_sb s) ->
  repairing s g s1 -> exists s2, repairing s (g + 1) s2 /\
    repair_group fsOffset g s1 =
      (Ok (free_in (fs_dev s) (fs_sb s) g true, free_in (fs_dev s) (fs_sb s) g false, false), s2).
Proof.
  intros ((Hr & _) & _ & Hok) Hap Hg [Rm Rs Rr Rg].
  destruct (Hok g Hg) as (bg & bmap & imap & G & L & _).
  destruct (Rg g bg bmap imap Hg G) as (bg1 & G1 & T1 & _). pose proof Rm as (Hsb & _ & Hrs).
  destruct (repair_group_ok s1 g bg1 bmap imap) as (s2 & Hrun & M2 & K2 & bg2 & G2 & T2 & C1 & C2);
    [congruence|done|by rewrite Hsb, (tw_bb _ _ _ T1), (tw_ib _ _ _ T1)|].
  rewrite Hsb in *. exists s2. split.
  2:{ rewrite Hrun. destruct (free_in_eq _ _ _ _ _ G) as [-> ->].
      destruct (free_in_eq _ _ _ _ _ G1) as [E1 E2]. rewrite Hsb in E1, E2. by rewrite E1, E2. }
  split.
  - by eapply same_meta_trans.
  - intros off n r Ho Hrd. apply K2; [by apply Ho|]. by apply Rs.
  - intros off n r [r1 Hr1]%Rr. by apply K2 in Hr1.
  - intros g' bg' bmap' imap' Hg' G'. destruct (decide (g' = g)) as [->|Hne].
    + destruct (group_at_det _ _ _ _ _ _ _ _ _ G G') as (-> & -> & ->). exists bg2.
      split_and!; auto. by eapply twin_trans.
    + destruct (Rg g' bg' bmap' imap' Hg' G') as (b & Gb & Tb & Hc). exists b.
      split_and!; auto; [|intros; apply Hc; lia].
      destruct (Hap g' g bg' Hg' Hg (ga_bgd _ _ _ _ _ _ G')) as [A1 A2].
      destruct (Hok g' Hg') as (bx & bmx & imx & Gx & Lx & _).
      destruct (group_at_det _ _ _ _ _ _ _ _ _ G' Gx) as (-> & -> & ->).
      eapply (group_at_keeps s1 s2 g g'); rewrite ?Hsb, ?(tw_bb _ _ _ Tb), ?(tw_ib _ _ _ Tb); auto.
Qed.

Lemma total_free_ext (d d' : D) sb sb' n g tb ti :
  (forall g' b, g <= g' < g + Z.of_nat n -> free_in d' sb' g' b = free_in d sb g' b) ->
  total_free d' sb' n g tb ti = total_free d sb n g tb ti.
Proof.
  revert g tb ti. induction n as [|n IH]; intros g tb ti Hf; cbn [total_free]; [done|].
  rewrite !Hf by lia. apply IH. intros. apply Hf. lia.
Qed.

(** The superblock written, for new counts. *)
Lemma writeSuperblock_ok (s : fsys D) r :
  32 <= DescSize (fs_sb s) < 1024 -> zlen (sb_raw (fs_sb s)) = 1024 -> bytes_ok (sb_raw (fs_sb s)) ->
  read_at (fs_dev s) (fsOffset + 1024) 1024 = Ok r ->
  exists d', writeSuperblock fsOffset s = (Ok tt, Fsys d' (encodeRaw (fs_sb s)) (fs_cursor s) (fs_rsv s)) /\
    keeps (fsOffset + 1024) 1024 (fs_dev s) d' /\
    read_at d' (fsOffset + 1024) 1024 = Ok (sb_raw (encodeRaw (fs_sb s))).
Proof.
  intros Hd Hl Hb Hr. destruct (encodeRaw_ok (fs_sb s)) as [El Eb]. rewrite Hl in El. specialize (Eb Hb).
  destruct (write_at_total Hwritable (fs_dev s) (fsOffset + 1024) (sb_raw (encodeRaw (fs_sb s))) 1024 r (eq_sym El))
    as [d' W]; [lia|done|].
  exists d'. split_and!.
  - unfold writeSuperblock. run_sb. erewrite (mbnd_run (set_sb _)) by reflexivity. apply mwrap_run.
    unfold enqueueAndWait. rewrite (applyTask_run fsOffset 0 _ [] _ (sb_raw (encodeRaw (fs_sb s))) d');
      [done|cbn; lia| |done]. cbn [op_data fs_sb]. rewrite El, eqb_false; [done|cbn; lia].
  - rewrite <- El at 2. by apply keeps_write.
  - eapply write_read_same; eauto.
Qed.

(** A group after the superblock has been written with other counts. *)
Lemma group_at_sb (s : fsys D) d' g bg bmap imap tb ti :
  keeps (fsOffset + 1024) 1024 (fs_dev s) d' ->
  layout fsOffset (fs_sb s) g (BlockBitmapBlock bg) (InodeBitmapBlock bg) ->
  group_at fsOffset s g bg bmap imap ->
  group_at fsOffset (Fsys d' (encodeRaw (with_counts (fs_sb s) (BlocksCount (fs_sb s)) tb ti))
    (fs_cursor s) (fs_rsv s)) g bg bmap imap.
Proof.
  intros [K _] [] [G1 G2 G3 G4]. unfold sep in *. split; [| | |exact G4].
  - unfold readBGD in *. apply rbind_Ok in G1 as (raw & Hr%rwrap_Ok & Hd).
    change (read_at (fs_dev s) (fsOffset + bgd_offset (fs_sb s) g) (DescSize (fs_sb s)) = Ok raw) in Hr.
    apply K in Hr; [|lia].
    cbn [fs_dev fs_sb].
    change (bgd_offset (encodeRaw _) g) with (bgd_offset (fs_sb s) g).
    change (DescSize (encodeRaw _)) with (DescSize (fs_sb s)). rewrite Hr. exact Hd.
  - unfold read_block in *. cbn [fs_dev fs_sb]. change (BlockSize (encodeRaw _)) with (BlockSize (fs_sb s)).
    rewrite i64_small in * by lia. apply K; [lia|done].
  - unfold read_block in *. cbn [fs_dev fs_sb]. change (BlockSize (encodeRaw _)) with (BlockSize (fs_sb s)).
    rewrite i64_small in * by lia. apply K; [lia|done].
Qed.

(** The end of the loop: every group is counted. *)
Lemma repairing_end s s1 :
  fs_ok fsOffset s -> repairing s (numBlockGroups (fs_sb s)) s1 ->
  forall g, 0 <= g < numBlockGroups (fs_sb s) -> exists bg bg' bmap imap,
    group_at fsOffset s g bg bmap imap /\ group_at fsOffset s1 g bg' bmap imap /\
    twin (fs_sb s) bg bg' /\
    layout fsOffset (fs_sb s) g (BlockBitmapBlock bg') (InodeBitmapBlock bg') /\
    readable fsOffset (fs_dev s1) (fs_sb s) g /\ UsedDirsCount bg' + 1 < count_max (fs_sb s) /\
    FreeBlocksCount bg' = free_count (fs_sb s) true bmap /\
    FreeInodesCount bg' = free_count (fs_sb s) false imap.
Proof.
  intros (_ & _ & Hok) [_ _ Rr Rg] g Hg.
  destruct (Hok g Hg) as (bg & bmap & imap & G & L & [[r1 R1] [r2 R2]] & Hu).
  destruct (Rg g bg bmap imap Hg G) as (bg' & G' & T & C). exists bg, bg', bmap, imap.
  pose proof T as []. rewrite tw_bb0, tw_ib0, tw_used0. destruct C as [C1 C2]; [lia|].
  split_and!; auto. split; eauto.
Qed.

Lemma counted_groups (s s1 : fsys D) :
  numBlockGroups (fs_sb s1) = numBlockGroups (fs_sb s) ->
  (forall isBlock m, free_count (fs_sb s1) isBlock m = free_count (fs_sb s) isBlock m) ->
  (forall g, 0 <= g < numBlockGroups (fs_sb s) -> exists bg bg' bmap imap,
    group_at fsOffset s g bg bmap imap /\ group_at fsOffset s1 g bg' bmap imap /\
    FreeBlocksCount bg' = free_count (fs_sb s) true bmap /\
    FreeInodesCount bg' = free_count (fs_sb s) false imap) ->
  (forall g, 0 <= g < numBlockGroups (fs_sb s1) -> group_counted (fs_dev s1) (fs_sb s1) g) /\
  (forall g b, 0 <= g < numBlockGroups (fs_sb s) ->
     free_in (fs_dev s1) (fs_sb s1) g b = free_in (fs_dev s) (fs_sb s) g b).
Proof.
  intros Hn Hf Hg. split.
  - intros g Hgn. rewrite Hn in Hgn. destruct (Hg g Hgn) as (bg & bg' & bmap & imap & _ & G & C1 & C2).
    destruct (free_in_eq _ _ _ _ _ G) as [E1 E2]. exists bg'. rewrite E1, E2, !Hf.
    split; [apply G|done].
  - intros g b Hgn. destruct (Hg g Hgn) as (bg & bg' & bmap & imap & G & G' & _).
    destruct (free_in_eq _ _ _ _ _ G) as [E1 E2]. destruct (free_in_eq _ _ _ _ _ G') as [E3 E4].
    destruct b; [rewrite E1, E3|rewrite E2, E4]; apply Hf.
Qed.

Lemma disk_map_eq (s : fsys D) g bg bmap imap b :
  group_at fsOffset s g bg bmap imap ->
  disk_map (fs_dev s) (fs_sb s) g b = if b then bmap else imap.
Proof. intros [G1 G2 G3 _]. unfold disk_map. destruct b; by rewrite G1, ?G2, ?G3. Qed.

(** The state a repair of [s] may end in. *)
Definition repair_of (s s' : fsys D) : Prop :=
  fs_ok fsOffset s' /\ counted s' /\ fs_cursor s' = fs_cursor s /\ fs_rsv s' = fs_rsv s /\
  (forall off n r, off_descs (fs_sb s) off n -> sep off n (fsOffset + 1024) 1024 ->
     read_at (fs_dev s) off n = Ok r -> read_at (fs_dev s') off n = Ok r) /\
  forall g b, 0 <= g < numBlockGroups (fs_sb s) ->
    disk_map (fs_dev s') (fs_sb s') g b = disk_map (fs_dev s) (fs_sb s) g b.

(** The loop, then the superblock as it was. *)
Lemma repair_of_loop s s1 :
  fs_ok fsOffset s -> repairing s (numBlockGroups (fs_sb s)) s1 ->
  total_free (fs_dev s) (fs_sb s) (Z.to_nat (numBlockGroups (fs_sb s))) 0 0 0 =
    (sb_FreeBlocksCount (fs_sb s), sb_FreeInodesCount (fs_sb s)) ->
  repair_of s s1.
Proof.
  intros Hok R Ht. pose proof (repairing_end s s1 Hok R) as He. pose proof R as [(Hsb & Hcu & Hrs) Rs Rr _].
  pose proof Hok as ((Hr & Hsl & Hsbb) & Hn & _).
  destruct (counted_groups s s1) as [Hc Hf]; [by rewrite Hsb|by rewrite Hsb| |].
  { intros g Hg. destruct (He g Hg) as (bg & bg' & bmap & imap & ? & ? & _ & _ & _ & _ & ? & ?). eauto 10. }
  refine (conj _ (conj _ (conj _ (conj _ (conj _ _))))); [| |done|done|..].
  - split; [by split_and!; rewrite ?Hsb; [congruence|..]|]. rewrite Hsb. split; [done|]. intros g Hg.
    destruct (He g Hg) as (bg & bg' & bmap & imap & _ & G & _ & L & Rd & U & _).
    exists bg', bmap, imap. rewrite Hsb. auto.
  - split; [done|]. rewrite Hsb in *. rewrite <- Ht. apply total_free_ext. intros. apply Hf. lia.
  - intros off n r Ho _. by apply Rs.
  - intros g b Hg. destruct (He g Hg) as (bg & bg' & bmap & imap & G & G' & _).
    by rewrite (disk_map_eq _ _ _ _ _ _ G), (disk_map_eq _ _ _ _ _ _ G').
Qed.

(** The loop, then a superblock with new counts. *)
Lemma repair_of_sb s s1 d' tb ti :
  let sb' := encodeRaw (with_counts (fs_sb s) (BlocksCount (fs_sb s)) tb ti) in
  fs_ok fsOffset s -> repairing s (numBlockGroups (fs_sb s)) s1 ->
  total_free (fs_dev s) (fs_sb s) (Z.to_nat (numBlockGroups (fs_sb s))) 0 0 0 = (tb, ti) ->
  keeps (fsOffset + 1024) 1024 (fs_dev s1) d' ->
  repair_of s (Fsys d' sb' (fs_cursor s) (fs_rsv s)).
Proof.
  intros sb' Hok R Ht K. pose proof (repairing_end s s1 Hok R) as He. pose proof R as [(Hsb & Hcu & Hrs) Rs Rr _].
  pose proof Hok as ((Hr & Hsl & Hsbb) & Hn & _). set (s2 := Fsys d' sb' (fs_cursor s) (fs_rsv s)).
  assert (forall g bg bmap imap,
    layout fsOffset (fs_sb s) g (BlockBitmapBlock bg) (InodeBitmapBlock bg) ->
    group_at fsOffset s1 g bg bmap imap -> group_at fsOffset s2 g bg bmap imap) as Hg2.
  { intros g bg bmap imap L G. unfold s2, sb'. rewrite <- Hcu, <- Hrs, <- Hsb. apply group_at_sb; auto. by rewrite Hsb. }
  destruct (counted_groups s s2) as [Hc Hf]; [done|done| |].
  { intros g Hg. destruct (He g Hg) as (bg & bg' & bmap & imap & ? & ? & _ & ? & _ & _ & ? & ?). eauto 10. }
  refine (conj _ (conj _ (conj _ (conj _ (conj _ _))))); [| |done|done|..].
  - split; [|split; [done|]].
    { destruct (encodeRaw_ok (with_counts (fs_sb s) (BlocksCount (fs_sb s)) tb ti)) as [El Eb].
      split; [done|]. split; [exact (eq_trans El Hsl)|exact (Eb Hsbb)]. }
    intros g Hg. destruct (He g Hg) as (bg & bg' & bmap & imap & _ & G & _ & L & [[r1 R1] [r2 R2]] & U & _).
    exists bg', bmap, imap. split; [auto|]. split; [destruct L; by split|]. split; [|exact U].
    split; by eapply (proj2 K).
  - split; [done|]. change (sb_FreeBlocksCount (fs_sb s2), sb_FreeInodesCount (fs_sb s2)) with (tb, ti).
    rewrite <- Ht. apply total_free_ext. intros. apply Hf. lia.
  - intros off n r Ho Hs Hrd. apply K; [done|]. by apply Rs.
  - intros g b Hg. destruct (He g Hg) as (bg & bg' & bmap & imap & G & G' & _ & L & _).
    by rewrite (disk_map_eq _ _ _ _ _ _ G), (disk_map_eq _ _ _ _ _ _ (Hg2 _ _ _ _ L G')).
Qed.

Lemma RepairImage_run s :
  fs_ok fsOffset s -> maps_apart (fs_dev s) (fs_sb s) ->
  exists s', RepairImage fsOffset s = (Ok tt, s') /\ repair_of s s'.
Proof.
  intros Hok Hap. set (n := numBlockGroups (fs_sb s)). pose proof Hok as ((Hr & Hsl & Hsbb) & Hn & Hgo).
  destruct (each_group_run (repair_group fsOffset) (repairing s) (fs_dev s) (fs_sb s) (fun _ => false) (Z.to_nat n))
    with (g := 0) (tb := 0) (ti := 0) (e := false) (s := s) as (s1 & R & Hrun);
    [|done|fold n; lia|by apply repairing_start|].
  { intros g s1 Hg R. destruct (repairing_step s g s1) as (s2 & R2 & Hrun); auto. exists s2.
    split_and!; auto. destruct (Hgo g Hg) as (bg & bmap & imap & G & L & _). by eapply w32_free. }
  destruct (total_free _ _ _ _ _ _) as [tb ti] eqn:Et. unfold RepairImage. run_sb. fold n. run Hrun. cbv beta iota. run_sb.
  pose proof (rp_meta _ _ _ R) as (Hsb & Hcu & Hrs). rewrite Hsb.
  clear Hrun. destruct (negb (tb =? _) || _) eqn:E.
  - destruct (Hgo 0 ltac:(lia)) as (bg0 & _ & _ & _ & [Hds _ _ _ _ _ _ _ _ _ _ _ _ _ _] & [_ [r2 R2]] & _).
    apply (rp_readable _ _ _ R) in R2 as [r' R2].
    destruct (writeSuperblock_ok (Fsys (fs_dev s1) (with_counts (fs_sb s) (BlocksCount (fs_sb s)) tb ti)
      (fs_cursor s) (fs_rsv s)) r') as (d' & Hw & K & _); [done..|].
    cbn [fs_dev fs_sb fs_cursor fs_rsv] in Hw, K. eexists. split.
    + erewrite (mbnd_run (set_sb _)) by reflexivity. apply mwrap_run. rewrite Hcu, Hrs. exact Hw.
    + apply (repair_of_sb s s1 d' tb ti); done.
  - zbool. subst tb ti. exists s1. split; [done|]. by apply repair_of_loop.
Qed.

(** A consistent image is left as it is. *)
Lemma RepairImage_noop s :
  fs_ok fsOffset s -> counted s -> RepairImage fsOffset s = (Ok tt, s).
Proof.
  intros ((Hr & _) & Hn & Hok) [Hc Ht]. set (n := numBlockGroups (fs_sb s)) in *.
  destruct (each_group_run (repair_group fsOffset) (fun _ s' => s' = s) (fs_dev s) (fs_sb s) (fun _ => false) (Z.to_nat n))
    with (g := 0) (tb := 0) (ti := 0) (e := false) (s := s) as (s1 & -> & Hrun); [|done|fold n; lia|done|].
  { intros g s1 Hg ->. destruct (Hok g Hg) as (bg & bmap & imap & G & L & _). pose proof G as [G1 G2 G3 _].
    destruct (Hc g Hg) as (bg' & G1' & C1 & C2). rewrite G1 in G1'. injection G1' as <-. pose proof L as [].
    destruct (countZero_block _ _ _ _ _ G L) as [Hb Hi].
    exists s. split_and!; [|by eapply w32_free|done]. unfold repair_group. run_sb. run G1.
    run_with ltac:(apply (readBitmap_empty fsOffset s _ bmap); [lia|done..]). run Hb.
    rewrite (w32_free _ _ _ _ _ _ G L), eqb_true by done. erewrite mbnd_run by reflexivity.
    run_with ltac:(apply (readBitmap_empty fsOffset s _ imap); [lia|done..]). run Hi.
    by rewrite (w32_free _ _ _ _ _ _ G L), eqb_true by done. }
  rewrite Ht in Hrun. unfold RepairImage. run_sb. fold n. run Hrun. cbv beta iota. run_sb.
  by rewrite !Z.eqb_refl.
Qed.

End spec.

(** * Correctness *)

(** C25: on a file system at rest the check returns without a change: it succeeds
    exactly when the free counts of every descriptor are those of its bitmaps and
    the counts of the superblock are their sums, and otherwise reports an error. *)
Theorem CheckImage_correct {D} `{BlockDevLaws D} fsOffset (s : fsys D) :
  fs_ok fsOffset s ->
  exists r, CheckImage fsOffset s = (r, s) /\ r <> Panic /\ (r = Ok tt <-> counted fsOffset s).
Proof. apply CheckImage_run. Qed.

(** C24: on a file system at rest whose bitmaps lie apart from the descriptors the
    repair succeeds and the check accepts its result.  It leaves a consistent
    image as it is, and otherwise changes nothing but descriptors and the
    superblock: the bitmaps are those from which the counts were taken. *)
Theorem RepairImage_correct {D} `{BlockDevLaws D} fsOffset (s : fsys D) :
  dev_writable D -> fs_ok fsOffset s -> maps_apart fsOffset (fs_dev s) (fs_sb s) ->
  exists s', RepairImage fsOffset s = (Ok tt, s') /\ CheckImage fsOffset s' = (Ok tt, s') /\
    (counted fsOffset s -> s' = s) /\ fs_ok fsOffset s' /\
    (forall off n r, off_descs fsOffset (fs_sb s) off n -> sep off n (fsOffset + 1024) 1024 ->
       read_at (fs_dev s) off n = Ok r -> read_at (fs_dev s') off n = Ok r) /\
    forall g b, 0 <= g < numBlockGroups (fs_sb s) ->
      disk_map fsOffset (fs_dev s') (fs_sb s') g b = disk_map fsOffset (fs_dev s) (fs_sb s) g b.
Proof.
  intros Hw Hok Hap. destruct (RepairImage_run fsOffset Hw s Hok Hap) as (s' & Hrun & Hok' & Hc & _ & _ & Hs & Hm).
  exists s'. split; [done|]. split; [|split; [|done]].
  - destruct (CheckImage_run fsOffset s' Hok') as (r & Hr & _ & Hi). rewrite Hr. by rewrite (proj2 Hi Hc).
  - intros Hcs. rewrite (RepairImage_noop fsOffset s Hok Hcs) in Hrun. by injection Hrun.
Qed.

(** An image whose counts are all wrong. *)
Definition bad_img : fsys memdev :=
  Fsys (MemDev (zsplice (img_bytes 0) 2060 [9; 0; 1; 0]))
    (with_counts (img_sb 0) 64 3 3) 0 ∅.

Definition bad_bg : bgd := the img_bg (readBGD (fs_dev bad_img) 0 (fs_sb bad_img) 0).

Lemma bad_img_ok : fs_ok 0 bad_img.
Proof.
  split; [split_and!; [done|vm_compute; reflexivity|by apply all_bytes_ok]|].
  split; [by vm_compute|]. change (numBlockGroups (fs_sb bad_img)) with 1. intros g Hg.
  replace g with 0 by lia. exists bad_bg, img_bmap, img_imap.
  split; [split; [vm_compute; reflexivity..|vm_compute; split; congruence]|].
  split; [split; unfold sep; vm_compute; try (split; congruence); try congruence; auto; (left; congruence) || (right; congruence)|]. split; [|by vm_compute].
  split; eexists; vm_compute; reflexivity.
Qed.

Lemma Ok_inj {A} (a b : A) : Ok a = Ok b -> a = b.
Proof. by intros [= ->]. Qed.

Lemma bad_img_apart : maps_apart 0 (fs_dev bad_img) (fs_sb bad_img).
Proof.
  intros g g' bg Hg Hg' Hr. change (numBlockGroups (fs_sb bad_img)) with 1 in Hg, Hg'.
  assert (g = 0) as -> by lia. assert (g' = 0) as -> by lia.
  assert (readBGD (fs_dev bad_img) 0 (fs_sb bad_img) 0 = Ok bad_bg) as Hb by (vm_compute; reflexivity).
  rewrite Hb in Hr. apply Ok_inj in Hr. rewrite <- Hr.
  split; right; vm_compute; congruence.
Qed.

Lemma CheckImage_correct_witness :
  exists r, CheckImage 0 bad_img = (r, bad_img) /\ r <> Panic /\ ~ counted 0 bad_img.
Proof.
  destruct (CheckImage_correct 0 bad_img bad_img_ok) as (r & Hr & Hp & Hi). exists r.
  split; [exact Hr|]. split; [exact Hp|]. intros Hc. apply Hi in Hc. rewrite Hc in Hr.
  assert (fst (CheckImage 0 bad_img) = Err (Errorf "ext4: consistency errors")) as He
    by (vm_compute; reflexivity). rewrite Hr in He. discriminate He.
Defined.

Lemma RepairImage_correct_witness :
  exists s', RepairImage 0 bad_img = (Ok tt, s') /\ CheckImage 0 s' = (Ok tt, s') /\
    sb_FreeBlocksCount (fs_sb s') = 56 /\ sb_FreeInodesCount (fs_sb s') = 5.
Proof.
  destruct (RepairImage_correct 0 bad_img memdev_writable bad_img_ok bad_img_apart)
    as (s' & Hr & Hc & _). exists s'. split; [exact Hr|]. split; [exact Hc|].
  replace s' with (snd (RepairImage 0 bad_img)) by (by rewrite Hr). vm_compute. split; reflexivity.
Defined.
