(* ===== verification/FsInv.v ===== *)
(** The invariant of a mounted file system, and what the block allocator promises
    to its clients: a set of free blocks, from which allocation takes and to which
    release returns, while every range outside the allocator's own metadata reads
    as before. *)

From S2P Require Import Prelude Bytes Crc Device Superblock Bgd Bitmap GoLib Extent Limits Inode Inline FileRead Dir Alloc Image AllocSpec JournalSpec NamespaceSpec Fsck.

Section inv.
Context {D : Type} `{BlockDevLaws D}.
Context (fsOffset : Z).

(** * Ranges *)

Definition off_block (sb : superblock) (blk o n : Z) : Prop :=
  sep o n (fsOffset + blk * BlockSize sb) (BlockSize sb).

(** A range that meets neither the superblock nor a descriptor nor a bitmap. *)
Definition off_meta (s : fsys D) (o n : Z) : Prop :=
  sep o n (fsOffset + 1024) 1024 /\
  forall g bg, 0 <= g < numBlockGroups (fs_sb s) -> readBGD (fs_dev s) fsOffset (fs_sb s) g = Ok bg ->
    sep o n (fsOffset + bgd_offset (fs_sb s) g) (DescSize (fs_sb s)) /\
    off_block (fs_sb s) (BlockBitmapBlock bg) o n /\ off_block (fs_sb s) (InodeBitmapBlock bg) o n.

(** Every byte of the file system can be read. *)
Definition covered (d : D) (sb : superblock) : Prop :=
  forall o n, fsOffset <= o -> 0 <= n -> o + n <= fsOffset + BlocksCount sb * BlockSize sb ->
    exists r, read_at d o n = Ok r.

Lemma covered_write d d' sb off bs :
  write_at off bs d = (Ok tt, d') -> covered d sb -> covered d' sb.
Proof. intros Hw Hc o n Ho Hn Hl. destruct (Hc o n Ho Hn Hl) as [r Hr]. by eapply write_at_readable. Qed.

(** The metadata of distinct groups does not meet. *)
Definition groups_apart (s : fsys D) : Prop :=
  maps_apart fsOffset (fs_dev s) (fs_sb s) /\
  forall g g' bg bg', 0 <= g < numBlockGroups (fs_sb s) -> 0 <= g' < numBlockGroups (fs_sb s) -> g <> g' ->
    readBGD (fs_dev s) fsOffset (fs_sb s) g = Ok bg -> readBGD (fs_dev s) fsOffset (fs_sb s) g' = Ok bg' ->
    forall b b', b ∈ [BlockBitmapBlock bg; InodeBitmapBlock bg] ->
      b' ∈ [BlockBitmapBlock bg'; InodeBitmapBlock bg'] -> b <> b'.

(** * Free blocks *)

Definition block_no (sb : superblock) (g b : Z) : Z := g * BlocksPerGroup sb + FirstDataBlock sb + b.

Definition is_free (s : fsys D) (blk : Z) : Prop :=
  exists g bg bmap imap b, 0 <= g < numBlockGroups (fs_sb s) /\ group_at fsOffset s g bg bmap imap /\
    0 <= b < BlocksPerGroup (fs_sb s) /\ used bmap b = false /\ blk = block_no (fs_sb s) g b.

(** A block a file may be given: it lies in the file system, apart from the
    allocator's metadata and from the inode table of its group. *)
Definition data_block (s : fsys D) (g b : Z) (bg : bgd) : Prop :=
  let sb := fs_sb s in
  let blk := block_no sb g b in
  0 <= blk < BlocksCount sb /\ off_meta s (fsOffset + blk * BlockSize sb) (BlockSize sb) /\
  (blk < InodeTableBlock bg \/
   w64 (InodeTableBlock bg + w64 (InodesPerGroup sb * InodeSize sb + BlockSize sb - 1) / BlockSize sb) <= blk).

Record fs_inv (s : fsys D) : Prop := {
  iv_ok : fs_ok fsOffset s;
  iv_fits : fs_fits fsOffset (fs_sb s);
  iv_geo : 0 <= FirstDataBlock (fs_sb s) < 2 ^ 32 /\ 0 < BlocksPerGroup (fs_sb s) < 2 ^ 31;
  iv_small : BlocksCount (fs_sb s) <= 2 ^ 48;
  iv_cov : covered (fs_dev s) (fs_sb s);
  iv_apart : groups_apart s;
  iv_free : forall g bg bmap imap b, 0 <= g < numBlockGroups (fs_sb s) -> group_at fsOffset s g bg bmap imap ->
    0 <= b < BlocksPerGroup (fs_sb s) -> used bmap b = false -> data_block s g b bg;
  iv_counted : forall g, 0 <= g < numBlockGroups (fs_sb s) -> group_counted fsOffset (fs_dev s) (fs_sb s) g
}.

Lemma inv_itables s : fs_inv s -> itables_used fsOffset s.
Proof.
  intros [_ _ [Hf Hb] _ _ _ Hfree _]. split; [done|]. split; [done|].
  intros g bg bmap imap b Hg Hga Hbb Hu. apply (Hfree g bg bmap imap b Hg Hga Hbb Hu).
Qed.

(** * A change of one bitmap *)

(** What allocation and release have in common; [own] is the bitmap block they
    write. *)
Record bitmap_step (s s' : fsys D) (g own : Z) (bg bg' : bgd) (bmap bmap' imap imap' : list Z) : Prop := {
  bs_range : 0 <= g < numBlockGroups (fs_sb s);
  bs_old : group_at fsOffset s g bg bmap imap;
  bs_own : own ∈ [BlockBitmapBlock bg; InodeBitmapBlock bg];
  bs_new : group_at fsOffset s' g bg' bmap' imap';
  bs_bb : BlockBitmapBlock bg' = BlockBitmapBlock bg;
  bs_ib : InodeBitmapBlock bg' = InodeBitmapBlock bg;
  bs_it : InodeTableBlock bg' = InodeTableBlock bg;
  bs_used : UsedDirsCount bg' + 1 < count_max (fs_sb s);
  bs_counts : FreeBlocksCount bg' = free_count (fs_sb s) true bmap' /\
              FreeInodesCount bg' = free_count (fs_sb s) false imap';
  bs_sb : exists a b, fs_sb s' = encodeRaw (with_counts (fs_sb s) (BlocksCount (fs_sb s)) a b);
  bs_rest : at_rest s';
  bs_else : same_elsewhere fsOffset (fs_sb s) g own (fs_dev s) (fs_dev s')
}.

Section step.
Context (s s' : fsys D) (g own : Z) (bg bg' : bgd) (bmap bmap' imap imap' : list Z).
Hypothesis Hinv : fs_inv s.
Hypothesis Hst : bitmap_step s s' g own bg bg' bmap bmap' imap imap'.

Lemma inv_group g' : 0 <= g' < numBlockGroups (fs_sb s) -> exists b m i,
  group_at fsOffset s g' b m i /\ layout fsOffset (fs_sb s) g' (BlockBitmapBlock b) (InodeBitmapBlock b) /\
  readable fsOffset (fs_dev s) (fs_sb s) g' /\ UsedDirsCount b + 1 < count_max (fs_sb s).
Proof. destruct (iv_ok _ Hinv) as (_ & _ & Hok). apply Hok. Qed.

(** Reads apart from the three ranges written. *)
Lemma step_frame o n r :
  sep o n (fsOffset + own * BlockSize (fs_sb s)) (BlockSize (fs_sb s)) ->
  sep o n (fsOffset + bgd_offset (fs_sb s) g) (DescSize (fs_sb s)) ->
  sep o n (fsOffset + 1024) 1024 ->
  read_at (fs_dev s) o n = Ok r -> read_at (fs_dev s') o n = Ok r.
Proof.
  intros S1 S2 S3 Hr. destruct (bs_else _ _ _ _ _ _ _ _ _ _ Hst) as [Hb Hread].
  destruct (Hread _ _ _ Hr) as [r' Hr']. apply (read_at_frame (fs_dev s) (fs_dev s') o n r r' Hr Hr').
  intros i Hi. unfold sep in *. apply Hb; lia.
Qed.

Lemma step_read o n r :
  off_meta s o n -> read_at (fs_dev s) o n = Ok r -> read_at (fs_dev s') o n = Ok r.
Proof.
  intros [Ho1 Ho2]. pose proof (bs_old _ _ _ _ _ _ _ _ _ _ Hst) as [G1 _ _ _].
  destruct (Ho2 g bg (bs_range _ _ _ _ _ _ _ _ _ _ Hst) G1) as (A & B & C). apply step_frame; [|done..].
  pose proof (bs_own _ _ _ _ _ _ _ _ _ _ Hst) as [->|[->|[]%not_elem_of_nil]%elem_of_cons]%elem_of_cons; done.
Qed.

Lemma blocks_sep sb b b' : 0 < BlockSize sb -> b <> b' ->
  sep (b * BlockSize sb) (BlockSize sb) (b' * BlockSize sb) (BlockSize sb).
Proof. unfold sep. intros. nia. Qed.

(** The other groups are as they were. *)
Lemma step_group g' b m i :
  0 <= g' < numBlockGroups (fs_sb s) -> g' <> g ->
  group_at fsOffset s g' b m i -> group_at fsOffset s' g' b m i.
Proof.
  intros Hg' Hne [G1 G2 G3 G4]. pose proof (bs_old _ _ _ _ _ _ _ _ _ _ Hst) as [B1 _ _ _].
  pose proof (bs_range _ _ _ _ _ _ _ _ _ _ Hst) as Hg. destruct (bs_sb _ _ _ _ _ _ _ _ _ _ Hst) as (k & k2 & Hk).
  destruct (iv_apart _ Hinv) as [Hm Hb].
  destruct (Hm g' g b Hg' Hg G1) as [M2 M3].
  assert (sep (own * BlockSize (fs_sb s)) (BlockSize (fs_sb s)) (bgd_offset (fs_sb s) g') (DescSize (fs_sb s))) as M1.
  { destruct (Hm g g' bg Hg Hg' B1) as [X1 X2].
    pose proof (bs_own _ _ _ _ _ _ _ _ _ _ Hst) as [->|[->|[]%not_elem_of_nil]%elem_of_cons]%elem_of_cons; done. }
  destruct (inv_group g' Hg') as (b0 & m0 & i0 & [G0 _ _ _] & L & _).
  rewrite G1 in G0. injection G0 as <-. destruct L.
  pose proof (Hb g' g b bg Hg' Hg Hne G1 B1) as Hbb.
  assert (forall x, x ∈ [BlockBitmapBlock b; InodeBitmapBlock b] ->
    sep (x * BlockSize (fs_sb s)) (BlockSize (fs_sb s)) (own * BlockSize (fs_sb s)) (BlockSize (fs_sb s))) as Hx.
  { intros x Hx. apply blocks_sep; [lia|]. apply Hbb; [done|apply Hst]. }
  pose proof (Hx (BlockBitmapBlock b) ltac:(set_solver)) as X1.
  pose proof (Hx (InodeBitmapBlock b) ltac:(set_solver)) as X2.
  pose proof (descs_sep (fs_sb s) g' g ltac:(lia) Hne) as Hds. clear Hx Hbb Hm Hb. unfold sep in *.
  split; rewrite Hk; [| | |exact G4].
  - unfold readBGD in *. apply rbind_Ok in G1 as (raw & Hr%rwrap_Ok & Hd).
    apply step_frame in Hr; [|unfold sep; lia..].
    change (bgd_offset (encodeRaw _) g') with (bgd_offset (fs_sb s) g').
    change (DescSize (encodeRaw _)) with (DescSize (fs_sb s)). rewrite Hr. exact Hd.
  - unfold read_block in *. change (BlockSize (encodeRaw _)) with (BlockSize (fs_sb s)).
    rewrite i64_small in * by lia. apply step_frame; [unfold sep; lia..|done].
  - unfold read_block in *. change (BlockSize (encodeRaw _)) with (BlockSize (fs_sb s)).
    rewrite i64_small in * by lia. apply step_frame; [unfold sep; lia..|done].
Qed.

(** The descriptors name the same blocks. *)
Lemma step_bgd g' : 0 <= g' < numBlockGroups (fs_sb s) ->
  exists b b', readBGD (fs_dev s) fsOffset (fs_sb s) g' = Ok b /\
    readBGD (fs_dev s') fsOffset (fs_sb s') g' = Ok b' /\
    BlockBitmapBlock b' = BlockBitmapBlock b /\ InodeBitmapBlock b' = InodeBitmapBlock b /\
    InodeTableBlock b' = InodeTableBlock b.
Proof.
  intros Hg'. destruct (decide (g' = g)) as [->|Hne].
  - exists bg, bg'. pose proof Hst as [_ [] _ [] ? ? ? _ _ _ _ _]. done.
  - destruct (inv_group g' Hg') as (b & m & i & G & _). pose proof (step_group g' b m i Hg' Hne G) as [].
    exists b, b. destruct G. done.
Qed.

Lemma step_sb_eq : numBlockGroups (fs_sb s') = numBlockGroups (fs_sb s) /\
  BlockSize (fs_sb s') = BlockSize (fs_sb s) /\ DescSize (fs_sb s') = DescSize (fs_sb s) /\
  BlocksPerGroup (fs_sb s') = BlocksPerGroup (fs_sb s) /\ BlocksCount (fs_sb s') = BlocksCount (fs_sb s) /\
  FirstDataBlock (fs_sb s') = FirstDataBlock (fs_sb s) /\
  (forall g', bgd_offset (fs_sb s') g' = bgd_offset (fs_sb s) g') /\
  count_max (fs_sb s') = count_max (fs_sb s) /\
  (forall b m, free_count (fs_sb s') b m = free_count (fs_sb s) b m).
Proof. destruct (bs_sb _ _ _ _ _ _ _ _ _ _ Hst) as (k & k2 & ->). done. Qed.

Lemma step_off_meta o n : off_meta s' o n <-> off_meta s o n.
Proof.
  destruct step_sb_eq as (Hn & Hbs & Hds & _ & _ & _ & Hoff & _).
  unfold off_meta, off_block. rewrite Hn, Hbs, Hds. split; intros [A1 A2]; (split; [done|]).
  - intros g' b Hg' Hr. destruct (step_bgd g' Hg') as (b0 & b' & R & R' & E1 & E2 & _).
    rewrite R in Hr. injection Hr as <-. rewrite <- E1, <- E2, <- Hoff. by apply A2.
  - intros g' b Hg' Hr. destruct (step_bgd g' Hg') as (b0 & b' & R & R' & E1 & E2 & _).
    rewrite R' in Hr. injection Hr as <-. rewrite E1, E2, Hoff. by apply A2.
Qed.

(** Which groups are at [s']. *)
Lemma step_group_inv g' b m i :
  0 <= g' < numBlockGroups (fs_sb s) -> group_at fsOffset s' g' b m i ->
  (g' = g /\ b = bg' /\ m = bmap' /\ i = imap') \/ (g' <> g /\ group_at fsOffset s g' b m i).
Proof.
  intros Hg' G. destruct (decide (g' = g)) as [->|Hne].
  - left. destruct (group_at_det _ _ _ _ _ _ _ _ _ (bs_new _ _ _ _ _ _ _ _ _ _ Hst) G) as (-> & -> & ->). done.
  - right. split; [done|]. destruct (inv_group g' Hg') as (b0 & m0 & i0 & G0 & _).
    destruct (group_at_det _ _ _ _ _ _ _ _ _ (step_group g' b0 m0 i0 Hg' Hne G0) G) as (-> & -> & ->). done.
Qed.

Lemma step_data_block g' b b0 b1 :
  InodeTableBlock b1 = InodeTableBlock b0 -> data_block s' g' b b1 <-> data_block s g' b b0.
Proof.
  intros Hit. unfold data_block, block_no. rewrite step_off_meta, Hit.
  destruct (bs_sb _ _ _ _ _ _ _ _ _ _ Hst) as (k & k2 & ->). done.
Qed.

Lemma step_group_ok g' : 0 <= g' < numBlockGroups (fs_sb s) -> group_ok fsOffset s' g'.
Proof.
  intros Hg'. destruct (inv_group g' Hg') as (b & m & i & G & L & [[r1 R1] [r2 R2]] & U).
  destruct (bs_sb _ _ _ _ _ _ _ _ _ _ Hst) as (k & k2 & Hk). destruct (bs_else _ _ _ _ _ _ _ _ _ _ Hst) as [_ Hread].
  assert (readable fsOffset (fs_dev s') (fs_sb s') g') as Hrd.
  { split; [rewrite Hk; by apply Hread in R1|by apply Hread in R2]. }
  destruct (decide (g' = g)) as [->|Hne].
  - destruct (group_at_det _ _ _ _ _ _ _ _ _ (bs_old _ _ _ _ _ _ _ _ _ _ Hst) G) as (-> & -> & ->).
    exists bg', bmap', imap'. split; [apply Hst|]. split; [|split; [done|]].
    + rewrite (bs_bb _ _ _ _ _ _ _ _ _ _ Hst), (bs_ib _ _ _ _ _ _ _ _ _ _ Hst), Hk. by destruct L.
    + rewrite Hk. apply Hst.
  - exists b, m, i. split; [by apply step_group|]. rewrite Hk in *. split; [by destruct L|]. done.
Qed.

Lemma step_counted g' : 0 <= g' < numBlockGroups (fs_sb s) -> group_counted fsOffset (fs_dev s') (fs_sb s') g'.
Proof.
  intros Hg'. destruct step_sb_eq as (_ & _ & _ & _ & _ & _ & _ & _ & Hfc).
  destruct (decide (g' = g)) as [->|Hne].
  - exists bg'. pose proof (bs_new _ _ _ _ _ _ _ _ _ _ Hst) as G. destruct (free_in_eq _ _ _ _ _ _ G) as [-> ->].
    rewrite !Hfc. destruct G. by destruct (bs_counts _ _ _ _ _ _ _ _ _ _ Hst).
  - destruct (inv_group g' Hg') as (b & m & i & G & _). pose proof (step_group g' b m i Hg' Hne G) as G'.
    destruct (iv_counted _ Hinv g' Hg') as (b0 & R & C1 & C2). pose proof G as [R0 _ _ _].
    rewrite R0 in R. injection R as <-. exists b. destruct (free_in_eq _ _ _ _ _ _ G') as [-> ->].
    destruct (free_in_eq _ _ _ _ _ _ G) as [E1 E2]. rewrite !Hfc, <- E1, <- E2. destruct G'. done.
Qed.

Lemma step_apart : groups_apart s'.
Proof.
  destruct (iv_apart _ Hinv) as [Hm Hb]. destruct step_sb_eq as (Hn & Hbs & Hds & _ & _ & _ & Hoff & _). split.
  - intros g1 g2 b Hg1 Hg2 Hr. rewrite Hn in *. rewrite Hbs, Hds, Hoff.
    destruct (step_bgd g1 Hg1) as (b0 & b' & R & R' & E1 & E2 & _).
    rewrite R' in Hr. injection Hr as <-. rewrite E1, E2. by apply (Hm g1 g2).
  - intros g1 g2 b1 b2 Hg1 Hg2 Hne H1 H2. rewrite Hn in *.
    destruct (step_bgd g1 Hg1) as (c1 & c1' & R1 & R1' & E1 & E2 & _).
    destruct (step_bgd g2 Hg2) as (c2 & c2' & R2 & R2' & E3 & E4 & _).
    rewrite R1' in H1. injection H1 as <-. rewrite R2' in H2. injection H2 as <-.
    rewrite E1, E2, E3, E4. by apply (Hb g1 g2).
Qed.

Lemma step_inv :
  (forall b, 0 <= b < BlocksPerGroup (fs_sb s) -> used bmap' b = false -> data_block s g b bg) -> fs_inv s'.
Proof.
  intros Hfree. pose proof Hinv as [Hok Hfit Hgeo Hsm Hcov _ Hfr _].
  destruct (bs_sb _ _ _ _ _ _ _ _ _ _ Hst) as (k & k2 & Hk). destruct step_sb_eq as (Hn & Hbs & _ & Hbpg & Hbc & _).
  split.
  - split; [apply Hst|]. rewrite Hn. split; [apply Hok|apply step_group_ok].
  - rewrite Hk. exact Hfit.
  - rewrite Hk. exact Hgeo.
  - rewrite Hbc. exact Hsm.
  - intros o n Ho Hn' Hl. rewrite Hbs, Hbc in Hl. destruct (Hcov o n Ho Hn' Hl) as [r Hr].
    destruct (bs_else _ _ _ _ _ _ _ _ _ _ Hst) as [_ Hread]. by apply Hread in Hr.
  - apply step_apart.
  - intros g' b m i bit Hg' G Hbit Hu. rewrite Hn in Hg'. rewrite Hbpg in Hbit.
    destruct (step_group_inv g' b m i Hg' G) as [(-> & -> & -> & ->)|[Hne G']].
    + apply (step_data_block g bit bg bg'); [apply Hst|]. by apply Hfree.
    + apply (step_data_block g' bit b b); [done|]. by apply (Hfr g' b m i).
  - intros g' Hg'. rewrite Hn in Hg'. by apply step_counted.
Qed.

End step.

(** * The allocator as its clients see it *)

(** A superblock without its counts. *)
Definition erase (sb : superblock) : superblock := with_raw (with_counts sb (BlocksCount sb) 0 0) [].

(** A block in use that could have been given to a file. *)
Definition is_data (s : fsys D) (blk : Z) : Prop :=
  exists g bg bmap imap b, 0 <= g < numBlockGroups (fs_sb s) /\ group_at fsOffset s g bg bmap imap /\
    0 <= b < BlocksPerGroup (fs_sb s) /\ used bmap b = true /\ data_block s g b bg /\ blk = block_no (fs_sb s) g b.

(** What survives every operation: the invariant, the geometry and the places of
    the metadata. *)
Record preserves (s s' : fsys D) : Prop := {
  pv_inv : fs_inv s';
  pv_geo : erase (fs_sb s') = erase (fs_sb s);
  pv_meta : forall o n, off_meta s' o n <-> off_meta s o n;
  pv_bgd : forall g, 0 <= g < numBlockGroups (fs_sb s) ->
    exists b b', readBGD (fs_dev s) fsOffset (fs_sb s) g = Ok b /\
      readBGD (fs_dev s') fsOffset (fs_sb s') g = Ok b' /\ InodeTableBlock b' = InodeTableBlock b
}.

(** What has been read apart from the metadata and within [P] is read again. *)
Definition reads (P : Z -> Z -> Prop) (s s' : fsys D) : Prop :=
  forall o n r, off_meta s o n -> P o n -> read_at (fs_dev s) o n = Ok r -> read_at (fs_dev s') o n = Ok r.

Lemma block_no_inj sb g b g' b' :
  0 <= b < BlocksPerGroup sb -> 0 <= b' < BlocksPerGroup sb ->
  block_no sb g b = block_no sb g' b' -> g = g' /\ b = b'.
Proof. unfold block_no. intros. assert (g = g') by nia. subst. lia. Qed.

Lemma data_not_free s blk : is_data s blk -> ~ is_free s blk.
Proof.
  intros (g & bg & bmap & imap & b & Hg & G & Hb & Hu & _ & ->)
    (g' & bg' & bmap' & imap' & b' & Hg' & G' & Hb' & Hu' & Heq).
  apply block_no_inj in Heq as [<- <-]; [|done..].
  destruct (group_at_det _ _ _ _ _ _ _ _ _ G G') as (-> & -> & ->). congruence.
Qed.

Lemma step_preserves s s' g own bg bg' bmap bmap' imap imap' :
  fs_inv s -> bitmap_step s s' g own bg bg' bmap bmap' imap imap' ->
  (forall b, 0 <= b < BlocksPerGroup (fs_sb s) -> used bmap' b = false -> data_block s g b bg) ->
  preserves s s' /\ reads (fun _ _ => True) s s'.
Proof.
  intros Hinv Hst Hf. split; [split|].
  - by eapply step_inv.
  - destruct (bs_sb _ _ _ _ _ _ _ _ _ _ Hst) as (k & k2 & ->). done.
  - intros. by eapply step_off_meta.
  - intros g' Hg'. destruct (step_bgd s s' g own bg bg' bmap bmap' imap imap' Hinv Hst g' Hg') as (b & b' & ? & ? & _ & _ & ?).
    by exists b, b'.
  - intros o n r Ho _. by eapply step_read.
Qed.

(** Free blocks and blocks in use after a change of one bitmap. *)
Lemma step_free s s' g own bg bg' bmap bmap' imap imap' blk :
  fs_inv s -> bitmap_step s s' g own bg bg' bmap bmap' imap imap' ->
  is_free s' blk <->
  (exists b, 0 <= b < BlocksPerGroup (fs_sb s) /\ used bmap' b = false /\ blk = block_no (fs_sb s) g b) \/
  (is_free s blk /\ forall b, 0 <= b < BlocksPerGroup (fs_sb s) -> blk <> block_no (fs_sb s) g b).
Proof.
  intros Hinv Hst. pose proof (step_sb_eq _ _ _ _ _ _ _ _ _ _ Hst) as (Hn & _ & _ & Hbpg & _ & Hfd & _).
  pose proof (bs_range _ _ _ _ _ _ _ _ _ _ Hst) as Hg.
  assert (forall x y, block_no (fs_sb s') x y = block_no (fs_sb s) x y) as Hbn
    by (intros; unfold block_no; by rewrite Hbpg, Hfd).
  unfold is_free. rewrite Hn, Hbpg. split.
  - intros (g' & b1 & m & i & b & Hg' & G & Hb & Hu & ->). rewrite Hbn.
    destruct (step_group_inv s s' g own bg bg' bmap bmap' imap imap' Hinv Hst g' b1 m i Hg' G) as [(-> & -> & -> & ->)|[Hne G']].
    + left. eauto.
    + right. split; [by exists g', b1, m, i, b|]. intros b' Hb' Heq. by apply block_no_inj in Heq as [-> _].
  - intros [(b & Hb & Hu & ->)|[(g' & b1 & m & i & b & Hg' & G & Hb & Hu & ->) Hne]].
    + exists g, bg', bmap', imap', b. rewrite Hbn. split; [done|]. split; [apply Hst|]. done.
    + assert (g' <> g) as Hgg by (intros ->; by apply (Hne b)).
      exists g', b1, m, i, b. rewrite Hbn. split; [done|]. split; [by eapply step_group|]. done.
Qed.

Lemma step_data s s' g own bg bg' bmap bmap' imap imap' blk :
  fs_inv s -> bitmap_step s s' g own bg bg' bmap bmap' imap imap' ->
  (exists b, 0 <= b < BlocksPerGroup (fs_sb s) /\ used bmap' b = true /\ data_block s g b bg /\ blk = block_no (fs_sb s) g b) \/
  (is_data s blk /\ forall b, 0 <= b < BlocksPerGroup (fs_sb s) -> blk <> block_no (fs_sb s) g b) ->
  is_data s' blk.
Proof.
  intros Hinv Hst. pose proof (step_sb_eq _ _ _ _ _ _ _ _ _ _ Hst) as (Hn & _ & _ & Hbpg & _ & Hfd & _).
  pose proof (bs_range _ _ _ _ _ _ _ _ _ _ Hst) as Hg.
  assert (forall x y, block_no (fs_sb s') x y = block_no (fs_sb s) x y) as Hbn
    by (intros; unfold block_no; by rewrite Hbpg, Hfd).
  unfold is_data. rewrite Hn, Hbpg.
  intros [(b & Hb & Hu & Hd & ->)|[(g' & b1 & m & i & b & Hg' & G & Hb & Hu & Hd & ->) Hne]].
  - exists g, bg', bmap', imap', b. rewrite Hbn. split; [done|]. split; [apply Hst|]. split; [done|]. split; [done|].
    split; [|done]. apply (step_data_block s s' g own bg bg' bmap bmap' imap imap' Hinv Hst g b bg bg'); [apply Hst|done].
  - assert (g' <> g) as Hgg by (intros ->; by apply (Hne b)).
    exists g', b1, m, i, b. rewrite Hbn. split; [done|]. split; [by eapply step_group|]. split; [done|]. split; [done|].
    split; [|done]. by apply (step_data_block s s' g own bg bg' bmap bmap' imap imap' Hinv Hst g' b b1 b1).
Qed.

(** The file system after [blocks] have been taken from the free ones. *)
Record took (s s' : fsys D) (blocks : list Z) : Prop := {
  tk_preserves : preserves s s';
  tk_reads : reads (fun _ _ => True) s s';
  tk_nodup : NoDup blocks;
  tk_was_free : forall b, b ∈ blocks -> is_free s b;
  tk_free : forall b, is_free s' b <-> is_free s b /\ b ∉ blocks;
  tk_data : forall b, is_data s b \/ b ∈ blocks -> is_data s' b
}.

Lemma recounted_fields sb bg bmap imap raw :
  BlockBitmapBlock (recounted sb bg bmap imap raw) = BlockBitmapBlock bg /\
  InodeBitmapBlock (recounted sb bg bmap imap raw) = InodeBitmapBlock bg /\
  InodeTableBlock (recounted sb bg bmap imap raw) = InodeTableBlock bg /\
  UsedDirsCount (recounted sb bg bmap imap raw) = UsedDirsCount bg.
Proof. done. Qed.

Lemma allocated_took s s' n blocks :
  fs_inv s -> allocated fsOffset s s' n blocks -> zlen blocks = n /\ took s s' blocks.
Proof.
  intros Hinv (g & c & bg & bmap & imap & bits & raw' & bmap' & Hg & G & -> & (Hl & Hnd & Hfr) & Hu & _ & Hdone).
  destruct Hdone as (G' & Hsb & Hrest & _ & Helse & _).
  set (bg' := recounted (fs_sb s) bg bmap' imap raw') in *.
  assert (bitmap_step s s' g (BlockBitmapBlock bg) bg bg' bmap bmap' imap imap) as Hst.
  { split; auto; [set_solver| |by eexists _, _]. destruct (inv_group s Hinv g Hg) as (b0 & m0 & i0 & G0 & _ & _ & U0).
    by destruct (group_at_det _ _ _ _ _ _ _ _ _ G G0) as (-> & _). }
  assert (forall b, 0 <= b < BlocksPerGroup (fs_sb s) -> used bmap' b = false -> used bmap b = false /\ b ∉ bits) as Hdown.
  { intros b Hb Hub. rewrite Hu in Hub by lia. apply orb_false_iff in Hub as [Hn Hub]. split; [done|].
    by apply bool_decide_eq_false in Hn. }
  assert (forall b, b ∈ bits -> data_block s g b bg) as Hdb.
  { intros b Hb. destruct (Hfr b Hb). by eapply (iv_free _ Hinv). }
  assert ((fun b => w64 (g * BlocksPerGroup (fs_sb s) + FirstDataBlock (fs_sb s) + b)) <$> bits =
    block_no (fs_sb s) g <$> bits) as ->.
  { apply list_fmap_ext. intros k b Hk. apply w64_small. destruct (Hdb b) as (Hr & _); [by eapply list_elem_of_lookup_2|].
    pose proof (iv_small _ Hinv). lia. }
  split; [unfold zlen in *; by rewrite length_fmap|].
  destruct (step_preserves s s' g (BlockBitmapBlock bg) bg bg' bmap bmap' imap imap Hinv Hst) as [Hpres Hreads].
  { intros b Hb Hub. apply Hdown in Hub as [Hub _]; [|done]. by eapply (iv_free _ Hinv). }
  split; auto.
  - apply NoDup_fmap_2_strong; [|done]. intros x y Hx Hy Heq. by apply block_no_inj in Heq as [_ ->]; [|apply Hfr..].
  - intros b (x & -> & Hx)%list_elem_of_fmap. exists g, bg, bmap, imap, x. destruct (Hfr x Hx). done.
  - intros b. rewrite (step_free s s' g (BlockBitmapBlock bg) bg bg' bmap bmap' imap imap b Hinv Hst). split.
    + intros [(x & Hx & Hux & ->)|[Hf Hne]].
      * destruct (Hdown x Hx Hux) as [Hux' Hni]. split; [by exists g, bg, bmap, imap, x|].
        intros (y & Heq & Hy)%list_elem_of_fmap. apply block_no_inj in Heq as [_ ->]; [done|done|by apply Hfr].
      * split; [done|]. intros (y & -> & Hy)%list_elem_of_fmap. by apply (Hne y); [apply Hfr|].
    + intros [(g' & b1 & m & i & x & Hg' & G1 & Hx & Hux & ->) Hni]. destruct (decide (g' = g)) as [->|Hne].
      * destruct (group_at_det _ _ _ _ _ _ _ _ _ G G1) as (-> & -> & ->). left. exists x. split; [done|]. split; [|done].
        rewrite Hu, Hux by lia. rewrite bool_decide_eq_false_2; [done|]. intros Hin. apply Hni. by apply list_elem_of_fmap_2.
      * right. split; [by exists g', b1, m, i, x|]. intros y Hy Heq. by apply block_no_inj in Heq as [-> _].
  - intros b Hb. eapply step_data; eauto. destruct Hb as [Hb|(x & -> & Hx)%list_elem_of_fmap].
    + destruct Hb as (g' & b1 & m & i & x & Hg' & G1 & Hx & Hux & Hd & ->). destruct (decide (g' = g)) as [->|Hne].
      * destruct (group_at_det _ _ _ _ _ _ _ _ _ G G1) as (-> & -> & ->). left. exists x. split; [done|]. split; [|done].
        rewrite Hu, Hux by lia. apply orb_true_r.
      * right. split; [by exists g', b1, m, i, x|]. intros y Hy Heq. by apply block_no_inj in Heq as [-> _].
    + left. exists x. destruct (Hfr x Hx). split; [lia|]. split; [|split; [by apply Hdb|done]].
      rewrite Hu by lia. by rewrite bool_decide_eq_true_2.
Qed.

Hypothesis Hwritable : dev_writable D.

(** Allocation takes blocks from the free ones, or reports that no group has
    enough. *)
Lemma alloc_inv s n :
  fs_inv s -> 0 <= n ->
  (exists blocks s', allocBlocks fsOffset n s = (Ok blocks, s') /\ zlen blocks = n /\ took s s' blocks) \/
  (exists e, allocBlocks fsOffset n s = (Err e, with_cursor s (w32 (fs_cursor s + 1))) /\ exhausted fsOffset s n).
Proof.
  intros Hinv Hn. destruct (allocBlocks_total fsOffset Hwritable s n Hn (iv_ok _ Hinv) (inv_itables s Hinv))
    as [(blocks & s' & Ha & Hal)|(e & s' & Ha & -> & Hex)].
  - left. destruct (allocated_took s s' n blocks Hinv Hal) as [Hl Ht]. eauto.
  - right. eauto.
Qed.

(** ** Inodes *)

Definition free_inode (s : fsys D) (num : Z) : Prop :=
  exists g bg bmap imap bit, 0 <= g < numBlockGroups (fs_sb s) /\ group_at fsOffset s g bg bmap imap /\
    0 <= bit < InodesPerGroup (fs_sb s) /\ used imap bit = false /\ num = g * InodesPerGroup (fs_sb s) + bit + 1.

(** An inode is taken: the blocks and the data stay as they are. *)
Record took_inode (s s' : fsys D) (num : Z) : Prop := {
  ti_preserves : preserves s s';
  ti_reads : reads (fun _ _ => True) s s';
  ti_free : forall b, is_free s' b <-> is_free s b;
  ti_data : forall b, is_data s b -> is_data s' b;
  ti_was_free : free_inode s num;
  ti_taken : ~ free_inode s' num
}.

Lemma inode_no_inj m g b g' b' :
  0 <= b < m -> 0 <= b' < m -> g * m + b + 1 = g' * m + b' + 1 -> g = g' /\ b = b'.
Proof. intros. assert (g = g') by nia. subst. lia. Qed.

Lemma inode_allocated_took s s' num :
  fs_inv s -> numBlockGroups (fs_sb s) * InodesPerGroup (fs_sb s) < 2 ^ 32 ->
  inode_allocated fsOffset s s' false num -> took_inode s s' num.
Proof.
  intros Hinv H32 (g & c & bg & bmap & imap & bit & raw' & imap' & Hg & G & -> & Hbit & Hf & Hu & Hdone).
  destruct Hdone as (G' & Hsb & Hrest & _ & Helse & _). rewrite w32_small by nia.
  set (bg' := recounted _ _ _ _ _) in G'.
  assert (bitmap_step s s' g (InodeBitmapBlock bg) bg bg' bmap bmap imap imap') as Hst.
  { split; auto; [set_solver| |by eexists _, _]. destruct (inv_group s Hinv g Hg) as (b0 & m0 & i0 & G0 & _ & _ & U0).
    by destruct (group_at_det _ _ _ _ _ _ _ _ _ G G0) as (-> & _). }
  destruct (step_preserves s s' g (InodeBitmapBlock bg) bg bg' bmap bmap imap imap' Hinv Hst) as [Hpres Hreads].
  { intros b Hb Hub. by eapply (iv_free _ Hinv). }
  assert (forall b, is_free s' b <-> is_free s b) as Hfree.
  { intros b. rewrite (step_free s s' g (InodeBitmapBlock bg) bg bg' bmap bmap imap imap' b Hinv Hst). split.
    - intros [(x & Hx & Hux & ->)|[Hb _]]; [by exists g, bg, bmap, imap, x|done].
    - intros Hb. pose proof Hb as (g' & b1 & m & i & x & Hg' & G1 & Hx & Hux & ->). destruct (decide (g' = g)) as [->|Hne].
      + destruct (group_at_det _ _ _ _ _ _ _ _ _ G G1) as (-> & -> & ->). left. by exists x.
      + right. split; [done|]. intros y Hy Heq. by apply block_no_inj in Heq as [-> _]. }
  split; auto.
  - intros b Hb. eapply step_data; eauto. pose proof Hb as (g' & b1 & m & i & x & Hg' & G1 & Hx & Hux & Hd & ->).
    destruct (decide (g' = g)) as [->|Hne].
    + destruct (group_at_det _ _ _ _ _ _ _ _ _ G G1) as (-> & -> & ->). left. by exists x.
    + right. split; [done|]. intros y Hy Heq. by apply block_no_inj in Heq as [-> _].
  - by exists g, bg, bmap, imap, bit.
  - destruct (bs_sb _ _ _ _ _ _ _ _ _ _ Hst) as (k & k2 & Hk).
    intros (g' & b1 & m & i & x & Hg' & G1 & Hx & Hux & Heq). rewrite Hk in Hx, Heq.
    apply inode_no_inj in Heq as [<- <-]; [|done..].
    destruct (group_at_det _ _ _ _ _ _ _ _ _ G' G1) as (-> & -> & ->). rewrite Hu, bool_decide_eq_true_2 in Hux by lia. done.
Qed.

Lemma alloc_inode_inv s :
  fs_inv s -> numBlockGroups (fs_sb s) * InodesPerGroup (fs_sb s) < 2 ^ 32 -> numBlockGroups (fs_sb s) < 2 ^ 31 ->
  (exists num s', allocInode fsOffset false s = (Ok num, s') /\ took_inode s s' num) \/
  (exists e, allocInode fsOffset false s = (Err e, with_cursor s (w32 (fs_cursor s + 1))) /\ forall num, ~ free_inode s num).
Proof.
  intros Hinv H32 H31. destruct (allocInode_total fsOffset Hwritable s false (iv_ok _ Hinv) H31)
    as [(num & s' & Ha & Hal)|(e & s' & Ha & -> & Hex)].
  - left. exists num, s'. split; [done|]. by apply inode_allocated_took.
  - right. exists e. split; [done|]. intros num (g & bg & bmap & imap & bit & Hg & G & Hbit & Hf & _).
    destruct (Hex g bg bmap imap Hg G) as [Hz|Hall]; [|by rewrite Hall in Hf].
    destruct (iv_counted _ Hinv g Hg) as (bg1 & R & _ & C). pose proof G as [R1 _ R2 _]. rewrite R1 in R. injection R as <-.
    destruct (free_in_eq _ _ _ _ _ _ G) as [_ E]. destruct (inv_group s Hinv g Hg) as (b0 & m0 & i0 & G0 & [] & _).
    destruct (group_at_det _ _ _ _ _ _ _ _ _ G G0) as (-> & -> & ->).
    pose proof (read_block_ok _ _ _ _ _ R2 ltac:(lia)) as Hbl.
    rewrite E in C. unfold free_count, max_bits in C. rewrite Z.min_l in C by lia.
    assert (bit ∈ free_bits imap (InodesPerGroup (fs_sb s))) as Hin by (by apply elem_of_free_bits).
    rewrite C in Hz. destruct (free_bits imap _) as [|y l]; [by apply not_elem_of_nil in Hin|].
    rewrite zlen_cons in Hz. pose proof (zlen_nonneg l). lia.
Qed.

Lemma group_at_cursor s c g b m i : group_at fsOffset (with_cursor s c) g b m i <-> group_at fsOffset s g b m i.
Proof. split; intros []; by split. Qed.

(** ** Writes outside the metadata *)

Section write.
Context (s : fsys D) (o : Z) (data : list Z) (d' : D).
Hypothesis Hinv : fs_inv s.
Hypothesis Hoff : off_meta s o (zlen data).
Hypothesis Hbytes : bytes_ok data.
Hypothesis Hw : write_at o data (fs_dev s) = (Ok tt, d').

Let s' : fsys D := Fsys d' (fs_sb s) (fs_cursor s) (fs_rsv s).

Lemma write_group g b m i :
  0 <= g < numBlockGroups (fs_sb s) -> group_at fsOffset s g b m i -> group_at fsOffset s' g b m i.
Proof.
  intros Hg [G1 G2 G3 G4]. destruct Hoff as [O1 O2]. destruct (O2 g b Hg G1) as (S1 & S2 & S3).
  destruct (inv_group s Hinv g Hg) as (b0 & m0 & i0 & [R0 _ _ _] & [] & _). rewrite G1 in R0. injection R0 as <-.
  unfold off_block, sep in *. split; cbn [s' fs_sb fs_dev]; auto.
  - unfold readBGD in *. apply rbind_Ok in G1 as (raw & Hr%rwrap_Ok & Hd).
    rewrite (write_read_ne _ _ _ _ _ _ _ Hw Hbytes Hr) by lia. done.
  - unfold read_block in *. rewrite i64_small in * by lia. by apply (write_read_ne _ _ _ _ _ _ _ Hw Hbytes G2); lia.
  - unfold read_block in *. rewrite i64_small in * by lia. by apply (write_read_ne _ _ _ _ _ _ _ Hw Hbytes G3); lia.
Qed.

Lemma write_group_inv g b m i :
  0 <= g < numBlockGroups (fs_sb s) -> group_at fsOffset s' g b m i -> group_at fsOffset s g b m i.
Proof.
  intros Hg G. destruct (inv_group s Hinv g Hg) as (b0 & m0 & i0 & G0 & _).
  by destruct (group_at_det _ _ _ _ _ _ _ _ _ (write_group g b0 m0 i0 Hg G0) G) as (-> & -> & ->).
Qed.

Lemma write_bgd g : 0 <= g < numBlockGroups (fs_sb s) ->
  exists b, readBGD (fs_dev s) fsOffset (fs_sb s) g = Ok b /\ readBGD d' fsOffset (fs_sb s) g = Ok b.
Proof.
  intros Hg. destruct (inv_group s Hinv g Hg) as (b & m & i & G & _). exists b.
  split; [apply G|]. apply (write_group g b m i Hg G).
Qed.

Lemma write_off_meta x n : off_meta s' x n <-> off_meta s x n.
Proof.
  unfold off_meta. cbn [s' fs_sb fs_dev]. split; intros [A1 A2]; (split; [done|]); intros g b Hg Hr;
    destruct (write_bgd g Hg) as (b0 & R & R'); apply A2; congruence.
Qed.

Lemma write_inv : fs_inv s'.
Proof.
  pose proof Hinv as [(Hrest & Hn & Hok) Hfit Hgeo Hsm Hcov [Ha1 Ha2] Hfr Hcnt]. split; auto.
  - split; [done|]. split; [done|]. intros g Hg.
    destruct (Hok g Hg) as (b & m & i & G & L & [[r1 R1] [r2 R2]] & U). exists b, m, i.
    split; [by apply write_group|]. split; [done|]. split; [|done].
    split; by eapply write_at_readable.
  - by eapply covered_write.
  - split.
    + intros g g' b Hg Hg' Hr. apply (Ha1 g g'); [done..|]. destruct (write_bgd g Hg) as (b0 & R & R'). cbn in Hr. congruence.
    + intros g g' b b' Hg Hg' Hne Hr Hr'. apply (Ha2 g g'); [done..| |].
      * destruct (write_bgd g Hg) as (b0 & R & R'). cbn in Hr. congruence.
      * destruct (write_bgd g' Hg') as (b0 & R & R'). cbn in Hr'. congruence.
  - intros g b m i bit Hg G Hb Hu. destruct (Hfr g b m i bit Hg (write_group_inv g b m i Hg G) Hb Hu) as (D1 & D2 & D3).
    split; [done|]. split; [|done]. by apply write_off_meta.
  - intros g Hg. destruct (Hcnt g Hg) as (b & R & C1 & C2). destruct (inv_group s Hinv g Hg) as (b0 & m & i & G & _).
    destruct (free_in_eq _ _ _ _ _ _ G) as [E1 E2]. destruct (free_in_eq _ _ _ _ _ _ (write_group g b0 m i Hg G)) as [E3 E4].
    exists b. rewrite E3, E4. cbn [s' fs_sb fs_dev]. rewrite <- E1, <- E2. split; [|done].
    destruct (write_bgd g Hg) as (b1 & R1 & R'). congruence.
Qed.

Lemma write_preserves : preserves s s'.
Proof.
  split; [apply write_inv|done|intros; apply write_off_meta|].
  intros g Hg. destruct (write_bgd g Hg) as (b & R & R'). by exists b, b.
Qed.

Lemma write_reads : reads (fun x n => sep x n o (zlen data)) s s'.
Proof. intros x n r _ Hs Hr. unfold sep in Hs. by apply (write_read_ne _ _ _ _ _ _ _ Hw Hbytes Hr); lia. Qed.

Lemma write_free b : is_free s' b <-> is_free s b.
Proof.
  split; intros (g & bg & m & i & x & Hg & G & R); exists g, bg, m, i, x; (split; [done|]); (split; [|done]);
    [by apply write_group_inv|by apply write_group].
Qed.

Lemma write_data b : is_data s b -> is_data s' b.
Proof.
  intros (g & bg & m & i & x & Hg & G & Hx & Hu & (D1 & D2 & D3) & ->). exists g, bg, m, i, x.
  split; [done|]. split; [by apply write_group|]. split; [done|]. split; [done|]. split; [|done].
  split; [done|]. split; [|done]. by apply write_off_meta.
Qed.

End write.

(** ** Release *)

(** The file system after [blk] has been returned to the free blocks. *)
Record gave (s s' : fsys D) (blk : Z) : Prop := {
  gv_preserves : preserves s s';
  gv_reads : reads (fun _ _ => True) s s';
  gv_free : forall b, is_free s' b <-> is_free s b \/ b = blk;
  gv_data : forall b, is_data s b -> b <> blk -> is_data s' b
}.

Lemma free_below sb bmap bit :
  0 <= BlocksPerGroup sb <= 8 * zlen bmap -> 0 <= bit < BlocksPerGroup sb -> used bmap bit = true ->
  free_count sb true bmap < BlocksPerGroup sb.
Proof.
  intros Hm Hb Hu. unfold free_count, max_bits. rewrite Z.min_l by lia.
  set (l := free_bits bmap (BlocksPerGroup sb)).
  assert (bit :: l ⊆+ seqZ 0 (BlocksPerGroup sb)) as Hs.
  { apply NoDup_submseteq; [constructor|].
    - intros [Hf _]%elem_of_free_bits. congruence.
    - apply NoDup_free_bits.
    - intros x [->|[_ Hx]%elem_of_free_bits]%elem_of_cons; apply elem_of_seqZ; lia. }
  apply submseteq_length in Hs. cbn [length] in Hs. rewrite length_seqZ in Hs. unfold zlen. lia.
Qed.

Lemma freed_gave s s' g bg bg' bmap bmap' imap bit :
  fs_inv s -> bitmap_step s s' g (BlockBitmapBlock bg) bg bg' bmap bmap' imap imap -> 0 <= bit < BlocksPerGroup (fs_sb s) ->
  (forall j, 0 <= j -> used bmap' j = negb (bool_decide (j = bit)) && used bmap j) ->
  data_block s g bit bg -> gave s s' (block_no (fs_sb s) g bit).
Proof.
  intros Hinv Hst Hbit Hu Hdb. pose proof (bs_range _ _ _ _ _ _ _ _ _ _ Hst) as Hg.
  pose proof (bs_old _ _ _ _ _ _ _ _ _ _ Hst) as G.
  assert (forall b, 0 <= b -> used bmap' b = false <-> used bmap b = false \/ b = bit) as Hup.
  { intros b Hb. rewrite Hu by done. destruct (decide (b = bit)) as [->|Hne].
    - rewrite bool_decide_eq_true_2 by done. cbn. intuition.
    - rewrite bool_decide_eq_false_2 by done. cbn. intuition. }
  destruct (step_preserves s s' g (BlockBitmapBlock bg) bg bg' bmap bmap' imap imap Hinv Hst) as [Hpres Hreads].
  { intros b Hb [Hub| ->]%Hup; [|done|lia]. by eapply (iv_free _ Hinv). }
  split; auto.
  - intros b. rewrite (step_free s s' g (BlockBitmapBlock bg) bg bg' bmap bmap' imap imap b Hinv Hst). split.
    + intros [(x & Hx & [Hux| ->]%Hup & ->)|[Hf _]]; [|by right|lia|by left]. left. by exists g, bg, bmap, imap, x.
    + intros [(g' & b1 & m & i & x & Hg' & G1 & Hx & Hux & ->)| ->].
      * destruct (decide (g' = g)) as [->|Hne].
        -- destruct (group_at_det _ _ _ _ _ _ _ _ _ G G1) as (-> & -> & ->). left. exists x.
           split; [done|]. split; [|done]. apply Hup; [lia|by left].
        -- right. split; [by exists g', b1, m, i, x|]. intros y Hy Heq. by apply block_no_inj in Heq as [-> _].
      * left. exists bit. split; [done|]. split; [|done]. apply Hup; [lia|by right].
  - intros b (g' & b1 & m & i & x & Hg' & G1 & Hx & Hux & Hd & ->) Hnb. eapply step_data; eauto.
    destruct (decide (g' = g)) as [->|Hne].
    + destruct (group_at_det _ _ _ _ _ _ _ _ _ G G1) as (-> & -> & ->). left. exists x. split; [done|]. split; [|done].
      rewrite Hu, Hux by lia. rewrite bool_decide_eq_false_2; [done|]. by intros ->.
    + right. split; [by exists g', b1, m, i, x|]. intros y Hy Heq. by apply block_no_inj in Heq as [-> _].
Qed.

Lemma free_inv s blk :
  fs_inv s -> is_data s blk -> exists s', freeBlock fsOffset blk s = (Ok tt, s') /\ gave s s' blk.
Proof.
  intros Hinv (g & bg & bmap & imap & bit & Hg & G & Hbit & Hu & Hdb & ->).
  pose proof (iv_geo _ Hinv) as [Hf Hm]. pose proof (iv_ok _ Hinv) as (Hrest & _).
  destruct (inv_group s Hinv g Hg) as (b0 & m0 & i0 & G0 & L & Hrd & HU).
  destruct (group_at_det _ _ _ _ _ _ _ _ _ G G0) as (-> & -> & ->). clear G0.
  assert (w32 ((block_no (fs_sb s) g bit - FirstDataBlock (fs_sb s)) / BlocksPerGroup (fs_sb s)) = g) as Eg.
  { unfold block_no. pose proof (numBlockGroups_lt (fs_sb s)).
    replace (_ - _) with (bit + g * BlocksPerGroup (fs_sb s)) by lia.
    rewrite Z.div_add, Z.div_small by lia. apply w32_small. lia. }
  assert ((block_no (fs_sb s) g bit - FirstDataBlock (fs_sb s)) mod BlocksPerGroup (fs_sb s) = bit) as Eb.
  { unfold block_no. replace (_ - _) with (bit + g * BlocksPerGroup (fs_sb s)) by lia.
    rewrite Z_mod_plus_full. apply Z.mod_small. lia. }
  assert (FreeBlocksCount bg + 1 < count_max (fs_sb s)) as Hfb.
  { destruct (iv_counted _ Hinv g Hg) as (bg1 & R & C & _). pose proof G as [R1 R2 _ _]. rewrite R1 in R.
    injection R as <-. destruct (free_in_eq _ _ _ _ _ _ G) as [E _]. rewrite C, E. destruct L.
    pose proof (read_block_ok _ _ _ _ _ R2 ltac:(lia)) as Hbl. enough (free_count (fs_sb s) true bmap < BlocksPerGroup (fs_sb s)) by lia.
    apply (free_below _ _ bit); [lia..|done]. }
  pose proof (freeBlock_total fsOffset Hwritable s (block_no (fs_sb s) g bit) bg bmap imap) as Ht.
  pose proof (fun s' => freeBlock_spec fsOffset s s' (block_no (fs_sb s) g bit) bg bmap imap) as Hs.
  cbv zeta in Ht, Hs. rewrite Eg in Ht, Hs. rewrite Eb in Hs.
  assert (FirstDataBlock (fs_sb s) <= block_no (fs_sb s) g bit) as Hle by (unfold block_no; nia).
  destruct Ht as [s' Ht]; [lia|done..|]. exists s'. split; [done|].
  destruct (Hs s') as (raw' & bmap' & Hu' & _ & G' & Hsb & Hrest' & _ & Helse & _); [lia|done..|].
  eapply (freed_gave s s' g bg _ bmap bmap' imap bit); eauto. split; eauto; set_solver.
Qed.

(** ** Steps that change data only *)

Record data_step (P : Z -> Z -> Prop) (s s' : fsys D) : Prop := {
  ds_preserves : preserves s s';
  ds_reads : reads P s s';
  ds_free : forall b, is_free s' b <-> is_free s b;
  ds_data : forall b, is_data s b -> is_data s' b
}.

Lemma preserves_refl s : fs_inv s -> preserves s s.
Proof.
  intros Hinv. split; auto. intros g Hg. destruct (inv_group s Hinv g Hg) as (b & m & i & [G _ _ _] & _).
  by exists b, b.
Qed.

Lemma preserves_trans s1 s2 s3 : preserves s1 s2 -> preserves s2 s3 -> preserves s1 s3.
Proof.
  intros [A1 A2 A3 A4] [B1 B2 B3 B4]. split; auto.
  - congruence.
  - intros o n. rewrite B3. apply A3.
  - intros g Hg. destruct (A4 g Hg) as (b & b' & R & R' & E). change (0 <= g < numBlockGroups (erase (fs_sb s1))) in Hg.
    rewrite <- A2 in Hg. destruct (B4 g Hg) as (b2 & b3 & R2 & R3 & E2). exists b, b3. split_and!; [done|done|congruence].
Qed.

Lemma reads_trans P s1 s2 s3 : preserves s1 s2 -> reads P s1 s2 -> reads P s2 s3 -> reads P s1 s3.
Proof. intros Hp R1 R2 o n r Ho HP Hr. apply R2; [by apply (pv_meta _ _ Hp)|done|]. by apply R1. Qed.

Lemma reads_weaken (P Q : Z -> Z -> Prop) s s' : (forall o n, Q o n -> P o n) -> reads P s s' -> reads Q s s'.
Proof. intros Hq Hr o n r Ho HQ. apply Hr; auto. Qed.

Lemma data_step_refl P s : fs_inv s -> data_step P s s.
Proof. intros. split; [by apply preserves_refl|by intros ???|done|done]. Qed.

Lemma data_step_trans P s1 s2 s3 : data_step P s1 s2 -> data_step P s2 s3 -> data_step P s1 s3.
Proof.
  intros [A1 A2 A3 A4] [B1 B2 B3 B4]. split; auto.
  - by eapply preserves_trans.
  - by eapply reads_trans.
  - intros b. by rewrite B3.
Qed.

Lemma data_step_weaken (P Q : Z -> Z -> Prop) s s' :
  (forall o n, Q o n -> P o n) -> data_step P s s' -> data_step Q s s'.
Proof. intros Hq [A1 A2 A3 A4]. split; auto. by apply (reads_weaken P). Qed.

Lemma write_step s o data d' :
  fs_inv s -> off_meta s o (zlen data) -> bytes_ok data -> write_at o data (fs_dev s) = (Ok tt, d') ->
  data_step (fun x n => sep x n o (zlen data)) s (Fsys d' (fs_sb s) (fs_cursor s) (fs_rsv s)).
Proof.
  intros Hinv Ho Hb Hw. split.
  - by apply (write_preserves s o data).
  - by apply (write_reads s o data).
  - intros. by apply (write_free s o data).
  - intros. by apply (write_data s o data).
Qed.

(** Nothing depends on the cursor of the allocator. *)
Lemma cursor_step P s c : fs_inv s -> data_step P s (with_cursor s c).
Proof.
  intros Hinv. assert (fs_inv (with_cursor s c)) as Hinv'.
  { destruct Hinv as [(Hr & Hn & Hok) ? ? ? ? ? Hfr ?]. split; auto.
    - split; [done|]. split; [done|]. intros g Hg. destruct (Hok g Hg) as (b & m & i & G & R). exists b, m, i.
      by rewrite group_at_cursor.
    - intros g b m i x Hg G. exact (Hfr g b m i x Hg (proj1 (group_at_cursor s c g b m i) G)). }
  split.
  - split; [done|done|done|]. apply (pv_bgd _ _ (preserves_refl s Hinv)).
  - by intros o n r _ _.
  - intros b. split; intros (g & bg & m & i & x & Hg & G & R); exists g, bg, m, i, x; (split; [done|]); (split; [|done]);
      [exact (proj1 (group_at_cursor s c g bg m i) G)|exact (proj2 (group_at_cursor s c g bg m i) G)].
  - intros b (g & bg & m & i & x & Hg & G & R). exists g, bg, m, i, x. split; [done|].
    split; [exact (proj2 (group_at_cursor s c g bg m i) G)|done].
Qed.

(** ** Ranges of blocks *)

Lemma sep_span a c bs o n x m :
  0 < bs -> 0 < m -> 0 < n -> a <= o -> o + n <= a + c * bs ->
  (forall k, 0 <= k < c -> sep (a + k * bs) bs x m) -> sep o n x m.
Proof.
  intros Hbs Hm Hn Hlo Hhi Hs. unfold sep in *.
  destruct (decide (o + n <= x \/ x + m <= o)) as [|Hov]; [done|]. exfalso.
  set (y := Z.max o x). pose proof (Z.div_mod (y - a) bs ltac:(lia)) as Hd. pose proof (Z.mod_pos_bound (y - a) bs Hbs) as Hmod.
  set (k := (y - a) / bs) in *. assert (0 <= k) by (apply Z.div_pos; lia).
  assert (k < c) by nia. specialize (Hs k ltac:(lia)). nia.
Qed.

Lemma sep_sub o n o' n' x m : sep o n x m -> o <= o' -> o' + n' <= o + n -> 0 <= n' -> sep o' n' x m.
Proof. unfold sep. lia. Qed.

Lemma off_meta_span s b c o n :
  fs_inv s -> 0 < n -> fsOffset + b * BlockSize (fs_sb s) <= o -> o + n <= fsOffset + (b + c) * BlockSize (fs_sb s) ->
  (forall k, 0 <= k < c -> off_meta s (fsOffset + (b + k) * BlockSize (fs_sb s)) (BlockSize (fs_sb s))) ->
  off_meta s o n.
Proof.
  intros Hinv Hn Hlo Hhi Hm. pose proof (iv_fits _ Hinv) as (Hbs & _). set (bs := BlockSize (fs_sb s)) in *.
  assert (forall x m, 0 < m -> (forall k, 0 <= k < c -> sep (fsOffset + (b + k) * bs) bs x m) -> sep o n x m) as Hsp.
  { intros x m Hm' Hs. apply (sep_span (fsOffset + b * bs) c bs); try lia. intros k Hk.
    replace (fsOffset + b * bs + k * bs) with (fsOffset + (b + k) * bs) by lia. auto. }
  split.
  - apply Hsp; [lia|]. intros k Hk. by apply Hm.
  - intros g bg Hg R. destruct (inv_group s Hinv g Hg) as (b0 & m & i & _ & [] & _).
    split_and!; apply Hsp; try lia; intros k Hk; by apply (proj2 (Hm k Hk) g bg Hg R).
Qed.

Lemma off_meta_sub s o n o' n' : off_meta s o n -> o <= o' -> o' + n' <= o + n -> 0 <= n' -> off_meta s o' n'.
Proof.
  intros [H1 H2] Hlo Hhi Hn. split; [by eapply sep_sub|]. intros g bg Hg R. destruct (H2 g bg Hg R) as (A & B & C).
  unfold off_block in *. split_and!; by eapply sep_sub.
Qed.

Lemma is_data_block s b :
  is_data s b -> 0 <= b < BlocksCount (fs_sb s) /\ off_meta s (fsOffset + b * BlockSize (fs_sb s)) (BlockSize (fs_sb s)).
Proof. by intros (g & bg & bmap & imap & x & _ & _ & _ & _ & (R & M & _) & ->). Qed.

Lemma is_free_block s b :
  fs_inv s -> is_free s b ->
  0 <= b < BlocksCount (fs_sb s) /\ off_meta s (fsOffset + b * BlockSize (fs_sb s)) (BlockSize (fs_sb s)).
Proof.
  intros Hinv (g & bg & bmap & imap & x & Hg & G & Hx & Hu & ->). by destruct (iv_free _ Hinv g bg bmap imap x Hg G Hx Hu) as (R & M & _).
Qed.

(** When not even one block can be had, none is free. *)
Lemma exhausted_none s b : fs_inv s -> exhausted fsOffset s 1 -> ~ is_free s b.
Proof.
  intros Hinv Hex (g & bg & bmap & imap & x & Hg & G & Hx & Hu & _).
  destruct (inv_group s Hinv g Hg) as (b0 & m0 & i0 & G0 & L & _).
  destruct (group_at_det _ _ _ _ _ _ _ _ _ G G0) as (-> & -> & ->). destruct L.
  destruct (iv_counted _ Hinv g Hg) as (bg1 & R & C & _). pose proof G as [R1 R2 _ _]. rewrite R1 in R. injection R as <-.
  destruct (free_in_eq _ _ _ _ _ _ G) as [E _].
  pose proof (read_block_ok _ _ _ _ _ R2 ltac:(lia)) as Hbl.
  rewrite E in C. unfold free_count, max_bits in C. rewrite Z.min_l in C by lia.
  assert (x ∈ free_bits bmap (BlocksPerGroup (fs_sb s))) as Hin by (by apply elem_of_free_bits).
  destruct (Hex g bg bmap imap Hg G) as [Hlt|Hlt]; [rewrite C in Hlt|];
    (destruct (free_bits bmap _) as [|y l]; [by apply not_elem_of_nil in Hin|]);
    rewrite zlen_cons in Hlt; pose proof (zlen_nonneg l); lia.
Qed.

(** ** Blocks taken and filled *)

Definition off_blocks (sb : superblock) (blocks : list Z) (o n : Z) : Prop :=
  0 < n /\ forall b, b ∈ blocks -> off_block sb b o n.

Record grew (s s' : fsys D) (blocks : list Z) : Prop := {
  gr_preserves : preserves s s';
  gr_reads : reads (off_blocks (fs_sb s) blocks) s s';
  gr_nodup : NoDup blocks;
  gr_was_free : forall b, b ∈ blocks -> is_free s b;
  gr_free : forall b, is_free s' b <-> is_free s b /\ b ∉ blocks;
  gr_data : forall b, is_data s b \/ b ∈ blocks -> is_data s' b
}.

Lemma took_grew s s' blocks : took s s' blocks -> grew s s' blocks.
Proof. intros [A1 A2 A3 A4 A5 A6]. split; auto. eapply reads_weaken; [|exact A2]. done. Qed.

Lemma grew_nil s : fs_inv s -> grew s s [].
Proof.
  intros Hinv. split; [by apply preserves_refl|by intros ???|constructor|set_solver|set_solver|set_solver].
Qed.

Lemma grew_step s s1 s2 blocks :
  grew s s1 blocks -> data_step (off_blocks (fs_sb s) blocks) s1 s2 -> grew s s2 blocks.
Proof.
  intros [A1 A2 A3 A4 A5 A6] [B1 B2 B3 B4]. split; auto.
  - by eapply preserves_trans.
  - by eapply reads_trans.
  - intros b. by rewrite B3.
Qed.

Lemma erase_block s s' : preserves s s' -> BlockSize (fs_sb s') = BlockSize (fs_sb s).
Proof. intros Hp. exact (f_equal BlockSize (pv_geo _ _ Hp)). Qed.

Lemma inv_layout s : fs_inv s -> 32 <= DescSize (fs_sb s) /\ 1024 <= BlockSize (fs_sb s).
Proof.
  intros Hinv. destruct (iv_ok _ Hinv) as (_ & Hn & _). destruct (inv_group s Hinv 0 ltac:(lia)) as (b & m & i & _ & [] & _). lia.
Qed.

(** The whole of a block is written. *)
Lemma write_block s b data :
  fs_inv s -> is_data s b -> zlen data = BlockSize (fs_sb s) -> bytes_ok data ->
  exists s', writeRawBlock fsOffset b data s = (Ok tt, s') /\ fs_sb s' = fs_sb s /\
    data_step (off_blocks (fs_sb s) [b]) s s' /\ read_block fsOffset (fs_dev s') (fs_sb s) b = Ok data.
Proof.
  intros Hinv Hd Hl Hb. destruct (is_data_block s b Hd) as [Hr Hm]. pose proof (inv_layout s Hinv) as [Hds _]. pose proof (iv_fits _ Hinv) as (Hbs & Ho & Hc & Hend).
  set (bs := BlockSize (fs_sb s)) in *.
  assert (fsOffset + b * bs + bs <= fsOffset + BlocksCount (fs_sb s) * bs) as Hle by nia.
  destruct (iv_cov _ Hinv (fsOffset + b * bs) bs) as [r Hrd]; [nia|lia|done|].
  destruct (write_at_total Hwritable (fs_dev s) (fsOffset + b * bs) data bs r (eq_sym Hl) Hbs Hrd) as [d' Hw].
  exists (Fsys d' (fs_sb s) (fs_cursor s) (fs_rsv s)). split.
  { unfold writeRawBlock. run_sb. apply mwrap_run. fold bs. rewrite i64_small by nia.
    rewrite writeAtWithTrace_write by (intros; by apply readBGD_np). unfold on_dev. by rewrite Hw. }
  split; [done|]. split.
  - eapply data_step_weaken; [|apply (write_step s (fsOffset + b * bs) data d'); auto; by rewrite Hl].
    intros o n [_ Hoff]. rewrite Hl. apply (Hoff b). by left.
  - unfold read_block. fold bs. rewrite i64_small by nia. by eapply write_read_same; eauto.
Qed.

End inv.

Lemma memdev_covered (d : memdev) sb : BlocksCount sb * BlockSize sb <= zlen (md_bytes d) -> covered 0 d sb.
Proof.
  intros Hl o n Ho Hn Hle. unfold read_at. cbn. unfold mem_ReadAt. rewrite ltb_false by lia.
  rewrite zlen_fmap, zlen_zslice by lia. rewrite ltb_false by lia. eauto.
Qed.
