(* ===== verification/Fs.v ===== *)
(** The read side of the file system's interface ([src/fs.go], [src/open.go]) and
    the choice of the partition ([src/partition.go], [src/openreader.go]): paths
    are resolved and the operations on inodes do the rest. *)

From S2P Require Import Prelude Bytes Crc Device Superblock Bgd GoLib Extent Limits Inode Inline FileRead Dir Alloc Image Lookup Namespace.

(** * Partitions *)

(** The package go-volumes/gpt: what its partition tables offer, with [ErrNoTable]
    told apart from other errors. *)
Inductive scheme : Type := SchemeGPT | SchemeMBR.
Record partition : Type := Part {
  p_Scheme : scheme;
  p_TypeGUID : list Z;
  p_MBRType : Z;
  p_StartOffset : Z
}.
Inductive gptError : Type := ErrNoTable | GptError (e : error).

Class Gpt (D : Type) : Type := {
  gpt_ByIndex : D -> Z -> Z -> partition + gptError;
  gpt_List : D -> Z -> list partition + gptError;
  LinuxFilesystemGUID : list Z
}.

Section partition.
Context {D : Type} `{Gpt D}.

Definition gpt_err (e : gptError) : res Z :=
  match e with
  | ErrNoTable => Ok 0
  | GptError e => Err (ErrWrap "ext4" e)
  end.

Definition is_linux (p : partition) : bool :=
  match p_Scheme p with
  | SchemeGPT => bool_decide (p_TypeGUID p = LinuxFilesystemGUID)
  | SchemeMBR => (p_MBRType p =? 0x83) && negb (p_StartOffset p =? 0)
  end.

Definition partitionOffset (d : D) (partIndex deviceSize : Z) : res Z :=
  let deviceSize := if deviceSize <=? 0 then 2 ^ 62 else deviceSize in
  if 0 <=? partIndex then
    match gpt_ByIndex d deviceSize partIndex with
    | inl part => Ok (p_StartOffset part)
    | inr e => gpt_err e
    end
  else
    match gpt_List d deviceSize with
    | inr e => gpt_err e
    | inl parts =>
        match find is_linux parts with
        | Some p => Ok (p_StartOffset p)
        | None => Err (Errorf "ext4: no Linux data partition found")
        end
    end.

(** [OpenReader] and the offset it opens at. *)
Definition OpenReader_offset (d : D) (size : Z) : res Z :=
  if size <=? 0 then Err (Errorf "ext4: an image of so many bytes is not one") else
  partitionOffset d (-1) size.

End partition.

(** * Reading by path *)

Section ops.
Context {D : Type} `{BlockDev D} `{SortSlice} `{Safeio}.
Context (d : D) (fsOffset : Z) (sb : superblock).

(** The inode of a regular file, read again under its lock. *)
Definition regular_inode (path : list Z) : res inode :=
  let! i := lookupPath d fsOffset sb path in
  if negb (isRegular i) then Err (Errorf "ext4: not a regular file") else
  readInode d fsOffset sb (in_num i).

Definition ReadFile (path : list Z) : res (list Z) :=
  let! i := regular_inode path in
  readFileData d fsOffset sb i.

Definition OpenFile (path : list Z) : res ext4File :=
  let! i := regular_inode path in
  newFile d fsOffset sb i.

Definition ListDir (path : list Z) : res (list DirEntry) :=
  let! i := lookupPath d fsOffset sb path in
  if negb (isDir i) then Err (Errorf "ext4: not a directory") else
  let! entries := readDir d fsOffset sb i in
  Ok (filter (fun e => de_Name e <> dot /\ de_Name e <> dotdot) entries).

(** The mode, the size and the inode number. *)
Definition Stat (path : list Z) : res (Z * Z * Z) :=
  let! i := lookupPath d fsOffset sb path in
  Ok (in_mode i, in_size i, in_num i).

Definition ReadLink (path : list Z) : res (list Z) :=
  if bool_decide (path = [slash]) then Err (Errorf "ext4: not a symbolic link") else
  let! (parent, name) := lookupParent d fsOffset sb path in
  let! entries := readDir d fsOffset sb parent in
  match find_entry name entries with
  | None => Err (ErrWrap "ext4: not found" ErrNotExist)
  | Some e =>
      let! i := readInode d fsOffset sb (de_Inode e) in
      if negb (isSymlink i) then Err (Errorf "ext4: not a symbolic link") else
      readSymlink d fsOffset sb i
  end.

End ops.

(** * Opening a file and reading it whole *)

Section agree.
Context {D : Type} `{BlockDevLaws D} `{SortSlice} `{Safeio}.
Context (d : D) (fsOffset : Z) (sb : superblock).

Lemma decodeInode_num num raw i : decodeInode num raw = Ok i -> in_num i = num.
Proof. unfold decodeInode. intros Hd. res_inv. done. Qed.

(** The inode read again for its data is the one just read. *)
Lemma readInode_reread num i :
  readInode d fsOffset sb num = Ok i -> rereadInode d fsOffset sb i = Ok i.
Proof.
  unfold readInode. destruct (num =? 0); [done|]. destruct (_ <? num); [done|].
  intros Hr. apply rbind_Ok in Hr as ([g idx] & Hg & Hr). cbn [readInode_attempts] in Hr.
  apply rbind_Ok in Hr as (d1 & H1' & Hr). rewrite H1' in Hr. cbn [rbind] in Hr. rewrite Z.eqb_refl in Hr.
  cbn [negb] in Hr. apply rbind_Ok in Hr as (raw & Hraw%rwrap_Ok & Hdec).
  unfold rereadInode. destruct (_ || _); [done|]. rewrite (decodeInode_num _ _ _ Hdec).
  unfold inode_group in Hg. res_inv. by rewrite H1', Hraw.
Qed.

Lemma readFileData_extents num i :
  readInode d fsOffset sb num = Ok i -> extent_mapped i ->
  readFileData d fsOffset sb i = readExtentData d fsOffset sb i.
Proof.
  intros Hr Hm. unfold readFileData, isInline. rewrite (readInode_reread _ _ Hr). cbn [rbind].
  rewrite (extent_mapped_flags i Hm). cbn [rbind]. destruct Hm as (_ & _ & _ & Hi & He).
  by rewrite Hi, He.
Qed.

Lemma ReadFile_extents path i data :
  regular_inode d fsOffset sb path = Ok i -> extent_mapped i ->
  ReadFile d fsOffset sb path = Ok data -> readExtentData d fsOffset sb i = Ok data.
Proof.
  unfold ReadFile. intros Hi Hm. rewrite Hi. cbn [rbind]. unfold regular_inode in Hi.
  apply rbind_Ok in Hi as (i0 & _ & Hi). destruct (negb _); [done|].
  by rewrite (readFileData_extents _ _ Hi Hm).
Qed.

End agree.

(** C28: the two ways to read a file by its path agree.  On an extent-mapped file
    without empty leaves, whatever a positional read of the opened file returns is
    the slice of what reading the whole file returns, it is complete when there is
    no error, and it reaches the end of the data when the error is [io.EOF]. *)
Theorem OpenFile_agrees_with_ReadFile {D} `{BlockDevLaws D} `{SortSlice} `{Safeio} (d : D) fsOffset sb
    path i exts f data plen off :
  fs_fits fsOffset sb -> regular_inode d fsOffset sb path = Ok i -> extent_mapped i ->
  extents d fsOffset sb i = Ok exts -> Forall (fun e => 0 < Count e) exts ->
  OpenFile d fsOffset sb path = Ok f -> ReadFile d fsOffset sb path = Ok data ->
  0 <= plen -> 0 <= off < zlen data ->
  let '(out, err) := ReadAt d fsOffset sb f plen off in
  out = zslice data off (zlen out) /\ (err = None -> zlen out = plen) /\
  (err = Some EOF -> off + zlen out = zlen data).
Proof.
  intros Hfit Hi Hm Hx Hne Hf Hd Hp Hoff. apply (ReadFile_extents _ _ _ _ i) in Hd; [|done..].
  unfold OpenFile in Hf. rewrite Hi in Hf. cbn [rbind] in Hf.
  pose proof Hfit as (Hbs & Ho & Hc & Hend).
  destruct (readExtentData_correct d fsOffset sb Hbs Ho Hc Hend i data) as (exts' & _ & Heq); [apply Hm..|done|].
  assert (zlen data = in_size i) as Hl by (rewrite Heq; apply zlen_bytes_of, Hm).
  eapply ReadAt_agrees_with_readExtentData; eauto. by rewrite <- Hl.
Qed.

(** A file [f] of 1500 bytes in blocks 9 and 10. *)
Definition ex_two_blocks : inode :=
  let raw := set32 (set16 (set16 (zeros 128) 0 0x81A4) 26 1) 4 1500 in
  let i := Inode raw 12 1500 0x81A4 in the i (setInlineExtents i [Leaf 0 9 2]).
Definition ex_file_fs : fsys memdev :=
  let s := (allocInode 0 false (img 0)).2 in
  let s := (writeInode 0 ex_two_blocks s).2 in
  let s := (addDirEntry 0 (the ex_two_blocks (readInode (fs_dev s) 0 (fs_sb s) 2)) 12 [102] FtRegFile s).2 in
  Fsys (MemDev (zsplice (md_bytes (fs_dev s)) (9 * 1024) (replicate 1500 7))) (fs_sb s) (fs_cursor s) (fs_rsv s).

Lemma OpenFile_agrees_with_ReadFile_witness :
  let '(d, sb) := (fs_dev ex_file_fs, fs_sb ex_file_fs) in
  let f := the (File None [] 0 0 0 true true) (OpenFile d 0 sb [47; 102]) in
  let data := the [] (ReadFile d 0 sb [47; 102]) in
  zlen data = 1500 /\
  let '(out, err) := ReadAt d 0 sb f 100 1450 in
  out = zslice data 1450 (zlen out) /\ (err = None -> zlen out = 100) /\
  (err = Some EOF -> 1450 + zlen out = zlen data).
Proof.
  split; [vm_compute; reflexivity|].
  apply (OpenFile_agrees_with_ReadFile (fs_dev ex_file_fs) 0 (fs_sb ex_file_fs) [47; 102]
    (the ex_two_blocks (regular_inode (fs_dev ex_file_fs) 0 (fs_sb ex_file_fs) [47; 102])) [Leaf 0 9 2]);
    [by vm_compute|vm_compute; reflexivity|split_and!; [apply all_bytes_ok|..]; vm_compute; done
    |vm_compute; reflexivity|repeat constructor|vm_compute; reflexivity..|lia|].
  assert (zlen (the [] (ReadFile (fs_dev ex_file_fs) 0 (fs_sb ex_file_fs) [47; 102])) = 1500) as ->
    by (vm_compute; reflexivity). lia.
Defined.
