(* ===== verification/FileWrite.v ===== *)
(** Positional writes and truncation of an open file ([src/writeat.go]), on a file
    system without a sidecar journal. *)

From S2P Require Import Prelude Bytes Crc Device Superblock Bgd Bitmap GoLib Extent Limits Inode Inline FileRead Dir Alloc Image Lookup Namespace Fs.

Section ops.
Context {D : Type} `{BlockDev D} `{SortSlice} `{Safeio}.
Context (fsOffset : Z).

(** The file system, and the open file: the block map and the size of the latter
    change with the writes. *)
Notation WS := (M (fsys D * ext4File)).

Definition on_fs {A} (m : M (fsys D) A) : WS A := fun '(s, f) =>
  let '(r, s') := m s in (r, (s', f)).
Definition the_file : WS ext4File := fun '(s, f) => (Ok f, (s, f)).
Definition with_map (f : ext4File) (exts : list extentLeaf) (size : Z) : ext4File :=
  File (f_inline f) exts size (f_blockSize f) (f_inodeNum f) (f_closed f) (f_readonly f).
Definition adopt (exts : list extentLeaf) (size : Z) : WS unit := fun '(s, f) =>
  (Ok tt, (s, with_map f exts size)).

(** The physical offset of a byte of the file and how many bytes follow it in the
    same extent. *)
Definition locateLocked (f : ext4File) (cur : Z) : option (Z * Z) :=
  let bs := f_blockSize f in
  let logBlock := cur / bs in
  let within := cur mod bs in
  match f_extents f !! Z.to_nat (locate (f_extents f) logBlock) with
  | None => None
  | Some e =>
      if logBlock <? LogBlock e then None else
      let skip := logBlock - LogBlock e in
      let phys := w64 (PhysBlock e + skip) in
      Some (i64 (fsOffset + i64 (phys * bs) + within), (Count e - skip) * bs - within)
  end.

(** The stale bytes behind the old end of the file. *)
Definition zeroSlackLocked (oldSize newSize : Z) : WS unit :=
  do! f := the_file in
  if (newSize <=? oldSize) || (oldSize =? 0) then ret tt else
  let slack := oldSize mod f_blockSize f in
  if slack =? 0 then ret tt else
  match locateLocked f oldSize with
  | None => ret tt
  | Some (phys, avail) =>
      let n := Z.min (f_blockSize f - slack) (Z.min avail (newSize - oldSize)) in
      mwrap "ext4: zero slack" (on_fs (on_dev (write_at phys (zeros n))))
  end.

Definition total_blocks (exts : list extentLeaf) : Z :=
  fold_left (fun n e => w32 (n + Count e)) exts 0.

Definition commitLocked (exts : list extentLeaf) (size now : Z) : WS unit :=
  do! f := the_file in
  do! i := on_fs (gets (fun d sb => readInode d fsOffset sb (f_inodeNum f))) in
  do! oldChild := mlift (singleExtentChild i) in
  do! i := on_fs (writeExtentTree fsOffset i exts) in
  do! sb := on_fs get_sb in
  do! i := mlift (
    let! i := setSize i (w64 size) in
    let! i := setBlocks512 i (w32 (total_blocks exts * (BlockSize sb / 512))) in
    stamp i now) in
  do! i := on_fs (writeInode fsOffset i) in
  do! _ := match oldChild with
           | None => ret tt
           | Some child =>
               do! newChild := mlift (singleExtentChild i) in
               if bool_decide (newChild = Some child) then ret tt
               else mwrap "ext4: free stale extent leaf block" (on_fs (freeBlock fsOffset child))
           end in
  adopt exts size.

(** The logical blocks from [b] that are not mapped. *)
Fixpoint missing_from (n : nat) (f : ext4File) (b : Z) : list Z :=
  match n with
  | O => []
  | S n' =>
      match locateLocked f (i64 (b * f_blockSize f)) with
      | Some _ => missing_from n' f (b + 1)
      | None => b :: missing_from n' f (b + 1)
      end
  end.

Fixpoint zero_blocks (blocks : list Z) (bs : Z) : M (fsys D) unit :=
  match blocks with
  | [] => ret tt
  | b :: blocks' =>
      do! _ := mwrap "ext4: zero new block" (writeRawBlock fsOffset b (zeros bs)) in
      zero_blocks blocks' bs
  end.

(** The leaves for the new blocks. *)
Fixpoint new_leaves (missing phys : list Z) : res (list extentLeaf) :=
  match missing, phys with
  | [], _ => Ok []
  | b :: missing', p :: phys' =>
      let! rest := new_leaves missing' phys' in
      Ok (Leaf (w32 b) p 1 :: rest)
  | _ :: _, [] => Panic
  end.

Definition mapRangeLocked (off fin now : Z) : WS unit :=
  do! f := the_file in
  let bs := f_blockSize f in
  let firstBlock := off / bs in
  let lastBlock := (fin - 1) / bs in
  let missing := missing_from (Z.to_nat (lastBlock - firstBlock + 1)) f firstBlock in
  let newSize := Z.max (f_size f) fin in
  match missing with
  | [] =>
      if newSize =? f_size f then ret tt else
      do! _ := zeroSlackLocked (f_size f) newSize in
      commitLocked (f_extents f) newSize now
  | _ =>
      do! phys := mwrap "ext4: alloc blocks" (on_fs (allocBlocks fsOffset (w32 (zlen missing)))) in
      do! _ := on_fs (zero_blocks phys bs) in
      do! leaves := mlift (new_leaves missing phys) in
      let merged := coalesceExtents (f_extents f ++ leaves) in
      do! _ := zeroSlackLocked (f_size f) newSize in
      commitLocked merged newSize now
  end.

(** The copy loop; every round writes at least one byte. *)
Fixpoint write_loop (fuel : nat) (p : list Z) (off n : Z) : WS Z :=
  match fuel with
  | O => mfail OutOfFuel
  | S fuel' =>
      if zlen p <=? n then ret n else
      do! f := the_file in
      let cur := off + n in
      match locateLocked f cur with
      | None => mfail (Errorf "ext4: WriteAt: offset unmapped after allocation")
      | Some (phys, avail) =>
          let chunk := Z.min (zlen p - n) avail in
          do! data := mlift (subslice p n (n + chunk)) in
          do! _ := mwrap "ext4: write" (on_fs (on_dev (write_at phys data))) in
          write_loop fuel' p off (n + chunk)
      end
  end.

(** [WriteAt]: the number of bytes written; the count that comes with an error is
    left out. *)
Definition WriteAt (p : list Z) (off now : Z) : WS Z :=
  do! f := the_file in
  if f_closed f then mfail ErrClosed else
  if off <? 0 then mfail (Errorf "ext4: WriteAt: negative offset") else
  if zlen p =? 0 then ret 0 else
  let fin := i64 (off + zlen p) in
  if fin <? off then mfail (Errorf "ext4: WriteAt: offset overflows int64") else
  do! _ := mapRangeLocked off fin now in
  write_loop (S (length p)) p off 0.

(** One leaf cut at [keepBlocks]: what is kept and the blocks freed. *)
Definition cut_leaf (keepBlocks : Z) (e : extentLeaf) : list extentLeaf * list Z :=
  let blocks_from n := (fun k => w64 (PhysBlock e + k)) <$> seqZ n (Count e - n) in
  if keepBlocks <=? LogBlock e then ([], blocks_from 0) else
  if LogBlock e + Count e <=? keepBlocks then ([e], []) else
  let n := keepBlocks - LogBlock e in
  ([Leaf (LogBlock e) (PhysBlock e) (w16 n)], blocks_from n).

Fixpoint free_list (blocks : list Z) : M (fsys D) unit :=
  match blocks with
  | [] => ret tt
  | b :: blocks' =>
      do! _ := mwrap "ext4: free block" (freeBlock fsOffset b) in
      free_list blocks'
  end.

Definition shrinkLocked (size now : Z) : WS unit :=
  do! f := the_file in
  let bs := f_blockSize f in
  let keepBlocks := w64 (Z.quot (i64 (size + bs - 1)) bs) in
  let kept := e ← f_extents f; (cut_leaf keepBlocks e).1 in
  let freed := e ← f_extents f; (cut_leaf keepBlocks e).2 in
  let slack := size mod bs in
  do! _ := (if slack =? 0 then ret tt else
            match locateLocked f size with
            | None => ret tt
            | Some (phys, avail) =>
                let n := Z.min (bs - slack) avail in
                mwrap "ext4: zero slack" (on_fs (on_dev (write_at phys (zeros n))))
            end) in
  do! _ := commitLocked kept size now in
  on_fs (free_list freed).

Definition Truncate (size now : Z) : WS unit :=
  do! f := the_file in
  if f_closed f then mfail ErrClosed else
  if size <? 0 then mfail (Errorf "ext4: Truncate: negative size") else
  if size =? f_size f then ret tt else
  if size <? f_size f then shrinkLocked size now else
  do! _ := zeroSlackLocked (f_size f) size in
  commitLocked (f_extents f) size now.

Definition File_Sync : WS unit :=
  do! f := the_file in
  if f_closed f then mfail ErrClosed else
  mwrap "ext4: sync image" (on_fs (on_dev sync_dev)).

End ops.
