(* ===== verification/FileWriteSpec.v ===== *)
(** What positional writes guarantee ([src/writeat.go]): the contents of the file
    change by exactly the bytes written. *)

From S2P Require Import Prelude Bytes Crc Device Superblock Bgd Bitmap GoLib Extent Limits Inode Inline FileRead BlockMap Dir Alloc Image Lookup Namespace AllocSpec JournalSpec NamespaceSpec Fsck FsInv Fs FileWrite.
From Stdlib Require Import Sorting.Sorted.

Section content.
Context {D : Type} `{BlockDevLaws D}.
Context (fsOffset : Z).
Hypothesis Hwritable : dev_writable D.

(** The block map of an open file lies within the file system. *)
Record file_map (sb : superblock) (f : ext4File) : Prop := {
  fm_open : f_closed f = false;
  fm_bs : f_blockSize f = BlockSize sb;
  fm_map : map_ok (f_extents f);
  fm_phys : runs_disjoint PhysBlock (f_extents f);
  fm_range : Forall (fun e => PhysBlock e + Count e <= BlocksCount sb) (f_extents f)
}.

Lemma block_at_leaf sb f lb p :
  file_map sb f -> block_at (f_extents f) lb = Some p ->
  exists e, e ∈ f_extents f /\ LogBlock e <= lb < LogBlock e + Count e /\
    p = PhysBlock e + (lb - LogBlock e) /\ 0 <= p < BlocksCount sb /\ leaf_ok e /\
    PhysBlock e + Count e <= BlocksCount sb.
Proof.
  intros [_ _ [Hl _ _ _] _ Hr] Hb. apply block_at_Some in Hb as (e & He & Hc & ->). exists e.
  rewrite Forall_forall in Hl, Hr. specialize (Hl e He). specialize (Hr e He). unfold covers in Hc. zbool.
  pose proof Hl as (L1 & L2 & L3). cbn in Hr. split_and!; auto; lia.
Qed.

(** No two bytes of the file share a block. *)
Lemma block_at_inj sb f l1 l2 p :
  file_map sb f -> block_at (f_extents f) l1 = Some p -> block_at (f_extents f) l2 = Some p -> l1 = l2.
Proof.
  intros Hf H1 H2. destruct (block_at_leaf _ _ _ _ Hf H1) as (e1 & He1 & R1 & E1 & _).
  destruct (block_at_leaf _ _ _ _ Hf H2) as (e2 & He2 & R2 & E2 & _).
  assert (e1 = e2) as ->
    by (apply (overlap_same PhysBlock (f_extents f) e1 e2 p); [apply Hf|done|done|lia|lia]). lia.
Qed.

Lemma locateLocked_mapped sb f cur p :
  fs_fits fsOffset sb -> file_map sb f -> 0 <= cur ->
  block_at (f_extents f) (cur / BlockSize sb) = Some p ->
  exists e, e ∈ f_extents f /\ LogBlock e <= cur / BlockSize sb < LogBlock e + Count e /\
    p = PhysBlock e + (cur / BlockSize sb - LogBlock e) /\
    locateLocked fsOffset f cur =
      Some (fsOffset + p * BlockSize sb + cur mod BlockSize sb, (LogBlock e + Count e) * BlockSize sb - cur).
Proof.
  intros (Hbs & Ho & Hc & Hend) Hf Hcur Hb. pose proof Hf as [_ Hfb Hm _ _].
  destruct (block_at_leaf _ _ _ _ Hf Hb) as (e & He & R & -> & Hp & (L1 & L2 & L3) & Hr). exists e. split_and!; auto; try lia.
  unfold locateLocked. rewrite Hfb. pose proof (locate_spec (f_extents f) (cur / BlockSize sb) Hm) as Hl.
  destruct (f_extents f !! _) as [e'|] eqn:E; [|rewrite Hl in Hb; [done|lia]].
  destruct Hl as (He' & Hup & Hlo).
  assert (LogBlock e' <= cur / BlockSize sb) as Hle.
  { apply Z.nlt_ge. intros Hlt. rewrite (Hlo Hlt) in Hb; [done|lia]. }
  assert (e' = e) as ->
    by (apply (overlap_same LogBlock (f_extents f) e' e (cur / BlockSize sb)); [apply Hm|done|done|lia|lia]).
  rewrite ltb_false by lia. pose proof (Z.mod_pos_bound cur _ Hbs). pose proof (Z.div_mod cur (BlockSize sb) ltac:(lia)).
  rewrite (w64_small (PhysBlock e + _)) by lia. do 2 f_equal.
  - rewrite (i64_small (_ * BlockSize sb)) by nia. rewrite i64_small by nia. done.
  - nia.
Qed.

Lemma locateLocked_hole sb f cur :
  file_map sb f -> block_at (f_extents f) (cur / BlockSize sb) = None -> locateLocked fsOffset f cur = None.
Proof.
  intros [_ Hfb Hm _ _] Hb. unfold locateLocked. rewrite Hfb.
  pose proof (locate_spec (f_extents f) (cur / BlockSize sb) Hm) as Hl.
  destruct (f_extents f !! _) as [e'|] eqn:E; [|done]. destruct Hl as (He' & Hup & _).
  destruct (_ <? LogBlock e') eqn:El; [done|]. zbool. rewrite block_at_None in Hb.
  specialize (Hb e' He'). unfold covers in Hb. rewrite leb_true, ltb_true in Hb by lia. done.
Qed.

(** The device offset of a byte in a leaf; it is linear in the position. *)
Definition addr (sb : superblock) (e : extentLeaf) (pos : Z) : Z :=
  fsOffset + (PhysBlock e - LogBlock e) * BlockSize sb + pos.

Lemma addr_split sb e pos :
  0 < BlockSize sb ->
  addr sb e pos = fsOffset + (PhysBlock e + (pos / BlockSize sb - LogBlock e)) * BlockSize sb + pos mod BlockSize sb.
Proof.
  intros Hbs. unfold addr. pose proof (Z.div_mod pos (BlockSize sb) ltac:(lia)). nia.
Qed.

Lemma leaf_covers sb e cur lim pos :
  0 < BlockSize sb -> LogBlock e <= cur / BlockSize sb -> lim <= (LogBlock e + Count e) * BlockSize sb ->
  cur <= pos < lim -> covers e (pos / BlockSize sb) = true.
Proof.
  intros Hbs Hlo Hhi Hp. unfold covers. rewrite leb_true, ltb_true; [done| |].
  - apply Z.div_lt_upper_bound; lia.
  - transitivity (cur / BlockSize sb); [done|apply Z.div_le_mono; lia].
Qed.

Lemma content_addr sb f e (d : D) pos :
  0 < BlockSize sb -> file_map sb f -> e ∈ f_extents f -> covers e (pos / BlockSize sb) = true ->
  content d fsOffset sb (f_extents f) pos = dev_byte d (addr sb e pos).
Proof.
  intros Hbs Hf He Hc. unfold content. rewrite (block_at_covers _ e _); [|apply Hf|done|done].
  by rewrite addr_split.
Qed.

(** Leaves with a device offset in common are the same. *)
Lemma addr_inj sb f e1 e2 p1 p2 :
  0 < BlockSize sb -> file_map sb f -> e1 ∈ f_extents f -> e2 ∈ f_extents f ->
  covers e1 (p1 / BlockSize sb) = true -> covers e2 (p2 / BlockSize sb) = true ->
  addr sb e1 p1 = addr sb e2 p2 -> e1 = e2.
Proof.
  intros Hbs Hf He1 He2 C1 C2 Ha. rewrite !addr_split in Ha by done.
  pose proof (Z.mod_pos_bound p1 _ Hbs). pose proof (Z.mod_pos_bound p2 _ Hbs). unfold covers in *. zbool.
  set (q1 := PhysBlock e1 + (p1 / BlockSize sb - LogBlock e1)) in *.
  set (q2 := PhysBlock e2 + (p2 / BlockSize sb - LogBlock e2)) in *.
  assert (q1 = q2) as Hq by nia.
  apply (overlap_same PhysBlock (f_extents f) e1 e2 q1); [apply Hf|done|done|unfold q1 in *; lia|unfold q2 in *; lia].
Qed.

(** A position in a leaf leaves room to its end, within the file system. *)
Lemma leaf_bounds sb f e cur :
  fs_fits fsOffset sb -> file_map sb f -> e ∈ f_extents f ->
  LogBlock e <= cur / BlockSize sb < LogBlock e + Count e ->
  0 < (LogBlock e + Count e) * BlockSize sb - cur /\ fsOffset <= addr sb e cur /\
  addr sb e cur + ((LogBlock e + Count e) * BlockSize sb - cur) <= fsOffset + BlocksCount sb * BlockSize sb.
Proof.
  intros (Hbs & Ho & Hc & Hend) Hf He R. pose proof (Z.div_mod cur (BlockSize sb) ltac:(lia)) as Hdm.
  pose proof (Z.mod_pos_bound cur (BlockSize sb) Hbs) as Hm.
  pose proof (fm_range _ _ Hf) as Hfr. rewrite Forall_forall in Hfr. specialize (Hfr e He). cbn in Hfr.
  pose proof (mo_leaf _ (fm_map _ _ Hf)) as Hml. rewrite Forall_forall in Hml.
  destruct (Hml e He) as (L1 & L2 & L3). unfold addr. clear Hml Hf. split_and!; nia.
Qed.

(** A write inside one extent is a write to the contents. *)
Lemma content_write sb f e (d d' : D) cur data :
  fs_fits fsOffset sb -> file_map sb f -> e ∈ f_extents f -> 0 <= cur -> bytes_ok data ->
  LogBlock e <= cur / BlockSize sb -> cur + zlen data <= (LogBlock e + Count e) * BlockSize sb ->
  write_at (addr sb e cur) data d = (Ok tt, d') ->
  forall pos, 0 <= pos ->
    content d' fsOffset sb (f_extents f) pos = upd_bytes (content d fsOffset sb (f_extents f)) cur data pos.
Proof.
  intros (Hbs & Ho & Hc & Hend) Hf He Hcur Hb Hlo Hhi Hw pos Hpos.
  destruct (decide (cur <= pos < cur + zlen data)) as [Hr|Hr].
  - assert (covers e (pos / BlockSize sb) = true) as Hcv by (by apply (leaf_covers sb e cur (cur + zlen data))).
    rewrite (content_addr sb f e) by done. rewrite (write_at_Ok _ _ _ _ Hw Hb). unfold upd_bytes, addr.
    rewrite !leb_true, !ltb_true by lia. cbn [andb]. f_equal. lia.
  - rewrite (upd_bytes_ne (content d fsOffset sb (f_extents f))) by lia.
    unfold content. destruct (block_at (f_extents f) (pos / BlockSize sb)) as [q|] eqn:Eq; [|done].
    rewrite (write_at_Ok _ _ _ _ Hw Hb), upd_bytes_ne; [done|].
    apply Decidable.not_not; [unfold Decidable.decidable; lia|]. intros Hx. apply Hr.
    destruct (block_at_leaf _ _ _ _ Hf Eq) as (e' & He' & R' & -> & _).
    assert (fsOffset + (PhysBlock e' + (pos / BlockSize sb - LogBlock e')) * BlockSize sb + pos mod BlockSize sb =
      addr sb e' pos) as Ea by (symmetry; by apply addr_split).
    rewrite Ea in Hx. set (k := addr sb e' pos - addr sb e cur) in *.
    assert (covers e ((cur + k) / BlockSize sb) = true) as Hk
      by (apply (leaf_covers sb e cur (cur + zlen data)); [done..|unfold k; lia]).
    assert (e' = e) as ->; [|unfold k, addr in Hx; lia].
    apply (addr_inj sb f e' e pos (cur + k)); [done|done|done|done|unfold covers; by rewrite leb_true, ltb_true by lia|done|].
    unfold k, addr. lia.
Qed.

(** The device offset of a byte of the file. *)
Definition phys_of (sb : superblock) (f : ext4File) (pos : Z) : option Z :=
  (fun q => fsOffset + q * BlockSize sb + pos mod BlockSize sb) <$>
    block_at (f_extents f) (pos / BlockSize sb).

(** The effect of writing [p] at [off] of a mapped range: on the contents and on
    the device. *)
Definition written (sb : superblock) (f : ext4File) (off : Z) (p : list Z) (d d' : D) : Prop :=
  (forall pos, 0 <= pos -> content d' fsOffset sb (f_extents f) pos =
                           upd_bytes (content d fsOffset sb (f_extents f)) off p pos) /\
  (forall i, (forall pos, off <= pos < off + zlen p -> phys_of sb f pos <> Some i) ->
     dev_byte d' i = dev_byte d i) /\
  (covered fsOffset d sb -> covered fsOffset d' sb).

Lemma written_app sb f off p1 p2 d1 d2 d3 :
  written sb f off p1 d1 d2 -> written sb f (off + zlen p1) p2 d2 d3 -> written sb f off (p1 ++ p2) d1 d3.
Proof.
  intros (A1 & A2 & A3) (B1 & B2 & B3). pose proof (zlen_nonneg p1). pose proof (zlen_nonneg p2).
  split_and!; auto.
  - intros pos Hpos. rewrite B1 by done. rewrite <- upd_bytes_app. apply upd_bytes_ext. by apply A1.
  - intros i Hi. rewrite B2, A2; [done| |]; intros pos Hp; apply Hi; rewrite zlen_app; lia.
Qed.

(** The blocks of the file were allocated to it. *)
Definition owns (s : fsys D) (f : ext4File) : Prop :=
  forall lb p, block_at (f_extents f) lb = Some p -> is_data fsOffset s p.

(** A range that meets no block of the file. *)
Definition off_file (sb : superblock) (f : ext4File) (o n : Z) : Prop :=
  0 < n /\ forall lb p, block_at (f_extents f) lb = Some p -> off_block fsOffset sb p o n.

(** A range of positions inside a leaf. *)
Lemma leaf_range (s : fsys D) f e cur n :
  fs_inv fsOffset s -> file_map (fs_sb s) f -> owns s f -> e ∈ f_extents f ->
  LogBlock e <= cur / BlockSize (fs_sb s) -> cur + n <= (LogBlock e + Count e) * BlockSize (fs_sb s) -> 0 < n ->
  off_meta fsOffset s (addr (fs_sb s) e cur) n /\
  forall x m, off_file (fs_sb s) f x m -> sep x m (addr (fs_sb s) e cur) n.
Proof.
  intros Hinv Hf Hown He Hlo Hhi Hn. pose proof (iv_fits _ _ Hinv) as (Hbs & _). set (bs := BlockSize (fs_sb s)) in *.
  assert (LogBlock e * bs <= cur) as Hc by (pose proof (Z.div_mod cur bs ltac:(lia)); pose proof (Z.mod_pos_bound cur bs Hbs); nia).
  assert (forall k, 0 <= k < Count e -> block_at (f_extents f) (LogBlock e + k) = Some (PhysBlock e + k)) as Hb
    by (intros; apply leaf_maps; auto; apply Hf).
  assert (fsOffset + PhysBlock e * bs <= addr (fs_sb s) e cur /\
    addr (fs_sb s) e cur + n <= fsOffset + PhysBlock e * bs + Count e * bs) as [Ha1 Ha2]
    by (unfold addr; fold bs; lia).
  split.
  - apply (off_meta_span fsOffset s (PhysBlock e) (Count e)); auto; fold bs; [lia|]. intros k Hk.
    by apply is_data_block, (Hown _ _ (Hb k Hk)).
  - intros x m [Hm Hoff]. enough (sep (addr (fs_sb s) e cur) n x m) by (unfold sep in *; lia).
    apply (sep_span (fsOffset + PhysBlock e * bs) (Count e) bs); auto. intros k Hk.
    specialize (Hoff _ _ (Hb k Hk)). unfold off_block, sep in *. fold bs in Hoff. lia.
Qed.

(** One chunk. *)
Lemma write_chunk (s : fsys D) f cur p q :
  let sb := fs_sb s in
  fs_inv fsOffset s -> file_map sb f -> owns s f -> bytes_ok p -> 0 <= cur -> 0 < zlen p ->
  block_at (f_extents f) (cur / BlockSize sb) = Some q ->
  exists phys avail, locateLocked fsOffset f cur = Some (phys, avail) /\ 0 < avail /\
    (exists e, e ∈ f_extents f /\ covers e (cur / BlockSize sb) = true /\
       avail = (LogBlock e + Count e) * BlockSize sb - cur) /\
    forall n, 0 < n <= Z.min (zlen p) avail -> let chunk := zslice p 0 n in
    exists s', on_dev (write_at phys chunk) s = (Ok tt, s') /\ fs_sb s' = sb /\
      written sb f cur chunk (fs_dev s) (fs_dev s') /\ data_step fsOffset (off_file sb f) s s'.
Proof.
  intros sb Hinv Hf Hown Hp Hcur Hlen Hq. pose proof (iv_fits _ _ Hinv) as Hfit. pose proof (iv_cov _ _ Hinv) as Hcov. fold sb in Hfit, Hcov.
  destruct (locateLocked_mapped sb f cur q Hfit Hf Hcur Hq) as (e & He & R & Eq & Hl).
  pose proof Hfit as (Hbs & Ho & Hc & Hend).
  destruct (leaf_bounds sb f e cur Hfit Hf He ltac:(lia)) as (Hav & Hlo & Hhi).
  rewrite Eq, <- addr_split in Hl by done.
  set (avail := (LogBlock e + Count e) * BlockSize sb - cur) in *.
  exists (addr sb e cur), avail. split; [done|]. split; [done|].
  split; [exists e; split; [done|]; split; [by apply covers_iff|done]|]. intros n Hn. cbv zeta. set (chunk := zslice p 0 n).
  assert (zlen chunk = n) as Hcl by (apply zlen_zslice; lia).
  assert (bytes_ok chunk) as Hcb by (by apply bytes_ok_zslice).
  destruct (Hcov (addr sb e cur) (zlen chunk)) as [r Hrd]; [unfold sb in *; lia..|].
  destruct (write_at_total Hwritable (fs_dev s) (addr sb e cur) chunk (zlen chunk) r eq_refl) as [d' Hw]; [lia|exact Hrd|].
  exists (Fsys d' sb (fs_cursor s) (fs_rsv s)). split; [unfold on_dev; by rewrite Hw|]. split; [done|].
  destruct (leaf_range s f e cur (zlen chunk)) as [Hm Hoff]; auto; fold sb; [lia|unfold avail in *; lia|lia|].
  split; [split_and!|].
  - apply (content_write sb f e); auto; [lia|unfold avail in *; lia].
  - intros i Hi. rewrite (write_at_Ok _ _ _ _ Hw Hcb). apply upd_bytes_ne.
    apply Decidable.not_not; [unfold Decidable.decidable; lia|]. intros Hx.
    apply (Hi (cur + (i - addr sb e cur))); [lia|]. unfold phys_of.
    rewrite (block_at_covers (f_extents f) e); [|apply Hf|done|].
    + cbn. rewrite <- addr_split by done. unfold addr. f_equal. lia.
    + apply (leaf_covers sb e cur (cur + zlen chunk)); [lia|lia|unfold avail in *; lia|lia].
  - by apply covered_write with (1 := Hw).
  - eapply data_step_weaken; [exact Hoff|]. by apply write_step.
Qed.

(** The copy loop on a mapped range. *)
Lemma write_loop_ok fuel (s : fsys D) f p off n :
  let sb := fs_sb s in
  fs_inv fsOffset s -> file_map sb f -> owns s f -> bytes_ok p -> 0 <= off -> 0 <= n <= zlen p ->
  zlen p - n < Z.of_nat fuel ->
  (forall pos, off + n <= pos < off + zlen p -> block_at (f_extents f) (pos / BlockSize sb) <> None) ->
  exists s', write_loop fsOffset fuel p off n (s, f) = (Ok (zlen p), (s', f)) /\ fs_sb s' = sb /\
    written sb f (off + n) (zslice p n (zlen p - n)) (fs_dev s) (fs_dev s') /\
    data_step fsOffset (off_file sb f) s s'.
Proof.
  revert s n. induction fuel as [|fuel IH]; intros s n sb Hinv Hf Hown Hp Hoff Hn Hfuel Hmap; [lia|].
  cbn [write_loop]. destruct (zlen p <=? n) eqn:En; zbool.
  { replace (zlen p - n) with 0 by lia. exists s. split; [unfold ret; by replace n with (zlen p) by lia|].
    split; [done|]. split; [|by apply data_step_refl].
    split_and!; auto. intros pos Hpos. unfold upd_bytes.
    replace (zlen (zslice p n 0)) with 0 by (symmetry; apply zlen_zslice; lia). rewrite Z.add_0_r.
    destruct (_ <=? pos) eqn:E1, (pos <? _) eqn:E2; cbn [andb]; zbool; try done. lia. }
  destruct (block_at (f_extents f) ((off + n) / BlockSize sb)) as [q|] eqn:Eq.
  2:{ exfalso. apply (Hmap (off + n)); [lia|done]. }
  destruct (write_chunk s f (off + n) (zslice p n (zlen p - n)) q) as (phys & avail & Hl & Hav & _ & Hwc);
    auto; [by apply bytes_ok_zslice|lia|rewrite zlen_zslice; lia|].
  rewrite zlen_zslice in Hwc by lia. set (chunk := Z.min (zlen p - n) avail) in *.
  destruct (Hwc chunk ltac:(lia)) as (s1 & Hw & Hsb1 & Wr & Hds). rewrite zslice_zslice, Z.add_0_r in Hw, Wr by lia.
  erewrite (mbnd_run the_file) by reflexivity. cbv zeta. rewrite Hl. cbv beta iota. fold chunk.
  run_with ltac:(rewrite subslice_ok by lia; replace (n + chunk - n) with chunk by lia; reflexivity).
  erewrite mbnd_run; [|apply mwrap_run; unfold on_fs; rewrite Hw; reflexivity].
  destruct (IH s1 (n + chunk)) as (s2 & Hrun & Hsb2 & Wr2 & Hds2); rewrite ?Hsb1; auto; [apply Hds| |lia|lia| |].
  { intros lb b Hb. by apply (ds_data _ _ _ _ Hds), (Hown lb). }
  { intros pos Hpos. apply Hmap. lia. }
  rewrite Hsb1 in *. exists s2. split; [done|]. split; [done|]. split; [|by eapply data_step_trans].
  replace (zslice p n (zlen p - n)) with (zslice p n chunk ++ zslice p (n + chunk) (zlen p - (n + chunk))).
  - eapply written_app; [done|]. rewrite zlen_zslice by lia.
    replace (off + n + chunk) with (off + (n + chunk)) by lia. done.
  - rewrite <- zslice_app by lia. f_equal. lia.
Qed.

End content.
