(* ===== verification/WriteAtSpec.v ===== *)
(** Positional writes end to end ([src/writeat.go]): a write that returns has
    changed the contents of the file by exactly its bytes, in memory and on disk,
    and nothing else; a write that fails has left the file as it was. *)

From S2P Require Import Prelude Bytes Crc Device Superblock Bgd Bitmap GoLib Extent Limits Inode Inline FileRead BlockMap Dir Alloc Image Lookup Namespace AllocSpec JournalSpec OnDisk NamespaceSpec InodeMap Fsck FsInv Fs FileWrite FileWriteSpec.
From Stdlib Require Import Sorting.Sorted.

Section files.
Context {D : Type} `{BlockDevLaws D} `{SortSlice} `{Safeio}.
Context (fsOffset : Z).
Hypothesis Hwritable : dev_writable D.

Notation fs_inv := (fs_inv fsOffset).
Notation is_data := (is_data fsOffset).
Notation is_free := (is_free fsOffset).
Notation preserves := (preserves fsOffset).
Notation reads := (reads fsOffset).
Notation grew := (grew fsOffset).
Notation data_step := (data_step fsOffset).
Notation off_block := (off_block fsOffset).
Notation off_blocks := (off_blocks fsOffset).
Notation off_meta := (off_meta fsOffset).

(** * Frames *)

(** Bytes in a range that reads the same. *)
Lemma reads_bytes P (s s' : fsys D) o n k :
  reads P s s' -> fs_inv s -> off_meta s o n -> P o n -> fsOffset <= o ->
  o + n <= fsOffset + BlocksCount (fs_sb s) * BlockSize (fs_sb s) -> o <= k < o + n ->
  dev_byte (fs_dev s') k = dev_byte (fs_dev s) k.
Proof.
  intros Hr Hinv Ho HP Hlo Hhi Hk. destruct (iv_cov _ _ Hinv o n Hlo ltac:(lia) Hhi) as [r Hrd].
  pose proof (Hr o n r Ho HP Hrd) as Hrd'. apply read_at_Ok in Hrd, Hrd'. rewrite Hrd in Hrd'.
  apply (f_equal (fun l => u8 l (k - o))) in Hrd'. rewrite !u8_bytes_of in Hrd' by lia.
  replace (o + (k - o)) with k in Hrd' by lia. done.
Qed.

(** A block that reads the same. *)
Lemma reads_block P (s s' : fsys D) b k :
  reads P s s' -> fs_inv s -> is_data s b \/ is_free s b ->
  P (fsOffset + b * BlockSize (fs_sb s)) (BlockSize (fs_sb s)) -> 0 <= k < BlockSize (fs_sb s) ->
  dev_byte (fs_dev s') (fsOffset + b * BlockSize (fs_sb s) + k) = dev_byte (fs_dev s) (fsOffset + b * BlockSize (fs_sb s) + k).
Proof.
  intros Hr Hinv Hb HP Hk.
  assert (0 <= b < BlocksCount (fs_sb s) /\ off_meta s (fsOffset + b * BlockSize (fs_sb s)) (BlockSize (fs_sb s))) as [Hb' Hm]
    by (destruct Hb; [by apply is_data_block|by apply is_free_block]).
  apply (reads_bytes P s s' (fsOffset + b * BlockSize (fs_sb s)) (BlockSize (fs_sb s))); auto; nia.
Qed.

Lemma reads_raw P (s s' : fsys D) b :
  reads P s s' -> fs_inv s -> is_data s b -> P (fsOffset + b * BlockSize (fs_sb s)) (BlockSize (fs_sb s)) ->
  BlockSize (fs_sb s') = BlockSize (fs_sb s) ->
  readRawBlock (fs_dev s') fsOffset (fs_sb s') b = readRawBlock (fs_dev s) fsOffset (fs_sb s) b.
Proof.
  intros Hr Hinv Hb HP Hbs. destruct (is_data_block _ _ _ Hb) as [Hb' Hm]. pose proof (iv_fits _ _ Hinv) as (H1' & H2' & H3' & H4').
  unfold readRawBlock. rewrite Hbs. rewrite i64_small by nia.
  destruct (iv_cov _ _ Hinv (fsOffset + b * BlockSize (fs_sb s)) (BlockSize (fs_sb s))) as [r Hrd]; [nia|lia|nia|].
  by rewrite Hrd, (Hr _ _ _ Hm HP Hrd).
Qed.

(** The contents of a map whose blocks read the same. *)
Lemma content_frame P (s s' : fsys D) exts pos :
  reads P s s' -> fs_inv s -> BlockSize (fs_sb s') = BlockSize (fs_sb s) ->
  (forall lb p, block_at exts lb = Some p ->
     is_data s p /\ P (fsOffset + p * BlockSize (fs_sb s)) (BlockSize (fs_sb s))) ->
  content (fs_dev s') fsOffset (fs_sb s') exts pos = content (fs_dev s) fsOffset (fs_sb s) exts pos.
Proof.
  intros Hr Hinv Hbs Hb. unfold content. rewrite Hbs. destruct (block_at _ _) as [p|] eqn:E; [|done].
  destruct (Hb _ _ E) as [Hd HP]. pose proof (iv_fits _ _ Hinv) as (Hpos & _).
  apply (reads_block P); auto. by apply Z.mod_pos_bound.
Qed.

(** Distinct blocks do not meet. *)
Lemma off_other sb b b' : 0 < BlockSize sb -> b <> b' -> off_block sb b (fsOffset + b' * BlockSize sb) (BlockSize sb).
Proof. unfold FsInv.off_block, sep. intros. nia. Qed.

Lemma off_others sb blocks b :
  0 < BlockSize sb -> b ∉ blocks -> off_blocks sb blocks (fsOffset + b * BlockSize sb) (BlockSize sb).
Proof. intros Hp Hb. split; [done|]. intros x Hx. apply off_other; [done|]. by intros ->. Qed.

Lemma zero_blocks_ok (s : fsys D) blocks :
  fs_inv s -> NoDup blocks -> (forall b, b ∈ blocks -> is_data s b) ->
  exists s', zero_blocks fsOffset blocks (BlockSize (fs_sb s)) s = (Ok tt, s') /\
    data_step (off_blocks (fs_sb s) blocks) s s' /\ fs_sb s' = fs_sb s /\
    forall b k, b ∈ blocks -> 0 <= k < BlockSize (fs_sb s) -> dev_byte (fs_dev s') (fsOffset + b * BlockSize (fs_sb s) + k) = 0.
Proof.
  intros Hinv Hnd. revert s Hinv. induction Hnd as [|b blocks Hni Hnd IH]; intros s Hinv Hin.
  { exists s. split; [done|]. split; [by apply data_step_refl|]. split; [done|]. set_solver. }
  pose proof (iv_fits _ _ Hinv) as (Hpos & Ho & Hc & Hend).
  pose proof (Hin b ltac:(by left)) as Hbd.
  destruct (write_block fsOffset Hwritable s b (zeros (BlockSize (fs_sb s)))) as (s2 & Hw & Hsb & Hds & Hrb);
    [done|done|rewrite zlen_zeros; lia|apply bytes_ok_zeros|].
  destruct (IH s2) as (s3 & Hrun & Hds3 & Hsb3 & Hz); [apply Hds| |].
  { intros b' Hb'. by apply (ds_data _ _ _ _ Hds), Hin; right. }
  rewrite Hsb in *. exists s3. cbn [zero_blocks]. erewrite mbnd_run by (apply mwrap_run; exact Hw). split; [done|].
  split; [|split; [congruence|]].
  - eapply data_step_trans; (eapply data_step_weaken; [|eassumption]); intros o n [Hn Hoff];
      (split; [done|]); intros x Hx; apply Hoff; [apply list_elem_of_singleton in Hx as ->; by left|by right].
  - intros b' k [->|Hb']%elem_of_cons Hk; [|by apply Hz].
    pose proof (reads_block _ _ _ b k (ds_reads _ _ _ _ Hds3)) as Hrd. rewrite Hsb in Hrd. rewrite Hrd; auto.
    + unfold read_block in Hrb. destruct (is_data_block _ _ _ Hbd) as [Hr _]. rewrite i64_small in Hrb by nia.
      apply read_at_Ok in Hrb. apply (f_equal (fun l => u8 l k)) in Hrb. rewrite u8_bytes_of in Hrb by lia.
      rewrite <- Hrb. unfold u8, zeros. rewrite lookup_replicate_2; [done|lia].
    + apply Hds.
    + left. by apply (ds_data _ _ _ _ Hds).
    + by apply off_others.
Qed.

(** * The extent tree *)

(** A list of leaves that can be stored. *)
Record storable (exts : list extentLeaf) : Prop := {
  so_leaf : Forall leaf_ok exts;
  so_log : runs_disjoint LogBlock exts;
  so_phys : runs_disjoint PhysBlock exts
}.

(** The leaves in a block of their own. *)
Lemma prepareExtentChild_ok (s : fsys D) exts :
  fs_inv s -> BlockSize (fs_sb s) <= 65536 ->
  (exists c node s', prepareExtentChild fsOffset exts s = (Ok c, s') /\ grew s s' [c] /\ leaf_node node exts /\
     readRawBlock (fs_dev s') fsOffset (fs_sb s') c = Ok node) \/
  (exists e c, prepareExtentChild fsOffset exts s = (Err e, with_cursor s c) /\
     (leafCap (BlockSize (fs_sb s)) < zlen exts \/ exhausted fsOffset s 1)).
Proof.
  intros Hinv Hbs. destruct (leafCap (BlockSize (fs_sb s)) <? zlen exts) eqn:Ecap; zbool.
  { right. eexists _, (fs_cursor s). split; [|by left]. unfold prepareExtentChild. run_sb.
    rewrite (ltb_true _ _ Ecap). by destruct s. }
  destruct (alloc_inv fsOffset Hwritable s 1 Hinv ltac:(lia)) as [(blocks & s1 & Ha & Hl & Ht)|(e & Ha & Hex)].
  2:{ right. eexists _, _. split; [|by right]. unfold prepareExtentChild. run_sb.
      rewrite (ltb_false _ _ Ecap). apply mbnd_fail. by apply mwrap_fail. }
  left. destruct blocks as [|c [|]]; [done| |rewrite !zlen_cons in Hl; pose proof (zlen_nonneg l); lia].
  apply took_grew in Ht. pose proof (erase_block _ _ _ (gr_preserves _ _ _ _ Ht)) as Ebs.
  assert (is_data s1 c) as Hcd by (apply (gr_data _ _ _ _ Ht); right; by left).
  destruct (child_node_ok (BlockSize (fs_sb s)) exts) as (node & Hn & Hnl & Hln);
    [pose proof (inv_layout _ _ Hinv); lia|done|].
  destruct (write_block fsOffset Hwritable s1 c node) as (s2 & Hw & Hsb & Hds & Hrb);
    [apply Ht|done|by rewrite Ebs|by eapply child_node_bytes_ok|].
  exists c, node, s2. split_and!; [| |done|].
  - unfold prepareExtentChild. run_sb. rewrite (ltb_false _ _ Ecap).
    erewrite mbnd_run by (by apply mwrap_run). cbv beta iota. erewrite mbnd_run by (by apply mlift_run).
    erewrite mbnd_run by (by apply mwrap_run). done.
  - eapply grew_step; [exact Ht|]. eapply data_step_weaken; [|exact Hds]. intros o n [Hn0 Hoff]. split; [done|].
    intros b Hb. specialize (Hoff b Hb). unfold FsInv.off_block in *. by rewrite Ebs.
  - rewrite Hsb. unfold readRawBlock. unfold read_block in Hrb. by rewrite Hrb.
Qed.

(** An index in the inode that points to them. *)
Lemma child_tree (s s' : fsys D) i exts c node lb0 :
  mappable i -> storable exts -> grew s s' [c] -> (forall b, is_free s b -> 0 < b) -> leaf_node node exts ->
  readRawBlock (fs_dev s') fsOffset (fs_sb s') c = Ok node ->
  exists i', setExtentIndex i lb0 c = Ok i' /\ extent_mapped i' /\
    tree_blocks fsOffset (fs_dev s') (fs_sb s') (node_of i') [c] exts /\ child_of (node_of i') = Some c /\
    zlen (in_raw i') = zlen (in_raw i) /\ u16 (in_raw i') 0 = u16 (in_raw i) 0 /\
    in_num i' = in_num i /\ in_mode i' = in_mode i /\ in_size i' = in_size i /\
    u16 (in_raw i') inodeOffLinksCount = u16 (in_raw i) inodeOffLinksCount /\ (inode_wf i -> inode_wf i').
Proof.
  intros Hm [Hok Hd Hp] Hg Hnz Hln Hrd. pose proof (pv_inv _ _ _ (gr_preserves _ _ _ _ Hg)) as Hinv.
  assert (is_data s' c) as Hcd by (apply Hg; right; by left). destruct (is_data_block _ _ _ Hcd) as [Hcr _].
  assert (0 < c) by (apply Hnz, (gr_was_free _ _ _ _ Hg); by left). pose proof (iv_small _ _ Hinv).
  apply (index_tree fsOffset (fs_dev s') (fs_sb s') i exts c node); auto; lia.
Qed.

Lemma writeExtentTree_ok (s : fsys D) i exts :
  fs_inv s -> mappable i -> storable exts -> BlockSize (fs_sb s) <= 65536 -> (forall b, is_free s b -> 0 < b) ->
  (exists i' s' T, writeExtentTree fsOffset i exts s = (Ok i', s') /\ grew s s' T /\ extent_mapped i' /\
     tree_blocks fsOffset (fs_dev s') (fs_sb s') (node_of i') T exts /\
     (forall c, child_of (node_of i') = Some c -> c ∈ T) /\ zlen (in_raw i') = zlen (in_raw i) /\
     u16 (in_raw i') 0 = u16 (in_raw i) 0 /\ in_num i' = in_num i /\ in_mode i' = in_mode i) \/
  (exists e c, writeExtentTree fsOffset i exts s = (Err e, with_cursor s c) /\
     (leafCap (BlockSize (fs_sb s)) < zlen exts \/ exhausted fsOffset s 1)).
Proof.
  intros Hinv Hm Hst Hbs Hnz. unfold writeExtentTree. destruct (zlen exts <=? 4) eqn:E4; zbool.
  { left. destruct Hst as [Hok Hd Hp].
    destruct (inline_tree fsOffset (fs_dev s) (fs_sb s) i exts) as (i' & Hi & Hm' & Ht & Hc & R1 & R2 & R3 & R4 & _); auto.
    exists i', s, []. rewrite (mlift_run _ _ _ Hi). split; [done|]. split; [by apply grew_nil|]. split; [done|].
    split; [done|]. rewrite Hc. done. }
  destruct (prepareExtentChild_ok s exts Hinv Hbs) as [(c & node & s' & Hpc & Hg & Hln & Hrd)|(e & c & Hpc & Hwhy)].
  2:{ right. exists e, c. split; [|done]. by apply mbnd_fail. }
  left. destruct (child_tree s s' i exts c node (LogBlock (default (Leaf 0 0 0) (head exts))))
    as (i' & Hi & Hm' & Htr & Hch & R1 & R2 & R3 & R4 & _); auto.
  exists i', s', [c]. split.
  { erewrite mbnd_run by exact Hpc. destruct exts as [|e0 exts]; [done|]. by apply mlift_run. }
  rewrite Hch. split_and!; auto. intros x [= <-]. by left.
Qed.

(** * Files *)

(** A block apart from the inode at [pos]. *)
Definition clear_of (sb : superblock) (pos b : Z) : Prop := 0 < b /\ off_block sb b pos (InodeSize sb).

(** An open file and its inode: [pos] is the place of the inode, [T] are the
    blocks of its extent tree outside the inode. *)
Record file_at (s : fsys D) (f : ext4File) (i : inode) (pos : Z) (T : list Z) : Prop := {
  fa_inv : fs_inv s;
  fa_bs : BlockSize (fs_sb s) <= 65536;
  fa_seed : 0 <= csumSeed (fs_sb s) < 2 ^ 32;
  fa_map : file_map (fs_sb s) f;
  fa_inline : f_inline f = None /\ f_readonly f = false;
  fa_owns : owns fsOffset s f;
  fa_size : 0 <= f_size f < 2 ^ 63;
  (** No block is mapped behind the one that holds the end of the file. *)
  fa_eof : forall lb p, block_at (f_extents f) lb = Some p -> lb * BlockSize (fs_sb s) < f_size f;
  fa_slot : exists bg, inode_slot fsOffset s (f_inodeNum f) bg pos;
  fa_group : (f_inodeNum f - 1) / InodesPerGroup (fs_sb s) < numBlockGroups (fs_sb s);
  fa_pos : off_meta s pos (InodeSize (fs_sb s));
  fa_free : forall b, is_free s b -> clear_of (fs_sb s) pos b;
  fa_apart : forall lb p, block_at (f_extents f) lb = Some p -> clear_of (fs_sb s) pos p /\ p ∉ T;
  fa_inode : readInode (fs_dev s) fsOffset (fs_sb s) (f_inodeNum f) = Ok i;
  fa_mapped : extent_mapped i;
  fa_isize : in_size i = f_size f;
  fa_tree : exists exts, tree_blocks fsOffset (fs_dev s) (fs_sb s) (node_of i) T exts /\
              sort_by LogBlock exts = f_extents f;
  fa_child : forall c, child_of (node_of i) = Some c -> c ∈ T;
  fa_tree_data : forall b, b ∈ T -> is_data s b /\ clear_of (fs_sb s) pos b
}.

(** The geometry is that of the superblock without its counts. *)
Lemma geo_eq (s s' : fsys D) :
  preserves s s' ->
  BlockSize (fs_sb s') = BlockSize (fs_sb s) /\ InodeSize (fs_sb s') = InodeSize (fs_sb s) /\
  InodesPerGroup (fs_sb s') = InodesPerGroup (fs_sb s) /\ InodesCount (fs_sb s') = InodesCount (fs_sb s) /\
  DescSize (fs_sb s') = DescSize (fs_sb s) /\ BlocksCount (fs_sb s') = BlocksCount (fs_sb s) /\
  numBlockGroups (fs_sb s') = numBlockGroups (fs_sb s) /\ csumSeed (fs_sb s') = csumSeed (fs_sb s) /\
  (forall g, bgd_offset (fs_sb s') g = bgd_offset (fs_sb s) g).
Proof.
  intros Hp. pose proof (pv_geo _ _ _ Hp) as Hg. split_and!; [exact (f_equal BlockSize Hg)|exact (f_equal InodeSize Hg)
    |exact (f_equal InodesPerGroup Hg)|exact (f_equal InodesCount Hg)|exact (f_equal DescSize Hg)|exact (f_equal BlocksCount Hg)
    |exact (f_equal numBlockGroups Hg)|exact (f_equal csumSeed Hg)|].
  intros g. exact (f_equal (fun sb => bgd_offset sb g) Hg).
Qed.

Lemma off_block_eq sb sb' : BlockSize sb' = BlockSize sb -> off_block sb' = off_block sb.
Proof. intros E. unfold FsInv.off_block. by rewrite E. Qed.
Lemma clear_of_eq sb sb' : BlockSize sb' = BlockSize sb -> InodeSize sb' = InodeSize sb -> clear_of sb' = clear_of sb.
Proof. intros E1 E2. unfold clear_of, FsInv.off_block. by rewrite E1, E2. Qed.

Lemma slot_step P (s s' : fsys D) num bg pos :
  preserves s s' -> reads P s s' -> P pos (InodeSize (fs_sb s)) -> off_meta s pos (InodeSize (fs_sb s)) ->
  (num - 1) / InodesPerGroup (fs_sb s) < numBlockGroups (fs_sb s) -> inode_slot fsOffset s num bg pos ->
  (exists bg', inode_slot fsOffset s' num bg' pos) /\
  readInode (fs_dev s') fsOffset (fs_sb s') num = readInode (fs_dev s) fsOffset (fs_sb s) num.
Proof.
  intros Hp Hr HP Hm Hg Hsl. pose proof Hsl as [Hn Hipg Hd Hsz Hb Hpos Hrg Hs [raw Hrd]].
  destruct (geo_eq _ _ Hp) as (E1 & E2 & E3 & E4 & E5 & E6 & E7 & E8 & E9).
  destruct (pv_bgd _ _ _ Hp ((num - 1) / InodesPerGroup (fs_sb s))) as (b & b' & R & R' & Et).
  { split; [apply Z.div_pos; lia|done]. }
  rewrite Hb in R. injection R as <-. pose proof (Hr _ _ _ Hm HP Hrd) as Hrd'.
  assert (inode_slot fsOffset s' num b' pos) as Hsl'.
  { split; rewrite ?E1, ?E2, ?E3, ?E4, ?E5, ?E9, ?Et; auto. by exists raw. }
  split; [by exists b'|]. rewrite (readInode_slot fsOffset s num bg pos raw Hsl Hrd).
  apply (readInode_slot fsOffset s' num b' pos raw Hsl'). by rewrite E2.
Qed.

Lemma tree_step (d d' : D) sb sb' node T exts :
  tree_blocks fsOffset d sb node T exts -> erase sb' = erase sb ->
  (forall b, b ∈ T -> readRawBlock d' fsOffset sb' b = readRawBlock d fsOffset sb b) ->
  tree_blocks fsOffset d' sb' node T exts.
Proof.
  intros Ht He Hr d2 Hd2. change (parseExtentRoot d2 fsOffset (erase sb') node = Ok exts). rewrite He.
  apply (Ht d2). intros b Hb. rewrite <- Hr, <- Hd2 by done.
  change (readRawBlock d2 fsOffset (erase sb) b = readRawBlock d2 fsOffset (erase sb') b). by rewrite He.
Qed.

(** A step that touches neither the inode nor its tree, and releases no block of
    the file. *)
Lemma file_at_frame P (s s' : fsys D) f i pos T :
  file_at s f i pos T -> preserves s s' -> reads P s s' -> P pos (InodeSize (fs_sb s)) ->
  (forall b, b ∈ T -> P (fsOffset + b * BlockSize (fs_sb s)) (BlockSize (fs_sb s))) ->
  (forall b, is_data s b -> b ∈ T \/ (exists lb, block_at (f_extents f) lb = Some b) -> is_data s' b) ->
  (forall b, is_free s' b -> clear_of (fs_sb s) pos b) -> file_at s' f i pos T.
Proof.
  intros [] Hp Hr HP HT Hd Hf. destruct (geo_eq _ _ Hp) as (E1 & E2 & E3 & E4 & E5 & E6 & E7 & E8 & E9).
  destruct fa_slot0 as [bg Hsl]. destruct (slot_step P s s' (f_inodeNum f) bg pos) as [Hsl' Hri]; auto.
  pose proof (clear_of_eq _ _ E1 E2) as Eo. split; rewrite ?Eo, ?E1, ?E2, ?E3, ?E7, ?E8; auto.
  - apply Hp.
  - destruct fa_map0. split; rewrite ?E1, ?E6; auto.
  - intros lb p Hb. apply Hd; [by apply (fa_owns0 lb)|right; by exists lb].
  - by apply (pv_meta _ _ _ Hp).
  - congruence.
  - destruct fa_tree0 as (exts & Ht & Hs). exists exts. split; [|done]. eapply tree_step; [exact Ht|apply Hp|].
    intros b Hb. by apply (reads_raw P); auto; apply fa_tree_data0.
  - intros b Hb. destruct (fa_tree_data0 b Hb). auto.
Qed.

Lemma file_at_step P (s s' : fsys D) f i pos T :
  file_at s f i pos T -> preserves s s' -> reads P s s' -> P pos (InodeSize (fs_sb s)) ->
  (forall b, b ∈ T -> P (fsOffset + b * BlockSize (fs_sb s)) (BlockSize (fs_sb s))) ->
  (forall b, is_data s b -> is_data s' b) -> (forall b, is_free s' b -> is_free s b) -> file_at s' f i pos T.
Proof. intros Hf Hp Hr HP HT Hd Hfr. eapply (file_at_frame P); eauto. intros b Hb. by apply (fa_free _ _ _ _ _ Hf), Hfr. Qed.

(** * The commit *)

Lemma write_slot_ok (s : fsys D) i bg pos :
  fs_inv s -> off_meta s pos (InodeSize (fs_sb s)) -> inode_slot fsOffset s (in_num i) bg pos ->
  zlen (in_raw i) = InodeSize (fs_sb s) -> bytes_ok (in_raw i) -> inode_wf i -> 0 <= csumSeed (fs_sb s) < 2 ^ 32 ->
  exists i' s', writeInode fsOffset i s = (Ok i', s') /\
    data_step (fun o n => sep o n pos (InodeSize (fs_sb s))) s s' /\ same_map i i' /\ in_size i' = in_size i /\
    readInode (fs_dev s') fsOffset (fs_sb s') (in_num i) = Ok i' /\ inode_slot fsOffset s' (in_num i) bg pos.
Proof.
  intros Hinv Hm Hsl Hl Hb Hwf Hseed. pose proof (sl_size _ _ _ _ _ Hsl) as Hsz.
  destruct (writeInode_ok fsOffset s i bg pos Hwritable Hsl Hl Hb Hwf Hseed)
    as (i' & s' & Hw & (M1 & M2 & M3) & Hrd & Hc & Hsl' & Hb' & Hwr).
  assert (same_map i i' /\ in_size i' = in_size i) as [Hsm Hs].
  { destruct (has_flag _ _); [eapply computeInodeCsum_same_map; eauto; lia|]. subst. split; [apply same_map_refl|done]. }
  exists i', s'. split; [done|]. split; [|done]. pose proof (sm_len _ _ Hsm) as Hl'.
  replace s' with (Fsys (fs_dev s') (fs_sb s) (fs_cursor s) (fs_rsv s)) by (destruct s'; cbn in *; congruence).
  rewrite <- Hl, <- Hl'. apply write_step; auto. by rewrite Hl', Hl.
Qed.

(** The block of the previous tree is released. *)
Lemma drop_child_ok (s : fsys D) (f : ext4File) i old new :
  fs_inv s -> singleExtentChild i = Ok new -> (forall c, old = Some c -> is_data s c /\ new <> Some c) ->
  exists s',
    match old with
    | None => ret tt
    | Some child =>
        do! newChild := mlift (singleExtentChild i) in
        if bool_decide (newChild = Some child) then ret tt
        else mwrap "ext4: free stale extent leaf block" (on_fs (freeBlock fsOffset child))
    end (s, f) = (Ok tt, (s', f)) /\
    preserves s s' /\ reads (fun _ _ => True) s s' /\ (forall b, is_free s' b <-> is_free s b \/ old = Some b) /\
    (forall b, is_data s b -> old <> Some b -> is_data s' b).
Proof.
  intros Hinv Hi Hold. destruct old as [c|].
  - destruct (Hold c eq_refl) as [Hd Hne]. destruct (free_inv fsOffset Hwritable s c Hinv Hd) as (s' & Hf & [A1 A2 A3 A4]).
    exists s'. split; [|split; [done|split; [done|split]]].
    + erewrite mbnd_run by (by apply mlift_run). rewrite bool_decide_eq_false_2 by done. apply mwrap_run.
      unfold on_fs. by rewrite Hf.
    + intros b. rewrite A3. split; (intros [?|?]; [by left|right]); congruence.
    + intros b Hb Hnb. apply A4; congruence.
  - exists s. split; [done|]. split; [by apply preserves_refl|]. split; [by intros ???|]. split; [naive_solver|auto].
Qed.

(** What a commit may touch: the inode, free blocks, and the blocks of the
    previous tree, which it may release. *)
Record rewrote (s s' : fsys D) (pos : Z) (T : list Z) : Prop := {
  rw_preserves : preserves s s';
  rw_reads : reads (fun o n => 0 < n /\ sep o n pos (InodeSize (fs_sb s)) /\
                               forall b, is_free s b -> off_block (fs_sb s) b o n) s s';
  rw_data : forall b, is_data s b -> b ∉ T -> is_data s' b;
  rw_free : forall b, is_free s' b -> is_free s b \/ b ∈ T
}.

Lemma file_inode (s : fsys D) f i pos T :
  file_at s f i pos T ->
  zlen (in_raw i) = InodeSize (fs_sb s) /\ in_num i = f_inodeNum f /\ u16 (in_raw i) 0 = in_mode i.
Proof.
  intros []. destruct fa_slot0 as [bg Hsl]. pose proof Hsl as [_ _ _ Hsz _ _ _ _ [raw Hrd]].
  rewrite (readInode_slot fsOffset s _ bg pos raw Hsl Hrd) in fa_inode0. apply read_at_zlen in Hrd; [|lia].
  unfold decodeInode in fa_inode0. rewrite !getN_ok in fa_inode0 by lia. cbn [rbind] in fa_inode0.
  injection fa_inode0 as <-. done.
Qed.

(** The new map of a file, before it is stored. *)
Record new_map (s : fsys D) (f' : ext4File) (pos : Z) (T : list Z) : Prop := {
  nm_map : file_map (fs_sb s) f';
  nm_owns : owns fsOffset s f';
  nm_size : 0 <= f_size f' < 2 ^ 63;
  nm_eof : forall lb p, block_at (f_extents f') lb = Some p -> lb * BlockSize (fs_sb s) < f_size f';
  nm_apart : forall lb p, block_at (f_extents f') lb = Some p -> clear_of (fs_sb s) pos p /\ p ∉ T
}.

(** The stored inode and its tree make the file. *)
Lemma stored_file (s s1 s2 s3 : fsys D) f f' i i1 i3 pos T T1 :
  file_at s f i pos T -> new_map s f' pos T -> f_inodeNum f' = f_inodeNum f -> f_inline f' = None /\ f_readonly f' = false ->
  grew s s1 T1 -> data_step (fun o n => sep o n pos (InodeSize (fs_sb s))) s1 s2 ->
  preserves s2 s3 -> reads (fun _ _ => True) s2 s3 ->
  (forall b, is_free s3 b <-> is_free s2 b \/ child_of (node_of i) = Some b) ->
  (forall b, is_data s2 b -> child_of (node_of i) <> Some b -> is_data s3 b) ->
  tree_blocks fsOffset (fs_dev s1) (fs_sb s1) (node_of i1) T1 (f_extents f') ->
  (forall c, child_of (node_of i1) = Some c -> c ∈ T1) -> node_of i3 = node_of i1 ->
  extent_mapped i3 -> in_size i3 = f_size f' -> (exists bg, inode_slot fsOffset s2 (f_inodeNum f) bg pos) ->
  readInode (fs_dev s2) fsOffset (fs_sb s2) (f_inodeNum f) = Ok i3 ->
  file_at s3 f' i3 pos T1 /\ rewrote s s3 pos T.
Proof.
  intros Hf [N1 N2 N3 N4 N5] Hnum Hinl G1 G2 P3 R3 F3 D3 Htr Hch1 Hnode Hm3 Hsz3 [bg Hsl2] Hri.
  pose proof Hf as []. pose proof (gr_preserves _ _ _ _ G1) as P1. pose proof (ds_preserves _ _ _ _ G2) as P2.
  assert (preserves s s2) as P12 by (by eapply preserves_trans).
  assert (preserves s s3) as P123 by (by eapply preserves_trans).
  destruct (geo_eq _ _ P123) as (E1 & E2 & E3 & E4 & E5 & E6 & E7 & E8 & E9).
  destruct (geo_eq _ _ P1) as (B1 & B2 & _). destruct (geo_eq _ _ P12) as (C1 & C2 & C3 & _ & _ & _ & C7 & _).
  pose proof (clear_of_eq _ _ E1 E2) as Eo. pose proof (iv_fits _ _ fa_inv0) as (Hpos & _).
  assert (forall b, is_data s b -> b ∉ T -> is_data s3 b) as Hdata.
  { intros b Hb HbT. apply D3; [apply G2, G1; by left|]. intros Hc. by apply HbT, fa_child0. }
  assert (forall b, b ∈ T1 -> is_free s b) as HT1 by apply G1.
  assert (forall b, is_free s3 b -> is_free s b \/ b ∈ T) as Hfree.
  { intros b [Hb|Hb]%F3; [left|right; auto]. rewrite (ds_free _ _ _ _ G2), (gr_free _ _ _ _ G1) in Hb. apply Hb. }
  destruct (slot_step (fun _ _ => True) s2 s3 (f_inodeNum f) bg pos) as [Hsl3 Hri3]; auto.
  { rewrite C2. by apply (pv_meta _ _ _ P12). } { by rewrite C3, C7. }
  split; [split; rewrite ?Eo, ?E1, ?E2, ?E3, ?E7, ?E8, ?Hnum; auto|].
  - apply P3.
  - destruct N1. split; rewrite ?E1, ?E6; auto.
  - intros lb p Hb. destruct (N5 lb p Hb). apply Hdata; [by apply (N2 lb)|done].
  - by apply (pv_meta _ _ _ P123).
  - intros b [Hb|Hb]%Hfree; [auto|]. by apply fa_tree_data0.
  - intros lb p Hb. destruct (N5 lb p Hb) as [? _]. split; [done|]. intros Hp. apply (data_not_free fsOffset s p); auto.
    by apply (N2 lb).
  - congruence.
  - exists (f_extents f'). split; [|apply sort_by_map, N1]. rewrite Hnode.
    eapply tree_step; [exact Htr|rewrite (pv_geo _ _ _ P3); apply P2|]. intros b Hb.
    assert (is_data s1 b) as Hb1 by (apply G1; by right).
    rewrite (reads_raw (fun _ _ => True) s2 s3); [|done|apply P2|by apply G2|done|congruence].
    apply (reads_raw (fun o n => sep o n pos (InodeSize (fs_sb s)))); [apply G2|apply P1|done| |congruence].
    rewrite B1. destruct (fa_free0 b (HT1 b Hb)) as [_ Ho]. unfold FsInv.off_block, sep in *. lia.
  - rewrite Hnode. auto.
  - intros b Hb. destruct (fa_free0 b (HT1 b Hb)) as [? ?]. split; [|done]. apply D3; [apply G2, G1; by right|].
    intros Hc. apply (data_not_free fsOffset s b); [|auto]. by apply fa_tree_data0, fa_child0.
  - split; auto. apply (reads_trans _ _ _ s2); [done| |eapply reads_weaken; [|exact R3]; done].
    apply (reads_trans _ _ _ s1); [done|eapply reads_weaken; [|apply G1]|eapply reads_weaken; [|apply G2]].
    + intros o n (Hn & _ & Hb). split; [done|]. intros b HbT. by apply Hb, HT1.
    + intros o n (_ & Hs & _). done.
Qed.

Lemma commit_ok (s : fsys D) f i pos T exts size now :
  file_at s f i pos T -> new_map s (with_map f exts size) pos T ->
  (exists s' i' T', commitLocked fsOffset exts size now (s, f) = (Ok tt, (s', with_map f exts size)) /\
     file_at s' (with_map f exts size) i' pos T' /\ rewrote s s' pos T /\ (forall b, b ∈ T' -> is_free s b)) \/
  (exists e c, commitLocked fsOffset exts size now (s, f) = (Err e, (with_cursor s c, f)) /\
     (leafCap (BlockSize (fs_sb s)) < zlen exts \/ exhausted fsOffset s 1)).
Proof.
  intros Hf Hnm. destruct (file_inode _ _ _ _ _ Hf) as (Hrl & Hnum & Hmode). pose proof Hf as [].
  pose proof Hnm as [N1 N2 N3 N4 N5]. set (f' := with_map f exts size) in *. cbn [with_map f_size f'] in N3.
  pose proof fa_mapped0 as (_ & Hl128 & _). pose proof (singleExtentChild_node i ltac:(lia)) as Hsc.
  unfold commitLocked. erewrite (mbnd_run the_file) by reflexivity.
  erewrite mbnd_run by (unfold on_fs; erewrite gets_run by exact fa_inode0; reflexivity).
  erewrite mbnd_run by (by apply mlift_run).
  destruct (writeExtentTree_ok s i exts) as [(i1 & s1 & T1 & Hwt & G1 & Hm1 & Htr & Hch1 & Hl1 & Hu1 & Hn1 & Hmo1)|
    (e & c & Hwt & Hwhy)]; auto.
  { by apply mapped_mappable. } { destruct N1 as [_ _ [] ? _]. split; auto. } { intros b Hb. by apply fa_free0. }
  2:{ right. exists e, c. split; [|done]. apply mbnd_fail. unfold on_fs. by rewrite Hwt. }
  left. erewrite mbnd_run by (unfold on_fs; rewrite Hwt; reflexivity).
  erewrite mbnd_run by reflexivity. cbv beta.
  pose proof (gr_preserves _ _ _ _ G1) as P1. destruct (geo_eq _ _ P1) as (B1 & B2 & B3 & _ & _ & _ & B7 & B8 & _).
  destruct (finish_inode_ok i1 size (w32 (total_blocks exts * (BlockSize (fs_sb s1) / 512))) now)
    as (i2 & Hfin & Hsm2 & Hwf2 & Hsz2); [lia|apply Hm1|lia|congruence|].
  erewrite mbnd_run by (apply mlift_run; rewrite (w64_small size) by lia; exact Hfin).
  destruct fa_slot0 as [bg Hsl]. pose proof (sl_size _ _ _ _ _ Hsl) as Hisz.
  destruct (slot_step (off_blocks (fs_sb s) T1) s s1 (f_inodeNum f) bg pos) as [[bg1 Hsl1] _]; auto.
  { apply G1. } { split; [lia|]. intros b Hb. by apply fa_free0, (gr_was_free _ _ _ _ G1). }
  assert (in_num i2 = f_inodeNum f) as Hn2 by (rewrite (sm_num _ _ Hsm2); congruence).
  destruct (write_slot_ok s1 i2 bg1 pos) as (i3 & s2 & Hwi & G2 & Hsm3 & Hsz3 & Hri & Hsl2).
  { apply P1. } { rewrite B2. by apply (pv_meta _ _ _ P1). } { by rewrite Hn2. }
  { rewrite (sm_len _ _ Hsm2), B2. congruence. } { apply (sm_bytes _ _ Hsm2), Hm1. } { done. } { by rewrite B8. }
  rewrite B2 in G2. rewrite Hn2 in Hri, Hsl2.
  erewrite mbnd_run by (unfold on_fs; rewrite Hwi; reflexivity).
  assert (same_map i1 i3) as Hsm by (by eapply same_map_trans).
  assert (extent_mapped i3) as Hm3 by (apply (same_map_mapped i1); [done|lia|done]).
  pose proof Hm3 as (_ & Hl3 & _). pose proof (singleExtentChild_node i3 ltac:(lia)) as Hsc3.
  destruct (drop_child_ok s2 f i3 (child_of (node_of i)) (child_of (node_of i3))) as (s3 & Hdrop & P3 & R3 & F3 & D3); [apply G2|done| |].
  { intros c Hc. destruct (fa_tree_data0 c (fa_child0 c Hc)) as [Hcd _]. split; [apply G2, G1; by left|].
    rewrite (sm_node _ _ Hsm). intros Hc1%Hch1. apply (data_not_free fsOffset s c); [done|]. by apply (gr_was_free _ _ _ _ G1). }
  erewrite mbnd_run by exact Hdrop.
  destruct (stored_file s s1 s2 s3 f f' i i1 i3 pos T T1) as [Hfile Hrw]; auto.
  { apply Hsm. } { cbn. congruence. } { by exists bg1. }
  exists s3, i3, T1. split; [done|]. split; [done|]. split; [done|]. apply G1.
Qed.

(** * The bytes of a file *)

Definition file_byte (s : fsys D) (f : ext4File) (p : Z) : Z :=
  if (0 <=? p) && (p <? f_size f) then content (fs_dev s) fsOffset (fs_sb s) (f_extents f) p else 0.

Lemma block_at_nonneg exts lb p : map_ok exts -> block_at exts lb = Some p -> 0 <= lb.
Proof.
  intros Hm Hb. apply block_at_Some in Hb as (e & He & Hc & _). apply covers_iff in Hc.
  destruct (leaves_nonempty _ _ Hm He) as [(? & _) _]. lia.
Qed.

(** Beyond the block of the end of the file nothing is mapped. *)
Lemma beyond_eof (s : fsys D) f i pos T p :
  file_at s f i pos T -> 0 <= p -> (f_size f = 0 \/ ((f_size f - 1) / BlockSize (fs_sb s) + 1) * BlockSize (fs_sb s) <= p) ->
  content (fs_dev s) fsOffset (fs_sb s) (f_extents f) p = 0.
Proof.
  intros [] Hp Hb. pose proof (iv_fits _ _ fa_inv0) as (Hbs & _). unfold content.
  destruct (block_at _ _) as [q|] eqn:E; [|done]. exfalso. pose proof (fa_eof0 _ _ E) as He.
  pose proof (block_at_nonneg _ _ _ (fm_map _ _ fa_map0) E) as Hn.
  destruct Hb as [Hz|Hb]; [nia|].
  assert (p / BlockSize (fs_sb s) <= (f_size f - 1) / BlockSize (fs_sb s)) by (apply Z.div_le_lower_bound; lia).
  pose proof (Z.div_mod p (BlockSize (fs_sb s)) ltac:(lia)). pose proof (Z.mod_pos_bound p (BlockSize (fs_sb s)) Hbs). nia.
Qed.

Lemma u8_zeros n k : u8 (zeros n) k = 0.
Proof. unfold u8, zeros. destruct (replicate _ _ !! _) eqn:E; [|done]. apply lookup_replicate in E as [-> _]. done. Qed.

(** Zeroing the slack makes the bytes up to the new end zero. *)
Definition slack_done (s s' : fsys D) (f : ext4File) (newSize : Z) : Prop :=
  (forall p, 0 <= p < f_size f -> content (fs_dev s') fsOffset (fs_sb s) (f_extents f) p =
                                  content (fs_dev s) fsOffset (fs_sb s) (f_extents f) p) /\
  (forall p, f_size f <= p < newSize -> content (fs_dev s') fsOffset (fs_sb s) (f_extents f) p = 0).

Lemma slack_noop (s : fsys D) f i pos T newSize :
  file_at s f i pos T ->
  newSize <= f_size f \/ f_size f = 0 \/ f_size f mod BlockSize (fs_sb s) = 0 \/
    block_at (f_extents f) (f_size f / BlockSize (fs_sb s)) = None ->
  slack_done s s f newSize.
Proof.
  intros Hf Hc. split; [done|]. intros p Hp. pose proof Hf as []. pose proof (iv_fits _ _ fa_inv0) as (Hbs & _).
  set (bs := BlockSize (fs_sb s)) in *. set (size := f_size f) in *.
  pose proof (Z.div_mod size bs ltac:(lia)) as Hd. pose proof (Z.mod_pos_bound size bs Hbs) as Hm.
  destruct Hc as [?|[Hz|Hc]]; [lia|apply (beyond_eof s f i pos T p); [done|lia|by left]|].
  destruct (decide (p / bs = size / bs)) as [He|Hne].
  - destruct Hc as [Hc|Hc].
    + apply (beyond_eof s f i pos T p); [done|lia|]. fold bs size.
      destruct (decide (size = 0)); [by left|right].
      assert ((size - 1) / bs = size / bs - 1) as ->; [|nia].
      symmetry. apply (Z.div_unique _ _ _ (bs - 1)); lia.
    + unfold content. fold bs. by rewrite He, Hc.
  - apply (beyond_eof s f i pos T p); [done|lia|]. right. fold bs size.
    assert ((size - 1) / bs <= size / bs) by (apply Z.div_le_mono; lia).
    assert (size / bs <= p / bs) by (apply Z.div_le_mono; lia). pose proof (Z.div_mod p bs ltac:(lia)).
    pose proof (Z.mod_pos_bound p bs Hbs). nia.
Qed.

Lemma slack_ok (s : fsys D) f i pos T newSize :
  file_at s f i pos T ->
  exists s', zeroSlackLocked fsOffset (f_size f) newSize (s, f) = (Ok tt, (s', f)) /\ fs_sb s' = fs_sb s /\
    data_step (off_file fsOffset (fs_sb s) f) s s' /\ slack_done s s' f newSize.
Proof.
  intros Hf. pose proof Hf as []. pose proof (iv_fits _ _ fa_inv0) as (Hbs & _). pose proof (fm_bs _ _ fa_map0) as Hfb.
  assert (forall P, data_step P s s) as Hid by (intros; by apply data_step_refl).
  unfold zeroSlackLocked. erewrite (mbnd_run the_file) by reflexivity. rewrite Hfb.
  set (bs := BlockSize (fs_sb s)) in *. set (size := f_size f) in *.
  pose proof (Z.div_mod size bs ltac:(lia)) as Hd. pose proof (Z.mod_pos_bound size bs Hbs) as Hm.
  destruct ((newSize <=? size) || (size =? 0)) eqn:E0.
  { exists s. split; [done|]. split; [done|]. split; [done|]. apply (slack_noop s f i pos T); [done|].
    apply orb_true_iff in E0 as [?|?]; zbool; [by left|right; by left]. }
  apply orb_false_iff in E0 as [En Ez]. zbool. destruct (size mod bs =? 0) eqn:Em; zbool.
  { exists s. split; [done|]. split; [done|]. split; [done|]. apply (slack_noop s f i pos T); auto. }
  destruct (block_at (f_extents f) (size / bs)) as [q|] eqn:Eq.
  2:{ rewrite (locateLocked_hole fsOffset (fs_sb s)) by done. exists s. split; [done|]. split; [done|]. split; [done|].
      apply (slack_noop s f i pos T); auto. }
  destruct (write_chunk fsOffset Hwritable s f size (zeros bs) q) as (phys & avail & Hl & Hav & (e & He & Hc & Ea) & Hwc);
    auto; [apply bytes_ok_zeros|lia|rewrite zlen_zeros; lia|].
  rewrite Hl. rewrite zlen_zeros in Hwc by lia. apply covers_iff in Hc. fold bs in Hc, Ea.
  assert (bs - size mod bs <= avail) as Hge by nia.
  set (n := Z.min (bs - size mod bs) (Z.min avail (newSize - size))).
  destruct (Hwc n ltac:(lia)) as (s' & Hw & Hsb & (Hcont & _) & Hds). rewrite zslice_zeros in Hw, Hcont by lia.
  exists s'. split; [apply mwrap_run; unfold on_fs; by rewrite Hw|]. split; [done|]. split; [done|]. fold bs in Hcont. split.
  - intros p Hp. rewrite Hcont, upd_bytes_ne by (rewrite ?zlen_zeros; lia). done.
  - intros p Hp. fold size in Hp. rewrite Hcont by lia. destruct (decide (p < size + n)) as [Hin|Hout].
    + unfold upd_bytes. rewrite zlen_zeros by lia. rewrite leb_true, ltb_true by lia. apply u8_zeros.
    + rewrite upd_bytes_ne by (rewrite zlen_zeros; lia). apply (beyond_eof s f i pos T); [done|lia|]. fold bs size. right.
      assert ((size - 1) / bs = size / bs) as ->; [|lia].
      symmetry. apply (Z.div_unique _ _ _ (size mod bs - 1)); lia.
Qed.

(** * The new blocks *)

Lemma missing_from_spec n sb f b :
  fs_fits fsOffset sb -> file_map sb f -> 0 <= b -> (b + Z.of_nat n - 1) * BlockSize sb < 2 ^ 63 ->
  missing_from fsOffset n f b = filter (fun b => block_at (f_extents f) b = None) (seqZ b (Z.of_nat n)).
Proof.
  intros Hfit Hm. revert b. pose proof Hfit as (Hbs & _). induction n as [|n IH]; intros b Hb Hlt; [done|].
  rewrite Nat2Z.inj_succ, seqZ_cons by lia. rewrite Z.pred_succ, filter_cons. cbn [missing_from].
  rewrite (fm_bs _ _ Hm), i64_small by nia. rewrite IH by lia.
  destruct (block_at (f_extents f) b) as [q|] eqn:E.
  - rewrite decide_False by done.
    destruct (locateLocked_mapped fsOffset sb f (b * BlockSize sb) q Hfit Hm ltac:(nia)) as (e & _ & _ & _ & ->);
      [by rewrite Z.div_mul by lia|done].
  - rewrite decide_True by done. by rewrite (locateLocked_hole fsOffset sb) by (rewrite ?Z.div_mul by lia; done).
Qed.

Lemma new_leaves_ok missing phys :
  Forall (fun b => 0 <= b < 2 ^ 32) missing -> length phys = length missing ->
  new_leaves missing phys = Ok (zip_with one_leaf missing phys).
Proof.
  intros Hm. revert phys. induction Hm as [|b missing Hb Hm IH]; intros [|p phys] Hl; try done.
  cbn [new_leaves]. rewrite IH by (by injection Hl). cbn [rbind]. by rewrite w32_small by done.
Qed.

(** New blocks for the unmapped [missing] blocks of a file. *)
Record additions (s : fsys D) (f : ext4File) (pos : Z) (T missing blocks : list Z) : Prop := {
  ad_missing : NoDup missing /\ Forall (fun b => 0 <= b < 2 ^ 32 /\ block_at (f_extents f) b = None) missing;
  ad_blocks : NoDup blocks /\ length blocks = length missing;
  ad_data : forall b, b ∈ blocks -> is_data s b /\ clear_of (fs_sb s) pos b /\ b ∉ T;
  ad_fresh : forall b lb, b ∈ blocks -> block_at (f_extents f) lb <> Some b
}.

Definition merged (f : ext4File) (missing blocks : list Z) : list extentLeaf :=
  coalesceExtents (f_extents f ++ zip_with one_leaf missing blocks).

Lemma merged_leaves_ok (s : fsys D) f i pos T missing blocks :
  file_at s f i pos T -> additions s f pos T missing blocks ->
  Forall leaf_in (f_extents f ++ zip_with one_leaf missing blocks) /\
  runs_disjoint LogBlock (f_extents f ++ zip_with one_leaf missing blocks).
Proof.
  intros [] [[M1 M2] [B1 B2] Hd _]. apply merged_leaves; auto; [apply fa_map0|].
  apply Forall_forall. intros b Hb. destruct (Hd b Hb) as [Hdb _]. apply is_data_block in Hdb as [Hr _].
  pose proof (iv_small _ _ fa_inv0). lia.
Qed.

Lemma merged_block (s : fsys D) f i pos T missing blocks lb :
  file_at s f i pos T -> additions s f pos T missing blocks ->
  block_at (merged f missing blocks) lb =
  match block_at (f_extents f) lb with
  | Some p => Some p
  | None => block_at (zip_with one_leaf missing blocks) lb
  end.
Proof.
  intros Hf Ha. destruct (merged_leaves_ok _ _ _ _ _ _ _ Hf Ha) as [Hl Hd]. unfold merged.
  rewrite coalesceExtents_block_at; [apply block_at_app| |done]. by apply Forall_and in Hl as [? _].
Qed.

(** Every mapped block is an old or a new one, and none is mapped twice. *)
Lemma merged_cases (s : fsys D) f i pos T missing blocks lb p :
  file_at s f i pos T -> additions s f pos T missing blocks -> block_at (merged f missing blocks) lb = Some p ->
  block_at (f_extents f) lb = Some p \/ exists k, missing !! k = Some lb /\ blocks !! k = Some p.
Proof.
  intros Hf Ha Hb. rewrite (merged_block _ _ _ _ _ _ _ _ Hf Ha) in Hb. destruct (block_at (f_extents f) lb); [by left|right].
  destruct Ha as [[? _] [? ?] _ _]. by apply block_at_new in Hb.
Qed.

Lemma merged_new_map (s : fsys D) f i pos T missing blocks newSize :
  file_at s f i pos T -> additions s f pos T missing blocks -> f_size f <= newSize < 2 ^ 63 ->
  (forall b, b ∈ missing -> b * BlockSize (fs_sb s) < newSize) ->
  new_map s (with_map f (merged f missing blocks) newSize) pos T.
Proof.
  intros Hf Ha Hs Hn. destruct (merged_leaves_ok _ _ _ _ _ _ _ Hf Ha) as [Hl Hd].
  pose proof (coalesceExtents_map _ Hl Hd) as Hm. fold (merged f missing blocks) in Hm.
  pose proof (fun lb p => merged_cases s f i pos T missing blocks lb p Hf Ha) as Hc. pose proof Hf as []. pose proof Ha as [[M1 M2] [B1 B2] A1 A2].
  assert (forall lb p, block_at (merged f missing blocks) lb = Some p -> is_data s p) as Hown.
  { intros lb p [Hb|(k & _ & Hk)]%Hc; [by apply (fa_owns0 lb)|]. apply A1. by eapply list_elem_of_lookup_2. }
  split; cbn [with_map f_extents f_size]; auto; [|lia| |].
  - destruct fa_map0. split; auto.
    + apply injective_disjoint; [done|]. cbn [with_map f_extents].
      intros l1 l2 p [H1'|(k1 & K1 & K1')]%Hc [H2'|(k2 & K2 & K2')]%Hc.
      * by apply (block_at_inj (fs_sb s) f l1 l2 p).
      * exfalso. apply (A2 p l1); [by eapply list_elem_of_lookup_2|done].
      * exfalso. apply (A2 p l2); [by eapply list_elem_of_lookup_2|done].
      * pose proof (NoDup_lookup _ _ _ _ B1 K1' K2') as ->. congruence.
    + apply blocks_range; [done|]. cbn [with_map f_extents]. intros lb p Hb.
      destruct (is_data_block _ _ _ (Hown lb p Hb)). lia.
  - intros lb p [Hb|(k & Hk & _)]%Hc; [pose proof (fa_eof0 _ _ Hb); lia|]. apply Hn. by eapply list_elem_of_lookup_2.
  - intros lb p [Hb|(k & _ & Hk)]%Hc; [by apply (fa_apart0 lb)|]. apply A1. by eapply list_elem_of_lookup_2.
Qed.

(** New blocks that hold zeros are holes. *)
Lemma merged_content (s : fsys D) f i pos T missing blocks p :
  file_at s f i pos T -> additions s f pos T missing blocks ->
  (forall b k, b ∈ blocks -> 0 <= k < BlockSize (fs_sb s) -> dev_byte (fs_dev s) (fsOffset + b * BlockSize (fs_sb s) + k) = 0) ->
  content (fs_dev s) fsOffset (fs_sb s) (merged f missing blocks) p = content (fs_dev s) fsOffset (fs_sb s) (f_extents f) p.
Proof.
  intros Hf Ha Hz. unfold content. rewrite (merged_block _ _ _ _ _ _ _ _ Hf Ha).
  destruct (block_at (f_extents f) _) as [q|]; [done|]. destruct (block_at (zip_with _ _ _) _) as [q|] eqn:E; [|done].
  destruct Ha as [[? _] [? ?] _ _]. apply block_at_new in E as (k & _ & Hk); [|done..].
  apply Hz; [by eapply list_elem_of_lookup_2|]. apply Z.mod_pos_bound. by destruct (iv_fits _ _ (fa_inv _ _ _ _ _ Hf)).
Qed.

(** * Growing a file *)

Definition same_bytes (s : fsys D) (f : ext4File) (s' : fsys D) (f' : ext4File) : Prop :=
  forall p, file_byte s' f' p = file_byte s f p.

(** What a write may touch: the inode, the blocks of the file and free blocks. *)
Definition other_range (s : fsys D) (f : ext4File) (pos o n : Z) : Prop :=
  sep o n pos (InodeSize (fs_sb s)) /\ off_file fsOffset (fs_sb s) f o n /\
  forall b, is_free s b -> off_block (fs_sb s) b o n.

Record touched (s s' : fsys D) (f : ext4File) (pos : Z) : Prop := {
  to_preserves : preserves s s';
  to_reads : reads (other_range s f pos) s s'
}.

Lemma touched_trans s1 s2 s3 f pos :
  touched s1 s2 f pos -> touched s2 s3 f pos -> (forall b, is_free s2 b -> is_free s1 b) -> touched s1 s3 f pos.
Proof.
  intros [A1 A2] [B1 B2] Hf. split; [by eapply preserves_trans|]. eapply reads_trans; [exact A1|exact A2|].
  destruct (geo_eq _ _ A1) as (E1 & E2 & _). eapply reads_weaken; [|exact B2]. intros o n (H1' & [Hn H2'] & H3').
  unfold other_range, off_file. rewrite (off_block_eq _ _ E1), E2. auto.
Qed.

Lemma step_touched P s s' f pos :
  data_step P s s' -> (forall o n, other_range s f pos o n -> P o n) -> touched s s' f pos.
Proof. intros Hd HP. split; [apply Hd|]. eapply reads_weaken; [exact HP|apply Hd]. Qed.

(** A step on the blocks of the file alone. *)
Lemma file_at_own (s s' : fsys D) f i pos T :
  file_at s f i pos T -> data_step (off_file fsOffset (fs_sb s) f) s s' -> file_at s' f i pos T.
Proof.
  intros Hf Hd. pose proof Hf as []. pose proof (iv_fits _ _ fa_inv0) as (Hbs & _).
  eapply (file_at_step (off_file fsOffset (fs_sb s) f)); [done|apply Hd|apply Hd| | |apply Hd|by apply Hd].
  - destruct fa_slot0 as [bg Hsl]. pose proof (sl_size _ _ _ _ _ Hsl). split; [lia|]. intros lb p Hb. by apply (fa_apart0 lb).
  - intros b Hb. split; [done|]. intros lb p Hp. apply off_other; [done|]. intros ->. by apply (fa_apart0 lb) in Hp as [_ ?].
Qed.

Lemma file_at_cursor (s : fsys D) f i pos T c : file_at s f i pos T -> file_at (with_cursor s c) f i pos T.
Proof.
  intros Hf. pose proof (cursor_step fsOffset (fun _ _ => True) s c (fa_inv _ _ _ _ _ Hf)) as Hd.
  by eapply (file_at_step (fun _ _ => True)); [done|apply Hd|apply Hd|..|apply Hd|apply Hd].
Qed.

Lemma grow_ok (s : fsys D) f i pos T exts newSize now :
  let f' := with_map f exts newSize in
  let run := (do! _ := zeroSlackLocked fsOffset (f_size f) newSize in commitLocked fsOffset exts newSize now) (s, f) in
  file_at s f i pos T -> f_size f <= newSize < 2 ^ 63 ->
  (forall s1, data_step (off_file fsOffset (fs_sb s) f) s s1 -> fs_sb s1 = fs_sb s -> file_at s1 f i pos T ->
     new_map s1 f' pos T /\ forall p, content (fs_dev s1) fsOffset (fs_sb s1) exts p =
                                     content (fs_dev s1) fsOffset (fs_sb s1) (f_extents f) p) ->
  (exists s' i' T', run = (Ok tt, (s', f')) /\ file_at s' f' i' pos T' /\ same_bytes s f s' f' /\ touched s s' f pos) \/
  (exists e s', run = (Err e, (s', f)) /\ file_at s' f i pos T /\ same_bytes s f s' f /\ touched s s' f pos /\
     (leafCap (BlockSize (fs_sb s)) < zlen exts \/ forall b, ~ is_free s b)).
Proof.
  intros f' run Hf Hs Hnew. destruct (slack_ok s f i pos T newSize Hf) as (s1 & Hz & Hsb & Hds & Hlo & Hhi).
  pose proof (file_at_own _ _ _ _ _ _ Hf Hds) as Hf1. destruct (Hnew s1 Hds Hsb Hf1) as [Hnm Hcont].
  assert (touched s s1 f pos) as Ht1 by (eapply step_touched; [exact Hds|by intros o n (_ & ? & _)]).
  assert (forall b, is_free s1 b -> is_free s b) as Hfree by (intros b; by apply Hds).
  unfold run. erewrite mbnd_run by exact Hz.
  destruct (commit_ok s1 f i pos T exts newSize now Hf1 Hnm) as [(s2 & i2 & T2 & Hc & Hf2 & Hrw & _)|(e & c & Hc & Hwhy)].
  - left. exists s2, i2, T2. split; [done|]. split; [done|]. pose proof Hrw as [R1 R2 R3 R4].
    pose proof Hnm as [_ N2 _ _ N5]. split; [|].
    + intros p. unfold file_byte. cbn [f' with_map f_size f_extents]. destruct (geo_eq _ _ R1) as (E1 & E2 & _).
      pose proof (fa_inv _ _ _ _ _ Hf1) as Hinv1. pose proof (iv_fits _ _ Hinv1) as (Hbs & _).
      rewrite (content_frame _ s1 s2 exts p R2 Hinv1 E1).
      2:{ intros lb q Hb. split; [by apply (N2 lb)|]. split; [done|]. split; [|intros b Hb'; apply off_other; [done|]].
          - destruct (N5 lb q Hb) as [[_ Ho] _]. unfold FsInv.off_block, sep in *. lia.
          - intros ->. apply (data_not_free fsOffset s1 q); [by apply (N2 lb)|done]. }
      rewrite Hcont, Hsb. destruct (0 <=? p) eqn:E0; [|done]. cbn [andb]. zbool.
      destruct (p <? newSize) eqn:En, (p <? f_size f) eqn:Ef; zbool; [by apply Hlo|apply Hhi; lia|lia|done].
    + eapply touched_trans; [exact Ht1| |done]. split; [done|]. eapply reads_weaken; [|exact R2].
      intros o n (H1' & [H2' _] & H3'). auto.
  - right. eexists e, _. split; [done|]. split; [by apply file_at_cursor|]. pose proof (fa_inv _ _ _ _ _ Hf1) as Hinv1.
    split; [|split; [|destruct Hwhy as [?|Hex]; [left; congruence|right; intros b Hb]]].
    + intros p. unfold file_byte. cbn [with_cursor fs_dev fs_sb]. rewrite Hsb. destruct (0 <=? p) eqn:E0; [|done]. cbn [andb].
      zbool. destruct (p <? f_size f) eqn:Ef; [|done]. zbool. by apply Hlo.
    + eapply touched_trans; [exact Ht1| |done]. eapply step_touched; [by apply (cursor_step fsOffset (fun _ _ => True))|done].
    + apply (exhausted_none fsOffset s1 b Hinv1 Hex). by apply Hds.
Qed.

(** The blocks of a range that have to be allocated. *)
Definition unmapped (sb : superblock) (f : ext4File) (off fin : Z) : list Z :=
  filter (fun b => block_at (f_extents f) b = None)
    (seqZ (off / BlockSize sb) ((fin - 1) / BlockSize sb - off / BlockSize sb + 1)).

(** Why a write may be refused: no group has room for the blocks, or none is left
    for the tree, or the tree would not fit its block. *)
Definition no_space (s : fsys D) (f : ext4File) (n : Z) : Prop :=
  exhausted fsOffset s n \/ (exists l, zlen l = n /\ forall b, is_free s b -> b ∈ l) \/
  leafCap (BlockSize (fs_sb s)) < zlen (f_extents f) + n.

(** The outcomes of mapping a range. *)
Definition mapped_ok (s : fsys D) (f : ext4File) (pos off fin : Z) (s' : fsys D) (f' : ext4File) : Prop :=
  (exists i' T', file_at s' f' i' pos T') /\ f_size f' = Z.max (f_size f) fin /\
  (forall p, off <= p < fin -> block_at (f_extents f') (p / BlockSize (fs_sb s)) <> None) /\
  same_bytes s f s' f' /\ touched s s' f pos /\
  (forall lb b, block_at (f_extents f') lb = Some b -> block_at (f_extents f) lb = Some b \/ is_free s b).

Lemma unmapped_nil sb f off fin p :
  0 < BlockSize sb -> 0 <= off -> unmapped sb f off fin = [] -> off <= p < fin -> block_at (f_extents f) (p / BlockSize sb) <> None.
Proof.
  intros Hbs Ho Hu Hp Hn. assert (p / BlockSize sb ∈ unmapped sb f off fin) as Hin; [|rewrite Hu in Hin; by apply not_elem_of_nil in Hin].
  apply list_elem_of_filter. split; [done|]. apply elem_of_seqZ.
  assert (off / BlockSize sb <= p / BlockSize sb <= (fin - 1) / BlockSize sb) by (split; apply Z.div_le_mono; lia). lia.
Qed.

Lemma unmapped_elem sb f off fin b :
  0 < BlockSize sb -> 0 <= off < fin -> b ∈ unmapped sb f off fin ->
  0 <= b /\ b * BlockSize sb < fin /\ block_at (f_extents f) b = None.
Proof.
  intros Hbs Ho Hb. apply list_elem_of_filter in Hb as [Hn Hb%elem_of_seqZ].
  assert (0 <= off / BlockSize sb) by (apply Z.div_pos; lia).
  pose proof (Z.div_mod (fin - 1) (BlockSize sb) ltac:(lia)). pose proof (Z.mod_pos_bound (fin - 1) (BlockSize sb) Hbs).
  split; [lia|]. split; [nia|done].
Qed.

(** The range was mapped already. *)
Lemma map_range_mapped (s : fsys D) f i pos T off fin now :
  file_at s f i pos T -> 0 <= off < fin -> fin < 2 ^ 63 -> unmapped (fs_sb s) f off fin = [] ->
  let newSize := Z.max (f_size f) fin in
  let run := (if newSize =? f_size f then ret tt else
              do! _ := zeroSlackLocked fsOffset (f_size f) newSize in
              commitLocked fsOffset (f_extents f) newSize now) (s, f) in
  (exists s' f', run = (Ok tt, (s', f')) /\ mapped_ok s f pos off fin s' f') \/
  (exists e s', run = (Err e, (s', f)) /\ file_at s' f i pos T /\ same_bytes s f s' f /\ touched s s' f pos /\ no_space s f 0).
Proof.
  intros Hf Ho Hfin Hu newSize run. pose proof Hf as []. pose proof (iv_fits _ _ fa_inv0) as (Hbs & _).
  assert (forall p, off <= p < fin -> block_at (f_extents f) (p / BlockSize (fs_sb s)) <> None) as Hmap
    by (intros p Hp; eapply unmapped_nil; eauto; lia).
  unfold run. destruct (newSize =? f_size f) eqn:En; zbool.
  { left. exists s, f. split; [done|]. split; [by exists i, T|]. split; [lia|]. split; [done|]. split; [done|].
    split; [|by left]. eapply step_touched; [by apply (data_step_refl fsOffset (fun _ _ => True))|done]. }
  destruct (grow_ok s f i pos T (f_extents f) newSize now Hf) as [(s' & i' & T' & Hr & Hf' & Hsame & Ht)|
    (e & s' & Hr & Hf' & Hsame & Ht & Hwhy)]; [lia| | |].
  - intros s1 Hds Hsb [] . split; [|done]. rewrite Hsb in *. split; rewrite ?Hsb; cbn [with_map f_extents f_size]; auto; [|lia|].
    + destruct fa_map1. by split.
    + intros lb p Hb. pose proof (fa_eof1 lb p Hb). lia.
  - left. exists s', (with_map f (f_extents f) newSize). split; [done|]. split; [by exists i', T'|]. split; [done|].
    split; [done|]. split; [done|]. split; [done|]. by left.
  - right. exists e, s'. split; [done|]. split; [done|]. split; [done|]. split; [done|].
    destruct Hwhy as [?|Hn]; [right; right; lia|right; left]. exists []. split; [done|]. intros b Hb. by destruct (Hn b).
Qed.

(** The new blocks, zeroed. *)
Lemma zeroed_ok (s s1 : fsys D) f i pos T blocks :
  file_at s f i pos T -> took fsOffset s s1 blocks ->
  exists s2, zero_blocks fsOffset blocks (BlockSize (fs_sb s)) s1 = (Ok tt, s2) /\ grew s s2 blocks /\
    file_at s2 f i pos T /\ same_bytes s f s2 f /\
    forall b k, b ∈ blocks -> 0 <= k < BlockSize (fs_sb s) -> dev_byte (fs_dev s2) (fsOffset + b * BlockSize (fs_sb s) + k) = 0.
Proof.
  intros Hf Ht%took_grew. pose proof (gr_preserves _ _ _ _ Ht) as P1. destruct (geo_eq _ _ P1) as (E1 & _).
  destruct (zero_blocks_ok s1 blocks) as (s2 & Hz & Hds & Hsb & Hb); [apply P1|apply Ht|intros; apply Ht; by right|].
  rewrite E1 in Hz, Hb. assert (grew s s2 blocks) as Hg.
  { eapply grew_step; [exact Ht|]. eapply data_step_weaken; [|exact Hds]. intros o n [Hn Ho]. split; [done|].
    rewrite (off_block_eq _ _ E1). done. }
  exists s2. split; [done|]. split; [done|]. pose proof Hf as []. pose proof (iv_fits _ _ fa_inv0) as (Hbs & _).
  assert (forall b, is_data s b -> b ∉ blocks) as Hd.
  { intros b Hb' Hin. apply (data_not_free fsOffset s b); [done|]. by apply Hg. }
  split; [|split; [|done]].
  - eapply (file_at_step (off_blocks (fs_sb s) blocks)); [done|apply Hg|apply Hg| | | |].
    + destruct fa_slot0 as [bg Hsl]. pose proof (sl_size _ _ _ _ _ Hsl). split; [lia|]. intros b Hin. by apply fa_free0, Hg.
    + intros b Hin. apply off_others; [done|]. by apply Hd, fa_tree_data0.
    + intros b Hin. apply Hg. by left.
    + intros b. rewrite (gr_free _ _ _ _ Hg). by intros [? _].
  - intros p. unfold file_byte. erewrite (content_frame _ s s2); [done|apply Hg|done|by rewrite Hsb|].
    intros lb q Hq. split; [by apply (fa_owns0 lb)|]. apply off_others; [done|]. by apply Hd, (fa_owns0 lb).
Qed.

Lemma grew_additions (s s2 s3 : fsys D) f i pos T missing blocks :
  file_at s f i pos T -> grew s s2 blocks -> data_step (off_file fsOffset (fs_sb s2) f) s2 s3 -> fs_sb s3 = fs_sb s2 ->
  NoDup missing -> length blocks = length missing ->
  Forall (fun b => 0 <= b < 2 ^ 32 /\ block_at (f_extents f) b = None) missing ->
  additions s3 f pos T missing blocks.
Proof.
  intros [] Hg Hds Hsb Hnd Hl Hm. destruct (geo_eq _ _ (gr_preserves _ _ _ _ Hg)) as (E1 & E2 & _).
  assert (forall b, is_data s b -> b ∉ blocks) as Hd.
  { intros b Hb' Hin. apply (data_not_free fsOffset s b); [done|]. by apply Hg. }
  split; [done|split; [apply Hg|done]| |].
  - intros b Hb. rewrite Hsb, (clear_of_eq _ _ E1 E2). split; [apply Hds, Hg; by right|].
    split; [by apply fa_free0, Hg|]. intros HT. by apply (Hd b); [apply fa_tree_data0|].
  - intros b lb Hb Hlb. by apply (Hd b); [apply (fa_owns0 lb)|].
Qed.

(** Bytes in blocks that are not the file's survive its writes. *)
Lemma own_keeps (s2 s3 : fsys D) f i pos T b k :
  file_at s2 f i pos T -> data_step (off_file fsOffset (fs_sb s2) f) s2 s3 -> is_data s2 b ->
  (forall lb, block_at (f_extents f) lb <> Some b) -> 0 <= k < BlockSize (fs_sb s2) ->
  dev_byte (fs_dev s3) (fsOffset + b * BlockSize (fs_sb s2) + k) = dev_byte (fs_dev s2) (fsOffset + b * BlockSize (fs_sb s2) + k).
Proof.
  intros [] Hds Hd Hne Hk. apply (reads_block (off_file fsOffset (fs_sb s2) f)); [apply Hds|done|by left| |done].
  split; [lia|]. intros lb q Hq. apply off_other; [lia|]. intros ->. by apply (Hne lb).
Qed.

Lemma coalesce_length `{SortSlice} exts : zlen (coalesceExtents exts) <= zlen exts.
Proof.
  unfold coalesceExtents. destruct (_ <? _); [done|]. pose proof (sort_by_perm LogBlock exts) as Hp%Permutation_length.
  destruct (sort_by LogBlock exts) as [|e l]; [apply zlen_nonneg|]. pose proof (coalesce_from_length e l).
  unfold zlen in *. cbn in Hp. lia.
Qed.

Lemma range_count bs off fin :
  1024 <= bs -> 0 <= off < fin -> fin - off < 2 ^ 40 -> 0 < (fin - 1) / bs - off / bs + 1 < 2 ^ 32.
Proof.
  intros Hbs Ho Hn. pose proof (Z.div_mod (fin - 1) bs ltac:(lia)). pose proof (Z.mod_pos_bound (fin - 1) bs ltac:(lia)).
  pose proof (Z.div_mod off bs ltac:(lia)). pose proof (Z.mod_pos_bound off bs ltac:(lia)).
  assert (off / bs <= (fin - 1) / bs) by (apply Z.div_le_mono; lia). split; [lia|]. nia.
Qed.

Lemma unmapped_ok (s : fsys D) f i pos T off fin :
  file_at s f i pos T -> 0 <= off < fin -> fin <= 2 ^ 32 * BlockSize (fs_sb s) -> fin - off < 2 ^ 40 ->
  let missing := unmapped (fs_sb s) f off fin in
  0 <= zlen missing < 2 ^ 32 /\ NoDup missing /\
  Forall (fun b => 0 <= b < 2 ^ 32 /\ block_at (f_extents f) b = None) missing.
Proof.
  intros [] Ho H32 H40 missing. pose proof (iv_fits _ _ fa_inv0) as (Hbs & _).
  pose proof (inv_layout _ _ fa_inv0) as [_ Hbs1]. pose proof (range_count _ _ _ Hbs1 Ho H40) as Hcnt.
  split; [split; [apply zlen_nonneg|]|split; [apply NoDup_filter, NoDup_seqZ|]].
  - unfold missing, unmapped. set (l := seqZ _ _). pose proof (length_filter (fun b => block_at (f_extents f) b = None) l) as Hle.
    unfold l in Hle at 2. rewrite length_seqZ in Hle. unfold zlen. lia.
  - apply Forall_forall. intros b Hb. destruct (unmapped_elem _ _ _ _ _ Hbs Ho Hb) as (? & ? & ?). split; [nia|done].
Qed.

Lemma merged_covers (s2 s : fsys D) f i pos T off fin blocks p :
  let missing := unmapped (fs_sb s) f off fin in
  file_at s2 f i pos T -> additions s2 f pos T missing blocks -> 0 < BlockSize (fs_sb s) -> off <= p < fin ->
  block_at (merged f missing blocks) (p / BlockSize (fs_sb s)) <> None.
Proof.
  intros missing Hf Ha Hbs Hp. rewrite (merged_block s2 f i pos T) by done.
  destruct (block_at (f_extents f) (p / BlockSize (fs_sb s))) as [q|] eqn:Eq; [done|].
  assert (p / BlockSize (fs_sb s) ∈ missing) as [k Hk]%list_elem_of_lookup.
  { apply list_elem_of_filter. split; [done|]. apply elem_of_seqZ.
    assert (off / BlockSize (fs_sb s) <= p / BlockSize (fs_sb s) <= (fin - 1) / BlockSize (fs_sb s))
      by (split; apply Z.div_le_mono; lia). lia. }
  destruct Ha as [[Hnd _] [_ Hlen] _ _].
  destruct (lookup_lt_is_Some_2 blocks k) as [q Hq]; [rewrite Hlen; by eapply lookup_lt_Some|].
  assert (block_at (zip_with one_leaf missing blocks) (p / BlockSize (fs_sb s)) = Some q) as ->; [|done].
  apply block_at_new; [done|done|by exists k].
Qed.

(** The blocks are there and zeroed; the map and the size follow. *)
Lemma map_range_taken (s s2 : fsys D) f i pos T off fin now blocks :
  file_at s f i pos T -> 0 <= off < fin -> fin < 2 ^ 63 -> fin <= 2 ^ 32 * BlockSize (fs_sb s) -> fin - off < 2 ^ 40 ->
  let missing := unmapped (fs_sb s) f off fin in
  length blocks = length missing -> grew s s2 blocks -> file_at s2 f i pos T -> same_bytes s f s2 f ->
  (forall b k, b ∈ blocks -> 0 <= k < BlockSize (fs_sb s) -> dev_byte (fs_dev s2) (fsOffset + b * BlockSize (fs_sb s) + k) = 0) ->
  let newSize := Z.max (f_size f) fin in
  let run := (do! _ := zeroSlackLocked fsOffset (f_size f) newSize in
              commitLocked fsOffset (merged f missing blocks) newSize now) (s2, f) in
  (exists s' f', run = (Ok tt, (s', f')) /\ mapped_ok s f pos off fin s' f') \/
  (exists e s', run = (Err e, (s', f)) /\ file_at s' f i pos T /\ same_bytes s f s' f /\ touched s s' f pos /\
     no_space s f (zlen missing)).
Proof.
  intros Hf Ho Hfin H32 H40 missing Hlen Hg Hf2 Hsame2 Hzero newSize run.
  destruct (unmapped_ok s f i pos T off fin Hf Ho H32 H40) as (_ & Hnd & Hm). fold missing in Hnd, Hm.
  pose proof Hf as []. pose proof (iv_fits _ _ fa_inv0) as (Hbs & _).
  destruct (geo_eq _ _ (gr_preserves _ _ _ _ Hg)) as (E1 & E2 & _).
  assert (touched s s2 f pos) as Ht2.
  { split; [apply Hg|]. eapply reads_weaken; [|apply Hg]. intros o n (_ & [Hn _] & Hfr). split; [done|].
    intros b Hb. by apply Hfr, Hg. }
  assert (forall b, is_free s2 b -> is_free s b) as Hfree by (intros b; rewrite (gr_free _ _ _ _ Hg); by intros [? _]).
  destruct (grow_ok s2 f i pos T (merged f missing blocks) newSize now Hf2) as [(s' & i' & T' & Hr & Hf' & Hsame & Ht')|
    (e & s' & Hr & Hf' & Hsame & Ht' & Hwhy)]; [lia| | |].
  - intros s3 Hds Hsb Hf3. pose proof (grew_additions s s2 s3 f i pos T missing blocks Hf Hg Hds Hsb Hnd Hlen Hm) as Had. split.
    + eapply merged_new_map; eauto; [lia|]. intros b Hb. rewrite Hsb, E1.
      destruct (unmapped_elem _ _ _ _ _ Hbs Ho Hb) as (_ & ? & _). lia.
    + intros p. eapply merged_content; eauto. rewrite Hsb, E1. intros b k Hb Hk.
      pose proof (own_keeps s2 s3 f i pos T b k Hf2 Hds) as Hown. rewrite E1 in Hown. rewrite Hown; auto.
      * apply Hg. by right.
      * intros lb Hlb. by apply (ad_fresh _ _ _ _ _ _ Had b lb).
  - left. exists s', (with_map f (merged f missing blocks) newSize). split; [done|]. split; [by exists i', T'|]. split; [done|].
    assert (additions s2 f pos T missing blocks) as Had
      by (apply (grew_additions s s2 s2 f i); auto; apply data_step_refl; apply Hf2).
    cbn [with_map f_extents f_size]. split; [|split; [|split]].
    + intros p Hp. apply (merged_covers s2 s f i pos T off fin blocks p); auto.
    + intros p. by rewrite Hsame, Hsame2.
    + by eapply touched_trans.
    + intros lb b Hb. destruct (merged_cases s2 f i pos T missing blocks lb b Hf2 Had Hb) as [?|(k & _ & Hk)]; [by left|right].
      apply Hg. by eapply list_elem_of_lookup_2.
  - right. exists e, s'. split; [done|]. split; [done|]. split; [intros p; by rewrite Hsame, Hsame2|]. split; [by eapply touched_trans|].
    right. destruct Hwhy as [Hc|Hn]; [right|left].
    + rewrite E1 in Hc. unfold merged in Hc. pose proof (coalesce_length (f_extents f ++ zip_with one_leaf missing blocks)) as Hcl.
      assert (zlen (zip_with one_leaf missing blocks) = zlen missing) as Hzl by (unfold zlen; by rewrite length_zip_with, Hlen, Nat.min_id).
      rewrite zlen_app, Hzl in Hcl. lia.
    + exists blocks. split; [unfold zlen; lia|]. intros b Hb. destruct (decide (b ∈ blocks)); [done|]. destruct (Hn b).
      by apply (gr_free _ _ _ _ Hg).
Qed.

(** Some blocks of the range have to be allocated. *)
Lemma map_range_missing (s : fsys D) f i pos T off fin now :
  file_at s f i pos T -> 0 <= off < fin -> fin < 2 ^ 63 -> fin <= 2 ^ 32 * BlockSize (fs_sb s) -> fin - off < 2 ^ 40 ->
  let missing := unmapped (fs_sb s) f off fin in
  let newSize := Z.max (f_size f) fin in
  let run := (do! phys := mwrap "ext4: alloc blocks" (on_fs (allocBlocks fsOffset (w32 (zlen missing)))) in
              do! _ := on_fs (zero_blocks fsOffset phys (BlockSize (fs_sb s))) in
              do! leaves := mlift (new_leaves missing phys) in
              do! _ := zeroSlackLocked fsOffset (f_size f) newSize in
              commitLocked fsOffset (coalesceExtents (f_extents f ++ leaves)) newSize now) (s, f) in
  (exists s' f', run = (Ok tt, (s', f')) /\ mapped_ok s f pos off fin s' f') \/
  (exists e s', run = (Err e, (s', f)) /\ file_at s' f i pos T /\ same_bytes s f s' f /\ touched s s' f pos /\
     no_space s f (zlen missing)).
Proof.
  intros Hf Ho Hfin H32 H40 missing newSize run. pose proof Hf as []. 
  destruct (unmapped_ok s f i pos T off fin Hf Ho H32 H40) as (Hml & Hnd & Hm). fold missing in Hml, Hnd, Hm.
  unfold run. rewrite w32_small by lia.
  destruct (alloc_inv fsOffset Hwritable s (zlen missing) fa_inv0 (zlen_nonneg _)) as [(blocks & s1 & Ha & Hl & Ht)|(e & Ha & Hex)].
  2:{ right. eexists _, _. split; [apply mbnd_fail, mwrap_fail; unfold on_fs; rewrite Ha; reflexivity|].
      split; [by apply file_at_cursor|]. split; [done|]. split; [|by left].
      eapply step_touched; [by apply (cursor_step fsOffset (fun _ _ => True))|done]. }
  erewrite mbnd_run by (apply mwrap_run; unfold on_fs; rewrite Ha; reflexivity).
  destruct (zeroed_ok s s1 f i pos T blocks Hf Ht) as (s2 & Hz & Hg & Hf2 & Hsame2 & Hzero).
  erewrite mbnd_run by (unfold on_fs; rewrite Hz; reflexivity).
  assert (length blocks = length missing) as Hlen by (unfold zlen in Hl; lia).
  erewrite mbnd_run by (apply mlift_run, new_leaves_ok; [|exact Hlen]; eapply Forall_impl; [exact Hm|]; by intros b [? _]).
  cbv beta. fold (merged f missing blocks). by apply (map_range_taken s s2 f i pos T off fin now blocks).
Qed.

Lemma map_range_ok (s : fsys D) f i pos T off fin now :
  file_at s f i pos T -> 0 <= off < fin -> fin <= 2 ^ 32 * BlockSize (fs_sb s) -> fin - off < 2 ^ 40 ->
  let run := mapRangeLocked fsOffset off fin now (s, f) in
  (exists s' f', run = (Ok tt, (s', f')) /\ mapped_ok s f pos off fin s' f') \/
  (exists e s', run = (Err e, (s', f)) /\ file_at s' f i pos T /\ same_bytes s f s' f /\ touched s s' f pos /\
     no_space s f (zlen (unmapped (fs_sb s) f off fin))).
Proof.
  intros Hf Ho H32 H40 run. pose proof Hf as []. pose proof (iv_fits _ _ fa_inv0) as Hfit. pose proof Hfit as (Hbs & _).
  pose proof (inv_layout _ _ fa_inv0) as [_ Hbs1]. pose proof (range_count _ _ _ Hbs1 Ho H40) as Hcnt.
  assert (fin < 2 ^ 63) as Hfin by nia.
  assert (missing_from fsOffset (Z.to_nat ((fin - 1) / BlockSize (fs_sb s) - off / BlockSize (fs_sb s) + 1)) f
    (off / BlockSize (fs_sb s)) = unmapped (fs_sb s) f off fin) as Hmiss.
  { pose proof (Z.div_mod (fin - 1) (BlockSize (fs_sb s)) ltac:(lia)). pose proof (Z.mod_pos_bound (fin - 1) (BlockSize (fs_sb s)) Hbs).
    rewrite (missing_from_spec _ (fs_sb s)); [|done|done|apply Z.div_pos; lia|]; rewrite Z2Nat.id by lia; [done|nia]. }
  unfold run, mapRangeLocked. erewrite (mbnd_run the_file) by reflexivity. cbv zeta. rewrite (fm_bs _ _ fa_map0), Hmiss.
  destruct (unmapped (fs_sb s) f off fin) as [|b0 l] eqn:Eu.
  - by apply (map_range_mapped s f i pos T off fin now).
  - rewrite <- Eu. by apply (map_range_missing s f i pos T off fin now).
Qed.

(** * Positional writes *)

Lemma write_ok (s : fsys D) f i pos T p off now :
  file_at s f i pos T -> bytes_ok p -> 0 < zlen p < 2 ^ 40 -> 0 <= off -> off + zlen p <= 2 ^ 32 * BlockSize (fs_sb s) ->
  let run := WriteAt fsOffset p off now (s, f) in
  (exists s' f' i' T', run = (Ok (zlen p), (s', f')) /\ file_at s' f' i' pos T' /\
     f_size f' = Z.max (f_size f) (off + zlen p) /\ f_extents f' <> [] /\
     (forall k, file_byte s' f' k = upd_bytes (file_byte s f) off p k) /\ touched s s' f pos) \/
  (exists e s', run = (Err e, (s', f)) /\ file_at s' f i pos T /\ same_bytes s f s' f /\ touched s s' f pos /\
     no_space s f (zlen (unmapped (fs_sb s) f off (off + zlen p)))).
Proof.
  intros Hf Hp Hl Ho H32 run. pose proof Hf as []. pose proof (iv_fits _ _ fa_inv0) as (Hbs & _).
  assert (off + zlen p < 2 ^ 63) as H63 by nia.
  unfold run, WriteAt. erewrite (mbnd_run the_file) by reflexivity. rewrite (fm_open _ _ fa_map0).
  rewrite ltb_false, eqb_false by lia. rewrite i64_small by lia. cbv zeta. rewrite ltb_false by lia.
  destruct (map_range_ok s f i pos T off (off + zlen p) now Hf) as [(s1 & f1 & Hr & (i1 & T1 & Hf1) & Hsz & Hcov & Hsame & Ht & Hbl)|
    (e & s' & Hr & Hf' & Hsame & Ht & Hwhy)]; [lia|lia|lia| |].
  2:{ right. exists e, s'. split; [by apply mbnd_fail|]. done. }
  erewrite mbnd_run by exact Hr. destruct (geo_eq _ _ (to_preserves _ _ _ _ Ht)) as (E1 & E2 & _).
  destruct (write_loop_ok fsOffset Hwritable (S (length p)) s1 f1 p off 0) as (s2 & Hrun & Hsb & (Hw & _) & Hds).
  { apply Hf1. } { apply Hf1. } { apply Hf1. } { done. } { done. } { lia. } { unfold zlen. lia. }
  { intros q Hq. rewrite E1. apply Hcov. lia. }
  rewrite Z.add_0_r, Z.sub_0_r, zslice_all in Hw by lia.
  left. exists s2, f1, i1, T1. split; [done|]. split; [by eapply file_at_own|]. split; [done|].
  split; [intros Hnil; specialize (Hcov off ltac:(lia)); by rewrite Hnil in Hcov|]. split.
  - intros k. assert (upd_bytes (file_byte s1 f1) off p k = upd_bytes (file_byte s f) off p k) as <- by (apply upd_bytes_ext, Hsame).
    unfold file_byte at 1. rewrite Hsb. unfold upd_bytes. destruct (0 <=? k) eqn:E0; cbn [andb]; zbool.
    2:{ rewrite (leb_false off) by lia. cbn [andb]. unfold file_byte. by rewrite leb_false by lia. }
    destruct (k <? f_size f1) eqn:Ek; zbool.
    + rewrite Hw by done. unfold upd_bytes, file_byte. rewrite (leb_true 0), (ltb_true k (f_size f1)) by lia. done.
    + rewrite (ltb_false k (off + zlen p)) by lia. rewrite andb_false_r. unfold file_byte.
      by rewrite (ltb_false k (f_size f1)), andb_false_r by lia.
  - destruct Ht as [P1 R1]. split; [by eapply preserves_trans; [|apply Hds]|].
    eapply reads_trans; [done|done|]. eapply reads_weaken; [|apply Hds]. intros o n (_ & [Hn Hof] & Hfr).
    split; [done|]. rewrite (off_block_eq _ _ E1). intros lb b [Hb|Hb]%Hbl; [by apply (Hof lb)|by apply Hfr].
Qed.

(** * Opening the file again *)

Lemma file_at_reopen (s : fsys D) f i pos T :
  file_at s f i pos T -> f_size f <= BlocksCount (fs_sb s) * BlockSize (fs_sb s) -> (0 < f_size f -> f_extents f <> []) ->
  newFile (fs_dev s) fsOffset (fs_sb s) i = Ok f.
Proof.
  intros Hf Hsz Hne. destruct (file_inode _ _ _ _ _ Hf) as (_ & Hnum & _). pose proof Hf as [].
  destruct fa_tree0 as (exts & Ht & Hs). pose proof (Ht (fs_dev s) ltac:(done)) as Hp.
  pose proof (iv_fits _ _ fa_inv0) as (Hbs & Ho & Hc & Hend). pose proof (extent_mapped_flags i fa_mapped0) as Hfl.
  pose proof fa_mapped0 as (_ & Hl & Hsz2 & F1 & F2).
  unfold newFile, isInline. rewrite Hfl. cbn [rbind]. rewrite F1. unfold readExtents. rewrite Hfl. cbn [rbind].
  rewrite F1, F2. cbn [negb]. rewrite subslice_ok by (unfold inodeOffBlock; lia). cbn [rbind].
  replace (inodeOffBlock + 60 - inodeOffBlock) with 60 by done. fold (node_of i). rewrite Hp. cbn [rbind].
  unfold declaredBytes. rewrite !eqb_false by lia. cbn [orb].
  rewrite (ltb_false (MaxInt64 / _)) by (apply Z.div_le_lower_bound; unfold MaxInt64; lia).
  rewrite (ltb_false _ 0), (ltb_false _ (in_size i)) by lia. cbn [orb]. rewrite fa_isize0, i64_small by lia.
  assert ((0 <? f_size f) && (zlen exts =? 0) = false) as ->.
  { destruct (0 <? f_size f) eqn:E; [|done]. zbool. apply eqb_false. intros Hz. apply (Hne E). rewrite <- Hs.
    destruct exts; [by apply Permutation_nil, symmetry, sort_by_perm|]. rewrite zlen_cons in Hz. pose proof (zlen_nonneg exts). lia. }
  cbn [andb]. rewrite Hs, Hnum, <- (fm_bs _ _ fa_map0). destruct fa_inline0 as [E1 E2]. pose proof (fm_open _ _ fa_map0) as E3.
  destruct f as [fin fex fsz fbs fnum fcl fro]. cbn in *. by subst.
Qed.

End files.
