(* ===== verification/TruncateSpec.v ===== *)
(** Truncation end to end ([src/writeat.go]): the file keeps its bytes up to the
    new size, reads zeros from there on, and the blocks behind the new end are
    free again. *)

From S2P Require Import Prelude Bytes Crc Device Superblock Bgd Bitmap GoLib Extent Limits Inode Inline FileRead BlockMap Dir Alloc Image Lookup Namespace AllocSpec JournalSpec OnDisk NamespaceSpec InodeMap Fsck FsInv Fs FileWrite FileWriteSpec WriteAtSpec.
From Stdlib Require Import Sorting.Sorted.

(** * Cutting a map *)

Definition kept (K : Z) (exts : list extentLeaf) : list extentLeaf := e ← exts; (cut_leaf K e).1.
Definition freed (K : Z) (exts : list extentLeaf) : list Z := e ← exts; (cut_leaf K e).2.

Section cut.
Context (K : Z).


(** What is left of a leaf. *)
Lemma cut_kept e e' :
  leaf_in e -> e' ∈ (cut_leaf K e).1 ->
  leaf_in e' /\ LogBlock e' = LogBlock e /\ PhysBlock e' = PhysBlock e /\ Count e' = Z.min (Count e) (K - LogBlock e).
Proof.
  intros [(H1 & H2 & H3) H4] He. unfold cut_leaf in He. destruct (K <=? LogBlock e) eqn:E1; [by apply not_elem_of_nil in He|].
  destruct (_ <=? K) eqn:E2; zbool; apply list_elem_of_singleton in He as ->.
  - split; [done|]. split; [done|]. split; [done|]. lia.
  - unfold leaf_in, leaf_ok. cbn. rewrite w16_small by lia. lia.
Qed.

Lemma cut_covers e lb : leaf_in e -> block_at (cut_leaf K e).1 lb = if lb <? K then block_at [e] lb else None.
Proof.
  intros [(H1 & H2 & H3) H4]. unfold cut_leaf. destruct (K <=? LogBlock e) eqn:E1; [|destruct (_ <=? K) eqn:E2]; zbool; cbn [fst block_at];
    unfold covers; cbn [LogBlock PhysBlock Count]; rewrite ?w16_small by lia;
    destruct (lb <? K) eqn:E3, (LogBlock e <=? lb) eqn:E4; zbool; cbn [andb]; try done;
    repeat match goal with |- context [lb <? ?x] => destruct (lb <? x) eqn:?; zbool end; done || lia.
Qed.

Lemma cut_freed e p :
  leaf_in e -> p ∈ (cut_leaf K e).2 <-> exists lb, K <= lb /\ covers e lb = true /\ p = PhysBlock e + (lb - LogBlock e).
Proof.
  intros [(H1 & H2 & H3) H4].
  assert (forall n, 0 <= n -> p ∈ ((fun k => w64 (PhysBlock e + k)) <$> seqZ n (Count e - n)) <->
    exists lb, LogBlock e + n <= lb /\ covers e lb = true /\ p = PhysBlock e + (lb - LogBlock e)) as Hfr.
  { intros n Hn. rewrite list_elem_of_fmap. split.
    - intros (k & -> & Hk%elem_of_seqZ). exists (LogBlock e + k). rewrite covers_iff, w64_small by lia. split; [lia|]. split; lia.
    - intros (lb & Hlb & Hc%covers_iff & ->). exists (lb - LogBlock e). rewrite w64_small by lia. split; [done|]. apply elem_of_seqZ. lia. }
  unfold cut_leaf. destruct (K <=? LogBlock e) eqn:E1; [|destruct (_ <=? K) eqn:E2]; zbool; cbn [snd].
  - rewrite Hfr by lia. split; intros (lb & ? & Hc & ?); exists lb; pose proof (proj1 (covers_iff _ _) Hc); split; auto; lia.
  - split; [by intros ?%not_elem_of_nil|]. intros (lb & ? & Hc%covers_iff & _). lia.
  - rewrite Hfr by lia. by replace (LogBlock e + (K - LogBlock e)) with K by lia.
Qed.

Lemma kept_block exts lb : Forall leaf_in exts -> block_at (kept K exts) lb = if lb <? K then block_at exts lb else None.
Proof.
  intros Hl. induction Hl as [|e exts He Hl IH]; [by destruct (lb <? K)|].
  unfold kept. rewrite bind_cons, block_at_app. fold (kept K exts). rewrite IH, cut_covers by done.
  destruct (lb <? K); [|done]. cbn [block_at]. by destruct (covers e lb).
Qed.

Lemma kept_map exts : map_ok exts -> map_ok (kept K exts).
Proof.
  intros [Hl Hc]%map_ok_chain. apply map_ok_chain. split.
  - apply Forall_forall. intros e' (e & He' & He)%list_elem_of_bind. rewrite Forall_forall in Hl. by eapply cut_kept; [apply Hl|].
  - induction Hc as [|e exts Ha Hc IH]; [constructor|]. apply Forall_cons in Hl as [He Hl]. unfold kept. rewrite bind_cons. fold (kept K exts).
    assert (forall e', e' ∈ (cut_leaf K e).1 -> Forall (before e') (kept K exts)) as Hbef.
    { intros e' He'. destruct (cut_kept e e' He He') as (_ & L1 & _ & C1). apply Forall_forall.
      intros e2' (e2 & He2' & He2)%list_elem_of_bind. rewrite Forall_forall in Hl, Ha.
      destruct (cut_kept e2 e2' (Hl e2 He2) He2') as (_ & L2 & _ & C2). specialize (Ha e2 He2). unfold before in *. lia. }
    assert ((cut_leaf K e).1 = [] \/ exists e', (cut_leaf K e).1 = [e']) as [->|[e' Ee]]; [|by apply IH|].
    { unfold cut_leaf. destruct (K <=? _); [by left|right]. destruct (_ <=? K); cbn; eauto. }
    rewrite Ee in *. cbn [app]. constructor; [apply Hbef; by left|by apply IH].
Qed.

Lemma freed_elem exts p :
  map_ok exts -> p ∈ freed K exts <-> exists lb, K <= lb /\ block_at exts lb = Some p.
Proof.
  intros Hm. pose proof Hm as [Hl _]%map_ok_chain. rewrite Forall_forall in Hl. unfold freed. rewrite list_elem_of_bind. split.
  - intros (e & Hp & He). apply cut_freed in Hp as (lb & ? & Hc & ->); [|auto]. exists lb. split; [done|].
    apply block_at_covers; [apply Hm|done|done].
  - intros (lb & ? & (e & He & Hc & ->)%block_at_Some). exists e. split; [|done]. apply cut_freed; eauto.
Qed.

Lemma freed_nodup exts : map_ok exts -> runs_disjoint PhysBlock exts -> NoDup (freed K exts).
Proof.
  intros [Hl _]%map_ok_chain Hd. induction Hd as [|e exts Ha Hd IH]; [constructor|]. apply Forall_cons in Hl as [He Hl].
  unfold freed. rewrite bind_cons. fold (freed K exts). apply NoDup_app. split; [|split; [|by apply IH]].
  - destruct He as [(H1 & H2 & H3) _].
    assert (forall n, 0 <= n -> NoDup ((fun k => w64 (PhysBlock e + k)) <$> seqZ n (Count e - n))) as Hn.
    { intros n Hn. apply NoDup_fmap_2_strong; [|apply NoDup_seqZ]. intros x y Hx%elem_of_seqZ Hy%elem_of_seqZ.
      rewrite !w64_small by lia. lia. }
    unfold cut_leaf. destruct (K <=? _) eqn:E; [by apply Hn|]. destruct (_ <=? K); [constructor|]. zbool. apply Hn. lia.
  - intros p Hp (e2 & Hp2 & He2)%list_elem_of_bind. rewrite Forall_forall in Hl, Ha.
    apply cut_freed in Hp as (lb & _ & Hc%covers_iff & ->); [|done]. apply cut_freed in Hp2 as (lb2 & _ & Hc2%covers_iff & Heq); [|auto].
    specialize (Ha e2 He2). unfold disjoint_on in Ha. lia.
Qed.

End cut.

Lemma kept_length K exts : zlen (kept K exts) <= zlen exts.
Proof.
  induction exts as [|e exts IH]; [done|]. unfold kept. rewrite bind_cons. fold (kept K exts). rewrite zlen_app, zlen_cons.
  enough (zlen (cut_leaf K e).1 <= 1) by lia. unfold cut_leaf. destruct (K <=? _); [done|]. by destruct (_ <=? K).
Qed.

Section files.
Context {D : Type} `{BlockDevLaws D} `{SortSlice} `{Safeio}.
Context (fsOffset : Z).
Hypothesis Hwritable : dev_writable D.

Notation fs_inv := (fs_inv fsOffset).
Notation is_data := (is_data fsOffset).
Notation is_free := (is_free fsOffset).
Notation preserves := (preserves fsOffset).
Notation reads := (reads fsOffset).
Notation data_step := (data_step fsOffset).
Notation file_at := (file_at fsOffset).
Notation file_byte := (file_byte fsOffset).
Notation touched := (touched fsOffset).

(** * Releasing the blocks *)

Lemma free_list_ok (s : fsys D) f i pos T blocks :
  file_at s f i pos T -> NoDup blocks ->
  (forall b, b ∈ blocks -> is_data s b /\ clear_of fsOffset (fs_sb s) pos b /\ (b ∉ T) /\ (forall lb, block_at (f_extents f) lb <> Some b)) ->
  exists s', free_list fsOffset blocks s = (Ok tt, s') /\ file_at s' f i pos T /\ preserves s s' /\
    reads (fun _ _ => True) s s' /\ (forall b, is_free s' b <-> is_free s b \/ b ∈ blocks).
Proof.
  intros Hf Hnd. revert s Hf. induction Hnd as [|b blocks Hni Hnd IH]; intros s Hf Hb.
  { exists s. split; [done|]. split; [done|]. split; [apply preserves_refl, Hf|]. split; [by intros ???|]. set_solver. }
  destruct (Hb b ltac:(by left)) as (Hd & Hcl & HbT & Hbf).
  destruct (free_inv fsOffset Hwritable s b (fa_inv _ _ _ _ _ _ Hf) Hd) as (s1 & Hr & [P1 R1 F1 D1]).
  destruct (geo_eq _ _ _ P1) as (E1 & E2 & _).
  assert (file_at s1 f i pos T) as Hf1.
  { eapply (file_at_frame fsOffset (fun _ _ => True)); eauto.
    - intros x Hx [HxT|[lb Hlb]]; apply D1; auto; [by intros ->|intros ->; by apply (Hbf lb)].
    - intros x [Hx| ->]%F1; [by apply (fa_free _ _ _ _ _ _ Hf)|done]. }
  destruct (IH s1 Hf1) as (s2 & Hr2 & Hf2 & P2 & R2 & F2).
  { intros x Hx. destruct (Hb x ltac:(by right)) as (Hxd & Hxc & HxT & Hxf). rewrite (clear_of_eq _ _ _ E1 E2).
    split; [|done]. apply D1; [done|]. by intros ->. }
  exists s2. cbn [free_list]. erewrite mbnd_run by (by apply mwrap_run). split; [done|]. split; [done|].
  split; [by eapply preserves_trans|]. split; [by eapply reads_trans|]. intros x. rewrite F2, F1, elem_of_cons. tauto.
Qed.

(** * Cutting the last block *)

Definition blocks_of (bs size : Z) : Z := (size + bs - 1) / bs.

Lemma blocks_of_spec bs size : 0 < bs -> 0 <= size ->
  0 <= blocks_of bs size /\ size <= blocks_of bs size * bs /\ blocks_of bs size * bs < size + bs /\
  (size mod bs = 0 -> blocks_of bs size * bs = size) /\ (size mod bs <> 0 -> blocks_of bs size = size / bs + 1).
Proof.
  intros Hbs Hs. unfold blocks_of. pose proof (Z.div_mod (size + bs - 1) bs ltac:(lia)) as Hd.
  pose proof (Z.mod_pos_bound (size + bs - 1) bs Hbs) as Hm. pose proof (Z.div_mod size bs ltac:(lia)) as Hd2.
  pose proof (Z.mod_pos_bound size bs Hbs) as Hm2. assert (0 <= (size + bs - 1) / bs) by (apply Z.div_pos; lia).
  split; [done|]. split; [lia|]. split; [lia|]. split; intros Hz.
  - replace ((size + bs - 1) / bs) with (size / bs); [lia|]. apply (Z.div_unique _ _ _ (bs - 1)); lia.
  - symmetry. apply (Z.div_unique _ _ _ (size mod bs - 1)); lia.
Qed.

Lemma cut_slack_ok (s : fsys D) f i pos T size :
  file_at s f i pos T -> 0 <= size ->
  let bs := BlockSize (fs_sb s) in
  exists s',
    (if size mod bs =? 0 then ret tt else
     match locateLocked fsOffset f size with
     | None => ret tt
     | Some (phys, avail) =>
         let n := Z.min (bs - size mod bs) avail in
         mwrap "ext4: zero slack" (on_fs (on_dev (write_at phys (zeros n))))
     end) (s, f) = (Ok tt, (s', f)) /\ fs_sb s' = fs_sb s /\ data_step (off_file fsOffset (fs_sb s) f) s s' /\
    forall k, 0 <= k -> content (fs_dev s') fsOffset (fs_sb s) (f_extents f) k =
      if (size <=? k) && (k <? blocks_of bs size * bs) then 0 else content (fs_dev s) fsOffset (fs_sb s) (f_extents f) k.
Proof.
  intros Hf Hs bs. pose proof Hf as []. pose proof (iv_fits _ _ fa_inv) as (Hbs & _). fold bs in Hbs.
  assert (forall P, data_step P s s) as Hid by (intros; by apply data_step_refl).
  destruct (blocks_of_spec bs size Hbs Hs) as (K0 & K1 & K2 & K3 & K4).
  pose proof (Z.div_mod size bs ltac:(lia)) as Hd. pose proof (Z.mod_pos_bound size bs Hbs) as Hm.
  destruct (size mod bs =? 0) eqn:Em; zbool.
  { exists s. split; [done|]. split; [done|]. split; [done|]. intros k Hk. rewrite K3 by done.
    destruct (size <=? k) eqn:E1, (k <? size) eqn:E2; zbool; done || lia. }
  specialize (K4 Em). destruct (block_at (f_extents f) (size / bs)) as [q|] eqn:Eq.
  2:{ rewrite (locateLocked_hole fsOffset (fs_sb s)) by done. exists s. split; [done|]. split; [done|]. split; [done|].
      intros k Hk. destruct (_ && _) eqn:E; [|done]. apply andb_true_iff in E as [E1 E2]. zbool. unfold content. fold bs.
      replace (k / bs) with (size / bs); [by rewrite Eq|]. apply (Z.div_unique _ _ _ (k - size / bs * bs)); [left|]; nia. }
  destruct (write_chunk fsOffset Hwritable s f size (zeros bs) q) as (phys & avail & Hl & Hav & (e & He & Hc & Ea) & Hwc);
    auto; [apply bytes_ok_zeros|rewrite zlen_zeros; lia|].
  rewrite Hl. rewrite zlen_zeros in Hwc by lia. apply covers_iff in Hc. fold bs in Hc, Ea.
  assert (bs - size mod bs <= avail) as Hge by nia. cbv zeta. rewrite Z.min_l by lia.
  destruct (Hwc (bs - size mod bs) ltac:(lia)) as (s' & Hw & Hsb & (Hcont & _) & Hds). rewrite zslice_zeros in Hw, Hcont by lia.
  exists s'. split; [apply mwrap_run; unfold on_fs; by rewrite Hw|]. split; [done|]. split; [done|].
  intros k Hk. rewrite Hcont by done. unfold upd_bytes. rewrite zlen_zeros by lia.
  replace (size + (bs - size mod bs)) with (blocks_of bs size * bs) by nia.
  destruct (_ && _); [apply u8_zeros|done].
Qed.

(** * Truncation *)

Lemma kept_new_map (s : fsys D) f i pos T size :
  let K := blocks_of (BlockSize (fs_sb s)) size in
  file_at s f i pos T -> 0 <= size < 2 ^ 63 -> new_map fsOffset s (with_map f (kept K (f_extents f)) size) pos T.
Proof.
  intros K [] Hs. pose proof (iv_fits _ _ fa_inv) as (Hbs & _). destruct (blocks_of_spec _ size Hbs ltac:(lia)) as (K0 & K1 & K2 & _).
  fold K in K0, K1, K2. pose proof fa_map as [M1 M2 M3 M4 M5]. pose proof (proj1 (proj1 (map_ok_chain _) M3)) as Hl.
  assert (forall lb p, block_at (kept K (f_extents f)) lb = Some p -> lb < K /\ block_at (f_extents f) lb = Some p) as Hb.
  { intros lb p Hb. rewrite kept_block in Hb by done. destruct (lb <? K) eqn:E; [|done]. by zbool. }
  pose proof (kept_map K _ M3) as Hkm. split; cbn [with_map f_extents f_size]; auto.
  - split; auto; cbn [with_map f_extents].
    + apply injective_disjoint; [done|]. intros l1 l2 p [_ H1']%Hb [_ H2']%Hb. by apply (block_at_inj (fs_sb s) f l1 l2 p).
    + apply blocks_range; [done|]. intros lb p [_ Hp]%Hb. destruct (is_data_block _ _ _ (fa_owns lb p Hp)). lia.
  - intros lb p [_ Hp]%Hb. by apply (fa_owns lb).
  - intros lb p [Hlt _]%Hb. nia.
  - intros lb p [_ Hp]%Hb. by apply (fa_apart lb).
Qed.

(** The outcomes of a truncation. *)
Definition truncated (s : fsys D) (f : ext4File) (pos size : Z) (s' : fsys D) (f' : ext4File) : Prop :=
  (exists i' T', file_at s' f' i' pos T') /\ f_size f' = size /\
  (forall k, file_byte s' f' k = if k <? size then file_byte s f k else 0) /\ touched s s' f pos /\
  (forall lb p, blocks_of (BlockSize (fs_sb s)) size <= lb -> block_at (f_extents f) lb = Some p -> is_free s' p).

Definition cut_failed (s : fsys D) (f : ext4File) (pos size : Z) (s' : fsys D) : Prop :=
  (forall k, file_byte s' f k =
     if (size <=? k) && (k <? blocks_of (BlockSize (fs_sb s)) size * BlockSize (fs_sb s)) then 0 else file_byte s f k) /\
  touched s s' f pos /\ no_space fsOffset s f 0.

Lemma cut_done (s s1 s2 s3 : fsys D) f i pos T size :
  let K := blocks_of (BlockSize (fs_sb s)) size in
  let f' := with_map f (kept K (f_extents f)) size in
  file_at s f i pos T -> 0 <= size < f_size f -> fs_sb s1 = fs_sb s ->
  data_step (off_file fsOffset (fs_sb s) f) s s1 ->
  (forall k, 0 <= k -> content (fs_dev s1) fsOffset (fs_sb s) (f_extents f) k =
     if (size <=? k) && (k <? K * BlockSize (fs_sb s)) then 0 else content (fs_dev s) fsOffset (fs_sb s) (f_extents f) k) ->
  new_map fsOffset s1 f' pos T -> rewrote fsOffset s1 s2 pos T ->
  preserves s2 s3 -> reads (fun _ _ => True) s2 s3 ->
  (forall k, file_byte s3 f' k = if k <? size then file_byte s f k else 0) /\ touched s s3 f pos.
Proof.
  intros K f' Hf Hs Hsb Hds Hcont [N1 N2 N3 N4 N5] [R1 R2 R3 R4] P3 Q3. pose proof Hf as [].
  pose proof (ds_preserves _ _ _ _ Hds) as P1. pose proof (pv_inv _ _ _ P1) as Hinv1. pose proof (iv_fits _ _ fa_inv) as (Hbs & _).
  destruct (geo_eq _ _ _ R1) as (E1 & E2 & _). destruct (geo_eq _ _ _ P3) as (E3 & _).
  pose proof (proj1 (proj1 (map_ok_chain _) (fm_map _ _ fa_map))) as Hl.
  destruct (blocks_of_spec _ size Hbs ltac:(lia)) as (K0 & K1 & K2 & _). fold K in K0, K1, K2.
  assert (touched s s1 f pos) as Ht1 by (eapply step_touched; [exact Hds|by intros o n (_ & ? & _)]). split.
  - intros k. unfold WriteAtSpec.file_byte. cbn [f' with_map f_size f_extents].
    rewrite (content_frame fsOffset (fun _ _ => True) s2 s3); [|done|apply R1|done|].
    2:{ intros lb p Hp. split; [|done]. apply R3; [by apply (N2 lb)|by apply (N5 lb)]. }
    rewrite (content_frame fsOffset _ s1 s2 _ k R2 Hinv1 E1).
    2:{ intros lb p Hp. split; [by apply (N2 lb)|]. rewrite Hsb in *. split; [done|]. split.
        - destruct (N5 lb p Hp) as [[_ Ho] _]. unfold off_block, sep in *. lia.
        - intros b Hb. apply off_other; [done|]. intros ->. apply (data_not_free fsOffset s1 p); [by apply (N2 lb)|done]. }
    destruct (0 <=? k) eqn:Ek, (k <? size) eqn:Es; cbn [andb]; try done. zbool. rewrite (ltb_true k (f_size f)) by lia.
    rewrite Hsb. transitivity (content (fs_dev s1) fsOffset (fs_sb s) (f_extents f) k).
    + unfold content. rewrite kept_block by done. rewrite ltb_true; [done|]. apply Z.div_lt_upper_bound; lia.
    + rewrite Hcont by done. by rewrite (leb_false size) by lia.
  - eapply touched_trans; [exact Ht1| |intros b; by apply Hds]. split; [by eapply preserves_trans|].
    eapply reads_trans; [done| |eapply reads_weaken; [|exact Q3]; done].
    eapply reads_weaken; [|exact R2]. intros o n (H1' & [H2' _] & H3'). auto.
Qed.

Lemma shrink_ok (s : fsys D) f i pos T size now :
  file_at s f i pos T -> 0 <= size < f_size f -> size + BlockSize (fs_sb s) < 2 ^ 63 ->
  (exists s' f', shrinkLocked fsOffset size now (s, f) = (Ok tt, (s', f')) /\ truncated s f pos size s' f') \/
  (exists e s', shrinkLocked fsOffset size now (s, f) = (Err e, (s', f)) /\ file_at s' f i pos T /\ cut_failed s f pos size s').
Proof.
  intros Hf Hs H63. pose proof Hf as []. pose proof (iv_fits _ _ fa_inv) as (Hbs & _). pose proof (fm_map _ _ fa_map) as Hmo.
  destruct (blocks_of_spec _ size Hbs ltac:(lia)) as (K0 & K1 & K2 & _).
  unfold shrinkLocked. erewrite (mbnd_run the_file) by reflexivity. cbv zeta. rewrite (fm_bs _ _ fa_map).
  rewrite i64_small by lia. rewrite Z.quot_div_nonneg by lia. fold (blocks_of (BlockSize (fs_sb s)) size).
  rewrite w64_small by nia. set (K := blocks_of (BlockSize (fs_sb s)) size) in *.
  fold (kept K (f_extents f)) (freed K (f_extents f)).
  destruct (cut_slack_ok s f i pos T size Hf ltac:(lia)) as (s1 & Hz & Hsb & Hds & Hcont).
  erewrite mbnd_run by exact Hz. pose proof (file_at_own _ _ _ _ _ _ _ Hf Hds) as Hf1.
  assert (new_map fsOffset s1 (with_map f (kept K (f_extents f)) size) pos T) as Hnm.
  { unfold K. rewrite <- Hsb. apply (kept_new_map s1 f i); [done|lia]. }
  destruct (commit_ok fsOffset Hwritable s1 f i pos T (kept K (f_extents f)) size now Hf1 Hnm)
    as [(s2 & i2 & T2 & Hc & Hf2 & Hrw & HT2)|(e & c & Hc & Hwhy)].
  - left. erewrite mbnd_run by exact Hc. destruct (free_list_ok s2 _ i2 pos T2 (freed K (f_extents f)) Hf2) as (s3 & Hr & Hf3 & P3 & R3 & F3).
    { apply freed_nodup; [done|apply fa_map]. }
    { intros b (lb & Hlb & Hb)%freed_elem; [|done]. destruct (geo_eq _ _ _ (rw_preserves _ _ _ _ _ Hrw)) as (E1 & E2 & _).
      rewrite (clear_of_eq _ _ _ E1 E2), Hsb. destruct (fa_apart lb b Hb) as [Hcl HbT].
      assert (is_data s1 b) as Hd1 by (apply Hds; by apply (fa_owns lb)). split; [by apply Hrw|]. split; [done|]. split.
      - intros Hin. by apply (data_not_free fsOffset s1 b); [|apply HT2].
      - intros lb' Hlb'. cbn [with_map f_extents] in Hlb'. rewrite kept_block in Hlb' by (by apply map_ok_chain).
        destruct (lb' <? K) eqn:El; [|done]. zbool. pose proof (block_at_inj (fs_sb s) f lb lb' b fa_map Hb Hlb'). lia. }
    exists s3, (with_map f (kept K (f_extents f)) size). split; [unfold on_fs; by rewrite Hr|].
    destruct (cut_done s s1 s2 s3 f i pos T size) as [Hby Ht]; auto. split; [by exists i2, T2|]. split; [done|]. split; [done|].
    split; [done|]. intros lb p Hlb Hp. apply F3. right. apply freed_elem; [done|]. by exists lb.
  - right. eexists e, _. split; [by apply mbnd_fail|]. split; [by apply file_at_cursor|]. split; [|split].
    + intros k. unfold WriteAtSpec.file_byte. cbn [with_cursor fs_dev fs_sb]. rewrite Hsb. fold K. destruct (0 <=? k) eqn:E0; cbn [andb]; zbool.
      2:{ by destruct (_ && _). }
      rewrite Hcont by done. fold K. destruct (k <? f_size f); [done|]. by destruct (_ && _).
    + eapply touched_trans; [eapply step_touched; [exact Hds|by intros o n (_ & ? & _)]| |intros b; by apply Hds].
      eapply step_touched; [apply (cursor_step fsOffset (fun _ _ => True)), Hf1|done].
    + rewrite Hsb in Hwhy. pose proof (kept_length K (f_extents f)). destruct Hwhy as [?|Hex]; [right; right; lia|right; left].
      exists []. split; [done|]. intros b Hb. exfalso. apply (exhausted_none fsOffset s1 b); [apply Hf1|done|by apply Hds].
Qed.

Lemma truncate_ok (s : fsys D) f i pos T size now :
  file_at s f i pos T -> 0 <= size -> size + BlockSize (fs_sb s) < 2 ^ 63 ->
  (exists s' f', Truncate fsOffset size now (s, f) = (Ok tt, (s', f')) /\ truncated s f pos size s' f') \/
  (exists e s', Truncate fsOffset size now (s, f) = (Err e, (s', f)) /\ file_at s' f i pos T /\ cut_failed s f pos size s').
Proof.
  intros Hf Hs H63. pose proof Hf as []. pose proof (iv_fits _ _ fa_inv) as (Hbs & _).
  destruct (blocks_of_spec _ size Hbs ltac:(lia)) as (K0 & K1 & K2 & _).
  unfold Truncate. erewrite (mbnd_run the_file) by reflexivity. rewrite (fm_open _ _ fa_map), ltb_false by lia.
  assert (f_size f <= size -> forall lb p, blocks_of (BlockSize (fs_sb s)) size <= lb -> block_at (f_extents f) lb = Some p -> False) as Hnone.
  { intros Hle lb p Hlb Hp. pose proof (fa_eof _ _ Hp). nia. }
  assert (forall k, f_size f <= k -> file_byte s f k = 0) as Hpast.
  { intros k Hk. unfold WriteAtSpec.file_byte. by rewrite (ltb_false k), andb_false_r by lia. }
  destruct (size =? f_size f) eqn:E; zbool.
  { left. exists s, f. split; [done|]. split; [by exists i, T|]. split; [done|]. split; [|split].
    - intros k. destruct (k <? size) eqn:Ek; zbool; [done|]. apply Hpast. lia.
    - eapply step_touched; [by apply (data_step_refl fsOffset (fun _ _ => True))|done].
    - intros lb p Hlb Hp. exfalso. apply (Hnone ltac:(lia) lb p Hlb Hp). }
  destruct (size <? f_size f) eqn:El; zbool; [by apply (shrink_ok s f i pos T)|].
  destruct (grow_ok fsOffset Hwritable s f i pos T (f_extents f) size now Hf) as [(s' & i' & T' & Hr & Hf' & Hsame & Ht)|
    (e & s' & Hr & Hf' & Hsame & Ht & Hwhy)]; [lia| | |].
  - intros s1 Hds Hsb []. split; [|done]. split; cbn [with_map f_extents f_size]; auto; [|lia|].
    + destruct fa_map0. by split.
    + intros lb p Hb. pose proof (fa_eof0 lb p Hb). lia.
  - left. exists s', (with_map f (f_extents f) size). split; [done|]. split; [by exists i', T'|]. split; [done|]. split; [|split; [done|]].
    + intros k. rewrite Hsame. destruct (k <? size) eqn:Ek; zbool; [done|]. apply Hpast. lia.
    + intros lb p Hlb Hp. exfalso. apply (Hnone ltac:(lia) lb p Hlb Hp).
  - right. exists e, s'. split; [done|]. split; [done|]. split; [|split; [done|]].
    + intros k. rewrite Hsame. destruct (_ && _) eqn:Ek; [|done]. apply andb_true_iff in Ek as [? _]. zbool. apply Hpast. lia.
    + destruct Hwhy as [?|Hn]; [right; right; lia|right; left]. exists []. split; [done|]. intros b Hb. by destruct (Hn b).
Qed.

End files.

(** * A file on the small image *)

(** File 12 has 1500 bytes in blocks 8 and 9. *)
Definition wfile_inode : inode :=
  let raw := set32 (set16 (set16 (zeros 128) 0 0x81A4) 26 1) 4 1500 in
  let i := Inode raw 12 1500 0x81A4 in the i (setInlineExtents i [Leaf 0 8 2]).
Definition wfile_sb_raw : list Z := set32 (set32 (img_sb_raw 0) 12 54) 16 4.
Definition wfile_fs : fsys memdev :=
  Fsys (MemDev (zeros 1024 ++ wfile_sb_raw ++ (set16 (set16 (img_desc 0) 12 54) 14 4 ++ zeros 992) ++
    ([0xFF; 0x01; 0; 0; 0; 0; 0; 0x80] ++ zeros 1016) ++ ([0xFF; 0x0F] ++ zeros 1022) ++
    (zeros 128 ++ img_root 0 ++ zeros 1152 ++ in_raw wfile_inode ++ zeros 512) ++ img_root_block ++
    replicate 1500 7 ++ zeros (56 * 1024 - 1500)))
    (the ex_sb (decodeSuperblock wfile_sb_raw)) 2 ∅.
Definition wfile : ext4File := File None [Leaf 0 8 2] 1500 1024 12 false false.

Definition wfile_bg : bgd := the img_bg (readBGD (fs_dev wfile_fs) 0 (fs_sb wfile_fs) 0).
Definition wfile_bmap : list Z := the [] (read_block 0 (fs_dev wfile_fs) (fs_sb wfile_fs) 3).
Definition wfile_imap : list Z := the [] (read_block 0 (fs_dev wfile_fs) (fs_sb wfile_fs) 4).

Lemma wfile_group : group_at 0 wfile_fs 0 wfile_bg wfile_bmap wfile_imap.
Proof. split; [vm_compute; reflexivity..|]. vm_compute; split; congruence. Qed.

Lemma wfile_layout : layout 0 (fs_sb wfile_fs) 0 (BlockBitmapBlock wfile_bg) (InodeBitmapBlock wfile_bg).
Proof. split; unfold sep; vm_compute; try (split; congruence); try congruence; auto; (left; congruence) || (right; congruence). Qed.

Lemma wfile_geo :
  BlockSize (fs_sb wfile_fs) = 1024 /\ numBlockGroups (fs_sb wfile_fs) = 1 /\ BlocksPerGroup (fs_sb wfile_fs) = 64 /\
  FirstDataBlock (fs_sb wfile_fs) = 1 /\ BlocksCount (fs_sb wfile_fs) = 64 /\ bgd_offset (fs_sb wfile_fs) 0 = 2048 /\
  DescSize (fs_sb wfile_fs) = 32 /\ BlockBitmapBlock wfile_bg = 3 /\ InodeBitmapBlock wfile_bg = 4 /\
  InodeTableBlock wfile_bg = 5 /\ InodeSize (fs_sb wfile_fs) = 128 /\ InodesPerGroup (fs_sb wfile_fs) = 16.
Proof. split_and!; vm_compute; reflexivity. Qed.
Lemma wfile_one g : 0 <= g < numBlockGroups (fs_sb wfile_fs) -> g = 0.
Proof. destruct wfile_geo as (_ & -> & _). lia. Qed.

Lemma wfile_ok : fs_ok 0 wfile_fs.
Proof.
  split; [split_and!; [vm_compute; reflexivity|vm_compute; reflexivity|by apply all_bytes_ok]|]. split; [by vm_compute|].
  intros g ->%wfile_one. exists wfile_bg, wfile_bmap, wfile_imap.
  split; [apply wfile_group|]. split; [apply wfile_layout|]. split; [split; eexists; vm_compute; reflexivity|by vm_compute].
Qed.

Lemma wfile_meta o n : 6144 <= o -> 0 <= n -> off_meta 0 wfile_fs o n.
Proof.
  intros Ho Hn. destruct wfile_geo as (E1 & E2 & E3 & E4 & E5 & E6 & E7 & E8 & E9 & _).
  split; [unfold sep; lia|]. intros g bg ->%wfile_one Hr.
  rewrite (ga_bgd _ _ _ _ _ _ wfile_group) in Hr. apply Ok_inj in Hr as <-. unfold off_block, sep.
  rewrite E1, E6, E7, E8, E9. split_and!; right; lia.
Qed.

Lemma wfile_data b : 6 <= b < 63 -> data_block 0 wfile_fs 0 b wfile_bg.
Proof.
  intros Hb. destruct wfile_geo as (E1 & E2 & E3 & E4 & E5 & E6 & E7 & E8 & E9 & E10 & E11 & E12).
  unfold data_block, block_no. cbv zeta. rewrite E1, E3, E4, E5, E10, E11, E12.
  split; [lia|]. split; [apply wfile_meta; lia|]. right. change (w64 _) with 7. lia.
Qed.

Lemma wfile_free_bits b : 0 <= b < 64 -> used wfile_bmap b = false -> 9 <= b < 63.
Proof.
  intros Hb. assert (Forall (fun b => used wfile_bmap b = false -> 9 <= b < 63) (seqZ 0 64)) as Hf
    by (apply (bool_decide_unpack _); vm_compute; exact I).
  rewrite Forall_forall in Hf. apply Hf. apply elem_of_seqZ. lia.
Qed.

Lemma wfile_inv : fs_inv 0 wfile_fs.
Proof.
  split.
  - apply wfile_ok.
  - by vm_compute.
  - by vm_compute.
  - by vm_compute.
  - apply memdev_covered. by vm_compute.
  - split.
    + intros g g' bg ->%wfile_one ->%wfile_one Hr. rewrite (ga_bgd _ _ _ _ _ _ wfile_group) in Hr. apply Ok_inj in Hr as <-.
      exact (conj (ly_bd _ _ _ _ _ wfile_layout) (ly_id _ _ _ _ _ wfile_layout)).
    + intros g g' bg bg' ->%wfile_one ->%wfile_one Hne. by destruct Hne.
  - intros g bg bmap imap b ->%wfile_one Hg Hb Hu. destruct (group_at_det _ _ _ _ _ _ _ _ _ wfile_group Hg) as (-> & -> & ->).
    destruct wfile_geo as (_ & _ & E3 & _). rewrite E3 in Hb. apply wfile_data. pose proof (wfile_free_bits b Hb Hu). lia.
  - intros g ->%wfile_one. exists wfile_bg. split; [apply wfile_group|]. split; vm_compute; reflexivity.
Qed.

Lemma wfile_blocks lb p : block_at (f_extents wfile) lb = Some p -> 0 <= lb < 2 /\ p = 8 + lb.
Proof.
  cbn [block_at wfile f_extents]. destruct (covers _ lb) eqn:E; [|done]. apply covers_iff in E. cbn in *. intros [= <-]. lia.
Qed.

Lemma wfile_is_data b : 8 <= b <= 9 -> is_data 0 wfile_fs b.
Proof.
  intros Hb. destruct wfile_geo as (_ & E2 & E3 & E4 & _). exists 0, wfile_bg, wfile_bmap, wfile_imap, (b - 1).
  rewrite E2, E3. split; [lia|]. split; [apply wfile_group|]. split; [lia|]. split; [|split; [apply wfile_data; lia|]].
  - assert (b = 8 \/ b = 9) as [-> | ->] by lia; vm_compute; reflexivity.
  - unfold block_no. rewrite E3, E4. lia.
Qed.

Lemma wfile_clear b : 8 <= b -> clear_of 0 (fs_sb wfile_fs) 6528 b.
Proof.
  intros Hb. destruct wfile_geo as (E1 & _ & _ & _ & _ & _ & _ & _ & _ & _ & E11 & _). split; [lia|].
  unfold off_block, sep. rewrite E1, E11. left. lia.
Qed.

Definition wfile_disk_inode : inode := the wfile_inode (readInode (fs_dev wfile_fs) 0 (fs_sb wfile_fs) 12).

Lemma wfile_slot : inode_slot 0 wfile_fs 12 wfile_bg 6528.
Proof.
  split; [by vm_compute..|vm_compute; reflexivity|vm_compute; reflexivity|by vm_compute|unfold sep; right; by vm_compute|].
  eexists. vm_compute. reflexivity.
Qed.

Lemma wfile_at : file_at 0 wfile_fs wfile wfile_disk_inode 6528 [].
Proof.
  destruct wfile_geo as (E1 & E2 & E3 & E4 & E5 & E6 & E7 & E8 & E9 & E10 & E11 & E12). split.
  - apply wfile_inv.
  - rewrite E1. lia.
  - apply csumSeed_range; [apply all_bytes_ok; vm_compute; reflexivity|vm_compute; split; congruence].
  - split; cbn [wfile f_closed f_blockSize f_extents]; [done|by rewrite E1| | |].
    + apply map_ok_chain. split; [apply Forall_singleton; unfold leaf_in, leaf_ok; cbn; lia|repeat constructor].
    + repeat constructor.
    + apply Forall_singleton. rewrite E5. cbn [PhysBlock Count]. lia.
  - split; reflexivity.
  - intros lb p [Hl ->]%wfile_blocks. apply wfile_is_data. lia.
  - cbn. lia.
  - intros lb p [Hl _]%wfile_blocks. rewrite E1. cbn. lia.
  - exists wfile_bg. apply wfile_slot.
  - cbn [wfile f_inodeNum]. rewrite E12, E2. by vm_compute.
  - rewrite E11. apply wfile_meta; lia.
  - intros b (g & bg & bmap & imap & x & Hg & G & Hx & Hu & ->). apply wfile_one in Hg as ->.
    destruct (group_at_det _ _ _ _ _ _ _ _ _ wfile_group G) as (-> & -> & ->). rewrite E3 in Hx.
    pose proof (wfile_free_bits x Hx Hu). apply wfile_clear. unfold block_no. rewrite E3, E4. lia.
  - intros lb p [Hl ->]%wfile_blocks. split; [apply wfile_clear; lia|apply not_elem_of_nil].
  - vm_compute. reflexivity.
  - split; [apply all_bytes_ok; vm_compute; reflexivity|]. split_and!; vm_compute; reflexivity || congruence.
  - vm_compute. reflexivity.
  - exists [Leaf 0 8 2]. split; [|vm_compute; reflexivity]. intros d' _. vm_compute. reflexivity.
  - intros c Hc. vm_compute in Hc. discriminate.
  - intros b Hb. destruct (not_elem_of_nil b Hb).
Qed.

(** * Properties *)

(** C3: a positional write on an open file always returns.  Either it returns the
    length of the buffer, and then the bytes of the file are the old ones with the
    buffer written over them (zeros in a gap behind the old end), the size is the
    larger of the two ends, the inode and its tree on disk describe the new map, so
    that opening the inode again gives the same handle when the size is within the
    file system, and every byte outside the file, its inode and the free blocks
    reads as before; or it is refused for want of space, and the file, in memory
    and on disk, is as it was. *)
Theorem WriteAt_correct {D} `{BlockDevLaws D} `{SortSlice} `{Safeio} fsOffset (s : fsys D) f i pos T p off now :
  dev_writable D -> file_at fsOffset s f i pos T -> bytes_ok p -> 0 < zlen p < 2 ^ 40 -> 0 <= off ->
  off + zlen p <= 2 ^ 32 * BlockSize (fs_sb s) ->
  let run := WriteAt fsOffset p off now (s, f) in
  (exists s' f' i' T', run = (Ok (zlen p), (s', f')) /\ file_at fsOffset s' f' i' pos T' /\
     f_size f' = Z.max (f_size f) (off + zlen p) /\
     (forall k, file_byte fsOffset s' f' k = upd_bytes (file_byte fsOffset s f) off p k) /\
     (f_size f' <= BlocksCount (fs_sb s') * BlockSize (fs_sb s') -> newFile (fs_dev s') fsOffset (fs_sb s') i' = Ok f') /\
     touched fsOffset s s' f pos) \/
  (exists e s', run = (Err e, (s', f)) /\ file_at fsOffset s' f i pos T /\ same_bytes fsOffset s f s' f /\
     touched fsOffset s s' f pos /\ no_space fsOffset s f (zlen (unmapped (fs_sb s) f off (off + zlen p)))).
Proof.
  intros Hw Hf Hp Hl Ho H32 run.
  destruct (write_ok fsOffset Hw s f i pos T p off now Hf Hp Hl Ho H32)
    as [(s' & f' & i' & T' & Hr & Hf' & Hsz & Hne & Hby & Ht)|Herr]; [left|by right].
  exists s', f', i', T'. do 4 (split; [done|]). split; [|done]. intros Hc. by apply (file_at_reopen fsOffset s' f' i' pos T').
Qed.

(** C4: truncating an open file always returns.  When it succeeds the file has the
    new size, keeps its bytes below it and reads zeros above, in memory and on
    disk, and the blocks behind the new end are free; it fails only for want of
    space for the extent tree, and then the size is the old one, but the bytes from
    the requested size to the end of its block have been zeroed. *)
Theorem Truncate_correct {D} `{BlockDevLaws D} `{SortSlice} `{Safeio} fsOffset (s : fsys D) f i pos T size now :
  dev_writable D -> file_at fsOffset s f i pos T -> 0 <= size -> size + BlockSize (fs_sb s) < 2 ^ 63 ->
  let run := Truncate fsOffset size now (s, f) in
  (exists s' f', run = (Ok tt, (s', f')) /\ truncated fsOffset s f pos size s' f') \/
  (exists e s', run = (Err e, (s', f)) /\ file_at fsOffset s' f i pos T /\ cut_failed fsOffset s f pos size s').
Proof. intros Hw Hf Hs H63 run. by apply (truncate_ok fsOffset Hw s f i pos T). Qed.

Lemma WriteAt_correct_witness :
  exists s' f', WriteAt 0 (replicate 3000 9) 2000 77 (wfile_fs, wfile) = (Ok 3000, (s', f')) /\ f_size f' = 5000 /\
    (forall k, file_byte 0 s' f' k = upd_bytes (file_byte 0 wfile_fs wfile) 2000 (replicate 3000 9) k).
Proof.
  destruct (WriteAt_correct 0 wfile_fs wfile wfile_disk_inode 6528 [] (replicate 3000 9) 2000 77)
    as [(s' & f' & i' & T' & Hr & _ & Hs & Hb & _)|(e & s' & Hr & _)];
    [apply memdev_writable|apply wfile_at|apply all_bytes_ok; vm_compute; reflexivity|vm_compute; split; congruence|lia
    |destruct wfile_geo as (E1 & _); rewrite E1; vm_compute; congruence| |].
  - exists s', f'. split; [exact Hr|]. split; [exact Hs|exact Hb].
  - assert (is_ok (fst (WriteAt 0 (replicate 3000 9) 2000 77 (wfile_fs, wfile))) = true) as Hok by (vm_compute; reflexivity).
    rewrite Hr in Hok. discriminate.
Defined.

Lemma Truncate_correct_witness :
  exists s' f', Truncate 0 700 77 (wfile_fs, wfile) = (Ok tt, (s', f')) /\ f_size f' = 700 /\ is_free 0 s' 9.
Proof.
  destruct (Truncate_correct 0 wfile_fs wfile wfile_disk_inode 6528 [] 700 77) as [(s' & f' & Hr & _ & Hs & _ & _ & Hfr)|(e & s' & Hr & _)];
    [apply memdev_writable|apply wfile_at|lia|destruct wfile_geo as (E1 & _); rewrite E1; lia| |].
  - exists s', f'. split; [exact Hr|]. split; [exact Hs|]. apply (Hfr 1 9); [destruct wfile_geo as (-> & _); vm_compute; congruence|reflexivity].
  - assert (is_ok (fst (Truncate 0 700 77 (wfile_fs, wfile))) = true) as Hok by (vm_compute; reflexivity).
    rewrite Hr in Hok. discriminate.
Defined.

(** The inode of the file, read from the disk and opened again. *)
Definition reopen (s : fsys memdev) : res ext4File :=
  let! i := readInode (fs_dev s) 0 (fs_sb s) 12 in newFile (fs_dev s) 0 (fs_sb s) i.

