(* ===== verification/WriteFileSpec.v ===== *)
(** What [writeFile] guarantees ([src/write.go]): a file that is created holds
    exactly the data, under its name, and nothing else of the directory tree
    changes. *)

From S2P Require Import Prelude Bytes Crc Device Superblock Bgd Bitmap GoLib Extent Limits Inode Inline FileRead BlockMap Dir Alloc Image Lookup Namespace WriteFile AllocSpec JournalSpec OnDisk NamespaceSpec InodeMap Fsck FsInv Fs FileWrite FileWriteSpec WriteAtSpec.
From Stdlib Require Import Sorting.Sorted.

(** * The map of a list of blocks *)

Lemma contiguous_chain base exts n :
  contiguous base exts -> 0 <= base -> base + zlen (expand exts) <= 2 ^ 32 ->
  Forall (fun p => 0 <= p < n) (expand exts) -> n <= 2 ^ 48 ->
  Forall leaf_in exts /\ ForallOrdPairs before exts /\ Forall (fun e => base <= LogBlock e /\ PhysBlock e + Count e <= n) exts.
Proof.
  revert base. induction exts as [|e exts IH]; intros base Hc Hb Hl Hp Hn; [repeat constructor|].
  cbn [contiguous] in Hc. destruct Hc as (Hlog & Hcnt & Hc). unfold expand in Hl, Hp. cbn [fmap list_fmap concat] in Hl, Hp.
  fold (expand exts) in Hl, Hp. rewrite zlen_app in Hl. unfold zlen at 1 in Hl. rewrite length_seqZ in Hl.
  apply Forall_app in Hp as [Hp1 Hp2]. pose proof (zlen_nonneg (expand exts)).
  rewrite Forall_forall in Hp1. pose proof (Hp1 (PhysBlock e) ltac:(apply elem_of_seqZ; lia)) as Hlo.
  pose proof (Hp1 (PhysBlock e + Count e - 1) ltac:(apply elem_of_seqZ; lia)) as Hhi.
  destruct (IH (base + Count e)) as (A & B & C); [done|lia..|done|done|].
  assert (leaf_in e) as Hle by (unfold leaf_in, leaf_ok; lia).
  split; [by constructor|]. split.
  - constructor; [|done]. eapply Forall_impl; [exact C|]. intros e' [? _]. unfold before. lia.
  - constructor; [lia|]. eapply Forall_impl; [exact C|]. intros e' [? ?]. lia.
Qed.

Lemma expand_phys exts : Forall (fun e => 0 < Count e) exts -> NoDup (expand exts) -> runs_disjoint PhysBlock exts.
Proof.
  induction 1 as [|e exts He Hp IH]; intros Hnd; [constructor|].
  unfold expand in Hnd. cbn [fmap list_fmap concat] in Hnd. fold (expand exts) in Hnd.
  apply NoDup_app in Hnd as (_ & Hdis & Hnd). constructor; [|by apply IH].
  apply Forall_forall. intros e' He'. unfold disjoint_on. rewrite Forall_forall in Hp. pose proof (Hp e' He').
  destruct (decide (PhysBlock e + Count e <= PhysBlock e' \/ PhysBlock e' + Count e' <= PhysBlock e)) as [|Hov]; [lia|].
  exfalso. apply (Hdis (Z.max (PhysBlock e) (PhysBlock e'))); [apply elem_of_seqZ; lia|].
  unfold expand. apply list_elem_of_In, in_concat. exists (seqZ (PhysBlock e') (Count e')). split.
  - apply list_elem_of_In, list_elem_of_fmap. by exists e'.
  - apply list_elem_of_In, elem_of_seqZ. lia.
Qed.

Record built (blocks : list Z) (n : Z) (exts : list extentLeaf) : Prop := {
  bu_map : map_ok exts;
  bu_phys : runs_disjoint PhysBlock exts;
  bu_range : Forall (fun e => PhysBlock e + Count e <= n) exts;
  bu_at : forall lb p, block_at exts lb = Some p <-> 0 <= lb /\ blocks !! Z.to_nat lb = Some p;
  bu_nil : blocks <> [] -> exts <> []
}.

Lemma buildExtents_built blocks n :
  NoDup blocks -> Forall (fun p => 0 <= p < n) blocks -> n <= 2 ^ 48 -> zlen blocks < 2 ^ 32 ->
  built blocks n (buildExtents blocks).
Proof.
  intros Hnd Hr Hn Hl. destruct (buildExtents_spec blocks) as [Hx Hc]; [|done|].
  { eapply Forall_impl; [exact Hr|]. cbn. lia. }
  destruct (contiguous_chain 0 (buildExtents blocks) n Hc) as (A & B & C); [lia|rewrite Hx; lia|by rewrite Hx|done|].
  assert (map_ok (buildExtents blocks)) as Hm by (by apply map_ok_chain).
  split; auto.
  - apply expand_phys; [apply Hm|]. by rewrite Hx.
  - eapply Forall_impl; [exact C|]. by intros e [_ ?].
  - intros lb p. destruct (decide (0 <= lb)) as [Hlb|Hlb].
    + rewrite (block_at_contiguous 0 _ lb Hc Hlb), Hx, Z.sub_0_r. tauto.
    + split; [|lia]. intros Hb. by apply block_at_nonneg in Hb.
  - intros Hb He. apply Hb. by rewrite <- Hx, He.
Qed.

(** * The data *)

Lemma zlen_data_buf bs data k : 0 <= bs -> zlen (data_buf bs data k) = bs.
Proof. intros. unfold data_buf. destruct (_ <? _); [|zl]. rewrite zlen_zsplice; zl. Qed.

Lemma data_buf_ok bs data k : bytes_ok data -> bytes_ok (data_buf bs data k).
Proof. intros. unfold data_buf. destruct (_ <? _); auto 10 with bytes. Qed.

Lemma u8_beyond l k : zlen l <= k -> u8 l k = 0.
Proof. intros Hk. unfold u8. by rewrite lookup_ge_None_2 by (unfold zlen in Hk; lia). Qed.

Lemma u8_data_buf bs data k j : 0 <= k -> 0 <= j < bs -> u8 (data_buf bs data k) j = u8 data (k * bs + j).
Proof.
  intros Hk Hj. unfold data_buf. destruct (_ <? _) eqn:E; zbool; [|rewrite u8_zeros, u8_beyond; nia].
  set (sl := zslice data (k * bs) bs).
  assert (zlen sl = Z.min bs (zlen data - k * bs)) as Hsl by (unfold sl, zlen, zslice in *; rewrite length_take, length_drop; nia).
  destruct (decide (j < zlen sl)) as [Hin|Hout].
  - rewrite u8_zsplice_new by zl. rewrite Z.sub_0_r. unfold sl. rewrite u8_zslice by nia. done.
  - rewrite u8_zsplice_ne by zl. rewrite u8_zeros, u8_beyond; [done|lia].
Qed.

Section files.
Context {D : Type} `{BlockDevLaws D} `{SortSlice} `{Safeio}.
Context (fsOffset : Z).
Hypothesis Hwritable : dev_writable D.

Notation fs_inv := (fs_inv fsOffset).
Notation is_data := (is_data fsOffset).
Notation is_free := (is_free fsOffset).
Notation preserves := (preserves fsOffset).
Notation reads := (reads fsOffset).
Notation grew := (grew fsOffset).
Notation data_step := (data_step fsOffset).
Notation off_block := (off_block fsOffset).
Notation off_blocks := (off_blocks fsOffset).
Notation off_meta := (off_meta fsOffset).
Notation clear_of := (clear_of fsOffset).

(** The blocks hold the data from block [k] of the file on. *)
Definition filled (s : fsys D) (data blocks : list Z) (k : Z) : Prop :=
  forall n b j, blocks !! n = Some b -> 0 <= j < BlockSize (fs_sb s) ->
    dev_byte (fs_dev s) (fsOffset + b * BlockSize (fs_sb s) + j) = u8 data ((k + Z.of_nat n) * BlockSize (fs_sb s) + j).

Lemma filled_frame P (s s' : fsys D) data blocks k :
  filled s data blocks k -> fs_inv s -> preserves s s' -> reads P s s' ->
  (forall b, b ∈ blocks -> is_data s b /\ P (fsOffset + b * BlockSize (fs_sb s)) (BlockSize (fs_sb s))) ->
  filled s' data blocks k.
Proof.
  intros Hf Hinv Hp Hr Hb n b j Hn Hj. rewrite (erase_block _ _ _ Hp) in *.
  destruct (Hb b ltac:(by eapply list_elem_of_lookup_2)) as [Hd HP].
  rewrite (reads_block fsOffset P s s' b j) by auto. by apply Hf.
Qed.

Lemma write_file_blocks_ok (s : fsys D) data blocks k :
  fs_inv s -> bytes_ok data -> 0 <= k -> NoDup blocks -> (forall b, b ∈ blocks -> is_data s b) ->
  exists s', write_file_blocks fsOffset (BlockSize (fs_sb s)) data blocks k s = (Ok tt, s') /\
    data_step (off_blocks (fs_sb s) blocks) s s' /\ fs_sb s' = fs_sb s /\ filled s' data blocks k.
Proof.
  intros Hinv Hd Hk Hnd. revert s k Hinv Hk. induction Hnd as [|b blocks Hni Hnd IH]; intros s k Hinv Hk Hin.
  { exists s. split; [done|]. split; [by apply data_step_refl|]. split; [done|]. by intros n b j ?. }
  pose proof (iv_fits _ _ Hinv) as (Hpos & Ho & Hc & Hend). pose proof (Hin b ltac:(by left)) as Hbd.
  set (bs := BlockSize (fs_sb s)) in *.
  destruct (write_block fsOffset Hwritable s b (data_buf bs data k)) as (s2 & Hw & Hsb & Hds & Hrb);
    [done|done|apply zlen_data_buf; lia|by apply data_buf_ok|].
  destruct (IH s2 (k + 1)) as (s3 & Hrun & Hds3 & Hsb3 & Hf); [apply Hds|lia| |].
  { intros b' Hb'. by apply (ds_data _ _ _ _ Hds), Hin; right. }
  rewrite Hsb in *. fold bs in Hrun. exists s3. split; [|split; [|split; [congruence|]]].
  - cbn [write_file_blocks]. erewrite mbnd_run; [exact Hrun|]. unfold writeRawBlock in Hw.
    erewrite mbnd_run in Hw by reflexivity. exact Hw.
  - eapply data_step_trans; (eapply data_step_weaken; [|eassumption]); intros o n [Hn Hoff];
      (split; [done|]); intros x Hx; apply Hoff; [apply list_elem_of_singleton in Hx as ->; by left|by right].
  - intros [|n] b' j Hn Hj; rewrite Hsb3 in Hj |- *; cbn in Hn.
    + injection Hn as <-. pose proof (reads_block fsOffset _ _ _ b j (ds_reads _ _ _ _ Hds3)) as Hrd. rewrite Hsb in Hrd.
      rewrite Hrd; auto; [| |left; by apply (ds_data _ _ _ _ Hds)|by apply off_others].
      * unfold read_block in Hrb. destruct (is_data_block _ _ _ Hbd) as [Hr _]. fold bs in Hrb. rewrite i64_small in Hrb by nia.
        apply read_at_Ok in Hrb. apply (f_equal (fun l => u8 l j)) in Hrb. rewrite u8_bytes_of in Hrb by (fold bs; lia).
        fold bs. rewrite <- Hrb, u8_data_buf by lia. f_equal. lia.
      * apply Hds.
    + specialize (Hf n b' j Hn). rewrite Hsb3 in Hf. rewrite Hf by done. f_equal. lia.
Qed.

(** * The inode tables *)

Definition table_at (s : fsys D) (bg : bgd) : Z := fsOffset + InodeTableBlock bg * BlockSize (fs_sb s).
Definition table_len (sb : superblock) : Z := InodesPerGroup sb * InodeSize sb.
Definition off_tables (s : fsys D) (o n : Z) : Prop :=
  forall g bg, 0 <= g < numBlockGroups (fs_sb s) -> readBGD (fs_dev s) fsOffset (fs_sb s) g = Ok bg ->
    sep o n (table_at s bg) (table_len (fs_sb s)).

(** The tables lie in the file system, apart from each other, from the allocator's
    metadata and from the free blocks. *)
Record tables_ok (s : fsys D) : Prop := {
  tb_ipg : 0 < InodesPerGroup (fs_sb s);
  tb_count : InodesCount (fs_sb s) = numBlockGroups (fs_sb s) * InodesPerGroup (fs_sb s);
  tb_small : InodesCount (fs_sb s) < 2 ^ 32 /\ numBlockGroups (fs_sb s) < 2 ^ 31;
  tb_isize : 128 <= InodeSize (fs_sb s);
  tb_at : forall g bg, 0 <= g < numBlockGroups (fs_sb s) -> readBGD (fs_dev s) fsOffset (fs_sb s) g = Ok bg ->
    0 <= InodeTableBlock bg /\ off_meta s (table_at s bg) (table_len (fs_sb s)) /\
    table_at s bg + table_len (fs_sb s) <= fsOffset + BlocksCount (fs_sb s) * BlockSize (fs_sb s);
  tb_apart : forall g g' bg bg', 0 <= g < numBlockGroups (fs_sb s) -> 0 <= g' < numBlockGroups (fs_sb s) -> g <> g' ->
    readBGD (fs_dev s) fsOffset (fs_sb s) g = Ok bg -> readBGD (fs_dev s) fsOffset (fs_sb s) g' = Ok bg' ->
    sep (table_at s bg) (table_len (fs_sb s)) (table_at s bg') (table_len (fs_sb s));
  tb_free : forall b, is_free s b -> 0 < b /\ off_tables s (fsOffset + b * BlockSize (fs_sb s)) (BlockSize (fs_sb s))
}.

Lemma off_tables_step (s s' : fsys D) o n : preserves s s' -> off_tables s o n -> off_tables s' o n.
Proof.
  intros Hp Hoff g bg Hg Hr. destruct (geo_eq _ _ _ Hp) as (E1 & E2 & E3 & _ & _ & _ & E7 & _). rewrite E7 in Hg.
  destruct (pv_bgd _ _ _ Hp g Hg) as (b & b' & R & R' & Et). rewrite R' in Hr. injection Hr as <-.
  unfold table_at, table_len. rewrite E1, E2, E3, Et. by apply (Hoff g b).
Qed.

Lemma tables_step (s s' : fsys D) :
  tables_ok s -> preserves s s' -> (forall b, is_free s' b -> is_free s b) -> tables_ok s'.
Proof.
  intros [T1 T2 [T3 T4] T5 T6 T7 T8] Hp Hf. destruct (geo_eq _ _ _ Hp) as (E1 & E2 & E3 & E4 & _ & E6 & E7 & _).
  assert (forall g bg', 0 <= g < numBlockGroups (fs_sb s') -> readBGD (fs_dev s') fsOffset (fs_sb s') g = Ok bg' ->
    0 <= g < numBlockGroups (fs_sb s) /\ exists bg, readBGD (fs_dev s) fsOffset (fs_sb s) g = Ok bg /\
      InodeTableBlock bg' = InodeTableBlock bg /\ table_at s' bg' = table_at s bg) as Hback.
  { intros g bg' Hg Hr. rewrite E7 in Hg. split; [done|]. destruct (pv_bgd _ _ _ Hp g Hg) as (b & b' & R & R' & Et).
    rewrite R' in Hr. injection Hr as <-. exists b. unfold table_at. by rewrite E1, Et. }
  assert (table_len (fs_sb s') = table_len (fs_sb s)) as El by (unfold table_len; congruence).
  split; rewrite ?E3, ?E4, ?E2, ?E7; auto.
  - intros g bg' Hg Hr. rewrite <- E7 in Hg. destruct (Hback g bg' Hg Hr) as (Hg' & bg & R & -> & ->). rewrite El, E1, E6.
    destruct (T6 g bg Hg' R) as (A & B & C). split_and!; [done|by apply (pv_meta _ _ _ Hp)|done].
  - intros g g' b b' Hg Hg' Hne Hr Hr'. rewrite <- E7 in Hg, Hg'. destruct (Hback g b Hg Hr) as (? & bg & R & _ & ->).
    destruct (Hback g' b' Hg' Hr') as (? & bg' & R' & _ & ->). rewrite El. by apply (T7 g g').
  - intros b Hb. destruct (T8 b (Hf b Hb)). rewrite E1. split; [done|]. by apply (off_tables_step s).
Qed.

(** A slot lies in the table of its group. *)
Lemma tables_slot (s : fsys D) num :
  fs_inv s -> tables_ok s -> 0 < num <= InodesCount (fs_sb s) ->
  let g := (num - 1) / InodesPerGroup (fs_sb s) in
  exists bg pos, inode_slot fsOffset s num bg pos /\ 0 <= g < numBlockGroups (fs_sb s) /\ table_at s bg <= pos /\
    pos + InodeSize (fs_sb s) <= table_at s bg + table_len (fs_sb s) /\
    pos = table_at s bg + ((num - 1) mod InodesPerGroup (fs_sb s)) * InodeSize (fs_sb s) /\
    off_meta s pos (InodeSize (fs_sb s)).
Proof.
  intros Hinv [T1 T2 [T3 T4] T5 T6 _ _] Hn g. set (m := InodesPerGroup (fs_sb s)) in *.
  assert (0 <= g < numBlockGroups (fs_sb s)) as Hg.
  { unfold g. split; [apply Z.div_pos; lia|]. apply Z.div_lt_upper_bound; lia. }
  pose proof (Z.mod_pos_bound (num - 1) m T1) as Hm.
  destruct (iv_ok _ _ Hinv) as (_ & _ & Hok). destruct (Hok g Hg) as (bg & bmap & imap & [R _ _ _] & L & _). destruct L.
  destruct (T6 g bg Hg R) as (A & B & C). set (pos := table_at s bg + ((num - 1) mod m) * InodeSize (fs_sb s)).
  assert (table_at s bg <= pos /\ pos + InodeSize (fs_sb s) <= table_at s bg + table_len (fs_sb s)) as [P1 P2]
    by (unfold pos, table_len; fold m; nia).
  assert (off_meta s pos (InodeSize (fs_sb s))) as Hom by (eapply off_meta_sub; [exact B|lia..]).
  pose proof (iv_fits _ _ Hinv) as (Hbs & Ho & Hc & Hend).
  destruct (iv_cov _ _ Hinv pos (InodeSize (fs_sb s))) as [raw Hrd]; [unfold table_at in *; nia|lia|lia|].
  exists bg, pos. split_and!; auto; try lia. split; auto; try lia.
  - unfold table_at in *. split_and!; [lia|nia|lia].
  - fold m g. by apply (proj2 Hom g bg Hg R).
  - by exists raw.
Qed.

Lemma slots_apart (s : fsys D) num num' bg bg' pos pos' :
  fs_inv s -> tables_ok s -> 0 < num <= InodesCount (fs_sb s) -> 0 < num' <= InodesCount (fs_sb s) -> num <> num' ->
  inode_slot fsOffset s num bg pos -> inode_slot fsOffset s num' bg' pos' ->
  sep pos (InodeSize (fs_sb s)) pos' (InodeSize (fs_sb s)).
Proof.
  intros Hinv HT Hn Hn' Hne Hs Hs'. pose proof HT as [T1 T2 _ T5 _ T7 _].
  destruct (tables_slot s num Hinv HT Hn) as (b & p & S & G & A1 & A2 & A3 & _).
  destruct (tables_slot s num' Hinv HT Hn') as (b' & p' & S' & G' & B1 & B2 & B3 & _).
  pose proof (sl_bgd _ _ _ _ _ Hs) as R. pose proof (sl_bgd _ _ _ _ _ Hs') as R'.
  pose proof (sl_bgd _ _ _ _ _ S) as R1. pose proof (sl_bgd _ _ _ _ _ S') as R1'.
  rewrite R in R1. injection R1 as <-. rewrite R' in R1'. injection R1' as <-.
  assert (pos = p) as -> by (rewrite (sl_pos _ _ _ _ _ Hs), (sl_pos _ _ _ _ _ S); done).
  assert (pos' = p') as -> by (rewrite (sl_pos _ _ _ _ _ Hs'), (sl_pos _ _ _ _ _ S'); done).
  destruct (decide ((num - 1) / InodesPerGroup (fs_sb s) = (num' - 1) / InodesPerGroup (fs_sb s))) as [Eg|Eg].
  - rewrite Eg, R' in R. injection R as <-. rewrite A3, B3.
    pose proof (Z.div_mod (num - 1) (InodesPerGroup (fs_sb s)) ltac:(lia)).
    pose proof (Z.div_mod (num' - 1) (InodesPerGroup (fs_sb s)) ltac:(lia)).
    assert ((num - 1) mod InodesPerGroup (fs_sb s) <> (num' - 1) mod InodesPerGroup (fs_sb s)) by (intros E; rewrite Eg, E in *; lia).
    unfold sep. nia.
  - pose proof (T7 _ _ _ _ G G' Eg R R') as Ht. unfold sep in *. lia.
Qed.

(** A range apart from the tables is apart from every slot. *)
Lemma off_tables_slot (s : fsys D) o n num bg pos :
  fs_inv s -> tables_ok s -> 0 < num <= InodesCount (fs_sb s) -> inode_slot fsOffset s num bg pos ->
  off_tables s o n -> sep o n pos (InodeSize (fs_sb s)).
Proof.
  intros Hinv HT Hn Hs Hoff. destruct (tables_slot s num Hinv HT Hn) as (b & p & S & G & A1 & A2 & A3 & _).
  pose proof (sl_bgd _ _ _ _ _ Hs) as R. pose proof (sl_bgd _ _ _ _ _ S) as R1. rewrite R in R1. injection R1 as <-.
  assert (pos = p) as -> by (rewrite (sl_pos _ _ _ _ _ Hs), (sl_pos _ _ _ _ _ S); done).
  pose proof (Hoff _ _ G R) as Ht. unfold sep in *. lia.
Qed.

Lemma free_clear_of (s : fsys D) num bg pos b :
  fs_inv s -> tables_ok s -> 0 < num <= InodesCount (fs_sb s) -> inode_slot fsOffset s num bg pos ->
  is_free s b -> clear_of (fs_sb s) pos b.
Proof.
  intros Hinv HT Hn Hs Hb. destruct (tb_free _ HT b Hb) as [Hgt Hoff]. split; [done|].
  pose proof (off_tables_slot s _ _ num bg pos Hinv HT Hn Hs Hoff). unfold FsInv.off_block, sep in *. lia.
Qed.

End files.
