(* ===== verification/Resize.v ===== *)
(** Growing and shrinking the file system ([src/resize.go]), for a client that is
    alone and without a sidecar journal. *)

From S2P Require Import Prelude Bytes Crc Device Superblock Bgd Bitmap GoLib Extent Limits Inode Inline FileRead Dir Alloc Journal Image Lookup Namespace.

Definition resizeIno : Z := 7.
Definition inodeOffBlocksHi : Z := 116.

Definition with_BlocksCount (sb : superblock) (n : Z) : superblock :=
  with_counts sb n (sb_FreeBlocksCount sb) (sb_FreeInodesCount sb).
(** [sb.InodesCount = n] with its copy in [raw], and [FreeInodesCount]. *)
Definition with_InodesCount (sb : superblock) (n free : Z) : res superblock :=
  let! raw := put32 (sb_raw sb) 0 n in
  Ok (Superblock raw n (BlocksCount sb) (sb_FreeBlocksCount sb)
    free (FirstDataBlock sb) (BlockSize sb) (BlocksPerGroup sb)
    (InodesPerGroup sb) (Magic sb) (FeatureIncompat sb) (FeatureROCompat sb) (UUID sb)
    (sb_Label sb) (InodeSize sb) (DescSize sb) (LogGroupsPerFlex sb) (ChecksumSeed sb)
    (ChecksumType sb) (maxRead sb) (deviceBytes sb)).

(** The sparse-super rule. Its loops stop within 32 rounds for the group numbers of
    [groupIsSparseBackup_spec]; a group that needs more rounds gives [OutOfFuel]. *)
Definition sparse_group (sb : superblock) (g : Z) : res bool :=
  match isSparseSuperGroup 32 sb g with
  | Some b => Ok b
  | None => Err OutOfFuel
  end.

(** The layout of a group. *)
Definition group_start (sb : superblock) (g : Z) : Z := g * BlocksPerGroup sb + FirstDataBlock sb.
Definition inode_table_blocks (sb : superblock) : Z :=
  w64 (InodeSize sb * InodesPerGroup sb + BlockSize sb - 1) / BlockSize sb.
Definition gdt_blocks (sb : superblock) (nGroups : Z) : Z :=
  w64 (nGroups * DescSize sb + BlockSize sb - 1) / BlockSize sb.
Definition reserved_gdt (sb : superblock) : res Z := get16 (sb_raw sb) 0xCE.
Definition groups_for (sb : superblock) (blocks : Z) : Z :=
  w32 (w64 (blocks + BlocksPerGroup sb - 1) / BlocksPerGroup sb).

Fixpoint clear_bits (bitmap : list Z) (bits : list Z) : res (list Z) :=
  match bits with
  | [] => Ok bitmap
  | i :: bits' => let! bitmap := clearBit bitmap i in clear_bits bitmap bits'
  end.

(** [s_block_group_nr] of a backup superblock. *)
Definition backup_raw (sb : superblock) (g : Z) : res (list Z) := put16 (sb_raw sb) 90 (w16 g).

(** The blocks before the bitmaps of a group: a backup of the superblock, the
    descriptor table and the blocks reserved for its growth. *)
Definition super_blocks (sb : superblock) (gdtBlocks reservedGdt g : Z) : res Z :=
  let! sparse := sparse_group sb g in
  Ok (if sparse : bool then 1 + gdtBlocks + reservedGdt else 0).

(** The descriptor of a new group; the pointers are put into the raw bytes. *)
Definition new_bgd (sb : superblock) (bb ib it free : Z) : res bgd :=
  let! raw := put32 (zeros (DescSize sb)) 0 (w32 bb) in
  let! raw := put32 raw 4 (w32 ib) in
  let! raw := put32 raw 8 (w32 it) in
  let! raw :=
    (if has_flag (FeatureIncompat sb) FeatIncompat64bit && (64 <=? DescSize sb) then
       let! raw := put32 raw 32 (w32 (Z.shiftr bb 32)) in
       let! raw := put32 raw 36 (w32 (Z.shiftr ib 32)) in
       put32 raw 40 (w32 (Z.shiftr it 32))
     else Ok raw) in
  Ok (Bgd raw bb ib it free (InodesPerGroup sb) 0 0).

(** The bitmaps of a new group: the metadata in use, and everything that stands
    for no block or inode. *)
Definition new_block_bitmap (sb : superblock) (reserved groupBlocks : Z) : res (list Z) :=
  let! bmap := setBits (zeros (BlockSize sb)) (seqZ 0 reserved) in
  setBits bmap (seqZ groupBlocks (BlockSize sb * 8 - groupBlocks)).
Definition new_inode_bitmap (sb : superblock) : res (list Z) :=
  setBits (zeros (BlockSize sb)) (seqZ (InodesPerGroup sb) (BlockSize sb * 8 - InodesPerGroup sb)).

Section ops.
Context {D : Type} `{BlockDev D} `{SortSlice} `{Safeio}.
Context (fsOffset : Z).

Notation FS := (M (fsys D)).

Definition truncate_dev (n : Z) : M D unit := fun d =>
  match dev_Truncate d n with
  | (None, d') => (Ok tt, d')
  | (Some e, d') => (Err e, d')
  end.

(** The checksum of the bitmap goes into the descriptor. *)
Definition writeBitmapBufNoLock (g : Z) (bg : bgd) (isBlockBitmap : bool) (bitmapBlock : Z) (bmap : list Z) : FS bgd :=
  do! sb := get_sb in
  do! raw := mlift (setBitmapCsum sb g (bgd_raw bg) isBlockBitmap bmap) in
  do! _ := writeRawBlock fsOffset bitmapBlock bmap in
  ret (bgd_with_raw bg raw).

(** ** Growing *)

(** The last group of the old layout gets the blocks that fill it up; the number
    of blocks added. *)
Definition grow_last_group (oldGroups oldBlocks newBlocks : Z) : FS Z :=
  if oldGroups =? 0 then ret 0 else
  do! sb := get_sb in
  let lastOld := oldGroups - 1 in
  let groupStart := group_start sb lastOld in
  let oldGroupUsed := if groupStart <? oldBlocks then oldBlocks - groupStart else 0 in
  let newGroupUsed := if groupStart <? newBlocks then Z.min (newBlocks - groupStart) (BlocksPerGroup sb) else 0 in
  if newGroupUsed <=? oldGroupUsed then ret 0 else
  do! bg := mwrap "ext4: read BGD for lastOld group" (gets (fun d sb => readBGD d fsOffset sb lastOld)) in
  do! bmap := mwrap "ext4: read block bitmap" (readBitmap fsOffset (BlockBitmapBlock bg)) in
  do! bmap := mlift (clear_bits bmap (seqZ oldGroupUsed (newGroupUsed - oldGroupUsed))) in
  let added := w32 (newGroupUsed - oldGroupUsed) in
  let bg := bgd_with_counts bg (w32 (FreeBlocksCount bg + added)) (FreeInodesCount bg) (UsedDirsCount bg) in
  do! bg := mwrap "ext4: write updated block bitmap" (writeBitmapBufNoLock lastOld bg true (BlockBitmapBlock bg) bmap) in
  do! _ := mwrap "ext4: write updated BGD" (writeBGD fsOffset lastOld bg) in
  ret added.

Fixpoint zero_table (n : nat) (blk : Z) : FS unit :=
  match n with
  | O => ret tt
  | S n' =>
      do! sb := get_sb in
      do! _ := mwrap "ext4: write inode table block" (writeRawBlock fsOffset blk (zeros (BlockSize sb))) in
      zero_table n' (blk + 1)
  end.

(** One new group; the number of free blocks in it. *)
Definition new_group (g newBlocks gdtBlocksNew reservedGdt : Z) : FS Z :=
  do! sb := get_sb in
  let groupStart := group_start sb g in
  let groupBlocks := if newBlocks <? groupStart + BlocksPerGroup sb then w64 (newBlocks - groupStart) else BlocksPerGroup sb in
  do! superBlocks := mlift (super_blocks sb gdtBlocksNew reservedGdt g) in
  let blockBitmapBlock := groupStart + superBlocks in
  let inodeBitmapBlock := blockBitmapBlock + 1 in
  let inodeTableBlock := blockBitmapBlock + 2 in
  let reserved := superBlocks + 2 + inode_table_blocks sb in
  if groupBlocks <? reserved then mfail (Errorf "ext4: not enough space in group for metadata") else
  do! _ := (if 0 <? superBlocks then
              do! sbCopy := mlift (backup_raw sb g) in
              mwrap "ext4: write backup superblock" (writeRawBlock fsOffset groupStart sbCopy)
            else ret tt) in
  do! bmap := mlift (new_block_bitmap sb reserved groupBlocks) in
  do! imap := mlift (new_inode_bitmap sb) in
  do! bg := mlift (new_bgd sb blockBitmapBlock inodeBitmapBlock inodeTableBlock (w32 (groupBlocks - reserved))) in
  do! bg := mwrap "ext4: write new block bitmap" (writeBitmapBufNoLock g bg true blockBitmapBlock bmap) in
  do! bg := mwrap "ext4: write new inode bitmap" (writeBitmapBufNoLock g bg false inodeBitmapBlock imap) in
  do! _ := zero_table (Z.to_nat (inode_table_blocks sb)) inodeTableBlock in
  do! _ := mwrap "ext4: write BGD for new group" (writeBGD fsOffset g bg) in
  ret (groupBlocks - reserved).

(** The new groups: the free blocks and the inodes added. *)
Fixpoint new_groups (n : nat) (g newBlocks gdtBlocksNew reservedGdt blocks inodes : Z) : FS (Z * Z) :=
  match n with
  | O => ret (blocks, inodes)
  | S n' =>
      do! added := new_group g newBlocks gdtBlocksNew reservedGdt in
      do! sb := get_sb in
      new_groups n' (g + 1) newBlocks gdtBlocksNew reservedGdt (w64 (blocks + added)) (w32 (inodes + InodesPerGroup sb))
  end.

(** The number of backup groups from 1 up to [g]. *)
Fixpoint backup_ordinal (n : nat) (sb : superblock) (x : Z) : res Z :=
  match n with
  | O => Ok 0
  | S n' =>
      let! sparse := sparse_group sb x in
      let! rest := backup_ordinal n' sb (x + 1) in
      Ok (if sparse : bool then 1 + rest else rest)
  end.

(** The indirect blocks of the resize inode for one new group. *)
Fixpoint extend_ind (n : nat) (dind : list Z) (i slot grpReservedStart added : Z) : FS Z :=
  match n with
  | O => ret added
  | S n' =>
      do! indBlockNum := mlift (get32 dind (i * 4)) in
      if indBlockNum =? 0 then extend_ind n' dind (i + 1) slot grpReservedStart added else
      do! sb := get_sb in
      do! indBuf := mwrap "read IND block"
        (gets (fun d sb => read_at d (i64 (fsOffset + indBlockNum * BlockSize sb)) (BlockSize sb))) in
      do! indBuf := mlift (put32 indBuf (slot * 4) (w32 (grpReservedStart + i - 1))) in
      do! _ := mwrap "write IND block" (writeRawBlock fsOffset indBlockNum indBuf) in
      extend_ind n' dind (i + 1) slot grpReservedStart (added + 1)
  end.

Fixpoint extend_groups (n : nat) (dind : list Z) (g gdtBlocks added : Z) : FS Z :=
  match n with
  | O => ret added
  | S n' =>
      do! sb := get_sb in
      do! sparse := mlift (sparse_group sb g) in
      if negb (sparse : bool) then extend_groups n' dind (g + 1) gdtBlocks added else
      do! slot := mlift (backup_ordinal (Z.to_nat (g - 1)) sb 1) in
      do! added := extend_ind (Z.to_nat (zlen dind / 4)) dind 0 slot (group_start sb g + 1 + gdtBlocks) added in
      extend_groups n' dind (g + 1) gdtBlocks added
  end.

Definition extendResizeInode (oldGroups newGroups gdtBlocks : Z) : FS unit :=
  do! i := mwrap "read resize inode" (gets (fun d sb => readInode d fsOffset sb resizeIno)) in
  do! dindBlock := mlift (get32 (in_raw i) (inodeOffBlock + 13 * 4)) in
  if dindBlock =? 0 then mfail (Errorf "resize inode has no double-indirect block") else
  do! dind := mwrap "read DIND block"
    (gets (fun d sb => read_at d (i64 (fsOffset + dindBlock * BlockSize sb)) (BlockSize sb))) in
  do! addedBlocks := extend_groups (Z.to_nat (newGroups - oldGroups)) dind oldGroups gdtBlocks 0 in
  if addedBlocks =? 0 then ret tt else
  do! sb := get_sb in
  do! lo := mlift (get32 (in_raw i) 28) in
  do! hi := mlift (get16 (in_raw i) inodeOffBlocksHi) in
  let total := w64 (Z.lor (Z.shiftl hi 32) lo + addedBlocks * (BlockSize sb / 512)) in
  do! i := mlift (let! i := inode_put32 i 28 (Z.land total 0xFFFFFFFF) in
                  inode_put16 i inodeOffBlocksHi (w16 (Z.shiftr total 32))) in
  do! _ := mwrap "write resize inode" (writeInode fsOffset i) in
  ret tt.

Fixpoint refresh_groups (n : nat) (gdt : list Z) (g : Z) : FS unit :=
  match n with
  | O => ret tt
  | S n' =>
      do! sb := get_sb in
      do! sparse := mlift (sparse_group sb g) in
      if negb (sparse : bool) then refresh_groups n' gdt (g + 1) else
      do! sbCopy := mlift (backup_raw sb g) in
      do! _ := mwrap "write backup superblock" (writeRawBlock fsOffset (group_start sb g) sbCopy) in
      do! _ := mwrap "write backup GDT"
        (on_dev (write_at (i64 (fsOffset + (group_start sb g + 1) * BlockSize sb)) gdt)) in
      refresh_groups n' gdt (g + 1)
  end.

Definition refreshSuperBackups (nGroups gdtBlocks : Z) : FS unit :=
  do! sb := get_sb in
  do! gdt := mwrap "read primary GDT"
    (gets (fun d sb => read_at d (i64 (fsOffset + bgdTableBlock sb * BlockSize sb)) (gdtBlocks * BlockSize sb))) in
  refresh_groups (Z.to_nat (nGroups - 1)) gdt 1.

Definition device_size : FS Z := mwrap "ext4: stat backing file" (gets (fun d _ => dev_Size d)).

Definition Grow (newSizeBytes : Z) : FS unit :=
  if newSizeBytes <=? 0 then mfail (Errorf "ext4: invalid new size") else
  do! curSize := device_size in
  if newSizeBytes <=? curSize then mfail (Errorf "ext4: new size must be greater than current size") else
  do! sb := get_sb in
  if BlockSize sb =? 0 then mfail (Errorf "ext4: invalid superblock/blocksize") else
  let oldBlocks := BlocksCount sb in
  let curBlocks := curSize / BlockSize sb in
  let newBlocks := newSizeBytes / BlockSize sb in
  if newBlocks <=? curBlocks then mfail (Errorf "ext4: new size does not add full blocks") else
  if BlocksPerGroup sb =? 0 then mlift Panic else
  let oldGroups := numBlockGroups sb in
  let newGroups := groups_for sb newBlocks in
  do! _ := mwrap "ext4: truncate backing file" (on_dev (truncate_dev newSizeBytes)) in
  let sb := if fsOffset <? newSizeBytes then with_deviceBytes sb (newSizeBytes - fsOffset) else sb in
  do! _ := set_sb (with_BlocksCount sb newBlocks) in
  do! added := grow_last_group oldGroups oldBlocks newBlocks in
  do! sb := get_sb in
  let gdtBlocksNew := gdt_blocks sb newGroups in
  do! reservedGdt := mlift (reserved_gdt sb) in
  do! (blocks, inodes) := new_groups (Z.to_nat (newGroups - oldGroups)) oldGroups newBlocks gdtBlocksNew reservedGdt added 0 in
  do! _ := (if 0 <? reservedGdt
            then mwrap "ext4: extend resize inode" (extendResizeInode oldGroups newGroups gdtBlocksNew)
            else ret tt) in
  do! sb := get_sb in
  let sb := with_counts sb newBlocks (w64 (sb_FreeBlocksCount sb + blocks)) (sb_FreeInodesCount sb) in
  do! sb := mlift (if 0 <? inodes
                   then with_InodesCount sb (w32 (InodesCount sb + inodes)) (w32 (sb_FreeInodesCount sb + inodes))
                   else Ok sb) in
  do! _ := set_sb sb in
  do! _ := mwrap "ext4: write updated superblock" (writeSuperblock fsOffset) in
  mwrap "ext4: refresh backups" (refreshSuperBackups newGroups gdtBlocksNew).

(** ** Shrinking *)

(** The bits of a group that stand for blocks: [groupEnd - groupStart], at most
    the bits of the bitmap. *)
Definition group_bits (sb : superblock) (g blocks : Z) (bmap : list Z) : Z :=
  let groupStart := group_start sb g in
  let groupEnd := Z.min (groupStart + BlocksPerGroup sb) blocks in
  Z.min (i64 (w64 (groupEnd - groupStart))) (zlen bmap * 8).

Definition head_reserved (sb : superblock) (g : Z) : res Z :=
  let! reservedGdt := reserved_gdt sb in
  let! superBlocks := super_blocks sb (gdt_blocks sb (numBlockGroups sb)) reservedGdt g in
  Ok (superBlocks + 2 + inode_table_blocks sb).

(** The scan for the highest used bit: [n] rounds, from [i] down. *)
Fixpoint highest_used (n : nat) (bmap : list Z) (i : Z) : res (option Z) :=
  match n with
  | O => Ok None
  | S n' =>
      let! clear := bit_clear bmap i in
      if negb (clear : bool) then Ok (Some i) else highest_used n' bmap (i - 1)
  end.

(** One group of [shrinkMinimumBlocks], with the highest candidate so far. *)
Definition min_in_group (g highestUsed : Z) : FS Z :=
  do! sb := get_sb in
  do! bg := mwrap "ext4: read BGD" (gets (fun d sb => readBGD d fsOffset sb g)) in
  do! bmap := mwrap "ext4: read block bitmap" (readBitmap fsOffset (BlockBitmapBlock bg)) in
  let max := group_bits sb g (BlocksCount sb) bmap in
  do! headReserved := mlift (head_reserved sb g) in
  let floor := Z.min headReserved max in
  do! found := mlift (highest_used (Z.to_nat (max - floor)) bmap (max - 1)) in
  ret (match found with
       | Some i => Z.max highestUsed (group_start sb g + i + 1)
       | None => highestUsed
       end).

Fixpoint min_in_groups (n : nat) (g highestUsed : Z) : FS Z :=
  match n with
  | O => ret highestUsed
  | S n' =>
      do! highestUsed := min_in_group g highestUsed in
      min_in_groups n' (g + 1) highestUsed
  end.

Definition shrinkMinimumBlocks : FS Z :=
  do! sb := get_sb in
  if (BlockSize sb =? 0) || (BlocksPerGroup sb =? 0) then mfail (Errorf "ext4: invalid superblock for shrink") else
  do! highestUsed := min_in_groups (Z.to_nat (numBlockGroups sb)) 0 0 in
  ret (Z.max highestUsed (BlocksPerGroup sb)).

(** The tail of the last remaining group: every bit cleared, and how many of them
    were clear already. *)
Fixpoint clear_tail (n : nat) (bmap : list Z) (i prevFree : Z) : res (list Z * Z) :=
  match n with
  | O => Ok (bmap, prevFree)
  | S n' =>
      let! clear := bit_clear bmap i in
      let! bmap := clearBit bmap i in
      clear_tail n' bmap (i + 1) (if clear : bool then w32 (prevFree + 1) else prevFree)
  end.

(** The blocks of group [g] below [blocks]. *)
Definition blocks_in_group (sb : superblock) (g blocks : Z) : Z :=
  if group_start sb g <? blocks then Z.min (blocks - group_start sb g) (BlocksPerGroup sb) else 0.

(** Step 1: the trailing group loses the blocks past the new end; how many of
    them were free. *)
Definition shrink_tail (lastNew oldBlocks newBlocks : Z) : FS Z :=
  do! sb := get_sb in
  let oldGroupUsed := blocks_in_group sb lastNew oldBlocks in
  let newGroupUsed := blocks_in_group sb lastNew newBlocks in
  if oldGroupUsed <=? newGroupUsed then ret 0 else
  do! bg := mwrap "ext4: read BGD for trailing group" (gets (fun d sb => readBGD d fsOffset sb lastNew)) in
  do! bmap := mwrap "ext4: read trailing block bitmap" (readBitmap fsOffset (BlockBitmapBlock bg)) in
  do! (bmap, prevFree) := mlift (clear_tail (Z.to_nat (oldGroupUsed - newGroupUsed)) bmap newGroupUsed 0) in
  if FreeBlocksCount bg <? prevFree then mfail (Errorf "ext4: trailing group BGD free count below expected free in tail") else
  let bg := bgd_with_counts bg (FreeBlocksCount bg - prevFree) (FreeInodesCount bg) (UsedDirsCount bg) in
  do! bg := mwrap "ext4: write trailing block bitmap" (writeBitmapBufNoLock lastNew bg true (BlockBitmapBlock bg) bmap) in
  do! _ := mwrap "ext4: write trailing BGD" (writeBGD fsOffset lastNew bg) in
  ret prevFree.

(** The two loops over the data bits of a dropped group: a used one refuses the
    shrink, the clear ones are counted. *)
Fixpoint no_used_bit (n : nat) (bmap : list Z) (i : Z) : res unit :=
  match n with
  | O => Ok tt
  | S n' =>
      let! clear := bit_clear bmap i in
      if negb (clear : bool) then Err (Errorf "ext4: shrink refused: group has used data block") else no_used_bit n' bmap (i + 1)
  end.

(** Step 2 for one dropped group: its free blocks and free inodes. *)
Definition drop_group (g oldBlocks : Z) : FS (Z * Z) :=
  do! sb := get_sb in
  do! bg := mwrap "ext4: read BGD during shrink" (gets (fun d sb => readBGD d fsOffset sb g)) in
  do! bmap := mwrap "ext4: read block bitmap" (readBitmap fsOffset (BlockBitmapBlock bg)) in
  do! reserved := mlift (head_reserved sb g) in
  let maxBits := group_bits sb g oldBlocks bmap in
  let rounds := Z.to_nat (maxBits - reserved) in
  do! _ := mlift (no_used_bit rounds bmap reserved) in
  do! groupFree := mlift (countClear_from rounds bmap reserved 0) in
  do! ibmap := mwrap "ext4: read inode bitmap" (readBitmap fsOffset (InodeBitmapBlock bg)) in
  do! (used, _) := mlift (countUsedBits ibmap (InodesPerGroup sb)) in
  if negb (used =? 0) then mfail (Errorf "ext4: shrink refused: group has allocated inodes") else
  ret (groupFree, FreeInodesCount bg).

(** The dropped groups: free blocks, inodes and free inodes lost. *)
Fixpoint drop_groups (n : nat) (g oldBlocks freed inodes freeInodes : Z) : FS (Z * Z * Z) :=
  match n with
  | O => ret (freed, inodes, freeInodes)
  | S n' =>
      do! (groupFree, groupInodes) := drop_group g oldBlocks in
      do! sb := get_sb in
      drop_groups n' (g + 1) oldBlocks (w64 (freed + groupFree)) (w32 (inodes + InodesPerGroup sb)) (w32 (freeInodes + groupInodes))
  end.

(** The steps after the guards, for [newBlocks] blocks in [newGroups] groups. *)
Definition shrink_to (newSizeBytes newBlocks newGroups : Z) : FS unit :=
  do! sb := get_sb in
  let oldBlocks := BlocksCount sb in
  let oldGroups := numBlockGroups sb in
  do! freed := shrink_tail (newGroups - 1) oldBlocks newBlocks in
  do! (freedBlocks, inodes, freeInodes) := drop_groups (Z.to_nat (oldGroups - newGroups)) newGroups oldBlocks freed 0 0 in
  do! sb := get_sb in
  let sb := with_counts sb newBlocks (w64 (sb_FreeBlocksCount sb - freedBlocks)) (sb_FreeInodesCount sb) in
  do! sb := mlift (if 0 <? inodes
                   then with_InodesCount sb (w32 (InodesCount sb - inodes)) (w32 (sb_FreeInodesCount sb - freeInodes))
                   else Ok sb) in
  do! _ := set_sb sb in
  do! _ := mwrap "ext4: write updated superblock" (writeSuperblock fsOffset) in
  mwrap "ext4: truncate backing file" (on_dev (truncate_dev newSizeBytes)).

Definition Shrink (newSizeBytes : Z) : FS unit :=
  if newSizeBytes <=? 0 then mfail (Errorf "ext4: invalid new size") else
  do! curSize := device_size in
  if curSize <=? newSizeBytes then mfail (Errorf "ext4: new size must be smaller than current size") else
  do! sb := get_sb in
  if (BlockSize sb =? 0) || (BlocksPerGroup sb =? 0) then mfail (Errorf "ext4: invalid superblock/blocksize") else
  if negb (newSizeBytes mod BlockSize sb =? 0) then mfail (Errorf "ext4: new size is not a multiple of block size") else
  let newBlocks := newSizeBytes / BlockSize sb in
  if BlocksCount sb <=? newBlocks then mfail (Errorf "ext4: new size does not drop any blocks") else
  do! minBlocks := shrinkMinimumBlocks in
  if newBlocks <? minBlocks then mfail (Errorf "ext4: shrink refused: used data extends beyond truncation point") else
  let newGroups := groups_for sb newBlocks in
  if newGroups =? 0 then mfail (Errorf "ext4: shrink would leave zero block groups") else
  shrink_to newSizeBytes newBlocks newGroups.

Definition Resize (newSizeBytes : Z) : FS unit :=
  if newSizeBytes <=? 0 then mfail (Errorf "ext4: invalid new size") else
  do! curSize := device_size in
  if newSizeBytes =? curSize then ret tt else
  if curSize <? newSizeBytes then Grow newSizeBytes else Shrink newSizeBytes.

End ops.
