(* ===== verification/ResizeSpec.v ===== *)
(** Shrinking end to end ([src/resize.go]): the smallest size the file system can
    be cut to, and what a shrink refuses, drops and keeps. *)

From S2P Require Import Prelude Bytes Crc Device Superblock Bgd Bitmap GoLib Extent Limits Inode Inline FileRead Dir Alloc Journal Image Lookup Namespace AllocSpec JournalSpec Fsck FsInv Resize.

(** What the backing store promises of [Truncate] to a smaller size. *)
Class TruncateLaws (D : Type) `{BlockDev D} : Type := {
  trunc_ok : forall d n, 0 <= n -> (dev_Truncate d n).1 = None;
  trunc_size : forall d n d', 0 <= n -> dev_Truncate d n = (None, d') -> dev_Size d' = Ok n;
  trunc_read : forall d n d' o m r, 0 <= o -> 0 <= m -> o + m <= n -> dev_Truncate d n = (None, d') ->
    read_at d o m = Ok r -> read_at d' o m = Ok r
}.

Lemma i64_w64 x : - 2 ^ 63 <= x < 2 ^ 63 -> i64 (w64 x) = x.
Proof.
  intros Hx. destruct (decide (0 <= x)); [rewrite w64_small, i64_small; lia|].
  unfold i64, w64. replace (x mod _) with (x + 18446744073709551616)
    by (apply Zmod_unique with (-1); lia).
  dlia.
Qed.

(** * Scans of a bitmap *)

Lemma highest_used_spec n bmap i :
  i < 8 * zlen bmap -> Z.of_nat n <= i + 1 ->
  exists o, highest_used n bmap i = Ok o /\
    match o with
    | Some j => i - Z.of_nat n < j <= i /\ used bmap j = true /\ forall k, j < k <= i -> used bmap k = false
    | None => forall k, i - Z.of_nat n < k <= i -> used bmap k = false
    end.
Proof.
  revert i. induction n as [|n IH]; intros i Hi Hn; cbn [highest_used].
  { exists None. split; [done|]. intros. lia. }
  rewrite bit_clear_ok by lia. cbn [rbind]. rewrite negb_involutive.
  destruct (used bmap i) eqn:E.
  { exists (Some i). split_and!; [done|lia..|done|]. intros. lia. }
  destruct (IH (i - 1)) as (o & -> & Ho); [lia..|]. exists o. split; [done|].
  destruct o as [j|].
  - destruct Ho as (Hj & Hu & Hk). split_and!; [lia..|done|]. intros k Hk'.
    destruct (decide (k = i)) as [->|]; [done|]. apply Hk. lia.
  - intros k Hk'. destruct (decide (k = i)) as [->|]; [done|]. apply Ho. lia.
Qed.

(** The three scans of a range without a used bit. *)
Lemma scan_clear n bmap i c :
  0 <= i -> i + Z.of_nat n <= 8 * zlen bmap ->
  (forall j, i <= j < i + Z.of_nat n -> used bmap j = false) ->
  no_used_bit n bmap i = Ok tt /\ countClear_from n bmap i c = Ok (c + Z.of_nat n) /\
  countSet_from n bmap i c = Ok c.
Proof.
  revert i c. induction n as [|n IH]; intros i c Hi Hn Hu; cbn [no_used_bit countClear_from countSet_from].
  { split_and!; [done|f_equal; lia|done]. }
  rewrite bit_clear_ok by lia. rewrite Hu by lia. cbn [rbind negb].
  destruct (IH (i + 1) (c + 1)) as (E1 & E2 & _); [lia..|intros; apply Hu; lia|].
  destruct (IH (i + 1) c) as (_ & _ & E3); [lia..|intros; apply Hu; lia|].
  rewrite E1, E2, E3. split_and!; [done|f_equal; lia|done].
Qed.

(** The clear bits in [[lo, hi)]. *)
Definition clear_in (bmap : list Z) (lo hi : Z) : list Z :=
  filter (fun i => used bmap i = false) (seqZ lo (hi - lo)).

(** What [clear_tail] leaves: the bits of the range are clear. *)
Lemma clear_tail_spec n bmap i c :
  bytes_ok bmap -> 0 <= i -> i + Z.of_nat n <= 8 * zlen bmap -> 0 <= c -> c + Z.of_nat n < 2 ^ 32 ->
  exists bmap', clear_tail n bmap i c = Ok (bmap', c + zlen (clear_in bmap i (i + Z.of_nat n))) /\
    zlen bmap' = zlen bmap /\ bytes_ok bmap' /\
    forall j, 0 <= j -> used bmap' j = if decide (i <= j < i + Z.of_nat n) then false else used bmap j.
Proof.
  revert bmap i c. induction n as [|n IH]; intros bmap i c Hb Hi Hn Hc Hcn; cbn [clear_tail].
  { exists bmap. unfold clear_in. replace (i + Z.of_nat 0 - i) with 0 by lia. cbn. rewrite Z.add_0_r.
    split_and!; [done..|]. intros j Hj. rewrite decide_False by lia. done. }
  rewrite bit_clear_ok by lia. cbn [rbind].
  destruct (clearBit_spec bmap i Hb ltac:(lia)) as (b1 & -> & Hl1 & Hb1 & Hu1). cbn [rbind].
  set (c' := if negb (used bmap i) then w32 (c + 1) else c).
  assert (c' = c + if used bmap i then 0 else 1) as Hc'.
  { unfold c'. destruct (used bmap i); cbn; [lia|]. apply w32_small. lia. }
  destruct (IH b1 (i + 1) c') as (b2 & -> & Hl2 & Hb2 & Hu2); [done|lia|lia|case_match; lia..|].
  exists b2. split_and!; [|lia|done|].
  - do 2 f_equal. unfold clear_in. replace (i + Z.of_nat (S n) - i) with (Z.of_nat (S n)) by lia.
    rewrite seqZ_cons_zlen. replace (i + 1 + Z.of_nat n - (i + 1)) with (Z.of_nat n) by lia.
    rewrite (filter_ext_in (used b1) (used bmap)).
    2: { intros j [Hj _]%elem_of_seqZ. rewrite Hu1 by lia. by rewrite decide_False by lia. }
    rewrite Hc'. destruct (used bmap i) eqn:E;
      [rewrite filter_cons_False by congruence | rewrite filter_cons_True by done; rewrite zlen_cons]; lia.
  - intros j Hj. rewrite Hu2, Hu1 by lia. repeat case_decide; done || lia.
Qed.

Section spec.
Context {D : Type} `{BlockDevLaws D} `{SortSlice} `{Safeio}.
Context (fsOffset : Z).

(** * The smallest size *)

(** The blocks at the head of a group that the code takes for its metadata. *)
Definition head (sb : superblock) (g : Z) : Z :=
  match head_reserved sb g with Ok n => n | _ => 0 end.

(** A block in use behind the head of its group. *)
Definition in_use (s : fsys D) (blk : Z) : Prop :=
  exists g bg bmap imap i, 0 <= g < numBlockGroups (fs_sb s) /\ group_at fsOffset s g bg bmap imap /\
    head (fs_sb s) g <= i < BlocksPerGroup (fs_sb s) /\ used bmap i = true /\
    blk = block_no (fs_sb s) g i /\ blk < BlocksCount (fs_sb s).

Lemma super_blocks_ok sb gdt rsv g :
  0 <= g <= 5 ^ 13 -> 0 <= gdt -> 0 <= rsv -> exists n, super_blocks sb gdt rsv g = Ok n /\ 0 <= n.
Proof.
  intros Hg Hgdt Hr. unfold super_blocks, sparse_group, isSparseSuperGroup.
  destruct (groupIsSparseBackup_spec g Hg) as (r & Hs & _). rewrite Hs.
  destruct (_ =? 0); cbn [rbind]; [|destruct r]; eexists; (split; [reflexivity|lia]).
Qed.

Lemma head_reserved_ok sb g :
  zlen (sb_raw sb) = 1024 -> bytes_ok (sb_raw sb) -> 0 < BlockSize sb -> 0 <= g <= 5 ^ 13 ->
  head_reserved sb g = Ok (head sb g) /\ 0 <= head sb g.
Proof.
  intros Hl Hb Hbs Hg. unfold head, head_reserved, reserved_gdt.
  rewrite getN_ok by lia. cbn [rbind].
  assert (forall x, 0 <= w64 x / BlockSize sb) as Hq
    by (intros x; apply Z.div_pos; [apply w64_range|done]).
  destruct (super_blocks_ok sb (gdt_blocks sb (numBlockGroups sb)) (u16 (sb_raw sb) 206) g)
    as (n & -> & Hn); [done|apply Hq|apply u16_range; done|].
  cbn [rbind]. split; [done|]. unfold inode_table_blocks. pose proof (Hq (InodeSize sb * InodesPerGroup sb + BlockSize sb - 1)). lia.
Qed.

(** The geometry under which the scans stay in their bitmaps. *)
Record geometry (s : fsys D) : Prop := {
  ge_rest : at_rest s;
  ge_bpg : 0 < BlocksPerGroup (fs_sb s) < 2 ^ 31;
  ge_first : 0 <= FirstDataBlock (fs_sb s) < 2 ^ 32;
  ge_blocks : 0 <= BlocksCount (fs_sb s) <= 2 ^ 48;
  ge_groups : BlocksCount (fs_sb s) <= BlocksPerGroup (fs_sb s) * 5 ^ 13
}.
Definition shrinkable (s : fsys D) : Prop := fs_ok fsOffset s /\ geometry s.

(** The number of groups, rounded up. *)
Lemma groups_for_spec sb n :
  0 < BlocksPerGroup sb < 2 ^ 31 -> 0 <= n <= 2 ^ 48 -> n <= BlocksPerGroup sb * 5 ^ 13 ->
  0 <= groups_for sb n <= 5 ^ 13 /\ n <= groups_for sb n * BlocksPerGroup sb < n + BlocksPerGroup sb.
Proof.
  intros Hb Hn Hg. unfold groups_for. rewrite w64_small by lia.
  set (q := (n + BlocksPerGroup sb - 1) / BlocksPerGroup sb).
  assert (BlocksPerGroup sb * q <= n + BlocksPerGroup sb - 1 < BlocksPerGroup sb * (q + 1)) as Hq.
  { pose proof (Z.div_mod (n + BlocksPerGroup sb - 1) (BlocksPerGroup sb) ltac:(lia)).
    pose proof (Z.mod_pos_bound (n + BlocksPerGroup sb - 1) (BlocksPerGroup sb) ltac:(lia)). unfold q. nia. }
  assert (0 <= q <= 5 ^ 13) by nia. rewrite w32_small by lia. nia.
Qed.

Lemma geometry_groups s : geometry s -> 0 <= numBlockGroups (fs_sb s) <= 5 ^ 13.
Proof. intros []. by apply (groups_for_spec (fs_sb s) (BlocksCount (fs_sb s))). Qed.

Lemma group_bits_eq sb g blocks bmap :
  0 <= FirstDataBlock sb < 2 ^ 32 -> 0 < BlocksPerGroup sb < 2 ^ 31 -> 0 <= g <= 5 ^ 13 ->
  0 <= blocks <= 2 ^ 48 -> BlocksPerGroup sb <= 8 * zlen bmap ->
  group_bits sb g blocks bmap = Z.min (BlocksPerGroup sb) (blocks - group_start sb g).
Proof.
  intros Hf Hb Hg Hn Hl. unfold group_bits. assert (0 <= group_start sb g < 2 ^ 63 - 2 ^ 32) by (unfold group_start; nia).
  rewrite i64_w64 by lia. lia.
Qed.

Lemma min_in_group_run s g h bg bmap imap :
  geometry s -> 0 <= g < numBlockGroups (fs_sb s) -> group_at fsOffset s g bg bmap imap ->
  layout fsOffset (fs_sb s) g (BlockBitmapBlock bg) (InodeBitmapBlock bg) ->
  exists h', min_in_group fsOffset g h s = (Ok h', s) /\ h <= h' /\
    (forall i, head (fs_sb s) g <= i < BlocksPerGroup (fs_sb s) -> used bmap i = true ->
       block_no (fs_sb s) g i < BlocksCount (fs_sb s) -> block_no (fs_sb s) g i < h') /\
    (h' = h \/ exists b, in_use s b /\ h' = b + 1).
Proof.
  intros Hgeo Hg Hga L. pose proof (geometry_groups s Hgeo) as Hgs. destruct Hgeo as [(Hr & Hl & Hby) Hb Hf Hn _]. pose proof Hga as [G1 G2 _ _]. pose proof L as [].
  assert (zlen bmap = BlockSize (fs_sb s)) as Hzl by (eapply read_block_ok; [exact G2|lia]).
  destruct (head_reserved_ok (fs_sb s) g) as [Hh Hh0]; [done|done|lia|lia|].
  unfold min_in_group. run_sb. run G1.
  run_with ltac:(apply (readBitmap_empty fsOffset s _ bmap); [lia|done..]). run Hh.
  rewrite group_bits_eq by lia. set (m := Z.min (BlocksPerGroup (fs_sb s)) (BlocksCount (fs_sb s) - group_start (fs_sb s) g)).
  set (fl := Z.min (head (fs_sb s) g) m).
  destruct (decide (m <= 0)) as [Hm|Hm].
  { replace (Z.to_nat (m - fl)) with 0%nat by lia. exists h. split; [reflexivity|]. split; [lia|]. split; [|by left].
    intros i Hi Hu Hlt. unfold block_no in *. unfold group_start in *. lia. }
  destruct (highest_used_spec (Z.to_nat (m - fl)) bmap (m - 1)) as (o & Ho & Hs); [lia..|]. run Ho.
  rewrite Z2Nat.id in Hs by lia. unfold ret. eexists. split; [reflexivity|].
  assert (forall i, block_no (fs_sb s) g i = group_start (fs_sb s) g + i) as Hbn by (intros; done).
  destruct o as [j|].
  - destruct Hs as (Hj & Hu & Hk). split; [lia|]. split.
    + intros i Hi Hui Hlt. rewrite Hbn in *. destruct (decide (j < i)); [|lia].
      rewrite (Hk i) in Hui by lia. done.
    + destruct (Z.max_spec h (group_start (fs_sb s) g + j + 1)) as [[_ ->]|[_ ->]]; [right|by left].
      exists (block_no (fs_sb s) g j). split; [|rewrite Hbn; lia].
      exists g, bg, bmap, imap, j. rewrite Hbn. split_and!; auto; lia.
  - split; [lia|]. split; [|by left]. intros i Hi Hui Hlt. rewrite Hbn in Hlt. rewrite (Hs i) in Hui by lia. done.
Qed.

Lemma min_in_groups_run s n g h :
  shrinkable s -> 0 <= g -> g + Z.of_nat n = numBlockGroups (fs_sb s) ->
  exists h', min_in_groups fsOffset n g h s = (Ok h', s) /\ h <= h' /\
    (forall g' bg bmap imap i, g <= g' < numBlockGroups (fs_sb s) -> group_at fsOffset s g' bg bmap imap ->
       head (fs_sb s) g' <= i < BlocksPerGroup (fs_sb s) -> used bmap i = true ->
       block_no (fs_sb s) g' i < BlocksCount (fs_sb s) -> block_no (fs_sb s) g' i < h') /\
    (h' = h \/ exists b, in_use s b /\ h' = b + 1).
Proof.
  intros Hs. revert g h. induction n as [|n IH]; intros g h Hg Hn; cbn [min_in_groups].
  { exists h. split; [done|]. split; [lia|]. split; [|by left]. intros. lia. }
  destruct (proj2 (proj2 (proj1 Hs)) g) as (bg & bmap & imap & Hga & L & _); [lia|].
  destruct (min_in_group_run s g h bg bmap imap (proj2 Hs)) as (h1 & R1 & Hle1 & Hb1 & Hx1); [lia|done..|]. run R1.
  destruct (IH (g + 1) h1) as (h2 & R2 & Hle2 & Hb2 & Hx2); [lia..|]. exists h2. split; [exact R2|].
  split; [lia|]. split; [|destruct Hx2 as [->|?]; [exact Hx1|by right]].
  intros g' bg' bmap' imap' i Hg' Hga' Hi Hu Hlt. destruct (decide (g' = g)) as [->|].
  - destruct (group_at_det _ _ _ _ _ _ _ _ _ Hga Hga') as (-> & -> & ->).
    apply (Z.lt_le_trans _ h1); [by apply Hb1|done].
  - eapply Hb2; eauto. lia.
Qed.

(** [shrinkMinimumBlocks] answers, changes nothing, and its answer is the end of
    the last block in use, or one group. *)
Lemma shrinkMinimumBlocks_run s :
  shrinkable s -> exists m, shrinkMinimumBlocks fsOffset s = (Ok m, s) /\ BlocksPerGroup (fs_sb s) <= m /\
    (forall b, in_use s b -> b < m) /\
    (m = BlocksPerGroup (fs_sb s) \/ exists b, in_use s b /\ m = b + 1).
Proof.
  intros Hs. pose proof (geometry_groups s (proj2 Hs)).
  destruct (min_in_groups_run s (Z.to_nat (numBlockGroups (fs_sb s))) 0 0 Hs) as (h & R & Hh & Hb & Hx); [lia..|].
  pose proof Hs as [(_ & Hn0 & Hok) [_ Hbpg Hf _ _]]. destruct (Hok 0) as (? & ? & ? & _ & [] & _); [lia|].
  unfold shrinkMinimumBlocks. run_sb. rewrite !eqb_false by lia. cbn [orb]. run R. eexists. split; [reflexivity|].
  split; [lia|]. split.
  - intros b (g & bg & bmap & imap & i & Hg & Hga & Hi & Hu & -> & Hlt).
    pose proof (Hb g bg bmap imap i Hg Hga Hi Hu Hlt). lia.
  - destruct (Z.max_spec h (BlocksPerGroup (fs_sb s))) as [[_ ->]|[? ->]]; [by left|].
    destruct Hx as [->|?]; [lia|by right].
Qed.

(** * The trailing group *)

Hypothesis Hwritable : dev_writable D.

(** Reads apart from the block bitmap and the descriptor of a group. *)
Definition map_frame (s s' : fsys D) (g : Z) (bg : bgd) : Prop :=
  forall o n r, off_block fsOffset (fs_sb s) (BlockBitmapBlock bg) o n ->
    sep o n (fsOffset + bgd_offset (fs_sb s) g) (DescSize (fs_sb s)) ->
    read_at (fs_dev s) o n = Ok r -> read_at (fs_dev s') o n = Ok r.

Lemma writeRawBlock_run (s : fsys D) blk data d' :
  32 <= DescSize (fs_sb s) -> 0 <= fsOffset + blk * BlockSize (fs_sb s) < 2 ^ 63 ->
  write_at (fsOffset + blk * BlockSize (fs_sb s)) data (fs_dev s) = (Ok tt, d') ->
  writeRawBlock fsOffset blk data s = (Ok tt, Fsys d' (fs_sb s) (fs_cursor s) (fs_rsv s)).
Proof.
  intros Hd Hr W. unfold writeRawBlock. run_sb. apply mwrap_run. rewrite i64_small by lia.
  rewrite writeAtWithTrace_write by (intros; by apply readBGD_np). unfold on_dev. by rewrite W.
Qed.

(** A block bitmap written with its descriptor: the worker counts it anew. *)
Lemma rewrite_map_ok s g bg bmap imap bmap' fb :
  group_at fsOffset s g bg bmap imap ->
  layout fsOffset (fs_sb s) g (BlockBitmapBlock bg) (InodeBitmapBlock bg) ->
  zlen bmap' = BlockSize (fs_sb s) -> bytes_ok bmap' -> 0 <= fb < count_max (fs_sb s) ->
  exists b1 s1 s2,
    writeBitmapBufNoLock fsOffset g (bgd_with_counts bg fb (FreeInodesCount bg) (UsedDirsCount bg)) true
      (BlockBitmapBlock bg) bmap' s = (Ok b1, s1) /\
    writeBGD fsOffset g b1 s1 = (Ok tt, s2) /\ same_meta s s2 /\ map_frame s s2 g bg /\
    (forall o n r, read_at (fs_dev s) o n = Ok r -> exists r', read_at (fs_dev s2) o n = Ok r') /\
    exists bg', group_at fsOffset s2 g bg' bmap' imap /\ twin (fs_sb s) bg bg' /\
      FreeBlocksCount bg' = free_count (fs_sb s) true bmap' /\
      FreeInodesCount bg' = free_count (fs_sb s) false imap.
Proof.
  intros Hga L Hl Hb Hfb. pose proof L as []. pose proof Hga as [G1 G2 G3 G4].
  destruct (readBGD_ok fsOffset (fs_dev s) (fs_sb s) g bg ltac:(lia) G1) as (F & B & E).
  destruct (decodeBGD_ranges _ _ _ B E) as (_ & Hfi & _).
  destruct (setBitmapCsum_ok (fs_sb s) g (bgd_raw bg) true bmap' F B) as (raw1 & Hcs & F1 & B1 & E1).
  unfold read_block in G2. rewrite i64_small in G2 by lia.
  destruct (write_at_total Hwritable (fs_dev s) (fsOffset + BlockBitmapBlock bg * BlockSize (fs_sb s)) bmap' _ bmap
    (eq_sym Hl)) as [d1 W]; [lia|done|].
  pose proof (keeps_write _ _ _ _ W Hb) as [K1 K2]. rewrite Hl in K1.
  set (s1 := Fsys d1 (fs_sb s) (fs_cursor s) (fs_rsv s)).
  assert (group_at fsOffset s1 g bg bmap' imap) as Hga1.
  { split; cbn; auto.
    - unfold readBGD in *. apply rbind_Ok in G1 as (raw & Hr%rwrap_Ok & Hd). rewrite (K1 _ _ raw); [done| |done].
      unfold sep in *. lia.
    - unfold read_block. rewrite i64_small by lia. by eapply write_read_same; eauto.
    - unfold read_block in *. rewrite i64_small in * by lia. apply K1; [unfold sep in *; lia|done]. }
  assert (twin (fs_sb s) bg (bgd_with_raw bg raw1)) as T by (split; auto).
  destruct (prepareBGD_twin (fs_sb s) g bg (bgd_with_raw bg raw1) fb (FreeInodesCount bg)) as (b2 & Hp & T2 & _);
    [lia|done|done|done|done|].
  destruct (write_desc_ok fsOffset Hwritable s1 g bg bmap' imap b2 Hga1 L T2) as (s2 & Hw & M2 & [K3 K4] & bg' & Hg' & T' & C1 & C2).
  eexists _, s1, s2. split.
  { unfold writeBitmapBufNoLock. run_sb. run Hcs. run_with ltac:(apply writeRawBlock_run; [lia..|exact W]). reflexivity. }
  split; [unfold writeBGD; run_sb; run Hp; by apply mwrap_run|].
  split; [exact M2|]. split; [intros o n r O1 O2 Hr; apply K3; [done|]; by apply K1|].
  split; [intros o n r Hr; destruct (K2 _ _ _ Hr) as [r1 Hr1]; by eapply K4|]. by exists bg'.
Qed.

Lemma clear_in_le bmap lo hi m :
  0 <= lo -> hi <= m -> zlen (clear_in bmap lo hi) <= zlen (free_bits bmap m).
Proof.
  intros Hlo Hhi. unfold zlen. apply inj_le, submseteq_length, NoDup_submseteq.
  - apply NoDup_filter, NoDup_seqZ.
  - intros i. unfold clear_in, free_bits. rewrite !list_elem_of_filter, !elem_of_seqZ. intros [? ?]. split; [done|lia].
Qed.

Lemma clear_in_len bmap lo hi : 0 <= zlen (clear_in bmap lo hi) <= Z.max 0 (hi - lo).
Proof.
  unfold zlen, clear_in. pose proof (length_filter (fun i => used bmap i = false) (seqZ lo (hi - lo))) as Hl.
  rewrite length_seqZ in Hl. lia.
Qed.

Lemma clear_in_nil bmap lo hi : hi <= lo -> clear_in bmap lo hi = [].
Proof. intros Hl. unfold clear_in. replace (seqZ lo (hi - lo)) with (@nil Z); [done|]. symmetry. apply seqZ_nil. lia. Qed.

Lemma blocks_in_group_range sb g n : 0 < BlocksPerGroup sb -> 0 <= blocks_in_group sb g n <= BlocksPerGroup sb.
Proof. intros. unfold blocks_in_group. destruct (_ <? _) eqn:E; zbool; lia. Qed.

Lemma shrink_tail_ok s g old new bg bmap imap :
  let lo := blocks_in_group (fs_sb s) g new in
  let hi := blocks_in_group (fs_sb s) g old in
  fs_rsv s = ∅ -> 0 < BlocksPerGroup (fs_sb s) < 2 ^ 31 ->
  group_at fsOffset s g bg bmap imap -> group_counted fsOffset (fs_dev s) (fs_sb s) g ->
  layout fsOffset (fs_sb s) g (BlockBitmapBlock bg) (InodeBitmapBlock bg) ->
  exists s' bg' bmap', shrink_tail fsOffset g old new s = (Ok (zlen (clear_in bmap lo hi)), s') /\
    same_meta s s' /\ map_frame s s' g bg /\
    (forall o n r, read_at (fs_dev s) o n = Ok r -> exists r', read_at (fs_dev s') o n = Ok r') /\
    group_at fsOffset s' g bg' bmap' imap /\ twin (fs_sb s) bg bg' /\
    (forall j, 0 <= j -> used bmap' j = if decide (lo <= j < hi) then false else used bmap j).
Proof.
  intros lo hi Hr Hb Hga (bg0 & Hb0 & C1 & _) L. pose proof Hga as [G1 G2 _ _]. pose proof L as [].
  rewrite G1 in Hb0. injection Hb0 as <-. destruct (free_in_eq _ _ _ _ _ _ Hga) as [Hfi _].
  pose proof (blocks_in_group_range (fs_sb s) g new ltac:(lia)) as Hlo. pose proof (blocks_in_group_range (fs_sb s) g old ltac:(lia)) as Hhi.
  fold lo in Hlo. fold hi in Hhi. unfold shrink_tail. run_sb. fold lo. fold hi.
  destruct (decide (hi <= lo)) as [Hle|Hlt].
  { rewrite leb_true by lia. exists s, bg, bmap. rewrite clear_in_nil by done. split; [done|]. split; [done|].
    split; [by intros ?|]. split; [eauto|]. split; [done|]. split; [by eapply group_twin; [lia|]|].
    intros j Hj. by rewrite decide_False by lia. }
  rewrite leb_false by lia. run G1. run_with ltac:(apply (readBitmap_empty fsOffset s _ bmap); [lia|done..]).
  assert (zlen bmap = BlockSize (fs_sb s)) as Hzl by (eapply read_block_ok; [exact G2|lia]).
  destruct (clear_tail_spec (Z.to_nat (hi - lo)) bmap lo 0) as (bmap' & Hct & Hl' & Hb' & Hu');
    [by eapply read_block_bytes|lia..|]. rewrite Z2Nat.id, Z.add_0_l in Hct by lia.
  rewrite Z2Nat.id in Hu' by lia. replace (lo + (hi - lo)) with hi in * by lia. run Hct. cbn [fst snd].
  set (k := zlen (clear_in bmap lo hi)). assert (0 <= k <= FreeBlocksCount bg) as Hk.
  { split; [apply zlen_nonneg|]. rewrite C1, Hfi. unfold free_count, max_bits. apply clear_in_le; lia. }
  assert (FreeBlocksCount bg < count_max (fs_sb s)).
  { rewrite C1. eapply free_in_range; eauto. }
  rewrite ltb_false by lia.
  destruct (rewrite_map_ok s g bg bmap imap bmap' (FreeBlocksCount bg - k) Hga L) as
    (b1 & s1 & s2 & R1 & R2 & M & Fr & Rd & bg' & Hg' & T & _); [lia|done|lia|].
  run R1. run R2. exists s2, bg', bmap'. done.
Qed.

(** * The dropped groups *)

(** The data blocks of a group. *)
Definition data_blocks (sb : superblock) (g blocks : Z) : Z :=
  Z.max 0 (Z.min (BlocksPerGroup sb) (blocks - group_start sb g) - head sb g).

Lemma drop_group_run s g bg bmap imap :
  geometry s -> 0 <= g < numBlockGroups (fs_sb s) -> group_at fsOffset s g bg bmap imap ->
  layout fsOffset (fs_sb s) g (BlockBitmapBlock bg) (InodeBitmapBlock bg) ->
  (forall i, head (fs_sb s) g <= i < BlocksPerGroup (fs_sb s) ->
     block_no (fs_sb s) g i < BlocksCount (fs_sb s) -> used bmap i = false) ->
  (forall i, 0 <= i < InodesPerGroup (fs_sb s) -> used imap i = false) ->
  drop_group fsOffset g (BlocksCount (fs_sb s)) s =
    (Ok (data_blocks (fs_sb s) g (BlocksCount (fs_sb s)), FreeInodesCount bg), s).
Proof.
  intros Hgeo Hg Hga L Hu Hiu. pose proof (geometry_groups s Hgeo) as Hgs. destruct Hgeo as [(Hr & Hl & Hby) Hb Hf Hn _]. pose proof Hga as [G1 G2 G3 _]. pose proof L as [].
  assert (zlen bmap = BlockSize (fs_sb s)) as Hzl by (eapply read_block_ok; [exact G2|lia]).
  assert (zlen imap = BlockSize (fs_sb s)) as Hzi by (eapply read_block_ok; [exact G3|lia]).
  destruct (head_reserved_ok (fs_sb s) g) as [Hh Hh0]; [done|done|lia|lia|].
  unfold drop_group. run_sb. run G1.
  run_with ltac:(apply (readBitmap_empty fsOffset s _ bmap); [lia|done..]). run Hh.
  rewrite group_bits_eq by lia. set (m := Z.min (BlocksPerGroup (fs_sb s)) (BlocksCount (fs_sb s) - group_start (fs_sb s) g)).
  set (k := Z.to_nat (m - head (fs_sb s) g)).
  assert (no_used_bit k bmap (head (fs_sb s) g) = Ok tt /\ countClear_from k bmap (head (fs_sb s) g) 0 = Ok (Z.of_nat k)) as [E1 E2].
  { destruct (decide (m <= head (fs_sb s) g)); [by assert (k = O) as -> by lia|].
    destruct (scan_clear k bmap (head (fs_sb s) g) 0) as (E1 & E2 & _); [lia..| |done].
    intros j Hj. apply Hu; [lia|]. change (block_no (fs_sb s) g j) with (group_start (fs_sb s) g + j). lia. }
  destruct (scan_clear (Z.to_nat (InodesPerGroup (fs_sb s))) imap 0 0) as (_ & _ & E); [lia..|intros; apply Hiu; lia|].
  assert (countUsedBits imap (InodesPerGroup (fs_sb s)) = Ok (0, InodesPerGroup (fs_sb s))) as Hcu
    by (unfold countUsedBits; rewrite ltb_false by lia; by rewrite E).
  run E1. run E2. run_with ltac:(apply (readBitmap_empty fsOffset s _ imap); [lia|done..]). run Hcu.
  change (negb (0 =? 0)) with false. cbn iota. unfold ret, data_blocks. fold m.
  replace (Z.max 0 (m - head (fs_sb s) g)) with (Z.of_nat k) by lia. reflexivity.
Qed.

Fixpoint lost_blocks (n : nat) (sb : superblock) (g : Z) : Z :=
  match n with
  | O => 0
  | S n' => data_blocks sb g (BlocksCount sb) + lost_blocks n' sb (g + 1)
  end.

(** A group without blocks in use behind its head and without inodes. *)
Definition droppable (s : fsys D) (g : Z) : Prop :=
  exists bg bmap imap, group_at fsOffset s g bg bmap imap /\
    layout fsOffset (fs_sb s) g (BlockBitmapBlock bg) (InodeBitmapBlock bg) /\
    FreeInodesCount bg = InodesPerGroup (fs_sb s) /\
    (forall i, head (fs_sb s) g <= i < BlocksPerGroup (fs_sb s) ->
       block_no (fs_sb s) g i < BlocksCount (fs_sb s) -> used bmap i = false) /\
    (forall i, 0 <= i < InodesPerGroup (fs_sb s) -> used imap i = false).

Lemma w64_add a b : w64 (w64 a + b) = w64 (a + b).
Proof. apply Zplus_mod_idemp_l. Qed.
Lemma w32_add a b : w32 (w32 a + b) = w32 (a + b).
Proof. apply Zplus_mod_idemp_l. Qed.

Lemma drop_groups_run s n g freed inodes free :
  geometry s -> 0 <= g -> g + Z.of_nat n = numBlockGroups (fs_sb s) ->
  (forall g', g <= g' < numBlockGroups (fs_sb s) -> droppable s g') ->
  drop_groups fsOffset n g (BlocksCount (fs_sb s)) (w64 freed) (w32 inodes) (w32 free) s =
    (Ok (w64 (freed + lost_blocks n (fs_sb s) g), w32 (inodes + Z.of_nat n * InodesPerGroup (fs_sb s)),
         w32 (free + Z.of_nat n * InodesPerGroup (fs_sb s))), s).
Proof.
  intros Hs. revert g freed inodes free. induction n as [|n IH]; intros g freed inodes free Hg Hn Hd;
    cbn [drop_groups lost_blocks].
  { unfold ret. by rewrite Z.mul_0_l, !Z.add_0_r. }
  destruct (Hd g ltac:(lia)) as (bg & bmap & imap & Hga & L & Hf & Hu & Hi).
  run (drop_group_run s g bg bmap imap Hs ltac:(lia) Hga L Hu Hi). cbn [fst snd]. run_sb.
  rewrite Hf, w64_add, !w32_add, IH; [|lia..|intros; apply Hd; lia].
  rewrite Nat2Z.inj_succ, <- !Z.add_assoc, Z.mul_succ_l, (Z.add_comm _ (InodesPerGroup (fs_sb s))). reflexivity.
Qed.

(** * Shrink *)

(** The sizes a shrink accepts. *)
Definition admits (s : fsys D) (size n : Z) : Prop :=
  0 < n < size /\ n mod BlockSize (fs_sb s) = 0 /\
  BlocksPerGroup (fs_sb s) <= n / BlockSize (fs_sb s) < BlocksCount (fs_sb s) /\
  forall b, in_use s b -> b < n / BlockSize (fs_sb s).

Lemma device_size_run s size : dev_Size (fs_dev s) = Ok size -> device_size s = (Ok size, s).
Proof. intros Hz. unfold device_size. apply mwrap_run, gets_run. exact Hz. Qed.

(** The guards: with a size that is not admitted nothing happens, with one that is
    the shrink reaches its first write. *)
Lemma Shrink_guards s size n :
  shrinkable s -> dev_Size (fs_dev s) = Ok size ->
  (admits s size n /\
   Shrink fsOffset n s =
     shrink_to fsOffset n (n / BlockSize (fs_sb s)) (groups_for (fs_sb s) (n / BlockSize (fs_sb s))) s) \/
  (~ admits s size n /\ exists e, Shrink fsOffset n s = (Err e, s)).
Proof.
  intros Hs Hz. destruct (shrinkMinimumBlocks_run s Hs) as (m & Hm & Hbm & Hu & Hmin).
  pose proof Hs as [(_ & Hn0 & Hok) [_ Hb Hf Hc Hg]]. destruct (Hok 0) as (? & ? & ? & _ & [] & _); [lia|].
  unfold Shrink, admits. destruct (n <=? 0) eqn:E1; zbool; [right; split; [lia|by eexists]|].
  run (device_size_run s size Hz). destruct (size <=? n) eqn:E2; zbool; [right; split; [lia|by eexists]|].
  run_sb. rewrite !eqb_false by lia. cbn [orb].
  destruct (n mod BlockSize (fs_sb s) =? 0) eqn:E3; zbool; cbn [negb]; [|right; split; [lia|by eexists]].
  destruct (BlocksCount (fs_sb s) <=? n / BlockSize (fs_sb s)) eqn:E4; zbool; [right; split; [lia|by eexists]|].
  run Hm. destruct (n / BlockSize (fs_sb s) <? m) eqn:E5; zbool.
  { right. split; [|by eexists]. intros (_ & _ & [Hlo _] & Hin). destruct Hmin as [->|(b & Hb' & ->)]; [lia|].
    specialize (Hin b Hb'). lia. }
  destruct (groups_for_spec (fs_sb s) (n / BlockSize (fs_sb s))) as [_ Hgf]; [lia..|].
  rewrite eqb_false by nia. left. split; [|reflexivity]. split_and!; [lia..|]. intros b Hb'. specialize (Hu b Hb'). lia.
Qed.

(** The other groups after the bitmap of [g] has been written. *)
Lemma frame_group s s' g bg g' b m i :
  fs_inv fsOffset s -> same_meta s s' -> map_frame s s' g bg ->
  0 <= g < numBlockGroups (fs_sb s) -> 0 <= g' < numBlockGroups (fs_sb s) -> g' <> g ->
  readBGD (fs_dev s) fsOffset (fs_sb s) g = Ok bg ->
  group_at fsOffset s g' b m i -> group_at fsOffset s' g' b m i.
Proof.
  intros Hinv (Hsb & _) Fr Hg Hg' Hne B1 Hga. pose proof Hga as [G1 G2 G3 G4]. destruct (iv_apart _ _ Hinv) as [Hm Hb].
  destruct (Hm g g' bg Hg Hg' B1) as [M1 _]. destruct (Hm g' g b Hg' Hg G1) as [M2 M3].
  destruct (inv_group fsOffset s Hinv g' Hg') as (b0 & m0 & i0 & G0 & L & _).
  destruct (group_at_det _ _ _ _ _ _ _ _ _ Hga G0) as (-> & -> & ->). destruct L.
  assert (forall x, x ∈ [BlockBitmapBlock b; InodeBitmapBlock b] ->
    sep (x * BlockSize (fs_sb s)) (BlockSize (fs_sb s)) (BlockBitmapBlock bg * BlockSize (fs_sb s)) (BlockSize (fs_sb s))) as Hx.
  { intros x Hx. apply blocks_sep; [lia|]. apply (Hb g' g b bg Hg' Hg Hne G1 B1); [done|set_solver]. }
  pose proof (Hx (BlockBitmapBlock b) ltac:(set_solver)) as X1.
  pose proof (Hx (InodeBitmapBlock b) ltac:(set_solver)) as X2.
  pose proof (descs_sep (fs_sb s) g' g ltac:(lia) Hne) as Hds. clear Hx Hm Hb. unfold sep in *.
  split; rewrite Hsb; [| | |exact G4].
  - unfold readBGD in *. apply rbind_Ok in G1 as (raw & Hr%rwrap_Ok & Hd).
    rewrite (Fr _ _ raw); [exact Hd|unfold off_block, sep; lia..|done].
  - unfold read_block in *. rewrite i64_small in * by lia. apply Fr; [unfold off_block, sep; lia..|done].
  - unfold read_block in *. rewrite i64_small in * by lia. apply Fr; [unfold off_block, sep; lia..|done].
Qed.

(** The inodes of a group are all free. *)
Definition no_inodes (s : fsys D) (g : Z) : Prop :=
  forall bg bmap imap i, group_at fsOffset s g bg bmap imap -> 0 <= i < InodesPerGroup (fs_sb s) -> used imap i = false.

Lemma admitted_droppable s size n g :
  fs_inv fsOffset s -> geometry s -> admits s size n ->
  groups_for (fs_sb s) (n / BlockSize (fs_sb s)) <= g < numBlockGroups (fs_sb s) -> no_inodes s g ->
  droppable s g.
Proof.
  intros Hinv Hgeo (_ & _ & Hnb & Hin) Hg Hno. pose proof Hgeo as [_ Hb Hf Hc Hgr].
  destruct (groups_for_spec (fs_sb s) (n / BlockSize (fs_sb s))) as [Hg0 Hgf]; [lia..|].
  destruct (inv_group fsOffset s Hinv g ltac:(lia)) as (bg & bmap & imap & Hga & L & _).
  exists bg, bmap, imap. split; [done|]. split; [done|]. split; [|split].
  - destruct (iv_counted _ _ Hinv g ltac:(lia)) as (bg' & Hb' & _ & C).
    rewrite (ga_bgd _ _ _ _ _ _ Hga) in Hb'. injection Hb' as <-. rewrite C.
    rewrite (proj2 (free_in_eq _ _ _ _ _ _ Hga)). destruct L. unfold free_count, max_bits.
    pose proof (read_block_ok _ _ _ _ _ (ga_imap _ _ _ _ _ _ Hga) ltac:(lia)).
    rewrite Z.min_l by lia. rewrite free_bits_all by (intros; eapply Hno; [done|lia]). unfold zlen. rewrite length_seqZ. lia.
  - destruct (ge_rest _ Hgeo) as (_ & Hl & Hby). destruct L.
    destruct (head_reserved_ok (fs_sb s) g Hl Hby) as [_ Hh]; [lia| |].
    { pose proof (geometry_groups s Hgeo). lia. }
    intros i Hi Hlt. destruct (used bmap i) eqn:Hu; [|done]. exfalso.
    assert (block_no (fs_sb s) g i < n / BlockSize (fs_sb s)); [|unfold block_no in *; nia].
    apply Hin. exists g, bg, bmap, imap, i. split_and!; auto; lia.
  - intros i Hi. by eapply Hno.
Qed.

Lemma lost_blocks_nonneg n sb g : 0 <= lost_blocks n sb g.
Proof. revert g. induction n as [|n IH]; intros g; cbn [lost_blocks]; [lia|]. pose proof (IH (g + 1)). unfold data_blocks. lia. Qed.

(** The superblock after a shrink to [nb] blocks that drops [k] groups and [freed]
    free blocks. *)
Definition shrunk_sb (sb : superblock) (nb freed k : Z) : superblock :=
  let sb := with_counts sb nb (w64 (sb_FreeBlocksCount sb - w64 freed)) (sb_FreeInodesCount sb) in
  let lost := w32 (k * InodesPerGroup sb) in
  if 0 <? lost
  then match with_InodesCount sb (w32 (InodesCount sb - lost)) (w32 (sb_FreeInodesCount sb - lost)) with
       | Ok sb' => sb'
       | _ => sb
       end
  else sb.

Lemma shrunk_sb_raw sb nb freed k :
  zlen (sb_raw sb) = 1024 -> bytes_ok (sb_raw sb) ->
  zlen (sb_raw (shrunk_sb sb nb freed k)) = 1024 /\ bytes_ok (sb_raw (shrunk_sb sb nb freed k)) /\
  DescSize (shrunk_sb sb nb freed k) = DescSize sb /\ BlocksCount (shrunk_sb sb nb freed k) = nb.
Proof.
  intros Hl Hb. unfold shrunk_sb, with_InodesCount. cbn [sb_raw with_counts]. rewrite putN_ok by lia. cbn [rbind].
  destruct (_ <? _); cbn; split_and!; auto with bytes. zl.
Qed.

Lemma shrunk_sb_run sb nb freed k :
  zlen (sb_raw sb) = 1024 ->
  (let sb0 := with_counts sb nb (w64 (sb_FreeBlocksCount sb - w64 freed)) (sb_FreeInodesCount sb) in
   if 0 <? w32 (k * InodesPerGroup sb)
   then with_InodesCount sb0 (w32 (InodesCount sb0 - w32 (k * InodesPerGroup sb)))
          (w32 (sb_FreeInodesCount sb0 - w32 (k * InodesPerGroup sb)))
   else Ok sb0) = Ok (shrunk_sb sb nb freed k).
Proof.
  intros Hl. unfold shrunk_sb, with_InodesCount. cbn. rewrite putN_ok by lia. by destruct (_ <? _).
Qed.

Context `{!TruncateLaws D}.

Lemma shrink_to_ok s size n :
  let nb := n / BlockSize (fs_sb s) in
  let ng := groups_for (fs_sb s) nb in
  let k := numBlockGroups (fs_sb s) - ng in
  fs_inv fsOffset s -> geometry s -> admits s size n ->
  (forall g, ng <= g < numBlockGroups (fs_sb s) -> no_inodes s g) ->
  exists bg bmap imap s', shrink_to fsOffset n nb ng s = (Ok tt, s') /\
    group_at fsOffset s (ng - 1) bg bmap imap /\
    fs_sb s' = encodeRaw (shrunk_sb (fs_sb s) nb
      (zlen (clear_in bmap (blocks_in_group (fs_sb s) (ng - 1) nb) (blocks_in_group (fs_sb s) (ng - 1) (BlocksCount (fs_sb s)))) +
       lost_blocks (Z.to_nat k) (fs_sb s) ng) k) /\
    dev_Size (fs_dev s') = Ok n /\
    (forall o m r, 0 <= o -> 0 <= m -> o + m <= n -> off_meta fsOffset s o m ->
       read_at (fs_dev s) o m = Ok r -> read_at (fs_dev s') o m = Ok r).
Proof.
  intros nb ng k Hinv Hgeo Hadm Hno. pose proof Hgeo as [(Hr & Hl & Hby) Hb Hf Hc Hgr]. pose proof Hadm as (Hn & _ & Hnb & _).
  destruct (groups_for_spec (fs_sb s) nb) as [Hg0 Hgf]; [lia..|]. fold ng in Hg0, Hgf.
  destruct (groups_for_spec (fs_sb s) (BlocksCount (fs_sb s))) as [Hg1 Hgf1]; [lia..|].
  change (groups_for (fs_sb s) (BlocksCount (fs_sb s))) with (numBlockGroups (fs_sb s)) in *.
  assert (0 < ng <= numBlockGroups (fs_sb s)) as Hng by nia.
  destruct (inv_group fsOffset s Hinv (ng - 1) ltac:(lia)) as (bg & bmap & imap & Hga & L & [_ [r0 Hrd]] & _).
  destruct (shrink_tail_ok s (ng - 1) (BlocksCount (fs_sb s)) nb bg bmap imap Hr Hb Hga (iv_counted _ _ Hinv (ng - 1) ltac:(lia)) L)
    as (s1 & bg1 & bmap1 & R1 & (M1 & M2 & M3) & Fr & Rd & Hga1 & T1 & Hu1).
  set (freed := zlen (clear_in bmap _ _)) in *.
  assert (geometry s1) as Hgeo1 by (unfold at_rest in *; split; rewrite ?M1; auto; split; rewrite ?M1; auto; congruence).
  assert (forall g, ng <= g < numBlockGroups (fs_sb s1) -> droppable s1 g) as Hdrop.
  { rewrite M1. intros g Hg. destruct (admitted_droppable s size n g Hinv Hgeo Hadm Hg (Hno g Hg)) as (b & m & i & G & LL & Hrest).
    exists b, m, i. rewrite M1. split; [|done].
    apply (frame_group s s1 (ng - 1) bg g b m i Hinv); [done|done|lia|lia|lia|apply Hga|done]. }
  pose proof (drop_groups_run s1 (Z.to_nat k) ng freed 0 0 Hgeo1 ltac:(lia)) as R2. rewrite M1 in R2.
  specialize (R2 ltac:(lia) ltac:(by rewrite <- M1)). rewrite Z2Nat.id, !Z.add_0_l in R2 by lia.
  change (w32 0) with 0 in R2. rewrite w64_small in R2.
  2: { pose proof (blocks_in_group_range (fs_sb s) (ng - 1) nb ltac:(lia)).
       pose proof (blocks_in_group_range (fs_sb s) (ng - 1) (BlocksCount (fs_sb s)) ltac:(lia)).
       unfold freed. pose proof (clear_in_len bmap (blocks_in_group (fs_sb s) (ng - 1) nb)
         (blocks_in_group (fs_sb s) (ng - 1) (BlocksCount (fs_sb s)))). lia. }
  set (total := freed + lost_blocks (Z.to_nat k) (fs_sb s) ng) in *.
  set (sb2 := shrunk_sb (fs_sb s) nb total k).
  destruct (shrunk_sb_raw (fs_sb s) nb total k Hl Hby) as (Sl & Sb & Sd & Sn). fold sb2 in Sl, Sb, Sd, Sn.
  destruct (Rd _ _ _ Hrd) as [r1 Hrd1].
  set (s2 := Fsys (fs_dev s1) sb2 (fs_cursor s1) (fs_rsv s1)).
  destruct (writeSuperblock_ok fsOffset Hwritable s2 r1) as (d3 & R3 & [K3 _] & Hsb3); [destruct L; cbn; lia|done..|].
  destruct (dev_Truncate d3 n) as [e d4] eqn:Et. pose proof (trunc_ok d3 n ltac:(lia)) as He. rewrite Et in He. cbn in He. subst e.
  exists bg, bmap, imap, (Fsys d4 (encodeRaw sb2) (fs_cursor s1) (fs_rsv s1)). split; [|split; [done|split; [done|split]]].
  - unfold shrink_to. run_sb. run R1. run R2. cbn [fst snd]. run_sb. rewrite M1.
    run (shrunk_sb_run (fs_sb s) nb total k Hl). fold sb2. erewrite (mbnd_run (set_sb _)) by reflexivity. fold s2.
    run R3. apply mwrap_run. unfold on_dev, truncate_dev. cbn [fs_dev]. by rewrite Et.
  - by eapply trunc_size; [|exact Et]; lia.
  - intros o m r Ho Hm Hle [Hoff1 Hoff2] Hrr. cbn. eapply trunc_read; [..|exact Et|]; [done|done|done|].
    apply K3; [done|]. destruct (Hoff2 (ng - 1) bg ltac:(lia) (ga_bgd _ _ _ _ _ _ Hga)) as (O1 & O2 & _). by apply Fr.
Qed.

End spec.

(** * The memory device *)

Lemma mem_cut_slice bs n o m :
  0 <= o -> 0 <= m -> o + m <= n -> m <= zlen (zslice bs o m) ->
  zslice (zslice bs 0 n ++ zeros (n - zlen bs)) o m = zslice bs o m.
Proof.
  intros Ho Hm Hle Hfull. destruct (decide (m = 0)) as [->|]; [done|].
  assert (o + m <= zlen bs) as Hb.
  { unfold zslice, zlen in *. rewrite length_take, length_drop in Hfull. lia. }
  rewrite zslice_app_l, zslice_zslice; [done|lia..|].
  unfold zslice, zlen in *. rewrite length_take, length_drop. lia.
Qed.

#[global, refine] Instance memdev_TruncateLaws : TruncateLaws memdev := {}.
Proof.
  - done.
  - intros d n d' Hn [= <-]. cbn. f_equal. unfold zlen, zslice, zeros.
    rewrite length_app, length_take, length_drop, length_replicate. lia.
  - intros d n d' o m r Ho Hm Hle [= <-]. unfold read_at. cbn. unfold mem_ReadAt. cbn.
    rewrite ltb_false by lia. rewrite !zlen_fmap. intros Hr. destruct (_ <? m) eqn:E in Hr; zbool; [done|].
    rewrite mem_cut_slice by lia. rewrite ltb_false by lia. done.
Defined.

(** C26: [shrinkMinimumBlocks] of a file system at rest always answers and changes
    nothing. Its answer is at least one group, every block in use behind the
    metadata at the head of its group lies below it, and it is the smallest such
    number. *)
Theorem shrinkMinimumBlocks_correct {D} `{BlockDevLaws D} fsOffset (s : fsys D) :
  shrinkable fsOffset s ->
  exists m, shrinkMinimumBlocks fsOffset s = (Ok m, s) /\
    BlocksPerGroup (fs_sb s) <= m /\ (forall b, in_use fsOffset s b -> b < m) /\
    forall n, BlocksPerGroup (fs_sb s) <= n -> (forall b, in_use fsOffset s b -> b < n) -> m <= n.
Proof.
  intros Hs. destruct (shrinkMinimumBlocks_run fsOffset s Hs) as (m & Hr & Hm & Hb & Hx). exists m.
  split; [exact Hr|]. split; [exact Hm|]. split; [exact Hb|]. intros n Hn Hin.
  destruct Hx as [->|(b & Hu & ->)]; [exact Hn|]. specialize (Hin b Hu). lia.
Qed.

(** C6: [Shrink] either refuses and changes nothing, which it does for exactly
    the sizes that are not a smaller multiple of the block size, leave less than
    a group or would drop a block in use; or, when the groups it drops have no
    inode in use, it succeeds: the superblock counts the new blocks, without the
    free blocks and the inodes that are gone, the store has the new size, and
    every byte below it outside the allocator's metadata is as before. *)
Theorem Shrink_correct {D} `{BlockDevLaws D} `{!TruncateLaws D} fsOffset (s : fsys D) size n :
  let nb := n / BlockSize (fs_sb s) in
  let ng := groups_for (fs_sb s) nb in
  let k := numBlockGroups (fs_sb s) - ng in
  dev_writable D -> fs_inv fsOffset s -> geometry s -> dev_Size (fs_dev s) = Ok size ->
  (~ admits fsOffset s size n -> exists e, Shrink fsOffset n s = (Err e, s)) /\
  (admits fsOffset s size n -> (forall g, ng <= g < numBlockGroups (fs_sb s) -> no_inodes fsOffset s g) ->
   exists bg bmap imap s', Shrink fsOffset n s = (Ok tt, s') /\
     group_at fsOffset s (ng - 1) bg bmap imap /\ BlocksCount (fs_sb s') = nb /\
     fs_sb s' = encodeRaw (shrunk_sb (fs_sb s) nb
       (zlen (clear_in bmap (blocks_in_group (fs_sb s) (ng - 1) nb)
                (blocks_in_group (fs_sb s) (ng - 1) (BlocksCount (fs_sb s)))) +
        lost_blocks (Z.to_nat k) (fs_sb s) ng) k) /\
     dev_Size (fs_dev s') = Ok n /\
     (forall o m r, 0 <= o -> 0 <= m -> o + m <= n -> off_meta fsOffset s o m ->
        read_at (fs_dev s) o m = Ok r -> read_at (fs_dev s') o m = Ok r)).
Proof.
  intros nb ng k Hw Hinv Hgeo Hz. pose proof (conj (iv_ok _ _ Hinv) Hgeo : shrinkable fsOffset s) as Hs.
  destruct (Shrink_guards fsOffset s size n Hs Hz) as [[Ha Hr]|[Ha Hr]]; (split; [intros Hna|intros Ha' Hno]).
  - by destruct Hna.
  - destruct (shrink_to_ok fsOffset Hw s size n Hinv Hgeo Ha Hno) as (bg & bmap & imap & s' & R & G & Hsb & Hsz & Hrd).
    exists bg, bmap, imap, s'. split; [rewrite Hr; exact R|]. split; [exact G|].
    split; [rewrite Hsb; destruct (ge_rest _ Hgeo) as (_ & Hl & Hby); by apply shrunk_sb_raw|]. done.
  - exact Hr.
  - by destruct Ha.
Qed.
