(* ===== verification/ResizeImage.v ===== *)
(** An image of two groups on which the resize theorems are applied, and the runs
    that show what a shrink leaves behind. *)

From S2P Require Import Prelude Bytes Crc Device Superblock Bgd Bitmap GoLib Extent Limits Inode Inline FileRead Dir Alloc Journal Image Lookup Namespace AllocSpec JournalSpec Fsck FsInv Resize ResizeSpec.

(** An image of 32 blocks of 1024 bytes in two groups, with a root directory. *)
Definition two_raw : list Z :=
  set32 (set32 (set32 (set32 (set32 (img_sb_raw 0) 0 32) 4 32) 12 18) 16 21) 32 16.
Definition two_table : list Z :=
  set16 (img_desc 0) 12 9 ++ set16 (set16 (set32 (set32 (set32 (zeros 32) 0 19) 4 20) 8 21) 12 9) 14 16 ++ zeros 960.
Definition two_fs : fsys memdev :=
  Fsys (MemDev (zeros 1024 ++ two_raw ++ two_table ++ ([0x7F] ++ zeros 1023) ++ img_imap ++
    (zeros 128 ++ img_root 0 ++ zeros 1792) ++ img_root_block ++ zeros (9 * 1024) ++
    set16 two_raw 90 1 ++ two_table ++ ([0x3F; 0x80] ++ replicate 1022 0xFF) ++ ([0; 0] ++ replicate 1022 0xFF) ++
    zeros (11 * 1024)))
    (with_deviceBytes (the ex_sb (decodeSuperblock two_raw)) 32768) 0 ∅.

Definition two_bg (g : Z) : bgd := the img_bg (readBGD (fs_dev two_fs) 0 (fs_sb two_fs) g).
Definition two_bmap (g : Z) : list Z := the [] (read_block 0 (fs_dev two_fs) (fs_sb two_fs) (BlockBitmapBlock (two_bg g))).
Definition two_imap (g : Z) : list Z := the [] (read_block 0 (fs_dev two_fs) (fs_sb two_fs) (InodeBitmapBlock (two_bg g))).

Lemma two_geo :
  BlockSize (fs_sb two_fs) = 1024 /\ numBlockGroups (fs_sb two_fs) = 2 /\ BlocksPerGroup (fs_sb two_fs) = 16 /\
  FirstDataBlock (fs_sb two_fs) = 1 /\ BlocksCount (fs_sb two_fs) = 32 /\ DescSize (fs_sb two_fs) = 32 /\
  InodeSize (fs_sb two_fs) = 128 /\ InodesPerGroup (fs_sb two_fs) = 16 /\
  bgd_offset (fs_sb two_fs) 0 = 2048 /\ bgd_offset (fs_sb two_fs) 1 = 2080.
Proof. split_and!; vm_compute; reflexivity. Qed.
Lemma two_maps :
  (BlockBitmapBlock (two_bg 0) = 3 /\ InodeBitmapBlock (two_bg 0) = 4 /\ InodeTableBlock (two_bg 0) = 5) /\
  (BlockBitmapBlock (two_bg 1) = 19 /\ InodeBitmapBlock (two_bg 1) = 20 /\ InodeTableBlock (two_bg 1) = 21).
Proof. vm_compute. split_and!; reflexivity. Qed.
Lemma two_groups g : 0 <= g < numBlockGroups (fs_sb two_fs) -> g = 0 \/ g = 1.
Proof. destruct two_geo as (_ & -> & _). lia. Qed.

Lemma two_group g : 0 <= g < numBlockGroups (fs_sb two_fs) -> group_at 0 two_fs g (two_bg g) (two_bmap g) (two_imap g).
Proof. intros [-> | ->]%two_groups; (split; [vm_compute; reflexivity..|]); vm_compute; split; congruence. Qed.

Lemma two_layout g : 0 <= g < numBlockGroups (fs_sb two_fs) ->
  layout 0 (fs_sb two_fs) g (BlockBitmapBlock (two_bg g)) (InodeBitmapBlock (two_bg g)).
Proof.
  destruct two_geo as (E1 & _ & E3 & _ & _ & E6 & _ & E8 & E9 & E10). destruct two_maps as [(A1 & A2 & _) (B1 & B2 & _)].
  assert (count_max (fs_sb two_fs) = 65536) as Hc by (vm_compute; reflexivity).
  intros [-> | ->]%two_groups; split; unfold sep; rewrite ?E1, ?E3, ?E6, ?E8, ?E9, ?E10, ?A1, ?A2, ?B1, ?B2, ?Hc; lia.
Qed.

Lemma two_readable g : 0 <= g < numBlockGroups (fs_sb two_fs) -> readable 0 (fs_dev two_fs) (fs_sb two_fs) g.
Proof. intros [-> | ->]%two_groups; split; eexists; vm_compute; reflexivity. Qed.

Lemma two_rest : at_rest two_fs.
Proof. split; [vm_compute; reflexivity|]. split; [vm_compute; reflexivity|]. apply all_bytes_ok. vm_compute. reflexivity. Qed.

Lemma two_ok : fs_ok 0 two_fs.
Proof.
  split; [apply two_rest|]. split; [destruct two_geo as (_ & -> & _); lia|].
  intros g Hg. exists (two_bg g), (two_bmap g), (two_imap g).
  split; [exact (two_group g Hg)|]. split; [exact (two_layout g Hg)|]. split; [exact (two_readable g Hg)|].
  apply two_groups in Hg as [-> | ->]; vm_compute; reflexivity.
Qed.

(** The free bits: blocks 8 to 16, and 23 to 31. *)
Lemma two_free g b : 0 <= g < numBlockGroups (fs_sb two_fs) -> 0 <= b < 16 ->
  used (two_bmap g) b = negb (if g =? 0 then 7 <=? b else (6 <=? b) && (b <? 15)).
Proof.
  intros [-> | ->]%two_groups Hb.
  - assert (Forall (fun b => used (two_bmap 0) b = negb (7 <=? b)) (seqZ 0 16)) as Hf
      by (apply (bool_decide_unpack _); vm_compute; exact I).
    rewrite Forall_forall in Hf. apply Hf. apply elem_of_seqZ. lia.
  - assert (Forall (fun b => used (two_bmap 1) b = negb ((6 <=? b) && (b <? 15))) (seqZ 0 16)) as Hf
      by (apply (bool_decide_unpack _); vm_compute; exact I).
    rewrite Forall_forall in Hf. apply Hf. apply elem_of_seqZ. lia.
Qed.

Lemma two_bgd g bg : 0 <= g < numBlockGroups (fs_sb two_fs) ->
  readBGD (fs_dev two_fs) 0 (fs_sb two_fs) g = Ok bg -> bg = two_bg g.
Proof. intros Hg Hr. rewrite (ga_bgd _ _ _ _ _ _ (two_group g Hg)) in Hr. symmetry. exact (Ok_inj _ _ Hr). Qed.

(** Blocks behind the heads are apart from the metadata. *)
Lemma two_off_meta b : 7 <= b <= 16 \/ 23 <= b -> off_meta 0 two_fs (0 + b * 1024) 1024.
Proof.
  intros Hb. destruct two_geo as (E1 & _ & _ & _ & _ & E6 & _ & _ & E9 & E10). destruct two_maps as [(A1 & A2 & _) (B1 & B2 & _)].
  split; [unfold sep; lia|]. intros g bg Hg Hr. rewrite (two_bgd g bg Hg Hr). clear Hr bg.
  apply two_groups in Hg as [-> | ->]; unfold off_block, sep;
    rewrite ?E1, ?E6, ?E9, ?E10, ?A1, ?A2, ?B1, ?B2; lia.
Qed.

Lemma two_inv : fs_inv 0 two_fs.
Proof.
  destruct two_geo as (E1 & E2 & E3 & E4 & E5 & E6 & E7 & E8 & E9 & E10). pose proof two_maps as [(A1 & A2 & A3) (B1 & B2 & B3)].
  split.
  - apply two_ok.
  - unfold fs_fits. rewrite E1, E5. lia.
  - rewrite E3, E4. lia.
  - rewrite E5. lia.
  - apply memdev_covered. rewrite E1, E5. vm_compute. congruence.
  - split.
    + intros g g' bg Hg Hg' Hr. rewrite (two_bgd g bg Hg Hr). clear Hr bg. apply two_groups in Hg as [-> | ->], Hg' as [-> | ->]; unfold sep;
        rewrite ?E1, ?E6, ?E9, ?E10, ?A1, ?A2, ?B1, ?B2; lia.
    + intros g g' bg bg' Hg Hg' Hne Hr Hr' b b'. rewrite (two_bgd g bg Hg Hr), (two_bgd g' bg' Hg' Hr'). clear Hr Hr' bg bg'.
      apply two_groups in Hg as [-> | ->], Hg' as [-> | ->]; try (exfalso; apply Hne; reflexivity); rewrite ?A1, ?A2, ?B1, ?B2;
        rewrite !elem_of_cons, !elem_of_nil; lia.
  - intros g bg bmap imap b Hg Hga Hb Hu. destruct (group_at_det _ _ _ _ _ _ _ _ _ (two_group g Hg) Hga) as (-> & -> & ->).
    rewrite E3 in Hb. rewrite (two_free g b Hg Hb) in Hu. unfold data_block, block_no. cbv zeta. rewrite E1, E3, E4, E5, E7, E8.
    change (w64 (16 * 128 + 1024 - 1) / 1024) with 2.
    apply two_groups in Hg as [-> | ->]; cbn in Hu; zbool; rewrite ?A3, ?B3;
      (split; [lia|]; split; [apply two_off_meta; lia|]); rewrite w64_small by lia; lia.
  - intros g Hg. exists (two_bg g). split; [exact (ga_bgd _ _ _ _ _ _ (two_group g Hg))|].
    apply two_groups in Hg as [-> | ->]; split; vm_compute; reflexivity.
Qed.

Lemma two_geometry : geometry two_fs.
Proof.
  destruct two_geo as (_ & _ & E3 & E4 & E5 & _). split; [apply two_rest|rewrite ?E3, ?E4, ?E5; lia..].
Qed.

(** Of the blocks behind the heads only the root directory's is in use. *)
Lemma two_in_use b : in_use 0 two_fs b -> b < 24.
Proof.
  destruct two_geo as (_ & _ & E3 & E4 & E5 & _). intros (g & bg & bmap & imap & i & Hg & Hga & Hi & Hu & -> & Hlt).
  destruct (group_at_det _ _ _ _ _ _ _ _ _ (two_group g Hg) Hga) as (-> & -> & ->).
  unfold block_no in *. rewrite E3, E4, E5 in *.
  assert (head (fs_sb two_fs) g = 6) as Hh by (apply two_groups in Hg as [-> | ->]; vm_compute; reflexivity).
  rewrite Hh in Hi. rewrite (two_free g i Hg ltac:(lia)) in Hu.
  apply two_groups in Hg as [-> | ->]; cbn in Hu; zbool; lia.
Qed.

Lemma two_admits : admits 0 two_fs 32768 (24 * 1024).
Proof.
  destruct two_geo as (E1 & _ & E3 & _ & E5 & _). unfold admits. rewrite E1, E3, E5. split; [lia|].
  split; [reflexivity|]. split; [split; [|reflexivity]; vm_compute; congruence|]. exact two_in_use.
Qed.

Lemma shrinkMinimumBlocks_correct_witness :
  exists m, shrinkMinimumBlocks 0 two_fs = (Ok m, two_fs) /\ 16 <= m.
Proof.
  destruct (shrinkMinimumBlocks_correct 0 two_fs (conj two_ok two_geometry)) as (m & Hr & Hm & _). exists m.
  split; [exact Hr|]. destruct two_geo as (_ & _ & E3 & _). rewrite E3 in Hm. exact Hm.
Defined.

Lemma Shrink_correct_witness :
  admits 0 two_fs 32768 (24 * 1024) /\
  exists s', Shrink 0 (24 * 1024) two_fs = (Ok tt, s') /\ BlocksCount (fs_sb s') = 24 /\ dev_Size (fs_dev s') = Ok (24 * 1024).
Proof.
  split; [exact two_admits|]. destruct two_geo as (E1 & E2 & _).
  assert (dev_Size (fs_dev two_fs) = Ok 32768) as Hz by (vm_compute; reflexivity).
  destruct (Shrink_correct 0 two_fs 32768 (24 * 1024) memdev_writable two_inv two_geometry Hz) as [_ Hok].
  destruct (Hok two_admits) as (bg & bmap & imap & s' & R & _ & Hn & _ & Hsz & _).
  { rewrite E1, E2. intros g Hg. exfalso.
    assert (groups_for (fs_sb two_fs) (24 * 1024 / 1024) = 2) as Hgf by (vm_compute; reflexivity). lia. }
  exists s'. split; [exact R|]. split; [rewrite Hn, E1; reflexivity|exact Hsz].
Defined.

