(* ===== verification/Locks.v ===== *)
(** The locks of the driver ([src/locks.go], [src/metadata_locks.go],
    [src/inode_table_locks.go], [src/owner.go]) for any number of goroutines:
    every atomic access, channel operation and mutex operation of a method is one
    step, and the goroutines interleave freely.  Timestamps, stack traces and the
    other diagnostics are left out. *)

From Stdlib Require Import Ascii.
From stdpp Require Import base gmap strings pretty relations.
From S2P Require Import Prelude.

(** Two's complement [int32], as [atomic.AddInt32] computes it. *)
Definition i32 (x : Z) : Z := (x + 2 ^ 31) mod 2 ^ 32 - 2 ^ 31.

Lemma i32_small x : - 2 ^ 31 <= x < 2 ^ 31 -> i32 x = x.
Proof. intros. unfold i32. rewrite Z.mod_small; lia. Qed.

(** Goroutine-indexed state. *)
Definition upd {A} (f : Z -> A) (t : Z) (a : A) : Z -> A := fun u => if decide (u = t) then a else f u.

Lemma upd_same {A} (f : Z -> A) t a : upd f t a t = a.
Proof. unfold upd. by rewrite decide_True. Qed.
Lemma upd_other {A} (f : Z -> A) t u a : u <> t -> upd f t a u = f u.
Proof. intros. unfold upd. by rewrite decide_False. Qed.

(** What a client may ask of a lock. *)
Inductive op := Lock | TryLock | Unlock.

(** A scheduled event: goroutine [t] calls a method, or runs its next step. *)
Inductive event := Call (t : Z) (o : op) | Run (t : Z).

(** * The specification: a re-entrant lock

    The holder and how often it has to release. *)
Definition holder := option (Z * Z).

Inductive lock_step : holder -> holder -> Prop :=
| spec_acquire t : lock_step None (Some (t, 1))
| spec_reenter t n : 0 < n -> lock_step (Some (t, n)) (Some (t, n + 1))
| spec_leave t n : 1 < n -> lock_step (Some (t, n)) (Some (t, n - 1))
| spec_release t : lock_step (Some (t, 1)) None.

(** How often each goroutine holds the lock, and the specification's view of it. *)
Definition exclusive (dep : Z -> Z) : Prop :=
  (forall t, 0 <= dep t) /\ forall t u, 0 < dep t -> 0 < dep u -> t = u.

Definition abs (dep : Z -> Z) (h : holder) : Prop :=
  match h with
  | None => forall t, dep t = 0
  | Some (t, n) => dep t = n /\ 0 < n /\ forall u, u <> t -> dep u = 0
  end.

Lemma exclusive_others dep t : exclusive dep -> 0 < dep t -> forall u, u <> t -> dep u = 0.
Proof.
  intros [Hr Hx] Ht u Hne. specialize (Hr u). destruct (decide (dep u = 0)); [done|]. destruct Hne. apply Hx; lia.
Qed.

(** Whatever one goroutine does to its depth is a step of the specification. *)
Lemma abs_move dep dep' t h :
  abs dep h -> exclusive dep -> exclusive dep' -> (forall u, u <> t -> dep' u = dep u) ->
  (dep' t = dep t \/ dep' t = dep t + 1 \/ (0 < dep t /\ dep' t = dep t - 1)) ->
  exists h', abs dep' h' /\ (h' = h \/ lock_step h h').
Proof.
  intros Ha Hx Hx' Ho Hd. destruct (decide (dep t = 0)) as [Hz|Hz].
  - destruct Hd as [Hd|[Hd|Hd]]; [| |lia].
    + exists h. split; [|by left]. destruct h as [[u n]|]; cbn in *.
      * destruct Ha as (A1 & A2 & A3). assert (u <> t) by (intros ->; lia). rewrite Ho by done. split_and!; auto.
        intros v Hv. destruct (decide (v = t)) as [->|]; [congruence|]. rewrite Ho by done. auto.
      * intros v. destruct (decide (v = t)) as [->|]; [congruence|]. by rewrite Ho.
    + pose proof (exclusive_others dep' t Hx' ltac:(lia)) as Hu. destruct h as [[u n]|]; cbn in Ha.
      * exfalso. destruct Ha as (A1 & A2 & _). destruct (decide (u = t)) as [->|Hne]; [lia|].
        specialize (Hu u Hne). rewrite Ho in Hu by done. lia.
      * exists (Some (t, 1)). split; [cbn; split_and!; auto; lia|]. right. constructor.
  - destruct Hx as [Hr _]. specialize (Hr t). assert (h = Some (t, dep t)) as ->.
    { destruct h as [[u n]|]; cbn in Ha; [|by specialize (Ha t)]. destruct Ha as (A1 & _ & A3).
      destruct (decide (u = t)) as [->|Hne]; [by subst|]. by specialize (A3 t (not_eq_sym Hne)). }
    destruct Ha as (_ & _ & A3). destruct Hd as [Hd|[Hd|[_ Hd]]].
    + exists (Some (t, dep t)). split; [|by left]. cbn. split_and!; auto; [lia|]. intros. rewrite Ho; auto.
    + exists (Some (t, dep t + 1)). split; [|right; constructor; lia]. cbn. split_and!; auto; [lia|].
      intros. rewrite Ho; auto.
    + destruct (decide (dep t = 1)) as [E|].
      * exists None. split; [|rewrite E; right; constructor]. intros u. destruct (decide (u = t)) as [->|]; [lia|].
        rewrite Ho; auto.
      * exists (Some (t, dep t - 1)). split; [|right; constructor; lia]. cbn. split_and!; auto; [lia|].
        intros. rewrite Ho; auto.
Qed.

(** One token: it is in (not [out]), or out and in the hands of exactly one
    goroutine. *)
Record one_token (out : bool) (has : Z -> Prop) : Prop := {
  tok_one : forall t u, has t -> has u -> t = u;
  tok_in : out = false -> forall t, ~ has t;
  tok_out : out = true -> exists t, has t
}.

Lemma one_token_move (out out' : bool) (has has' : Z -> Prop) t :
  one_token out has -> (forall u, u <> t -> has' u <-> has u) ->
  (out' = out /\ (has' t <-> has t)) \/ (out = false /\ out' = true /\ has' t) \/
  (out = true /\ out' = false /\ has t /\ ~ has' t) ->
  one_token out' has'.
Proof.
  intros [H1 H2 H3] Ho Hm. split.
  - intros u v Hu Hv. destruct (decide (u = t)) as [->|Hut], (decide (v = t)) as [->|Hvt];
      rewrite ?Ho in Hu, Hv by done; [done|..];
      destruct Hm as [[_ Ht]|[(Hc & _ & _)|(_ & _ & Ht & Hn)]]; naive_solver.
  - intros Hc u Hu. destruct (decide (u = t)) as [->|Hut]; rewrite ?Ho in Hu by done;
      destruct Hm as [[E Ht]|[(_ & E & _)|(_ & _ & Ht & Hn)]]; naive_solver.
  - intros Hc. destruct Hm as [[E Ht]|[(_ & _ & Hg)|(_ & E & _)]]; [|by exists t|congruence].
    destruct H3 as [u Hu]; [congruence|]. exists u. destruct (decide (u = t)) as [->|]; [tauto|]. by rewrite Ho.
Qed.

(** * tryMutex *)

Module TryMutex.

(** The fields; [ch] tells whether the token is in the channel. *)
Record tryMutex := TryM { ch : bool; owner : Z; recursion : Z }.

Definition newTryMutex : tryMutex := TryM true 0 0.

(** Where a goroutine is; [b] tells whether the [TryLock] is the one in [Lock]. *)
Inductive pc :=
| Idle
| TryLoad (b : bool)        (* if atomic.LoadUint64(&m.owner) == gid *)
| TryReenter                (* atomic.AddInt32(&m.recursion, 1) *)
| TrySelect (b : bool)      (* select { case <-m.ch: ... default: } *)
| LockLoad                  (* the load of the owner in Lock *)
| LockWait                  (* <-m.ch *)
| SetOwner                  (* atomic.StoreUint64(&m.owner, gid) *)
| SetRecursion              (* atomic.StoreInt32(&m.recursion, 1) *)
| UnlockDec                 (* atomic.AddInt32(&m.recursion, -1) > 0 *)
| UnlockOwner               (* atomic.StoreUint64(&m.owner, 0) *)
| UnlockSend.               (* m.ch <- struct{}{} *)

(** [depth]: the acquisitions the goroutine has not given back. *)
Record thread := Thread { at_ : pc; depth : Z }.

Record state := State { mx : tryMutex; th : Z -> thread }.

Definition init : state := State newTryMutex (fun _ => Thread Idle 0).

(** The first step of a method. *)
Definition enter (o : op) : pc :=
  match o with Lock => TryLoad true | TryLock => TryLoad false | Unlock => UnlockDec end.

(** One step of goroutine [gid]; [None] when it is blocked or has nothing to run. *)
Definition run1 (m : tryMutex) (gid : Z) (g : thread) : option (tryMutex * thread) :=
  let d := depth g in
  match at_ g with
  | Idle => None
  | TryLoad b => Some (m, Thread (if owner m =? gid then TryReenter else TrySelect b) d)
  | TryReenter => Some (TryM (ch m) (owner m) (i32 (recursion m + 1)), Thread Idle (d + 1))
  | TrySelect b =>
      if ch m then Some (TryM false (owner m) (recursion m), Thread SetOwner d)
      else Some (m, Thread (if b then LockLoad else Idle) d)
  | LockLoad => Some (m, Thread (if owner m =? gid then TryReenter else LockWait) d)
  | LockWait => if ch m then Some (TryM false (owner m) (recursion m), Thread SetOwner d) else None
  | SetOwner => Some (TryM (ch m) gid (recursion m), Thread SetRecursion d)
  | SetRecursion => Some (TryM (ch m) (owner m) 1, Thread Idle (d + 1))
  | UnlockDec =>
      let n := i32 (recursion m - 1) in
      Some (TryM (ch m) (owner m) n, Thread (if 0 <? n then Idle else UnlockOwner) (d - 1))
  | UnlockOwner => Some (TryM (ch m) 0 (recursion m), Thread UnlockSend d)
  | UnlockSend => if ch m then None else Some (TryM true (owner m) (recursion m), Thread Idle d)
  end.

Definition exec (s : state) (e : event) : option state :=
  match e with
  | Call t o =>
      match at_ (th s t) with
      | Idle => Some (State (mx s) (upd (th s) t (Thread (enter o) (depth (th s t)))))
      | _ => None
      end
  | Run t =>
      match run1 (mx s) t (th s t) with
      | Some (m, g) => Some (State m (upd (th s) t g))
      | None => None
      end
  end.

(** The calls a client makes: goroutine identifiers are positive, a goroutine
    unlocks what it holds, and does not nest beyond an [int32]. *)
Definition allowed (s : state) (e : event) : Prop :=
  match e with
  | Call t Unlock => 0 < t /\ 0 < depth (th s t)
  | Call t _ => 0 < t /\ depth (th s t) < 2 ^ 31 - 1
  | Run _ => True
  end.

#[global] Instance allowed_dec s e : Decision (allowed s e).
Proof. destruct e as [t []|t]; cbn; apply _. Defined.

Definition step (s s' : state) : Prop := exists e, allowed s e /\ exec s e = Some s'.
Definition reachable (s : state) : Prop := rtc step init s.

(** The token is out, in the hands of [g]. *)
Definition has_token (g : thread) : Prop :=
  0 < depth g \/ match at_ g with SetOwner | SetRecursion | UnlockOwner | UnlockSend => True | _ => False end.

(** What a goroutine knows at each step. *)
Definition local_ok (m : tryMutex) (t : Z) (g : thread) : Prop :=
  0 <= depth g < 2 ^ 31 /\
  (at_ g <> Idle -> 0 < t) /\
  (0 < depth g -> owner m = t /\ recursion m = depth g) /\
  (owner m = t -> t <> 0 -> 0 < depth g \/ at_ g = SetRecursion \/ at_ g = UnlockOwner) /\
  match at_ g with
  | Idle => True
  | TryLoad _ => depth g < 2 ^ 31 - 1
  | TryReenter => 0 < depth g < 2 ^ 31 - 1
  | TrySelect _ | LockLoad | LockWait => depth g = 0
  | SetOwner => depth g = 0
  | SetRecursion => depth g = 0 /\ owner m = t
  | UnlockDec => 0 < depth g
  | UnlockOwner => depth g = 0 /\ owner m = t
  | UnlockSend => depth g = 0
  end.

Definition inv (s : state) : Prop :=
  (forall t, local_ok (mx s) t (th s t)) /\ one_token (negb (ch (mx s))) (fun t => has_token (th s t)).

Lemma inv_init : inv init.
Proof.
  split; [intros t; unfold local_ok; cbn; split_and!; done || lia|].
  split; unfold has_token; cbn; [lia|intros _ t [?|?]; done|done].
Qed.

Lemma inv_update s t m' g' :
  inv s -> local_ok m' t g' ->
  (negb (ch m') = negb (ch (mx s)) /\ (has_token g' <-> has_token (th s t))) \/
  (negb (ch (mx s)) = false /\ negb (ch m') = true /\ has_token g') \/
  (negb (ch (mx s)) = true /\ negb (ch m') = false /\ has_token (th s t) /\ ~ has_token g') ->
  (owner m' = owner (mx s) /\ recursion m' = recursion (mx s)) \/
  (has_token (th s t) /\ (owner m' = owner (mx s) \/ owner m' = t \/ owner m' = 0)) ->
  inv (State m' (upd (th s) t g')).
Proof.
  intros [Hloc Htok] Hl Hmv Hm. split; cbn.
  - intros u. destruct (decide (u = t)) as [->|Hne]; [by rewrite upd_same|]. rewrite upd_other by done.
    specialize (Hloc u). destruct Hm as [[Ho Hr]|[Ht Ho]]; [unfold local_ok in *; by rewrite Ho, Hr|].
    assert (~ has_token (th s u)) as Hnu by (intros Hu'; apply Hne; by eapply (tok_one _ _ Htok)).
    unfold local_ok, has_token in *. destruct Hloc as (H1 & H2 & H3 & H4 & H5).
    split; [done|]. split; [done|]. split; [intros Hd; destruct Hnu; by left|]. split.
    + intros E Z0. destruct Ho as [Ho|[Ho|Ho]]; [|congruence..].
      destruct (H4 ltac:(congruence) Z0) as [Hd|[E'|E']]; destruct Hnu; [by left|right; by rewrite E'..].
    + destruct (at_ (th s u)); try done; destruct Hnu; by right.
  - apply (one_token_move _ _ _ _ t Htok); [intros u Hu; by rewrite upd_other|by rewrite upd_same].
Qed.

(** The facts of the running goroutine, for the arithmetic. *)
Ltac know_local :=
  match goal with
  | Hl : local_ok _ ?t (Thread ?p ?d) |- _ =>
      destruct Hl as (? & Hpos & Hdep & Hown & Hpc); cbn in *;
      assert (0 < t) by (apply Hpos; discriminate);
      destruct (decide (0 < d)) as [Hd0|Hd0]; [specialize (Hdep Hd0)|clear Hdep];
      try (destruct Hown as [?|[?|?]]; [assumption || lia|lia|..])
  end.

Lemma inv_run s t m' g' : inv s -> run1 (mx s) t (th s t) = Some (m', g') -> inv (State m' (upd (th s) t g')).
Proof.
  intros Hinv Hr. pose proof (proj1 Hinv t) as Hl. unfold run1 in Hr.
  assert (Hd : exists p d, th s t = Thread p d) by (destruct (th s t); eauto). destruct Hd as (p & d & Hd).
  rewrite Hd in Hr, Hl. cbn in Hr.
  destruct p; cbn in Hr; repeat case_match; simplify_eq; zbool; know_local; try lia; try discriminate; apply inv_update; auto;
    unfold local_ok, has_token in *; rewrite ?Hd; cbn in *; rewrite ?i32_small in * by lia;
    rewrite ?negb_true_iff, ?negb_false_iff in *; intuition (discriminate || lia || auto).
Qed.

Lemma inv_step s s' : inv s -> step s s' -> inv s'.
Proof.
  intros Hinv (e & Ha & He). destruct e as [t o|t]; cbn in He.
  - destruct (at_ (th s t)) eqn:Ep; simplify_eq. pose proof (proj1 Hinv t) as Hl.
    apply inv_update; [done| | |by left]; unfold local_ok, has_token in *; rewrite Ep in *; cbn in *;
      destruct o; cbn in *; intuition (discriminate || lia || auto).
  - destruct (run1 _ _ _) as [[m g]|] eqn:Er; simplify_eq. by apply inv_run.
Qed.

Lemma steps_inv s s' : rtc step s s' -> inv s -> inv s'.
Proof. induction 1; eauto using inv_step. Qed.

Lemma reachable_inv s : reachable s -> inv s.
Proof. intros Hr. apply (steps_inv init s Hr), inv_init. Qed.

Definition depths (s : state) (t : Z) : Z := depth (th s t).

Lemma inv_exclusive s : inv s -> exclusive (depths s).
Proof.
  intros [Hl Ht]. split; [intros t; apply (Hl t)|]. intros t u Htt Hu. apply (tok_one _ _ Ht); by left.
Qed.

Lemma run1_depth m t g m' g' :
  run1 m t g = Some (m', g') ->
  depth g' = depth g \/ depth g' = depth g + 1 \/ (at_ g = UnlockDec /\ depth g' = depth g - 1).
Proof. unfold run1. intros Hr. destruct (at_ g); repeat case_match; simplify_eq; cbn; auto. Qed.

Lemma step_abs s s' h :
  inv s -> step s s' -> abs (depths s) h -> exists h', abs (depths s') h' /\ (h' = h \/ lock_step h h').
Proof.
  intros Hinv Hs Ha. pose proof (inv_step s s' Hinv Hs) as Hinv'. destruct Hs as (e & _ & He).
  destruct e as [t o|t]; cbn in He.
  - destruct (at_ (th s t)); simplify_eq. apply (abs_move (depths s) _ t h Ha (inv_exclusive _ Hinv) (inv_exclusive _ Hinv')); unfold depths; cbn.
    + intros u Hu. by rewrite upd_other.
    + rewrite upd_same. by left.
  - destruct (run1 _ _ _) as [[m g]|] eqn:Er; simplify_eq. apply (abs_move (depths s) _ t h Ha (inv_exclusive _ Hinv) (inv_exclusive _ Hinv')); unfold depths; cbn.
    + intros u Hu. by rewrite upd_other.
    + rewrite upd_same. destruct (run1_depth _ _ _ _ _ Er) as [?|[?|[Hp ?]]]; auto. right. right. split; [|done].
      destruct (proj1 Hinv t) as (_ & _ & _ & _ & Hpc). by rewrite Hp in Hpc.
Qed.

Lemma steps_abs s s' : rtc step s s' -> forall h, inv s -> abs (depths s) h -> rtc lock_step None h ->
  exists h', abs (depths s') h' /\ rtc lock_step None h'.
Proof.
  induction 1 as [|x y z Hs _ IH]; intros h Hi Ha Hh; [eauto|].
  destruct (step_abs x y h Hi Hs Ha) as (h' & Ha' & [->|Hl]); eauto using inv_step, rtc_r.
Qed.

Lemma reachable_abs s : reachable s -> exists h, abs (depths s) h /\ rtc lock_step None h.
Proof.
  intros Hr. apply (steps_abs init s Hr None); [apply inv_init|done|constructor].
Qed.

(** A goroutine in a method can run, unless it waits in [Lock] for a token that
    another goroutine has. *)
Lemma blocked_waits s t :
  inv s -> at_ (th s t) <> Idle -> run1 (mx s) t (th s t) = None ->
  at_ (th s t) = LockWait /\ exists u, u <> t /\ has_token (th s u).
Proof.
  intros [Hl Ht] Hp Hr. destruct (Hl t) as (_ & _ & _ & _ & Hpc). unfold run1 in Hr.
  destruct (at_ (th s t)) eqn:Ep; try done; repeat case_match; try done.
  - split; [done|]. destruct (tok_out _ _ Ht) as [u Hu]; [by apply negb_true_iff|]. exists u. split; [|done]. intros ->.
    unfold has_token in Hu. rewrite Ep in Hu. destruct Hu; [lia|done].
  - exfalso. apply (tok_in _ _ Ht ltac:(by apply negb_false_iff) t). unfold has_token. rewrite Ep. by right.
Qed.

(** Events run in a row. *)
Fixpoint schedule (s : state) (es : list event) : option state :=
  match es with
  | [] => Some s
  | e :: es' => match exec s e with Some s' => schedule s' es' | None => None end
  end.

(** The same, for clients that keep to the rules. *)
Fixpoint schedule_ok (s : state) (es : list event) : option state :=
  match es with
  | [] => Some s
  | e :: es' =>
      if decide (allowed s e) then
        match exec s e with Some s' => schedule_ok s' es' | None => None end
      else None
  end.

Lemma schedule_reachable es s s' : reachable s -> schedule_ok s es = Some s' -> reachable s'.
Proof.
  revert s. induction es as [|e es IH]; cbn; intros s Hr He; [by simplify_eq|].
  case_decide as Ha; [|done]. destruct (exec s e) as [s1|] eqn:E; [|done]. apply (IH s1); [|done].
  eapply rtc_r; [exact Hr|]. by exists e.
Qed.

End TryMutex.

(** * Owner tokens *)

(** [ownerSeq] and [ownerGidMap]. *)
Record owners := Owners { ownerSeq : Z; ownerGid : gmap Z Z }.

(** [NewOwner] in goroutine [gid]: the counter skips zero when it wraps. *)
Definition NewOwner (gid : Z) (o : owners) : Z * owners :=
  let v := w64 (ownerSeq o + 1) in
  let v := if v =? 0 then w64 (v + 1) else v in
  (v, Owners v (<[v := gid]> (ownerGid o))).

Definition ownerBelongsToCurrentGoroutine (gid : Z) (o : owners) (token : Z) : bool :=
  if token =? 0 then false else
  match ownerGid o !! token with Some g => g =? gid | None => false end.

(** A fresh token belongs to the goroutine that made it, is not zero, and no other
    token changes hands. *)
Lemma NewOwner_spec gid o v o' :
  NewOwner gid o = (v, o') ->
  v <> 0 /\ ownerBelongsToCurrentGoroutine gid o' v = true /\
  (forall g u, u <> v -> ownerBelongsToCurrentGoroutine g o' u = ownerBelongsToCurrentGoroutine g o u) /\
  (0 <= ownerSeq o < 2 ^ 64 - 1 -> v = ownerSeq o + 1).
Proof.
  unfold NewOwner, ownerBelongsToCurrentGoroutine. intros [= <- <-]. cbn.
  set (v := w64 (ownerSeq o + 1)). assert ((if v =? 0 then w64 (v + 1) else v) <> 0) as Hv.
  { destruct (v =? 0) eqn:E; zbool; [rewrite E; done|done]. }
  split_and!; [done| | |].
  - rewrite eqb_false by done. rewrite lookup_insert_eq. by rewrite Z.eqb_refl.
  - intros g u Hu. by rewrite lookup_insert_ne by done.
  - intros Hr. unfold v. rewrite w64_small by lia. by rewrite eqb_false by lia.
Qed.

(** * reentrantMutex *)

Module ReentrantMutex.

(** The fields; [mu] tells whether the inner mutex is locked. *)
Record reentrantMutex := RMutex { mu : bool; owner : Z; recursion : Z; waiters : Z }.

(** [Owner()]: the token, if the goroutine that asks has made it. *)
Definition Owner (r : reentrantMutex) (gid : Z) (o : owners) : Z :=
  if ownerBelongsToCurrentGoroutine gid o (owner r) then owner r else 0.

Inductive pc :=
| Idle
| LoadOwner                 (* if atomic.LoadUint64(&r.owner) == owner *)
| AddRecursion              (* atomic.AddInt32(&r.recursion, 1) *)
| AddWaiter                 (* atomic.AddInt32(&r.waiters, 1) *)
| WaitMu                    (* r.mu.Lock() *)
| SubWaiter                 (* atomic.AddInt32(&r.waiters, -1) *)
| StoreOwner                (* atomic.StoreUint64(&r.owner, owner) *)
| StoreRecursion            (* atomic.StoreInt32(&r.recursion, 1) *)
| CheckOwner                (* cur := atomic.LoadUint64(&r.owner); if cur != owner *)
| SubRecursion              (* atomic.AddInt32(&r.recursion, -1) *)
| ClearOwner                (* atomic.StoreUint64(&r.owner, 0) *)
| UnlockMu                  (* r.mu.Unlock() *)
| Panicked.

Record thread := Thread { at_ : pc; depth : Z }.
Record state := State { mx : reentrantMutex; th : Z -> thread }.

Definition init : state := State (RMutex false 0 0 0) (fun _ => Thread Idle 0).

(** [LockOwner] and [UnlockOwner]; there is no [TryLock]. *)
Definition enter (o : op) : pc := match o with Unlock => CheckOwner | _ => LoadOwner end.

(** One step of the client with token [tok]. *)
Definition run1 (r : reentrantMutex) (tok : Z) (g : thread) : option (reentrantMutex * thread) :=
  let d := depth g in
  match at_ g with
  | Idle | Panicked => None
  | LoadOwner => Some (r, Thread (if owner r =? tok then AddRecursion else AddWaiter) d)
  | AddRecursion => Some (RMutex (mu r) (owner r) (i32 (recursion r + 1)) (waiters r), Thread Idle (d + 1))
  | AddWaiter => Some (RMutex (mu r) (owner r) (recursion r) (i32 (waiters r + 1)), Thread WaitMu d)
  | WaitMu => if mu r then None else Some (RMutex true (owner r) (recursion r) (waiters r), Thread SubWaiter d)
  | SubWaiter => Some (RMutex (mu r) (owner r) (recursion r) (i32 (waiters r - 1)), Thread StoreOwner d)
  | StoreOwner => Some (RMutex (mu r) tok (recursion r) (waiters r), Thread StoreRecursion d)
  | StoreRecursion => Some (RMutex (mu r) (owner r) 1 (waiters r), Thread Idle (d + 1))
  | CheckOwner => Some (r, Thread (if owner r =? tok then SubRecursion else Panicked) d)
  | SubRecursion =>
      let n := i32 (recursion r - 1) in
      Some (RMutex (mu r) (owner r) n (waiters r), Thread (if n =? 0 then ClearOwner else Idle) (d - 1))
  | ClearOwner => Some (RMutex (mu r) 0 (recursion r) (waiters r), Thread UnlockMu d)
  | UnlockMu =>
      if mu r then Some (RMutex false (owner r) (recursion r) (waiters r), Thread Idle d)
      else Some (r, Thread Panicked d)
  end.

Definition exec (s : state) (e : event) : option state :=
  match e with
  | Call t o =>
      match at_ (th s t) with
      | Idle => Some (State (mx s) (upd (th s) t (Thread (enter o) (depth (th s t)))))
      | _ => None
      end
  | Run t =>
      match run1 (mx s) t (th s t) with
      | Some (m, g) => Some (State m (upd (th s) t g))
      | None => None
      end
  end.

Definition allowed (s : state) (e : event) : Prop :=
  match e with
  | Call t Unlock => 0 < t /\ 0 < depth (th s t)
  | Call t _ => 0 < t /\ depth (th s t) < 2 ^ 31 - 1
  | Run _ => True
  end.

#[global] Instance allowed_dec s e : Decision (allowed s e).
Proof. destruct e as [t []|t]; cbn; apply _. Defined.

Definition step (s s' : state) : Prop := exists e, allowed s e /\ exec s e = Some s'.
Definition reachable (s : state) : Prop := rtc step init s.

(** The inner mutex is locked by [g]. *)
Definition has_mu (g : thread) : Prop :=
  0 < depth g \/
  match at_ g with SubWaiter | StoreOwner | StoreRecursion | ClearOwner | UnlockMu => True | _ => False end.

Definition local_ok (m : reentrantMutex) (t : Z) (g : thread) : Prop :=
  0 <= depth g < 2 ^ 31 /\
  (at_ g <> Idle -> 0 < t) /\
  (0 < depth g -> owner m = t /\ recursion m = depth g) /\
  (owner m = t -> t <> 0 -> 0 < depth g \/ at_ g = StoreRecursion \/ at_ g = ClearOwner) /\
  match at_ g with
  | Idle => True
  | LoadOwner => depth g < 2 ^ 31 - 1
  | AddRecursion => 0 < depth g < 2 ^ 31 - 1
  | AddWaiter | WaitMu | SubWaiter | StoreOwner | UnlockMu => depth g = 0
  | StoreRecursion | ClearOwner => depth g = 0 /\ owner m = t
  | CheckOwner | SubRecursion => 0 < depth g
  | Panicked => False
  end.

Definition inv (s : state) : Prop :=
  (forall t, local_ok (mx s) t (th s t)) /\ one_token (mu (mx s)) (fun t => has_mu (th s t)).

Definition depths (s : state) (t : Z) : Z := depth (th s t).

Lemma rinv_init : inv init.
Proof.
  split; [intros t; unfold local_ok; cbn; split_and!; done || lia|].
  split; unfold has_mu; cbn; [lia|intros _ t [?|?]; done|done].
Qed.

Lemma rinv_update s t m' g' :
  inv s -> local_ok m' t g' ->
  (mu m' = mu (mx s) /\ (has_mu g' <-> has_mu (th s t))) \/
  (mu (mx s) = false /\ mu m' = true /\ has_mu g') \/
  (mu (mx s) = true /\ mu m' = false /\ has_mu (th s t) /\ ~ has_mu g') ->
  (owner m' = owner (mx s) /\ recursion m' = recursion (mx s)) \/
  (has_mu (th s t) /\ (owner m' = owner (mx s) \/ owner m' = t \/ owner m' = 0)) ->
  inv (State m' (upd (th s) t g')).
Proof.
  intros [Hloc Htok] Hl Hmv Hm. split; cbn.
  - intros u. destruct (decide (u = t)) as [->|Hne]; [by rewrite upd_same|]. rewrite upd_other by done.
    specialize (Hloc u). destruct Hm as [[Ho Hr]|[Ht Ho]]; [unfold local_ok in *; by rewrite Ho, Hr|].
    assert (~ has_mu (th s u)) as Hnu by (intros Hu'; apply Hne; by eapply (tok_one _ _ Htok)).
    unfold local_ok, has_mu in *. destruct Hloc as (H1 & H2 & H3 & H4 & H5).
    split; [done|]. split; [done|]. split; [intros Hd; destruct Hnu; by left|]. split.
    + intros E Z0. destruct Ho as [Ho|[Ho|Ho]]; [|congruence..].
      destruct (H4 ltac:(congruence) Z0) as [Hd|[E'|E']]; destruct Hnu; [by left|right; by rewrite E'..].
    + destruct (at_ (th s u)); try done; destruct Hnu; by right.
  - apply (one_token_move _ _ _ _ t Htok); [intros u Hu; by rewrite upd_other|by rewrite upd_same].
Qed.

Ltac know_local :=
  match goal with
  | Hl : local_ok _ ?t (Thread ?p ?d) |- _ =>
      destruct Hl as (? & Hpos & Hdep & Hown & Hpc); cbn in *;
      assert (0 < t) by (apply Hpos; discriminate);
      destruct (decide (0 < d)) as [Hd0|Hd0]; [specialize (Hdep Hd0)|clear Hdep];
      try (destruct Hown as [?|[?|?]]; [assumption || lia|lia|..])
  end.

Lemma rinv_run s t m' g' : inv s -> run1 (mx s) t (th s t) = Some (m', g') -> inv (State m' (upd (th s) t g')).
Proof.
  intros Hinv Hr. pose proof (proj1 Hinv t) as Hl. unfold run1 in Hr.
  assert (at_ (th s t) = UnlockMu -> mu (mx s) = true) as Hmu.
  { intros E. destruct (mu (mx s)) eqn:Em; [done|]. exfalso. destruct Hinv as [_ Ht]. rewrite Em in Ht.
    apply (tok_in _ _ Ht eq_refl t). unfold has_mu. rewrite E. by right. }
  assert (Hd : exists p d, th s t = Thread p d) by (destruct (th s t); eauto). destruct Hd as (p & d & Hd).
  rewrite Hd in Hr, Hl, Hmu. cbn in Hr, Hmu.
  destruct p; cbn in Hr; repeat case_match; simplify_eq; zbool; know_local; try lia; try discriminate; try tauto;
    try (specialize (Hmu eq_refl); congruence);
    apply rinv_update; auto;
    unfold local_ok, has_mu in *; rewrite ?Hd; cbn in *; rewrite ?i32_small in * by lia;
    intuition (discriminate || lia || auto).
Qed.

Lemma rinv_step s s' : inv s -> step s s' -> inv s'.
Proof.
  intros Hinv (e & Ha & He). destruct e as [t o|t]; cbn in He.
  - destruct (at_ (th s t)) eqn:Ep; simplify_eq. pose proof (proj1 Hinv t) as Hl.
    apply rinv_update; [done| | |by left]; unfold local_ok, has_mu in *; rewrite Ep in *; cbn in *;
      destruct o; cbn in *; intuition (discriminate || lia || auto).
  - destruct (run1 _ _ _) as [[m g]|] eqn:Er; simplify_eq. by apply rinv_run.
Qed.

Lemma rsteps_inv s s' : rtc step s s' -> inv s -> inv s'.
Proof. induction 1; eauto using rinv_step. Qed.

Lemma rreachable_inv s : reachable s -> inv s.
Proof. intros Hr. apply (rsteps_inv init s Hr), rinv_init. Qed.

Lemma rinv_exclusive s : inv s -> exclusive (depths s).
Proof.
  intros [Hl Ht]. split; [intros t; apply (Hl t)|]. intros t u Htt Hu. apply (tok_one _ _ Ht); by left.
Qed.

Lemma rrun1_depth m t g m' g' :
  run1 m t g = Some (m', g') ->
  depth g' = depth g \/ depth g' = depth g + 1 \/ (at_ g = SubRecursion /\ depth g' = depth g - 1).
Proof. unfold run1. intros Hr. destruct (at_ g); repeat case_match; simplify_eq; cbn; auto. Qed.

Lemma rstep_abs s s' h :
  inv s -> step s s' -> abs (depths s) h -> exists h', abs (depths s') h' /\ (h' = h \/ lock_step h h').
Proof.
  intros Hinv Hs Ha. pose proof (rinv_step s s' Hinv Hs) as Hinv'. destruct Hs as (e & _ & He).
  destruct e as [t o|t]; cbn in He.
  - destruct (at_ (th s t)); simplify_eq.
    apply (abs_move (depths s) _ t h Ha (rinv_exclusive _ Hinv) (rinv_exclusive _ Hinv')); unfold depths; cbn.
    + intros u Hu. by rewrite upd_other.
    + rewrite upd_same. by left.
  - destruct (run1 _ _ _) as [[m g]|] eqn:Er; simplify_eq.
    apply (abs_move (depths s) _ t h Ha (rinv_exclusive _ Hinv) (rinv_exclusive _ Hinv')); unfold depths; cbn.
    + intros u Hu. by rewrite upd_other.
    + rewrite upd_same. destruct (rrun1_depth _ _ _ _ _ Er) as [?|[?|[Hp ?]]]; auto. right. right. split; [|done].
      destruct (proj1 Hinv t) as (_ & _ & _ & _ & Hpc). by rewrite Hp in Hpc.
Qed.

Lemma rsteps_abs s s' : rtc step s s' -> forall h, inv s -> abs (depths s) h -> rtc lock_step None h ->
  exists h', abs (depths s') h' /\ rtc lock_step None h'.
Proof.
  induction 1 as [|x y z Hs _ IH]; intros h Hi Ha Hh; [eauto|].
  destruct (rstep_abs x y h Hi Hs Ha) as (h' & Ha' & [->|Hl]); eauto using rinv_step, rtc_r.
Qed.

Lemma rreachable_abs s : reachable s -> exists h, abs (depths s) h /\ rtc lock_step None h.
Proof.
  intros Hr. apply (rsteps_abs init s Hr None); [apply rinv_init|done|constructor].
Qed.

(** A client is blocked only in [LockOwner], while another has the inner mutex;
    it never panics. *)
Lemma rblocked_waits s t :
  inv s -> at_ (th s t) <> Idle ->
  at_ (th s t) <> Panicked /\
  (run1 (mx s) t (th s t) = None -> at_ (th s t) = WaitMu /\ exists u, u <> t /\ has_mu (th s u)).
Proof.
  intros [Hl Ht] Hp. destruct (Hl t) as (_ & _ & _ & _ & Hpc). split; [by intros E; rewrite E in Hpc|].
  intros Hr. unfold run1 in Hr. destruct (at_ (th s t)) eqn:Ep; try done; repeat case_match; try done.
  split; [done|]. destruct (tok_out _ _ Ht) as [u Hu]; [done|]. exists u. split; [|done]. intros ->.
  unfold has_mu in Hu. rewrite Ep in Hu. destruct Hu; [lia|done].
Qed.

(** Events of clients that keep to the rules, run in a row. *)
Fixpoint schedule_ok (s : state) (es : list event) : option state :=
  match es with
  | [] => Some s
  | e :: es' =>
      if decide (allowed s e) then
        match exec s e with Some s' => schedule_ok s' es' | None => None end
      else None
  end.

Lemma rschedule_reachable es s s' : reachable s -> schedule_ok s es = Some s' -> reachable s'.
Proof.
  revert s. induction es as [|e es IH]; cbn; intros s Hr He; [by simplify_eq|].
  case_decide as Ha; [|done]. destruct (exec s e) as [s1|] eqn:E; [|done]. apply (IH s1); [|done].
  eapply rtc_r; [exact Hr|]. by exists e.
Qed.

End ReentrantMutex.

(** * The tables of locks *)

(** [%d] of an unsigned number. *)
Definition fmt_d (n : Z) : string := pretty (Z.to_N n).
Definition fmt_t (b : bool) : string := if b then "true" else "false".

(** The keys; [fk] is the key of the backing file. *)
Definition bgdTableLockKey (fk : string) : string := fk +:+ ":bgdTable".
Definition bgdBlockLockKey (fk : string) (block : Z) : string := fk +:+ ":bgdTable:block:" +:+ fmt_d block.
Definition dataBlockLockKey (fk : string) (block : Z) : string := fk +:+ ":block:" +:+ fmt_d block.
Definition bgdGroupLockKey (fk : string) (group : Z) : string := fk +:+ ":bgdTable:g:" +:+ fmt_d group.
Definition bitmapLockKey (fk : string) (group : Z) (isBlock : bool) : string :=
  fk +:+ ":bitmap:g:" +:+ fmt_d group +:+ ":block:" +:+ fmt_t isBlock.
Definition inodeTableLockKey (fk : string) (group : Z) : string := fk +:+ ":inodeTable:g:" +:+ fmt_d group.
Definition inodeLockKey (fk : string) (inodeNum : Z) : string := fk +:+ ":ino:" +:+ fmt_d inodeNum.
Definition dirModLockKey (fk : string) (dirIno : Z) : string := fk +:+ ":dirmod:" +:+ fmt_d dirIno.

Lemma fmt_d_inj a b : 0 <= a -> 0 <= b -> fmt_d a = fmt_d b -> a = b.
Proof. intros Ha Hb He. unfold fmt_d in He. apply (inj (pretty (A:=N))) in He. lia. Qed.

(** A number prints without a colon, so the colon after it ends it. *)
Fixpoint no_colon (s : string) : bool :=
  match s with
  | EmptyString => true
  | String c s' => negb (bool_decide (c = ":"%char)) && no_colon s'
  end.

Lemma pretty_N_no_colon x s : no_colon s = true -> no_colon (pretty_N_go x s) = true.
Proof.
  revert s. induction (N.lt_wf_0 x) as [x _ IH]. intros s Hs.
  destruct (decide (x = 0)%N) as [->|Hx]; [done|]. rewrite pretty_N_go_step by lia. apply IH.
  - apply N.div_lt; lia.
  - cbn. rewrite Hs, andb_true_r. apply negb_true_iff, bool_decide_eq_false.
    unfold pretty_N_char. by repeat case_match.
Qed.

Lemma fmt_d_no_colon n : no_colon (fmt_d n) = true.
Proof.
  unfold fmt_d, pretty, pretty_N. case_decide; [done|]. by apply pretty_N_no_colon.
Qed.

Lemma colon_split a b r r' :
  no_colon a = true -> no_colon b = true -> a +:+ String ":" r = b +:+ String ":" r' -> a = b /\ r = r'.
Proof.
  revert b. induction a as [|c a IH]; intros [|c' b] Ha Hb He; cbn [no_colon String.append] in *;
    rewrite ?andb_true_iff, ?negb_true_iff, ?bool_decide_eq_false in *.
  - by injection He as ->.
  - injection He as <- _. by destruct Hb as [[] _].
  - injection He as -> _. by destruct Ha as [[] _].
  - injection He as -> He. destruct (IH b (proj2 Ha) (proj2 Hb) He) as [-> ->]. done.
Qed.

Lemma bitmapLockKey_inj fk g b g' b' :
  0 <= g -> 0 <= g' -> bitmapLockKey fk g b = bitmapLockKey fk g' b' -> g = g' /\ b = b'.
Proof.
  unfold bitmapLockKey. intros Hg Hg' He. apply (inj (String.append fk)), (inj (String.append ":bitmap:g:")) in He.
  apply colon_split in He as [Hd Ht]; [|apply fmt_d_no_colon..]. split; [by apply fmt_d_inj|].
  apply (inj (String.append "block:")) in Ht. by destruct b, b'.
Qed.

Lemma bgdGroupLockKey_inj fk g g' :
  0 <= g -> 0 <= g' -> bgdGroupLockKey fk g = bgdGroupLockKey fk g' -> g = g'.
Proof.
  unfold bgdGroupLockKey. intros Hg Hg' He.
  apply (inj (String.append fk)), (inj (String.append ":bgdTable:g:")) in He. by apply fmt_d_inj.
Qed.

(** A table: a lock is made when its key is first asked for.  Locks are named by
    the order of their creation. *)
Record registry := Registry { next : Z; names : gmap string Z }.

Definition lock_for (key : string) (r : registry) : Z * registry :=
  match names r !! key with
  | Some l => (l, r)
  | None => (next r, Registry (next r + 1) (<[key := next r]> (names r)))
  end.

Definition registry_ok (r : registry) : Prop :=
  (forall k l, names r !! k = Some l -> 0 <= l < next r) /\ 0 <= next r /\
  forall k k' l, names r !! k = Some l -> names r !! k' = Some l -> k = k'.

Lemma lock_for_ok key r l r' :
  registry_ok r -> lock_for key r = (l, r') ->
  registry_ok r' /\ names r' !! key = Some l /\ forall k l', names r !! k = Some l' -> names r' !! k = Some l'.
Proof.
  unfold lock_for. intros (Hr & Hn & Hi) He. destruct (names r !! key) as [l0|] eqn:Ek; simplify_eq; [done|].
  split; [split_and!; cbn|split; cbn; [by rewrite lookup_insert_eq|]].
  - intros k l. destruct (decide (k = key)) as [->|]; [rewrite lookup_insert_eq; intros [= <-]; lia|].
    rewrite lookup_insert_ne by done. intros ?%Hr. lia.
  - lia.
  - intros k k' l. destruct (decide (k = key)) as [->|], (decide (k' = key)) as [->|];
      rewrite ?lookup_insert_eq, ?lookup_insert_ne by done; [done|..].
    + intros [= <-] ?%Hr. lia.
    + intros Hk [= <-]. apply Hr in Hk. lia.
    + apply Hi.
  - intros k l' Hk. rewrite lookup_insert_ne by congruence. done.
Qed.

(** The table with its locks: clients look locks up, and use them. *)
Record lock_table := LockTable { reg : registry; locks : Z -> TryMutex.state }.

Definition table_init : lock_table := LockTable (Registry 0 ∅) (fun _ => TryMutex.init).

Inductive table_step : lock_table -> lock_table -> Prop :=
| table_lookup tb key : table_step tb (LockTable (lock_for key (reg tb)).2 (locks tb))
| table_use tb key l s' :
    names (reg tb) !! key = Some l -> TryMutex.step (locks tb l) s' ->
    table_step tb (LockTable (reg tb) (upd (locks tb) l s')).

Definition table_ok (tb : lock_table) : Prop :=
  registry_ok (reg tb) /\ forall l, TryMutex.reachable (locks tb l).

Lemma table_step_ok tb tb' : table_ok tb -> table_step tb tb' -> table_ok tb'.
Proof.
  intros [Hr Hl] Hs. destruct Hs as [tb key|tb key l s' Hk Hs]; split; cbn; auto.
  - destruct (lock_for key (reg tb)) as [l r'] eqn:E. by eapply lock_for_ok.
  - intros l'. destruct (decide (l' = l)) as [->|]; [|by rewrite upd_other]. rewrite upd_same.
    eapply rtc_r; [apply Hl|exact Hs].
Qed.

Lemma table_reachable_ok tb : rtc table_step table_init tb -> table_ok tb.
Proof.
  assert (forall x, rtc table_step x tb -> table_ok x -> table_ok tb) as Hg
    by (induction 1; eauto using table_step_ok).
  intros Hr. apply (Hg _ Hr). split; [|intros; constructor]. split_and!; cbn; [done|lia|done].
Qed.

(** * What the locks guarantee *)

(** C11: [tryMutex] implements a re-entrant lock: for any interleaving of the atomic
    steps of any number of goroutines that unlock only what they hold, at most
    one goroutine holds the lock, and acquisitions and releases are those of a
    lock with a holder and a count. A goroutine is blocked only in [Lock], while
    another one has the token; [Unlock] never blocks. *)
Theorem tryMutex_refines (s : TryMutex.state) :
  TryMutex.reachable s ->
  (exists h, abs (TryMutex.depths s) h /\ rtc lock_step None h) /\
  forall t, TryMutex.at_ (TryMutex.th s t) <> TryMutex.Idle ->
    TryMutex.run1 (TryMutex.mx s) t (TryMutex.th s t) = None ->
    TryMutex.at_ (TryMutex.th s t) = TryMutex.LockWait /\
    exists u, u <> t /\ TryMutex.has_token (TryMutex.th s u).
Proof.
  intros Hr. split; [by apply TryMutex.reachable_abs|]. intros t.
  apply TryMutex.blocked_waits, TryMutex.reachable_inv, Hr.
Qed.

(** Goroutine 1 holds the lock twice and goroutine 2 waits for it. *)
Definition contended : list event :=
  [Call 1 Lock; Run 1; Run 1; Run 1; Run 1; Call 2 Lock; Run 2; Run 2; Run 2; Call 1 TryLock; Run 1; Run 1].

Lemma default_some {A} (d : A) (o : option A) : match o with Some _ => true | None => false end = true -> o = Some (default d o).
Proof. by destruct o. Qed.

Definition contended_state : TryMutex.state :=
  default TryMutex.init (TryMutex.schedule_ok TryMutex.init contended).

Lemma tryMutex_refines_witness :
  TryMutex.depths contended_state 1 = 2 /\
  exists h, abs (TryMutex.depths contended_state) h /\ rtc lock_step None h.
Proof.
  split; [vm_compute; reflexivity|].
  assert (TryMutex.reachable contended_state) as Hr.
  { apply (TryMutex.schedule_reachable contended TryMutex.init); [constructor|]. apply default_some. vm_compute. reflexivity. }
  exact (proj1 (tryMutex_refines contended_state Hr)).
Defined.

(** C12: [reentrantMutex] keeps its invariant under any interleaving of clients with
    distinct non-zero owner tokens that unlock only what they hold: at most one
    client holds it, the recursion counter of the holder is the number of its
    acquisitions, no [UnlockOwner] panics, and a client is blocked only in
    [LockOwner], while another one has the inner mutex. *)
Theorem reentrantMutex_invariant (s : ReentrantMutex.state) :
  ReentrantMutex.reachable s ->
  (exists h, abs (ReentrantMutex.depths s) h /\ rtc lock_step None h) /\
  (forall t, 0 < ReentrantMutex.depths s t ->
    ReentrantMutex.owner (ReentrantMutex.mx s) = t /\
    ReentrantMutex.recursion (ReentrantMutex.mx s) = ReentrantMutex.depths s t /\
    ReentrantMutex.mu (ReentrantMutex.mx s) = true) /\
  forall t, ReentrantMutex.at_ (ReentrantMutex.th s t) <> ReentrantMutex.Idle ->
    ReentrantMutex.at_ (ReentrantMutex.th s t) <> ReentrantMutex.Panicked /\
    (ReentrantMutex.run1 (ReentrantMutex.mx s) t (ReentrantMutex.th s t) = None ->
     ReentrantMutex.at_ (ReentrantMutex.th s t) = ReentrantMutex.WaitMu /\
     exists u, u <> t /\ ReentrantMutex.has_mu (ReentrantMutex.th s u)).
Proof.
  intros Hr. pose proof (ReentrantMutex.rreachable_inv s Hr) as Hinv.
  split; [by apply ReentrantMutex.rreachable_abs|]. split.
  - intros t Ht. destruct Hinv as [Hl Htok]. destruct (Hl t) as (_ & _ & Hd & _). destruct (Hd Ht) as [-> ->].
    split_and!; [done..|]. destruct (ReentrantMutex.mu _) eqn:E; [done|].
    destruct (tok_in _ _ Htok eq_refl t). by left.
  - intros t. by apply ReentrantMutex.rblocked_waits.
Qed.

Definition nested_state : ReentrantMutex.state :=
  default ReentrantMutex.init (ReentrantMutex.schedule_ok ReentrantMutex.init
    [Call 7 Lock; Run 7; Run 7; Run 7; Run 7; Run 7; Run 7; Call 7 Lock; Run 7; Run 7; Call 9 Lock; Run 9; Run 9]).

Lemma reentrantMutex_invariant_witness :
  ReentrantMutex.depths nested_state 7 = 2 /\ ReentrantMutex.recursion (ReentrantMutex.mx nested_state) = 2.
Proof.
  assert (ReentrantMutex.reachable nested_state) as Hr.
  { eapply (ReentrantMutex.rschedule_reachable _ ReentrantMutex.init); [constructor|]. apply default_some. vm_compute. reflexivity. }
  assert (ReentrantMutex.depths nested_state 7 = 2) as Hd by (vm_compute; reflexivity).
  split; [exact Hd|]. rewrite <- Hd.
  destruct (reentrantMutex_invariant nested_state Hr) as (_ & Hh & _). destruct (Hh 7) as (_ & Hrec & _); [by rewrite Hd|].
  exact Hrec.
Defined.

(** C13: in a table of locks that makes a lock when its key is first asked for, the
    locks of different groups and kinds are different, and at most one goroutine
    at a time holds the bitmap lock or the descriptor lock of a group. *)
Theorem group_locks_exclusive (tb : lock_table) (fk : string) (g g' : Z) (b b' : bool) (l l' : Z) :
  rtc table_step table_init tb -> 0 <= g -> 0 <= g' ->
  (names (reg tb) !! bitmapLockKey fk g b = Some l -> names (reg tb) !! bitmapLockKey fk g' b' = Some l' ->
   (g, b) <> (g', b') -> l <> l') /\
  (names (reg tb) !! bgdGroupLockKey fk g = Some l -> names (reg tb) !! bgdGroupLockKey fk g' = Some l' ->
   g <> g' -> l <> l') /\
  forall t u, 0 < TryMutex.depths (locks tb l) t -> 0 < TryMutex.depths (locks tb l) u -> t = u.
Proof.
  intros Hr Hg Hg'. destruct (table_reachable_ok tb Hr) as [(_ & _ & Hinj) Hl]. split_and!.
  - intros H1 H2 Hne ->. apply Hne. destruct (bitmapLockKey_inj fk g b g' b' Hg Hg') as [-> ->]; [|done].
    by eapply Hinj.
  - intros H1 H2 Hne ->. apply Hne. eapply bgdGroupLockKey_inj; [done..|]. by eapply Hinj.
  - apply (TryMutex.inv_exclusive _ (TryMutex.reachable_inv _ (Hl l))).
Qed.

Definition two_locks : lock_table :=
  LockTable (lock_for (bitmapLockKey "fd:3" 1 true) (lock_for (bitmapLockKey "fd:3" 0 true) (Registry 0 ∅)).2).2
    (fun _ => TryMutex.init).

Lemma group_locks_exclusive_witness :
  names (reg two_locks) !! bitmapLockKey "fd:3" 0 true = Some 0 /\
  names (reg two_locks) !! bitmapLockKey "fd:3" 1 true = Some 1 /\ 0 <> 1.
Proof.
  assert (rtc table_step table_init two_locks) as Hr.
  { eapply rtc_l; [apply (table_lookup _ (bitmapLockKey "fd:3" 0 true))|].
    eapply rtc_l; [apply (table_lookup _ (bitmapLockKey "fd:3" 1 true))|]. constructor. }
  assert (names (reg two_locks) !! bitmapLockKey "fd:3" 0 true = Some 0) as H0 by (vm_compute; reflexivity).
  assert (names (reg two_locks) !! bitmapLockKey "fd:3" 1 true = Some 1) as H1 by (vm_compute; reflexivity).
  split; [exact H0|]. split; [exact H1|].
  apply (proj1 (group_locks_exclusive two_locks "fd:3" 0 1 true true 0 1 Hr ltac:(lia) ltac:(lia)) H0 H1). done.
Defined.

(** a goroutine that unlocks a [tryMutex] a second time, as the error paths of
    the block allocator do, takes the lock from the goroutine that has acquired
    it meanwhile: a third one gets in, and two hold the lock. *)
Theorem double_unlock_breaks_exclusion :
  exists s, TryMutex.schedule TryMutex.init
    ([Call 1 Lock; Run 1; Run 1; Run 1; Run 1] ++ [Call 1 Unlock; Run 1; Run 1; Run 1] ++
     [Call 2 Lock; Run 2; Run 2; Run 2; Run 2] ++ [Call 1 Unlock; Run 1; Run 1; Run 1] ++
     [Call 3 Lock; Run 3; Run 3; Run 3; Run 3]) = Some s /\
    TryMutex.depths s 2 = 1 /\ TryMutex.depths s 3 = 1.
Proof.
  eexists. split; [apply (default_some TryMutex.init); vm_compute; reflexivity|]. split; vm_compute; reflexivity.
Qed.
