(* ===== verification/Dispatch.v ===== *)
(** The commit dispatcher ([src/commit_dispatch.go]) with its goroutines: clients
    that enqueue batches of writes and wait for an acknowledgement, and one worker
    per backing file and group that applies them.  A client and a worker take a
    step at a time and interleave freely.  What a worker does to a batch before it
    writes it is modelled in [Alloc]. *)

From stdpp Require Import base gmap relations.
From S2P Require Import Prelude Alloc Locks.

(** * Sequence numbers *)

(** The counter, the groups and the claims of the sequence numbers, the numbers of
    the acknowledgement channels, and the numbers that have been acknowledged. *)
Record book := Book {
  commitTaskSeq : Z;
  seqInfos : gmap Z Z;
  seqClaimed : gmap Z bool;
  ackToSeq : gmap Z Z;
  ackedSeqs : gset Z
}.

Definition claimed (b : book) (s : Z) : bool := default false (seqClaimed b !! s).

(** The smallest number of the group that nobody has claimed; 0 if there is none. *)
Definition candidate (b : book) (group : Z) : Z :=
  foldr (fun '(s, g) c =>
    if (g =? group) && negb (claimed b s) && ((c =? 0) || (s <? c)) then s else c)
    0 (map_to_list (seqInfos b)).

Definition claimOrAllocateSeq (group : Z) (b : book) : Z * book :=
  let c := candidate b group in
  if negb (c =? 0) then
    (c, Book (commitTaskSeq b) (seqInfos b) (<[c := true]> (seqClaimed b)) (ackToSeq b) (ackedSeqs b))
  else
    let s := w64 (commitTaskSeq b + 1) in
    (s, Book s (<[s := group]> (seqInfos b)) (<[s := true]> (seqClaimed b)) (ackToSeq b) (ackedSeqs b)).

Definition registerAckSeq (ack seq : Z) (b : book) : book :=
  Book (commitTaskSeq b) (seqInfos b) (seqClaimed b) (<[ack := seq]> (ackToSeq b)) (ackedSeqs b).

Definition getSeqForAck (ack : Z) (b : book) : Z * bool :=
  match ackToSeq b !! ack with Some s => (s, true) | None => (0, false) end.

Definition markSeqAcked (seq : Z) (b : book) : book :=
  if seq =? 0 then b else
  Book (commitTaskSeq b) (seqInfos b) (seqClaimed b) (ackToSeq b) ({[seq]} ∪ ackedSeqs b).

Definition isSeqAcked (seq : Z) (b : book) : bool :=
  if seq =? 0 then false else bool_decide (seq ∈ ackedSeqs b).

(** [scheduleAckToSeqDelete] without a grace period. *)
Definition scheduleAckToSeqDelete (ack seq : Z) (b : book) : book :=
  Book (commitTaskSeq b) (delete seq (seqInfos b)) (delete seq (seqClaimed b)) (delete ack (ackToSeq b)) (ackedSeqs b).

(** * Tasks, workers and clients *)

(** A task; [ack] names its channel. *)
Record task := Task { ack : Z; group : Z; ops : list commitOp; seq : Z }.

(** A worker: whether its goroutine runs, the buffered channel, and the task it is
    at, with what it has written, what is left and the error.  For the record:
    the tasks it was sent, and those it has finished. *)
Record worker := Worker {
  w_group : Z;
  w_alive : bool;
  w_tasks : list task;
  w_cur : option (task * list commitOp * list commitOp * option error);
  w_sent : list task;
  w_done : list (task * list commitOp * option error)
}.

Definition queue_cap : Z := 1024.

(** A client: idle, with a worker at hand, writing itself because the queue was
    full, waiting for an acknowledgement, or done. *)
Inductive client :=
| CIdle
| CHave (w : Z) (t : task)
| CInline (t : task) (did rest : list commitOp)
| CWait (t : task)
| CDone (t : task) (e : option error).

Record disp := Disp {
  table : gmap Z Z;                       (* commitWorkers *)
  workers : Z -> worker;
  next_w : Z;
  clients : Z -> client;
  next_ack : Z;
  acks : gmap Z (option error);           (* what is in an ack channel *)
  book_ : book;
  written : list (option Z * commitOp);   (* the writes, with the worker *)
  inline_done : list (task * list commitOp * option error);
  made : gmap Z task                      (* the task of each ack channel *)
}.

Definition disp_init : disp :=
  Disp ∅ (fun _ => Worker 0 false [] None [] []) 0 (fun _ => CIdle) 0 ∅ (Book 0 ∅ ∅ ∅ ∅) [] [] ∅.

(** [ensureCommitWorker]. *)
Definition ensureCommitWorker (g : Z) (s : disp) : Z * disp :=
  match table s !! g with
  | Some w => (w, s)
  | None =>
      (next_w s, Disp (<[g := next_w s]> (table s)) (upd (workers s) (next_w s) (Worker g true [] None [] []))
        (next_w s + 1) (clients s) (next_ack s) (acks s) (book_ s) (written s) (inline_done s) (made s))
  end.

Definition set_client (s : disp) (c : Z) (x : client) : disp :=
  Disp (table s) (workers s) (next_w s) (upd (clients s) c x) (next_ack s) (acks s) (book_ s) (written s) (inline_done s) (made s).
Definition set_worker (s : disp) (w : Z) (x : worker) : disp :=
  Disp (table s) (upd (workers s) w x) (next_w s) (clients s) (next_ack s) (acks s) (book_ s) (written s) (inline_done s) (made s).
Definition set_book (s : disp) (b : book) : disp :=
  Disp (table s) (workers s) (next_w s) (clients s) (next_ack s) (acks s) b (written s) (inline_done s) (made s).
Definition fresh_ack (s : disp) (t : task) : disp :=
  Disp (table s) (workers s) (next_w s) (clients s) (next_ack s + 1) (acks s) (book_ s) (written s) (inline_done s) (<[ack t := t]> (made s)).
Definition send_ack (s : disp) (a : Z) (e : option error) : disp :=
  Disp (table s) (workers s) (next_w s) (clients s) (next_ack s) (<[a := e]> (acks s)) (book_ s) (written s) (inline_done s) (made s).
Definition recv_ack (s : disp) (a : Z) : disp :=
  Disp (table s) (workers s) (next_w s) (clients s) (next_ack s) (delete a (acks s)) (book_ s) (written s) (inline_done s) (made s).
Definition log_write (s : disp) (w : option Z) (o : commitOp) : disp :=
  Disp (table s) (workers s) (next_w s) (clients s) (next_ack s) (acks s) (book_ s) (written s ++ [(w, o)]) (inline_done s) (made s).
Definition log_inline (s : disp) (x : task * list commitOp * option error) : disp :=
  Disp (table s) (workers s) (next_w s) (clients s) (next_ack s) (acks s) (book_ s) (written s) (inline_done s ++ [x]) (made s).

(** * The steps *)

(** A step ends where another goroutine can see the difference.  [EPrepare] is the
    look-up of the worker with the making of the task and its number, which only
    the client itself uses before it sends; [EAck] is the send on the buffered ack
    channel with the bookkeeping of the number that follows it. *)

Inductive devent :=
| EPrepare (c g : Z) (os : list commitOp)  (* find the worker, make the task, take a number *)
| ESend (c : Z)                            (* select { case w.tasks <- t: ... default: ... } *)
| EInline (c : Z) (e : option error)       (* the next write of a full-queue fallback *)
| ERecv (c : Z)                            (* <-ack *)
| ETake (w : Z)                            (* t := <-w.tasks *)
| EWrite (w : Z) (e : option error)        (* the next write of the worker's task *)
| EAck (w : Z)                             (* t.ack <- err *)
| EIdle (w : Z).                           (* <-idleTimer.C *)

Definition finish_ack (s : disp) (t : task) (e : option error) : disp :=
  let s := send_ack s (ack t) e in
  set_book s (scheduleAckToSeqDelete (ack t) (seq t) (markSeqAcked (seq t) (book_ s))).

(** The client's side: [enqueueCommitWritesUnderLock] and the wait for the ack. *)
Definition enqueue_step (s : disp) (ev : devent) : option disp :=
  match ev with
  | EPrepare c g os =>
      match clients s c with
      | CIdle =>
          let '(w, s) := ensureCommitWorker g s in
          let a := next_ack s in
          let '(n, b) := claimOrAllocateSeq g (book_ s) in
          let t := Task a g os n in
          let s := set_book (fresh_ack s t) (registerAckSeq a n b) in
          Some (set_client s c (CHave w t))
      | _ => None
      end
  | ESend c =>
      match clients s c with
      | CHave w t =>
          let x := workers s w in
          if Z.of_nat (length (w_tasks x)) <? queue_cap then
            let s := set_worker s w (Worker (w_group x) (w_alive x) (w_tasks x ++ [t]) (w_cur x) (w_sent x ++ [t]) (w_done x)) in
            Some (set_client s c (CWait t))
          else
            let a := next_ack s in
            let '(n, b) := claimOrAllocateSeq (group t) (book_ s) in
            let t' := Task a (group t) (ops t) n in
            let s := set_book (fresh_ack s t') (registerAckSeq a n b) in
            Some (set_client s c (CInline t' [] (ops t)))
      | _ => None
      end
  | EInline c e =>
      match clients s c with
      | CInline t did [] => Some (set_client (finish_ack (log_inline s (t, did, None)) t None) c (CWait t))
      | CInline t did (o :: rest) =>
          match e with
          | None => Some (set_client (log_write s None o) c (CInline t (did ++ [o]) rest))
          | Some _ => Some (set_client (finish_ack (log_inline s (t, did, e)) t e) c (CWait t))
          end
      | _ => None
      end
  | ERecv c =>
      match clients s c with
      | CWait t =>
          match acks s !! ack t with
          | Some e => Some (set_client (recv_ack s (ack t)) c (CDone t e))
          | None => None
          end
      | _ => None
      end
  | _ => None
  end.

(** The worker's side: [run]. *)
Definition run_step (s : disp) (ev : devent) : option disp :=
  match ev with
  | ETake w =>
      let x := workers s w in
      match w_alive x, w_cur x, w_tasks x with
      | true, None, t :: ts =>
          Some (set_worker s w (Worker (w_group x) true ts (Some (t, [], ops t, None)) (w_sent x) (w_done x)))
      | _, _, _ => None
      end
  | EWrite w e =>
      let x := workers s w in
      match w_cur x with
      | Some (t, did, o :: rest, None) =>
          match e with
          | None => Some (log_write (set_worker s w
              (Worker (w_group x) (w_alive x) (w_tasks x) (Some (t, did ++ [o], rest, None)) (w_sent x) (w_done x))) (Some w) o)
          | Some _ => Some (set_worker s w
              (Worker (w_group x) (w_alive x) (w_tasks x) (Some (t, did, [], e)) (w_sent x) (w_done x)))
          end
      | _ => None
      end
  | EAck w =>
      let x := workers s w in
      match w_cur x with
      | Some (t, did, [], e) =>
          Some (finish_ack (set_worker s w
            (Worker (w_group x) (w_alive x) (w_tasks x) None (w_sent x) (w_done x ++ [(t, did, e)]))) t e)
      | _ => None
      end
  | EIdle w =>
      let x := workers s w in
      match w_alive x, w_cur x with
      | true, None =>
          if bool_decide (table s !! w_group x = Some w) then
            Some (Disp (delete (w_group x) (table s))
              (upd (workers s) w (Worker (w_group x) false (w_tasks x) None (w_sent x) (w_done x)))
              (next_w s) (clients s) (next_ack s) (acks s) (book_ s) (written s) (inline_done s) (made s))
          else Some s
      | _, _ => None
      end
  | _ => None
  end.

Definition dexec (s : disp) (ev : devent) : option disp :=
  match ev with
  | EPrepare _ _ _ | ESend _ | EInline _ _ | ERecv _ => enqueue_step s ev
  | ETake _ | EWrite _ _ | EAck _ | EIdle _ => run_step s ev
  end.

Definition dstep (s s' : disp) : Prop := exists e, dexec s e = Some s'.
Definition dreachable (s : disp) : Prop := rtc dstep disp_init s.

(** * Order and acknowledgements *)

Definition rec_task (x : task * list commitOp * option error) : task := x.1.1.
Definition rec_did (x : task * list commitOp * option error) : list commitOp := x.1.2.

(** A finished task: a prefix of its writes, and all of them without an error. *)
Definition rec_ok (x : task * list commitOp * option error) : Prop :=
  exists rest, ops (rec_task x) = rec_did x ++ rest /\ (x.2 = None -> rest = []).

Definition cur_task (x : worker) : list task := match w_cur x with Some (t, _, _, _) => [t] | None => [] end.
Definition cur_did (x : worker) : list commitOp := match w_cur x with Some (_, did, _, _) => did | None => [] end.

(** The writes of a worker, in order. *)
Definition writes_of (w : Z) (l : list (option Z * commitOp)) : list commitOp :=
  (filter (fun x => x.1 = Some w) l).*2.

(** The task is the one of its channel. *)
Definition known (s : disp) (t : task) : Prop := made s !! ack t = Some t.

Record worker_ok (s : disp) (w : Z) : Prop := {
  wk_order : w_sent (workers s w) = (rec_task <$> w_done (workers s w)) ++ cur_task (workers s w) ++ w_tasks (workers s w);
  wk_known : Forall (known s) (w_sent (workers s w));
  wk_done : Forall rec_ok (w_done (workers s w));
  wk_cur : match w_cur (workers s w) with
           | Some (t, did, rest, None) => ops t = did ++ rest
           | Some (t, did, rest, Some _) => rest = [] /\ exists rest', ops t = did ++ rest'
           | None => True
           end;
  wk_writes : writes_of w (written s) = concat (rec_did <$> w_done (workers s w)) ++ cur_did (workers s w)
}.

(** The writes were made in this order by one goroutine. *)
Definition made_by (x : option Z) (l : list commitOp) (s : disp) : Prop := ((x,.) <$> l) `sublist_of` written s.

Definition inline_ok (s : disp) (x : task * list commitOp * option error) : Prop :=
  rec_ok x /\ known s (rec_task x) /\ made_by None (rec_did x) s.

(** The task was finished with this outcome. *)
Definition finished (s : disp) (t : task) (e : option error) : Prop :=
  exists x, (x ∈ inline_done s \/ exists w, x ∈ w_done (workers s w)) /\ rec_task x = t /\ x.2 = e.

Definition client_ok (s : disp) (x : client) : Prop :=
  match x with
  | CIdle => True
  | CHave w t => w < next_w s /\ known s t
  | CInline t did rest => known s t /\ ops t = did ++ rest /\ made_by None did s
  | CWait t => known s t
  | CDone t e => finished s t e
  end.

Definition blank : worker := Worker 0 false [] None [] [].

Record dinv (s : disp) : Prop := {
  di_worker : forall w, worker_ok s w;
  di_inline : Forall (inline_ok s) (inline_done s);
  di_client : forall c, client_ok s (clients s c);
  di_acks : forall a e, acks s !! a = Some e -> exists t, ack t = a /\ finished s t e;
  di_fresh : forall w, next_w s <= w -> workers s w = blank;
  di_table : forall g w, table s !! g = Some w -> w < next_w s;
  di_made : forall a t, made s !! a = Some t -> a < next_ack s
}.

Lemma dinv_init : dinv disp_init.
Proof. split; done. Qed.

(** ** What grows *)

Definition grows (s s' : disp) : Prop :=
  (forall x, x ∈ inline_done s -> x ∈ inline_done s') /\
  (forall w x, x ∈ w_done (workers s w) -> x ∈ w_done (workers s' w)) /\
  (forall t, known s t -> known s' t) /\ written s `sublist_of` written s' /\ next_w s <= next_w s'.

Lemma finished_grows s s' t e : grows s s' -> finished s t e -> finished s' t e.
Proof. intros (G1 & G2 & _) (x & [Hx|[w Hx]] & Ha & He); exists x; eauto 10. Qed.
Lemma made_by_grows s s' x l : grows s s' -> made_by x l s -> made_by x l s'.
Proof. intros (_ & _ & _ & G & _). unfold made_by. intros H. by etrans. Qed.
Lemma client_ok_grows s s' x : grows s s' -> client_ok s x -> client_ok s' x.
Proof.
  intros G. pose proof G as (_ & _ & G3 & _ & G5). destruct x; simpl; auto.
  - intros [? ?]. split; [lia|auto].
  - intros (? & ? & ?). eauto using made_by_grows.
  - by apply finished_grows.
Qed.
Lemma inline_ok_grows s s' l : grows s s' -> Forall (inline_ok s) l -> Forall (inline_ok s') l.
Proof.
  intros G Hl. eapply Forall_impl; [exact Hl|]. intros x (? & ? & ?). pose proof G as (_ & _ & G3 & _).
  split; [done|]. eauto using made_by_grows.
Qed.
Lemma worker_ok_ext s s' w :
  grows s s' -> workers s' w = workers s w -> writes_of w (written s') = writes_of w (written s) -> worker_ok s w -> worker_ok s' w.
Proof.
  intros (_ & _ & G3 & _) Hw Hl [A K B C E]. split; rewrite ?Hw, ?Hl; auto. eapply Forall_impl; [done|]. auto.
Qed.

Lemma known_fresh s t : dinv s -> ack t = next_ack s -> forall t', known s t' -> made (fresh_ack s t) !! ack t' = Some t'.
Proof. intros Hi Ha t' Ht'. simpl. rewrite lookup_insert_ne; [done|]. apply (di_made _ Hi) in Ht'. lia. Qed.

Lemma finished_known s t e : dinv s -> finished s t e -> known s t.
Proof.
  intros Hi (x & [Hx|[w Hx]] & <- & _).
  - pose proof (di_inline _ Hi) as H. rewrite Forall_forall in H. by apply H.
  - destruct (di_worker _ Hi w) as [A K _ _ _]. rewrite Forall_forall in K. apply K. rewrite A.
    apply elem_of_app. left. apply list_elem_of_fmap. eauto.
Qed.

Lemma writes_of_app w l l' : writes_of w (l ++ l') = writes_of w l ++ writes_of w l'.
Proof. unfold writes_of. by rewrite filter_app, fmap_app. Qed.
Lemma writes_of_other w x o : x <> Some w -> writes_of w [(x, o)] = [].
Proof. intros Hx. unfold writes_of. by rewrite filter_cons_False by done. Qed.
Lemma writes_of_same w o : writes_of w [(Some w, o)] = [o].
Proof. unfold writes_of. by rewrite filter_cons_True by done. Qed.

(** A client moves on. *)
Lemma client_step s s' c x :
  dinv s -> workers s' = workers s -> written s' = written s \/ (exists o, written s' = written s ++ [(None, o)]) ->
  clients s' = upd (clients s) c x -> next_w s' = next_w s -> table s' = table s ->
  (inline_done s' = inline_done s \/ exists y, inline_ok s' y /\ inline_done s' = inline_done s ++ [y]) ->
  (forall t, known s t -> known s' t) -> (forall a t, made s' !! a = Some t -> a < next_ack s') ->
  (forall a e, acks s' !! a = Some e -> acks s !! a = Some e \/ exists t, ack t = a /\ finished s' t e) ->
  client_ok s' x -> dinv s'.
Proof.
  intros Hi Hw Hl Hc Hn Ht Hin Hk Hm Ha Hx. destruct Hi as [D1 D2 D3 D4 D5 D6 D7].
  assert (grows s s') as Hg.
  { repeat split; [|by intros w y; rewrite Hw|done| |lia].
    - intros y Hy. destruct Hin as [->|(z & _ & ->)]; [done|]. apply elem_of_app. by left.
    - destruct Hl as [->|[o ->]]; [done|]. by apply sublist_inserts_r. }
  split; rewrite ?Hw, ?Hn, ?Ht, ?Hc; auto.
  - intros w. apply (worker_ok_ext s); [done|by rewrite Hw| |apply D1].
    destruct Hl as [->|[o ->]]; [done|]. by rewrite writes_of_app, writes_of_other, app_nil_r.
  - destruct Hin as [->|(y & Hy & ->)]; [by eapply inline_ok_grows|].
    apply Forall_app. split; [by eapply inline_ok_grows|by apply Forall_singleton].
  - intros c'. unfold upd. case_decide; [done|]. by eapply client_ok_grows.
  - intros a e He. destruct (Ha a e He) as [Ho|?]; [|done]. destruct (D4 _ _ Ho) as (t & ? & ?). eauto using finished_grows.
Qed.

(** A worker moves on. *)
Lemma worker_step s s' w x :
  dinv s -> w < next_w s -> workers s' = upd (workers s) w x -> worker_ok s' w ->
  (forall w', w' <> w -> writes_of w' (written s') = writes_of w' (written s)) -> written s `sublist_of` written s' ->
  clients s' = clients s -> next_w s' = next_w s -> next_ack s' = next_ack s -> made s' = made s ->
  (forall g v, table s' !! g = Some v -> table s !! g = Some v) -> inline_done s' = inline_done s ->
  (forall y, y ∈ w_done (workers s w) -> y ∈ w_done x) ->
  (forall a e, acks s' !! a = Some e -> acks s !! a = Some e \/ exists t, ack t = a /\ finished s' t e) -> dinv s'.
Proof.
  intros Hi Hlt Hw Hok Hl Hsub Hc Hn Hna Hm Ht Hin Hd Ha. destruct Hi as [D1 D2 D3 D4 D5 D6 D7].
  assert (grows s s') as Hg.
  { repeat split; [by rewrite Hin| |by intros t; unfold known; rewrite Hm|done|lia].
    intros v y Hy. rewrite Hw. unfold upd. case_decide; subst; auto. }
  split; rewrite ?Hc, ?Hn, ?Hin, ?Hna, ?Hm; auto.
  - intros v. destruct (decide (v = w)) as [->|Hne]; [done|]. apply (worker_ok_ext s); auto. rewrite Hw. by apply upd_other.
  - by eapply inline_ok_grows.
  - intros c. by eapply client_ok_grows.
  - intros a e He. destruct (Ha a e He) as [Ho|?]; [|done]. destruct (D4 _ _ Ho) as (t & ? & ?). eauto using finished_grows.
  - intros v Hv. rewrite Hw, upd_other by lia. by apply D5.
  - intros g v Hg'. eapply D6. by apply Ht.
Qed.

Lemma ensure_inv g s : dinv s -> dinv (ensureCommitWorker g s).2 /\ (ensureCommitWorker g s).1 < next_w (ensureCommitWorker g s).2.
Proof.
  intros Hi. unfold ensureCommitWorker. destruct (table s !! g) as [w|] eqn:Et; simpl.
  { split; [done|]. by apply (di_table _ Hi g). }
  split; [|lia]. destruct Hi as [D1 D2 D3 D4 D5 D6 D7].
  pose proof (D5 (next_w s) ltac:(lia)) as Hb. pose proof (D1 (next_w s)) as [_ _ _ _ Hlog]. rewrite Hb in Hlog.
  match goal with |- dinv ?t => set (s' := t) end.
  assert (grows s s') as Hg.
  { repeat split; simpl; try done; [|lia]. intros v x. unfold upd. case_decide; [|done]. subst v. by rewrite Hb. }
  split; simpl; auto.
  - intros w. destruct (decide (w = next_w s)) as [->|Hne].
    + split; simpl; rewrite ?upd_same; try done; constructor.
    + apply (worker_ok_ext s); [done|by apply upd_other|done|apply D1].
  - intros c. by eapply client_ok_grows.
  - intros a e He. destruct (D4 _ _ He) as (t & ? & ?). eauto using finished_grows.
  - intros w Hw. rewrite upd_other by lia. apply D5. lia.
  - intros g' w. destruct (decide (g' = g)) as [->|Hne].
    + rewrite lookup_insert_eq. intros [= <-]. lia.
    + rewrite lookup_insert_ne by done. intros Hw. apply D6 in Hw. lia.
Qed.

Lemma alive_lt s w : dinv s -> w_alive (workers s w) = true \/ w_cur (workers s w) <> None -> w < next_w s.
Proof.
  intros Hi Hw. destruct (Z_lt_le_dec w (next_w s)) as [|Hle]; [done|exfalso].
  rewrite (di_fresh _ Hi w Hle) in Hw. destruct Hw as [Hw|Hw]; by simpl in Hw.
Qed.

(** A client starts a task of its own. *)
Lemma fresh_step s c t b x :
  dinv s -> ack t = next_ack s -> (x = CInline t [] (ops t) \/ exists w, w < next_w s /\ x = CHave w t) ->
  dinv (set_client (set_book (fresh_ack s t) b) c x).
Proof.
  intros Hi Ha Hx. eapply (client_step s); try done; auto.
  - intros t' Ht'. exact (known_fresh s t Hi Ha t' Ht').
  - intros a t'. simpl. rewrite lookup_insert_Some. intros [[? _]|[_ Hm]]; [lia|]. apply (di_made _ Hi) in Hm. lia.
  - assert (known (set_client (set_book (fresh_ack s t) b) c x) t) by (unfold known; simpl; by rewrite lookup_insert_eq).
    destruct Hx as [->|(w & Hw & ->)]; [|done]. split; [done|]. split; [done|]. apply sublist_nil_l.
Qed.

Lemma dinv_prepare s s' c g os : dinv s -> dexec s (EPrepare c g os) = Some s' -> dinv s'.
Proof.
  intros Hi. simpl. destruct (clients s c) eqn:Ec; try done.
  destruct (ensure_inv g s Hi) as [Hi' Hlt]. destruct (ensureCommitWorker g s) as [w s1]. simpl in *.
  destruct (claimOrAllocateSeq g (book_ s1)) as [n b]. intros [= <-]. apply fresh_step; eauto.
Qed.

Lemma dinv_send s s' c : dinv s -> dexec s (ESend c) = Some s' -> dinv s'.
Proof.
  intros Hi. simpl. pose proof (di_client _ Hi c) as Hc. destruct (clients s c) as [|w t| | |] eqn:Ec; try done.
  destruct Hc as [Hlt Hk]. case_match eqn:El.
  - intros [= <-]. eapply (client_step (set_worker s w _)); try done; auto; [|apply (di_made _ Hi)].
    eapply (worker_step s _ w); try done; auto.
    destruct (di_worker _ Hi w) as [A K B C E]. split; simpl; rewrite ?upd_same; try done; simpl.
    + rewrite A. unfold cur_task. simpl. by rewrite !app_assoc.
    + apply Forall_app. split; [done|]. by apply Forall_singleton.
  - destruct (claimOrAllocateSeq _ _) as [n b]. intros [= <-]. apply fresh_step; auto.
Qed.

Lemma dinv_inline s s' c e : dinv s -> dexec s (EInline c e) = Some s' -> dinv s'.
Proof.
  intros Hi. simpl. pose proof (di_client _ Hi c) as Hc. destruct (clients s c) as [| |t did rest| |] eqn:Ec; try done.
  destruct Hc as (Hk & Hops & Hby).
  assert (Hfin : forall e, (e = None -> rest = []) ->
    dinv (set_client (finish_ack (log_inline s (t, did, e)) t e) c (CWait t))).
  { intros e' He'. eapply (client_step s); try done; auto; [|apply (di_made _ Hi)|].
    - right. eexists. split; [|done]. split; [|done]. exists rest. done.
    - intros a e1 He1. simpl in He1. apply lookup_insert_Some in He1 as [[Ha He]|[_ He]]; [right|by left].
      exists t. split; [done|]. exists (t, did, e'). split; [left|done].
      apply elem_of_app. right. by apply list_elem_of_singleton. }
  destruct rest as [|o rest].
  - intros [= <-]. by apply Hfin.
  - destruct e as [e|]; intros [= <-]; [by apply Hfin|].
    eapply (client_step s); try done; auto; [right; by eexists|apply (di_made _ Hi)|].
    split; [done|]. split; [by rewrite <- app_assoc|]. unfold made_by. rewrite fmap_app. by apply sublist_app.
Qed.

Lemma dinv_recv s s' c : dinv s -> dexec s (ERecv c) = Some s' -> dinv s'.
Proof.
  intros Hi. simpl. pose proof (di_client _ Hi c) as Hc. destruct (clients s c) as [| | |t|] eqn:Ec; try done.
  destruct (acks s !! ack t) as [e|] eqn:Ea; [|done]. intros [= <-].
  eapply (client_step s); try done; auto; [apply (di_made _ Hi)| |].
  - intros a' e' He'. simpl in He'. apply lookup_delete_Some in He' as [_ He']. by left.
  - destruct (di_acks _ Hi _ _ Ea) as (t' & Hack & Hf). pose proof (finished_known _ _ _ Hi Hf) as Hk.
    unfold known in Hk. rewrite Hack, Hc in Hk. injection Hk as <-. exact Hf.
Qed.

Lemma dinv_take s s' w : dinv s -> dexec s (ETake w) = Some s' -> dinv s'.
Proof.
  intros Hi. simpl. destruct (w_alive (workers s w)) eqn:Ea; [|done].
  pose proof (alive_lt s w Hi (or_introl Ea)) as Hlt.
  destruct (w_cur (workers s w)) eqn:Ec; [done|]. destruct (w_tasks (workers s w)) as [|t ts] eqn:Et; [done|].
  intros [= <-]. eapply (worker_step s _ w); try done; auto.
  destruct (di_worker _ Hi w) as [A K B C E]. split; simpl; rewrite ?upd_same; try done; simpl.
  - rewrite A, Et. unfold cur_task. by rewrite Ec.
  - rewrite E. unfold cur_did. by rewrite Ec.
Qed.

Lemma dinv_write s s' w e : dinv s -> dexec s (EWrite w e) = Some s' -> dinv s'.
Proof.
  intros Hi. simpl. destruct (w_cur (workers s w)) as [[[[t did] [|o rest]] [e0|]]|] eqn:Ec; try done.
  assert (w < next_w s) as Hlt by (apply alive_lt; [done|right; by rewrite Ec]).
  destruct (di_worker _ Hi w) as [A K B C E]. unfold cur_task in A. unfold cur_did in E. rewrite Ec in A, C, E.
  destruct e as [e|]; intros [= <-]; eapply (worker_step s _ w); try done; auto.
  - split; simpl; rewrite ?upd_same; try done; simpl. split; [done|]. by eexists.
  - split; simpl; rewrite ?upd_same; try done; simpl.
    + by rewrite <- app_assoc.
    + rewrite writes_of_app, writes_of_same, E. by rewrite <- app_assoc.
  - intros w' Hne. simpl. by rewrite writes_of_app, writes_of_other, app_nil_r by congruence.
  - simpl. by apply sublist_inserts_r.
Qed.

Lemma dinv_ack s s' w : dinv s -> dexec s (EAck w) = Some s' -> dinv s'.
Proof.
  intros Hi. simpl. destruct (w_cur (workers s w)) as [[[[t did] [|o rest]] e]|] eqn:Ec; try done.
  assert (w < next_w s) as Hlt by (apply alive_lt; [done|right; by rewrite Ec]).
  destruct (di_worker _ Hi w) as [A K B C E]. unfold cur_task in A. unfold cur_did in E. rewrite Ec in A, C, E.
  intros [= <-]. eapply (worker_step s _ w); try done; auto.
  - split; simpl; rewrite ?upd_same; try done; simpl.
    + rewrite A, fmap_app. by rewrite <- app_assoc.
    + apply Forall_app. split; [done|]. apply Forall_singleton. destruct e as [e|]; simpl in C.
      * destruct C as [_ [rest' C]]. by exists rest'.
      * by exists [].
    + rewrite E, fmap_app, concat_app. simpl. by rewrite !app_nil_r.
  - intros y Hy. simpl. apply elem_of_app. by left.
  - intros a e1 He1. simpl in He1. apply lookup_insert_Some in He1 as [[Ha He]|[_ He]]; [right|by left].
    exists t. split; [done|]. exists (t, did, e). split; [|done]. right. exists w. simpl. rewrite upd_same. simpl.
    apply elem_of_app. right. by apply list_elem_of_singleton.
Qed.

Lemma dinv_idle s s' w : dinv s -> dexec s (EIdle w) = Some s' -> dinv s'.
Proof.
  intros Hi. simpl. destruct (w_alive (workers s w)) eqn:Ea; [|done].
  pose proof (alive_lt s w Hi (or_introl Ea)) as Hlt.
  destruct (w_cur (workers s w)) eqn:Ec; [done|]. case_bool_decide as Et; intros [= <-]; [|done].
  eapply (worker_step s _ w); try done; auto.
  - destruct (di_worker _ Hi w) as [A K B C E]. split; simpl; rewrite ?upd_same; try done; simpl.
    + rewrite A. unfold cur_task. by rewrite Ec.
    + rewrite E. unfold cur_did. by rewrite Ec.
  - intros g v. simpl. intros Hg. by apply lookup_delete_Some in Hg as [_ Hg].
Qed.

Lemma dinv_step s s' : dinv s -> dstep s s' -> dinv s'.
Proof.
  intros Hi [[] He]; eauto using dinv_prepare, dinv_send, dinv_inline, dinv_recv, dinv_take, dinv_write, dinv_ack, dinv_idle.
Qed.

Lemma dreachable_inv s : dreachable s -> dinv s.
Proof.
  unfold dreachable. generalize dinv_init. generalize disp_init. intros s0 H0 Hr.
  induction Hr as [|x y z Hxy _ IH]; [done|]. apply IH. by eapply dinv_step.
Qed.

Lemma finished_writes s t e :
  dinv s -> finished s t e -> exists x did rest, ops t = did ++ rest /\ (e = None -> rest = []) /\ made_by x did s.
Proof.
  intros Hi (y & [Hy|[w Hy]] & <- & <-).
  - pose proof (di_inline _ Hi) as H. rewrite Forall_forall in H. destruct (H _ Hy) as ((rest & Ho & Hr) & _ & Hb). eauto 10.
  - destruct (di_worker _ Hi w) as [_ _ B _ E]. rewrite Forall_forall in B. destruct (B _ Hy) as (rest & Ho & Hr).
    exists (Some w), (rec_did y), rest. split; [done|]. split; [done|].
    apply list_elem_of_split in Hy as (l1 & l2 & Hl). rewrite Hl, fmap_app, fmap_cons, concat_app in E. simpl in E.
    assert (rec_did y `sublist_of` writes_of w (written s)) as Hs.
    { rewrite E. apply sublist_inserts_r, sublist_inserts_l, sublist_inserts_r. done. }
    unfold made_by. etrans; [apply (fmap_sublist (Some w,.)), Hs|]. unfold writes_of. clear.
    induction (written s) as [|[x o] l IH]; [done|]. destruct (decide (x = Some w)) as [->|Hne].
    + rewrite filter_cons_True by done. simpl. by apply sublist_skip.
    + rewrite filter_cons_False by done. by apply sublist_cons.
Qed.

(** C10: Whatever the interleaving of clients and workers, a worker applies the
    batches it was sent in the order in which they were sent, with the writes of a
    batch in their order and none of another batch of the worker between them, and
    stops in a batch at its first error.  A client that is told that its batch
    succeeded has all the batch's writes, in order, on the device; one that is told
    of an error has a prefix of them. *)
Theorem dispatch_correct s :
  dreachable s ->
  (forall w, let x := workers s w in
    w_sent x = (rec_task <$> w_done x) ++ cur_task x ++ w_tasks x /\
    writes_of w (written s) = concat (rec_did <$> w_done x) ++ cur_did x /\
    Forall (fun r => exists rest, ops (rec_task r) = rec_did r ++ rest /\ (r.2 = None -> rest = [])) (w_done x)) /\
  (forall c t e, clients s c = CDone t e ->
    exists x did rest, ops t = did ++ rest /\ (e = None -> rest = []) /\ made_by x did s).
Proof.
  intros Hr. apply dreachable_inv in Hr as Hi. split.
  - intros w. destruct (di_worker _ Hi w) as [A _ B _ E]. done.
  - intros c t e Hc. apply finished_writes; [done|]. pose proof (di_client _ Hi c) as H. by rewrite Hc in H.
Qed.

(** * A worker empties its queue *)

Fixpoint runs (s : disp) (evs : list devent) : option disp :=
  match evs with
  | [] => Some s
  | e :: evs => match dexec s e with Some s' => runs s' evs | None => None end
  end.

Lemma runs_app s s1 evs evs' : runs s evs = Some s1 -> runs s (evs ++ evs') = runs s1 evs'.
Proof.
  revert s. induction evs as [|e evs IH]; intros s; simpl; [by intros [= ->]|].
  destruct (dexec s e); [apply IH|done].
Qed.

Lemma runs_rtc s evs s' : runs s evs = Some s' -> rtc dstep s s'.
Proof.
  revert s. induction evs as [|e evs IH]; intros s; simpl; [intros [= ->]; apply rtc_refl|].
  destruct (dexec s e) as [s1|] eqn:E; [|done]. intros H. apply (rtc_l _ _ s1); [by exists e|by apply IH].
Qed.

(** The steps of the worker [w] when its writes succeed. *)
Definition own (w : Z) (e : devent) : bool :=
  match e with ETake v | EAck v | EWrite v None => v =? w | _ => false end.

Lemma run_task w : forall rest s t did e,
  w_cur (workers s w) = Some (t, did, rest, e) -> (e <> None -> rest = []) ->
  exists evs s', Forall (own w) evs /\ runs s evs = Some s' /\
    w_alive (workers s' w) = w_alive (workers s w) /\ w_cur (workers s' w) = None /\
    w_tasks (workers s' w) = w_tasks (workers s w) /\ acks s' = <[ack t := e]> (acks s).
Proof.
  induction rest as [|o rest IH]; intros s t did e Hc He.
  - eexists [EAck w], _. split; [apply Forall_singleton; simpl; by rewrite Z.eqb_refl|].
    split; [simpl; by rewrite Hc|]. simpl. by rewrite !upd_same.
  - destruct e as [e|]; [by specialize (He ltac:(done))|].
    destruct (dexec s (EWrite w None)) as [s1|] eqn:E1; [|by simpl in E1; rewrite Hc in E1].
    simpl in E1. rewrite Hc in E1. injection E1 as E1.
    destruct (IH s1 t (did ++ [o]) None) as (evs & s' & Ho & Hr & Ha & Hcu & Ht & Hk); [subst s1; simpl; by rewrite upd_same|done|].
    exists (EWrite w None :: evs), s'. split; [constructor; [simpl; by rewrite Z.eqb_refl|done]|].
    split; [simpl; rewrite Hc; by rewrite E1|]. rewrite Ha, Ht, Hk. subst s1. simpl. by rewrite !upd_same.
Qed.

Lemma run_queue w : forall ts s,
  w_alive (workers s w) = true -> w_cur (workers s w) = None -> w_tasks (workers s w) = ts ->
  exists evs s', Forall (own w) evs /\ runs s evs = Some s' /\ w_cur (workers s' w) = None /\ w_tasks (workers s' w) = [] /\
    forall a, is_Some (acks s !! a) \/ a ∈ ack <$> ts -> is_Some (acks s' !! a).
Proof.
  induction ts as [|t ts IH]; intros s Ha Hc Ht.
  { exists [], s. split; [constructor|]. split; [done|]. split; [done|]. split; [done|]. intros a [?|Hn]; [done|]. by apply not_elem_of_nil in Hn. }
  set (s1 := set_worker s w (Worker (w_group (workers s w)) true ts (Some (t, [], ops t, None)) (w_sent (workers s w)) (w_done (workers s w)))).
  assert (dexec s (ETake w) = Some s1) as E1 by (simpl; by rewrite Ha, Hc, Ht).
  destruct (run_task w (ops t) s1 t [] None) as (ev1 & s2 & Ho1 & Hr1 & Ha1 & Hc1 & Ht1 & Hk1); [unfold s1; simpl; by rewrite upd_same|done|].
  unfold s1 in Ha1, Ht1, Hk1. simpl in Ha1, Ht1, Hk1. rewrite upd_same in Ha1, Ht1. simpl in Ha1, Ht1.
  destruct (IH s2 Ha1 Hc1 Ht1) as (ev2 & s3 & Ho2 & Hr2 & Hc2 & Ht2 & Hk2).
  exists (ETake w :: ev1 ++ ev2), s3. split; [constructor; [simpl; by rewrite Z.eqb_refl|by apply Forall_app]|].
  split; [change (match dexec s (ETake w) with Some s' => runs s' (ev1 ++ ev2) | None => None end = Some s3);
    rewrite E1; by rewrite (runs_app _ s2)|].
  split; [done|]. split; [done|]. intros a Hin. apply Hk2. rewrite Hk1.
  destruct (decide (a = ack t)) as [->|Hne]; [left; by rewrite lookup_insert_eq|].
  rewrite lookup_insert_ne by done. rewrite fmap_cons, elem_of_cons in Hin. naive_solver.
Qed.

(** C27: A worker whose goroutine runs always gets through its queue when its writes
    succeed: by its own steps alone, from any state the system can reach, it
    reaches one in which it has nothing left and every batch it was at or had
    queued has been acknowledged. *)
Theorem worker_drains s w :
  dreachable s -> w_alive (workers s w) = true ->
  exists evs s', Forall (own w) evs /\ runs s evs = Some s' /\ cur_task (workers s' w) = [] /\ w_tasks (workers s' w) = [] /\
    forall t, t ∈ cur_task (workers s w) ++ w_tasks (workers s w) -> is_Some (acks s' !! ack t).
Proof.
  intros Hr Ha. apply dreachable_inv in Hr as Hi. pose proof (wk_cur _ _ (di_worker _ Hi w)) as Hcur.
  unfold cur_task at 2. destruct (w_cur (workers s w)) as [[[[t did] rest] e]|] eqn:Ec.
  - destruct (run_task w rest s t did e Ec) as (ev1 & s1 & Ho1 & Hr1 & Ha1 & Hc1 & Ht1 & Hk1).
    { intros He. destruct e; [by destruct Hcur|done]. }
    destruct (run_queue w _ s1 (eq_trans Ha1 Ha) Hc1 Ht1) as (ev2 & s2 & Ho2 & Hr2 & Hc2 & Ht2 & Hk2).
    exists (ev1 ++ ev2), s2. split; [by apply Forall_app|]. split; [by rewrite (runs_app _ s1)|].
    split; [unfold cur_task; by rewrite Hc2|]. split; [done|]. intros t' Hin. apply Hk2. rewrite Hk1.
    apply elem_of_cons in Hin as [->|Hin]; [left; by rewrite lookup_insert_eq|right; apply list_elem_of_fmap; eauto].
  - destruct (run_queue w _ s Ha Ec eq_refl) as (ev2 & s2 & Ho2 & Hr2 & Hc2 & Ht2 & Hk2).
    exists ev2, s2. split; [done|]. split; [done|]. split; [unfold cur_task; by rewrite Hc2|]. split; [done|].
    intros t' Hin. apply Hk2. right. apply list_elem_of_fmap. eauto.
Qed.

(** * A worker that stops too early *)

(** The worker [0] has stopped and the client [0] waits for the task [t] that only
    this worker's channel holds. *)
Record stuck (t : task) (s : disp) : Prop := {
  sk_dead : w_alive (workers s 0) = false;
  sk_cur : w_cur (workers s 0) = None;
  sk_wait : clients s 0 = CWait t;
  sk_ack : acks s !! ack t = None;
  sk_old : ack t < next_ack s;
  sk_next : 0 < next_w s;
  sk_workers : forall w t', w <> 0 -> t' ∈ cur_task (workers s w) ++ w_tasks (workers s w) -> ack t' <> ack t;
  sk_clients : forall c, match clients s c with CHave _ t' | CInline t' _ _ => ack t' <> ack t | _ => True end
}.

Lemma stuck_client t s s' c x :
  stuck t s -> c <> 0 -> workers s' = workers s -> clients s' = upd (clients s) c x -> acks s' !! ack t = None ->
  next_ack s <= next_ack s' -> next_w s' = next_w s ->
  match x with CHave _ t' | CInline t' _ _ => ack t' <> ack t | _ => True end -> stuck t s'.
Proof.
  intros [S1 S2 S3 S4 S5 S6 S7 S8] Hc Hw Hcl Ha Hn Hnw Hx. split; rewrite ?Hw, ?Hcl, ?Hnw; auto; try lia.
  - by rewrite upd_other.
  - intros c'. unfold upd. case_decide; [done|apply S8].
Qed.

Lemma stuck_worker t s s' w x :
  stuck t s -> w <> 0 -> workers s' = upd (workers s) w x -> clients s' = clients s -> acks s' !! ack t = None ->
  next_ack s' = next_ack s -> next_w s' = next_w s ->
  (forall t', t' ∈ cur_task x ++ w_tasks x -> t' ∈ cur_task (workers s w) ++ w_tasks (workers s w)) -> stuck t s'.
Proof.
  intros [S1 S2 S3 S4 S5 S6 S7 S8] Hw0 Hw Hcl Ha Hn Hnw Hx.
  split; rewrite ?Hw, ?Hcl, ?Hnw, ?Hn; auto; try (by rewrite upd_other).
  intros v t' Hv. unfold upd. case_decide; [subst v|by apply S7]. intros Hin. apply (S7 w); auto.
Qed.

Lemma stuck_cur t s w t' did rest e : stuck t s -> w_cur (workers s w) = Some (t', did, rest, e) -> w <> 0 /\ ack t' <> ack t.
Proof.
  intros S Hc. assert (w <> 0) as Hw by (intros ->; by rewrite (sk_cur _ _ S) in Hc). split; [done|].
  apply (sk_workers _ _ S w); [done|]. apply elem_of_app. left. unfold cur_task. rewrite Hc. by apply list_elem_of_singleton.
Qed.

Lemma stuck_ensure t g s : stuck t s -> stuck t (ensureCommitWorker g s).2.
Proof.
  intros S. unfold ensureCommitWorker. destruct (table s !! g); [done|]. destruct S as [S1 S2 S3 S4 S5 S6 S7 S8].
  split; simpl; rewrite ?upd_other by lia; auto; try lia.
  intros w t' Hw. unfold upd. case_decide; [|by apply S7]. simpl. intros Hin. by apply not_elem_of_nil in Hin.
Qed.

Lemma stuck_send t s s' c : stuck t s -> dexec s (ESend c) = Some s' -> stuck t s'.
Proof.
  intros S. simpl. pose proof (sk_clients _ _ S c) as Hc. destruct (clients s c) as [|w t'| | |] eqn:Ec; try done.
  assert (c <> 0) as Hc0 by (intros ->; by rewrite (sk_wait _ _ S) in Ec). case_match eqn:El.
  - intros [= <-]. eapply (stuck_client t (set_worker s w _)); try done; [|by apply S].
    destruct S as [S1 S2 S3 S4 S5 S6 S7 S8]. split; simpl; auto.
    + unfold upd. by case_decide; subst.
    + unfold upd. by case_decide; subst.
    + intros v t1 Hv. unfold upd. case_decide; [subst v|by apply S7]. unfold cur_task. simpl.
      rewrite app_assoc, elem_of_app, list_elem_of_singleton. intros [Hin| ->]; [by apply (S7 w)|done].
  - destruct (claimOrAllocateSeq _ _) as [n b]. intros [= <-].
    eapply (stuck_client t s); try done; [apply S|simpl; lia|simpl]. pose proof (sk_old _ _ S). lia.
Qed.

Lemma stuck_inline t s s' c e : stuck t s -> dexec s (EInline c e) = Some s' -> stuck t s'.
Proof.
  intros S. simpl. pose proof (sk_clients _ _ S c) as Hc. destruct (clients s c) as [| |t' did rest| |] eqn:Ec; try done.
  assert (c <> 0) as Hc0 by (intros ->; by rewrite (sk_wait _ _ S) in Ec).
  assert (forall e', stuck t (set_client (finish_ack (log_inline s (t', did, e')) t' e') c (CWait t'))) as Hf.
  { intros e'. eapply (stuck_client t s); try done; simpl; try lia. rewrite lookup_insert_ne by done. apply S. }
  destruct rest as [|o rest]; [by intros [= <-]|]. destruct e as [e|]; intros [= <-]; [done|].
  eapply (stuck_client t s); try done; simpl; try lia. apply S.
Qed.

Lemma stuck_step t s s' : stuck t s -> dstep s s' -> stuck t s'.
Proof.
  intros S [e He]. destruct e as [c g os|c|c e|c|w|w e|w|w]; eauto using stuck_send, stuck_inline; simpl in He.
  - destruct (clients s c) eqn:Ec; try done.
    assert (c <> 0) as Hc0 by (intros ->; by rewrite (sk_wait _ _ S) in Ec).
    pose proof (stuck_ensure t g s S) as S1. destruct (ensureCommitWorker g s) as [w s1]. simpl in S1.
    destruct (claimOrAllocateSeq g (book_ s1)) as [n b]. injection He as <-.
    eapply (stuck_client t s1); try done; [apply S1|simpl; lia|simpl]. pose proof (sk_old _ _ S1). lia.
  - destruct (clients s c) as [| | |t'|] eqn:Ec; try done. destruct (acks s !! ack t') eqn:Ea; [|done]. injection He as <-.
    assert (c <> 0) as Hc0 by (intros ->; rewrite (sk_wait _ _ S) in Ec; injection Ec as ->; by rewrite (sk_ack _ _ S) in Ea).
    eapply (stuck_client t s); try done; simpl; try lia. apply lookup_delete_None. right. apply S.
  - destruct (w_alive (workers s w)) eqn:Ea; [|done].
    assert (w <> 0) as Hw by (intros ->; by rewrite (sk_dead _ _ S) in Ea).
    destruct (w_cur (workers s w)) eqn:Ec; [done|]. destruct (w_tasks (workers s w)) as [|t1 ts] eqn:Et; [done|]. injection He as <-.
    eapply (stuck_worker t s _ w); try done; [apply S|]. simpl. rewrite Et. intros t' Hin. apply elem_of_app. by right.
  - destruct (w_cur (workers s w)) as [[[[t' did] [|o rest]] [e0|]]|] eqn:Ec; try done.
    destruct (stuck_cur _ _ _ _ _ _ _ S Ec) as [Hw _].
    destruct e as [e|]; injection He as <-; (eapply (stuck_worker t s _ w); try done; [apply S|]);
      unfold cur_task; simpl; by rewrite Ec.
  - destruct (w_cur (workers s w)) as [[[[t' did] [|o rest]] e]|] eqn:Ec; try done.
    destruct (stuck_cur _ _ _ _ _ _ _ S Ec) as [Hw Hne]. injection He as <-.
    eapply (stuck_worker t s _ w); try done; simpl; [rewrite lookup_insert_ne by done; apply S|].
    intros t1 Hin. apply elem_of_app. by right.
  - destruct (w_alive (workers s w)) eqn:Ea; [|done].
    assert (w <> 0) as Hw by (intros ->; by rewrite (sk_dead _ _ S) in Ea).
    destruct (w_cur (workers s w)) eqn:Ec; [done|]. case_bool_decide; injection He as <-; [|done].
    eapply (stuck_worker t s _ w); try done; [apply S|]. simpl. intros t1 Hin. apply elem_of_app. by right.
Qed.

Lemma stuck_forever t s s' : stuck t s -> rtc dstep s s' -> stuck t s'.
Proof. intros S Hr. induction Hr as [|x y z Hxy _ IH]; [done|]. apply IH. by eapply stuck_step. Qed.

Definition one_op : commitOp := CommitOp 4096 [7].

(** The client found the worker, the worker's idle timer fired, the client sent. *)
Definition late_send : list devent := [EPrepare 0 5 [one_op]; EIdle 0; ESend 0].
Definition late_task : task := Task 0 5 [one_op] 1.
Definition late_state : disp := default disp_init (runs disp_init late_send).

Lemma late_runs : runs disp_init late_send = Some late_state.
Proof. apply default_some. vm_compute. reflexivity. Qed.

Lemma late_workers w : w <> 0 -> workers late_state w = blank.
Proof.
  intros Hw. assert (exists A B C, workers late_state = upd (upd (upd (fun _ => blank) 0 A) 0 B) 0 C) as (A & B & C & ->).
  { do 3 eexists. lazy [late_state late_send runs]. reflexivity. }
  by rewrite !upd_other.
Qed.
Lemma late_clients c : c <> 0 -> clients late_state c = CIdle.
Proof.
  intros Hc. assert (exists A B, clients late_state = upd (upd (fun _ => CIdle) 0 A) 0 B) as (A & B & ->).
  { do 2 eexists. lazy [late_state late_send runs]. reflexivity. }
  by rewrite !upd_other.
Qed.

Lemma late_stuck : stuck late_task late_state.
Proof.
  split; try (vm_compute; reflexivity).
  - intros w t' Hw. rewrite late_workers by done. intros Hin. by apply not_elem_of_nil in Hin.
  - intros c. destruct (decide (c = 0)) as [->|Hc]; [vm_compute; exact I|]. by rewrite late_clients.
Qed.

(** C36: The dispatcher can lose a batch.  A worker that has been idle removes itself
    from the table and stops; a client that looked the worker up just before still
    sends to its channel, which nobody reads any more.  From that state on, in
    every continuation, the client waits. *)
Theorem dispatch_loses_task :
  exists s, runs disp_init [EPrepare 0 5 [one_op]; EIdle 0; ESend 0] = Some s /\
    forall s', rtc dstep s s' -> clients s' 0 = CWait (Task 0 5 [one_op] 1) /\ acks s' !! 0 = None.
Proof.
  exists late_state. split; [exact late_runs|]. intros s' Hr.
  pose proof (stuck_forever _ _ _ late_stuck Hr) as S. split; [exact (sk_wait _ _ S)|exact (sk_ack _ _ S)].
Qed.

(** Two clients, one worker; the second batch fails at its second write. *)
Definition two_clients : list devent :=
  [EPrepare 0 5 [one_op]; EPrepare 1 5 [one_op; one_op]; ESend 1; ESend 0; ETake 0; EWrite 0 None;
   EWrite 0 (Some EOF); EAck 0; ETake 0; ERecv 1; EWrite 0 None; EAck 0; ERecv 0].
Definition two_state : disp := default disp_init (runs disp_init two_clients).

Lemma dispatch_correct_witness :
  clients two_state 0 = CDone (Task 0 5 [one_op] 1) None /\ exists x, made_by x [one_op] two_state.
Proof.
  assert (dreachable two_state) as Hr by (apply (runs_rtc _ two_clients); apply default_some; vm_compute; reflexivity).
  assert (clients two_state 0 = CDone (Task 0 5 [one_op] 1) None) as Hc by (vm_compute; reflexivity).
  split; [exact Hc|].
  destruct (proj2 (dispatch_correct two_state Hr) 0 _ _ Hc) as (x & did & rest & Ho & Hn & Hb).
  rewrite (Hn eq_refl), app_nil_r in Ho. simpl in Ho. subst did. exists x. exact Hb.
Defined.

Lemma worker_drains_witness :
  let s := default disp_init (runs disp_init (firstn 5 two_clients)) in
  exists evs s', Forall (own 0) evs /\ runs s evs = Some s' /\ w_tasks (workers s' 0) = [] /\ is_Some (acks s' !! 0).
Proof.
  set (s := default disp_init (runs disp_init (firstn 5 two_clients))).
  assert (dreachable s) as Hr by (apply (runs_rtc _ (firstn 5 two_clients)); apply default_some; vm_compute; reflexivity).
  destruct (worker_drains s 0 Hr ltac:(vm_compute; reflexivity)) as (evs & s' & Ho & He & _ & Ht & Ha).
  exists evs, s'. split; [exact Ho|]. split; [exact He|]. split; [exact Ht|].
  apply (Ha (Task 0 5 [one_op] 1)). vm_compute. right. left.
Defined.
