(* ===== verification/Format.v ===== *)
(** Making a file system ([src/format.go]).

    [Format] works on the file it has just created and cut to length zero; the
    device of the model is that file.  The time and the random bytes of the UUID
    are arguments.  That what it writes is a consistent file system is in
    [FormatSpec]. *)

From S2P Require Import Prelude Bytes Crc Device Superblock Bgd Bitmap GoLib Extent Limits Inode Inline FileRead BlockMap Dir Alloc Journal Namespace Fs.

Definition fmtBlockSize : Z := 4096.
Definition fmtLogBlockSize : Z := 2.
Definition fmtInodeSize : Z := 256.
Definition fmtInodesPerGroup : Z := 256.
Definition fmtBlocksPerGroup : Z := 32768.
Definition fmtDescSize : Z := 32.
Definition fmtReservedInodes : Z := 10.
Definition fmtInodeTableBlocks : Z := fmtInodesPerGroup * fmtInodeSize / fmtBlockSize.
Definition minBlocks : Z := fmtInodeTableBlocks + 5.

Record FormatConfig := MkFormatConfig { cfg_UUID : list Z; cfg_Label : list Z }.

(** * Layout *)

(** The quantities [Format] computes from the number of blocks, on [uint32]. *)
Definition nGroups (totalBlocks : Z) : Z := w32 (w32 (totalBlocks + fmtBlocksPerGroup) - 1) / fmtBlocksPerGroup.
Definition bgdtBlocks (totalBlocks : Z) : Z :=
  w32 (w32 (nGroups totalBlocks * fmtDescSize + fmtBlockSize) - 1) / fmtBlockSize.

Section layout.
Context (totalBlocks : Z).

Definition groupSuperBlocks (g : Z) : res Z :=
  match groupIsSparseBackup 32 g with
  | None => Err OutOfFuel
  | Some sparse => Ok (if sparse : bool then w32 (1 + bgdtBlocks totalBlocks) else 0)
  end.

Definition groupMetaBlocks (g : Z) : res Z :=
  let! s := groupSuperBlocks g in
  let m := w32 (s + 2 + fmtInodeTableBlocks) in
  Ok (if g =? 0 then w32 (m + 1) else m).

(** The blocks of a group: the last one may be short. *)
Definition groupBlocks (g : Z) : Z :=
  if g =? w32 (nGroups totalBlocks - 1) then w32 (totalBlocks - w32 (g * fmtBlocksPerGroup)) else fmtBlocksPerGroup.

Definition g0BitmapBlock : Z := w32 (1 + bgdtBlocks totalBlocks).
Definition g0InodeTable : Z := w32 (g0BitmapBlock + 2).
Definition g0RootDirDataBlock : Z := w32 (g0InodeTable + fmtInodeTableBlocks).

Definition totalInodes : Z := w32 (fmtInodesPerGroup * nGroups totalBlocks).
Definition totalFreeInodes : Z := w32 (totalInodes - fmtReservedInodes).

Fixpoint totalFreeBlocks (n : nat) (g acc : Z) : res Z :=
  match n with
  | O => Ok acc
  | S n' =>
      let! meta := groupMetaBlocks g in
      totalFreeBlocks n' (g + 1) (if meta <? groupBlocks g then w64 (acc + w32 (groupBlocks g - meta)) else acc)
  end.

(** * The structures *)

Definition format_super (now free : Z) (uuid label : list Z) : list Z :=
  let raw := zeros 1024 in
  let raw := set32 raw 0 totalInodes in
  let raw := set32 raw 4 (Z.land totalBlocks 0xFFFFFFFF) in
  let raw := set32 raw 12 (Z.land free 0xFFFFFFFF) in
  let raw := set32 raw 16 totalFreeInodes in
  let raw := set32 raw 24 fmtLogBlockSize in
  let raw := set32 raw 28 fmtLogBlockSize in
  let raw := set32 raw 32 fmtBlocksPerGroup in
  let raw := set32 raw 36 fmtBlocksPerGroup in
  let raw := set32 raw 40 fmtInodesPerGroup in
  let raw := set32 raw 44 now in
  let raw := set32 raw 48 now in
  let raw := set16 raw 54 20 in
  let raw := set16 raw 56 0xEF53 in
  let raw := set16 raw 58 1 in
  let raw := set16 raw 60 1 in
  let raw := set32 raw 64 now in
  let raw := set32 raw 76 1 in
  let raw := set32 raw 84 11 in
  let raw := set16 raw 88 fmtInodeSize in
  let raw := set32 raw 96 (Z.lor FeatIncompatFiletype FeatIncompatExtents) in
  let raw := set32 raw 100 FeatROCompatSparseSuper in
  let raw := zsplice raw 104 uuid in
  let raw := zsplice raw 120 (zslice label 0 (Z.min 16 (zlen label))) in
  set16 raw 0xFE fmtDescSize.

(** The descriptor of a group. *)
Definition format_desc (g : Z) : res (list Z) :=
  let! s := groupSuperBlocks g in
  let! meta := groupMetaBlocks g in
  let metaStart := g * fmtBlocksPerGroup + s in
  let freeBlocks := if meta <=? groupBlocks g then w16 (groupBlocks g - meta) else 0 in
  let d := zeros fmtDescSize in
  let d := set32 d 0 (w32 metaStart) in
  let d := set32 d 4 (w32 (metaStart + 1)) in
  let d := set32 d 8 (w32 (metaStart + 2)) in
  let d := set16 d 12 freeBlocks in
  let d := set16 d 14 (if g =? 0 then fmtInodesPerGroup - fmtReservedInodes else fmtInodesPerGroup) in
  Ok (set16 d 16 (if g =? 0 then 1 else 0)).

Fixpoint format_table (n : nat) (g : Z) : res (list Z) :=
  match n with
  | O => Ok []
  | S n' => let! d := format_desc g in let! t := format_table n' (g + 1) in Ok (d ++ t)
  end.

(** The bitmaps: what is in use, and everything that stands for nothing. *)
Definition format_bmap (g : Z) : res (list Z) :=
  let! meta := groupMetaBlocks g in
  let! bmap := setBits (zeros fmtBlockSize) (seqZ 0 meta) in
  setBits bmap (seqZ (groupBlocks g) (fmtBlockSize * 8 - groupBlocks g)).
Definition format_imap (g : Z) : res (list Z) :=
  let! imap := setBits (zeros fmtBlockSize) (if g =? 0 then seqZ 0 fmtReservedInodes else []) in
  setBits imap (seqZ fmtInodesPerGroup (fmtBlockSize * 8 - fmtInodesPerGroup)).

Definition root_inode (now : Z) : list Z :=
  let raw := zeros fmtInodeSize in
  let raw := set16 raw 0 0x41ED in
  let raw := set16 raw inodeOffLinksCount 2 in
  let raw := set32 raw 4 fmtBlockSize in
  let raw := set32 raw 28 (fmtBlockSize / 512) in
  let raw := set32 raw 8 now in
  let raw := set32 raw 12 now in
  let raw := set32 raw 16 now in
  let raw := set32 raw inodeOffFlags InodeFlagExtents in
  let raw := set16 raw inodeOffBlock ExtentMagic in
  let raw := set16 raw (inodeOffBlock + 2) 1 in
  let raw := set16 raw (inodeOffBlock + 4) 4 in
  let raw := set16 raw (inodeOffBlock + 16) 1 in
  set32 raw (inodeOffBlock + 20) g0RootDirDataBlock.

End layout.

Definition root_block : list Z :=
  let buf := zeros fmtBlockSize in
  let buf := set32 buf 0 RootIno in
  let buf := set16 buf 4 12 in
  let buf := zsplice buf 6 [1; FtDir; 46] in
  let buf := set32 buf 12 RootIno in
  let buf := set16 buf 16 (fmtBlockSize - 12) in
  zsplice buf 18 [2; FtDir; 46; 46].

(** A version 4 UUID from 16 random bytes. *)
Definition random_uuid (r : list Z) : list Z :=
  let u := zsplice r 6 [Z.lor (Z.land (u8 r 6) 0x0F) 0x40] in
  zsplice u 8 [Z.lor (Z.land (u8 u 8) 0x3F) 0x80].

(** * The writes *)

Section format.
Context {D : Type} `{BlockDev D}.

(** [formatWriteAt]: without a superblock [writeAtWithTrace] only writes. *)
Definition formatWriteAt (off : Z) (data : list Z) : M D unit := write_at off data.

Definition format_group (totalBlocks : Z) (raw bgdt : list Z) (g : Z) : M D unit :=
  let start := g * fmtBlocksPerGroup in
  do! s := mlift (groupSuperBlocks totalBlocks g) in
  do! _ := (if (0 <? g) && (0 <? s) then
      do! _ := mwrap "ext4: format: write backup superblock"
                 (formatWriteAt (start * fmtBlockSize) (set16 raw 90 (w16 g))) in
      mwrap "ext4: format: write backup GDT" (formatWriteAt ((start + 1) * fmtBlockSize) bgdt)
    else ret tt) in
  do! bmap := mlift (format_bmap totalBlocks g) in
  do! _ := mwrap "ext4: format: write block bitmap" (formatWriteAt ((start + s) * fmtBlockSize) bmap) in
  do! imap := mlift (format_imap g) in
  mwrap "ext4: format: write inode bitmap" (formatWriteAt ((start + s + 1) * fmtBlockSize) imap).

Fixpoint format_groups (totalBlocks : Z) (raw bgdt : list Z) (n : nat) (g : Z) : M D unit :=
  match n with
  | O => ret tt
  | S n' => do! _ := format_group totalBlocks raw bgdt g in format_groups totalBlocks raw bgdt n' (g + 1)
  end.

Definition truncate_file (n : Z) : M D unit := fun d =>
  match dev_Truncate d n with
  | (None, d') => (Ok tt, d')
  | (Some e, d') => (Err e, d')
  end.

(** [Format] up to the close of the file. *)
Definition format_image (sizeBytes : Z) (cfg : FormatConfig) (rand : res (list Z)) (now : Z) : M D unit :=
  if negb (Z.rem sizeBytes fmtBlockSize =? 0) then mfail (Errorf "ext4: format: size is not a multiple") else
  if sizeBytes <? minBlocks * fmtBlockSize then mfail (Errorf "ext4: format: size too small") else
  let totalBlocks64 := sizeBytes / fmtBlockSize in
  if 2 ^ 32 - 1 <? totalBlocks64 then mfail (Errorf "ext4: format: size too large") else
  do! _ := mwrap "ext4: format: truncate" (truncate_file sizeBytes) in
  do! uuid := (if bool_decide (cfg_UUID cfg = zeros 16)
               then mwrap "ext4: format: generate UUID" (mlift (let! r := rand in Ok (random_uuid r)))
               else ret (cfg_UUID cfg)) in
  let totalBlocks := w32 totalBlocks64 in
  let n := Z.to_nat (nGroups totalBlocks) in
  do! free := mlift (totalFreeBlocks totalBlocks n 0 0) in
  let raw := format_super totalBlocks now free uuid (cfg_Label cfg) in
  do! _ := mwrap "ext4: format: write superblock" (formatWriteAt 1024 raw) in
  do! bgdt := mlift (format_table totalBlocks n 0) in
  do! _ := mwrap "ext4: format: write BGDT" (formatWriteAt fmtBlockSize bgdt) in
  do! _ := format_groups totalBlocks raw bgdt n 0 in
  do! _ := mwrap "ext4: format: write root inode"
             (formatWriteAt (g0InodeTable totalBlocks * fmtBlockSize + 1 * fmtInodeSize) (root_inode totalBlocks now)) in
  mwrap "ext4: format: write root directory"
    (formatWriteAt (g0RootDirDataBlock totalBlocks * fmtBlockSize) root_block).

Context {F : Type} `{Sidecar F} `{Gpt D}.

(** [Format]: the image is made, then opened at the partition that is found, with
    the sidecar journal [js] that lies beside the path. *)
Definition Format (sizeBytes : Z) (cfg : FormatConfig) (rand : res (list Z)) (now : Z) (js : F) (d : D) :
    res (fsys D * Journal F) * D :=
  match format_image sizeBytes cfg rand now d with
  | (Ok _, d) =>
      match partitionOffset d (-1) (match dev_Size d with Ok n => n | _ => 0 end) with
      | Ok off =>
          match openFromDevice off d js with
          | (Err e, d) => (Err (ErrWrap "ext4: format: open formatted image" e), d)
          | r => r
          end
      | Err e => (Err (ErrWrap "ext4: format: open formatted image" e), d)
      | Panic => (Panic, d)
      end
  | (Err e, d) => (Err e, d)
  | (Panic, d) => (Panic, d)
  end.

End format.
