(* ===== verification/FormatSpec.v ===== *)
(** What [Format] writes ([src/format.go]) is a consistent file system: it opens,
    satisfies the invariant every operation relies on, passes the check, and its
    root directory is empty. *)

From S2P Require Import Prelude Bytes Crc Device Superblock Bgd Bitmap GoLib Extent Limits Inode Inline FileRead BlockMap Dir Alloc Image AllocSpec Journal JournalSpec Namespace NamespaceSpec Fsck FsInv Fs Format.

(** * Sequences of writes *)

Section writes.
Context {D : Type} `{BlockDevLaws D}.

Fixpoint do_writes (W : list (Z * list Z)) : M D unit :=
  match W with
  | [] => ret tt
  | (o, bs) :: W' => do! _ := write_at o bs in do_writes W'
  end.

Definition sepw (x y : Z * list Z) : Prop := sep x.1 (zlen x.2) y.1 (zlen y.2).

Fixpoint apart (W : list (Z * list Z)) : Prop :=
  match W with
  | [] => True
  | x :: W' => Forall (sepw x) W' /\ apart W'
  end.

Lemma apart_app W1 W2 :
  apart W1 -> apart W2 -> (forall x y, x ∈ W1 -> y ∈ W2 -> sepw x y) -> apart (W1 ++ W2).
Proof.
  induction W1 as [|x W1 IH]; [done|]. intros [Hx H1] H2 Hs. split.
  - apply Forall_app. split; [done|]. apply Forall_forall. intros y Hy. apply Hs; [by left|done].
  - apply IH; [done..|]. intros x' y Hx' Hy. apply Hs; [by right|done].
Qed.

(** Writes one behind the other between two offsets. *)
Fixpoint chain (lo : Z) (W : list (Z * list Z)) (hi : Z) : Prop :=
  match W with
  | [] => lo <= hi
  | x :: W' => lo <= x.1 /\ chain (x.1 + zlen x.2) W' hi
  end.

Lemma chain_in lo W hi x : chain lo W hi -> x ∈ W -> lo <= x.1 /\ x.1 + zlen x.2 <= hi.
Proof.
  revert lo. induction W as [|y W IH]; intros lo Hc Hx; [by apply not_elem_of_nil in Hx|].
  destruct Hc as [Hl Hc].
  assert (forall lo W, chain lo W hi -> lo <= hi) as Hle.
  { clear. intros lo W. revert lo. induction W as [|y W IH]; intros lo; [done|]. intros [? ?%IH].
    pose proof (zlen_nonneg y.2). lia. }
  apply elem_of_cons in Hx as [->|Hx]; [split; [done|by eapply Hle]|].
  apply (IH _ Hc) in Hx. pose proof (zlen_nonneg y.2). lia.
Qed.

Lemma chain_app lo W1 mid W2 hi : chain lo W1 mid -> chain mid W2 hi -> chain lo (W1 ++ W2) hi.
Proof.
  revert lo. induction W1 as [|x W1 IH]; intros lo H1 H2; [|destruct H1; split; auto].
  simpl in *. destruct W2 as [|y W2]; simpl in *; [lia|]. destruct H2. split; [lia|done].
Qed.

Lemma chain_apart lo W hi : chain lo W hi -> apart W.
Proof.
  revert lo. induction W as [|x W IH]; intros lo; [done|]. intros [Hl Hc]. split; [|by eapply IH].
  apply Forall_forall. intros y Hy. destruct (chain_in _ _ _ _ Hc Hy). left. lia.
Qed.

Lemma write_at_run (d : D) off bs r :
  dev_writable D -> 0 < zlen bs -> read_at d off (zlen bs) = Ok r -> exists d', write_at off bs d = (Ok tt, d').
Proof.
  intros Hw Hz Hr. unfold write_at. specialize (Hw d off bs Hz). unfold read_at in Hr.
  destruct (dev_ReadAt d off (zlen bs)) as [l [e|]]; [done|]. specialize (Hw eq_refl).
  destruct (dev_WriteAt d off bs) as [[e|] d']; [done|]. eauto.
Qed.

(** Separate writes all take effect, and nothing else changes. *)
Lemma do_writes_run W (d : D) :
  dev_writable D -> apart W -> Forall (fun x => bytes_ok x.2 /\ 0 < zlen x.2 /\ exists r, read_at d x.1 (zlen x.2) = Ok r) W ->
  exists d', do_writes W d = (Ok tt, d') /\
    (forall x, x ∈ W -> read_at d' x.1 (zlen x.2) = Ok x.2) /\
    (forall o n r, Forall (fun x => sep o n x.1 (zlen x.2)) W -> read_at d o n = Ok r -> read_at d' o n = Ok r) /\
    (forall o n r, read_at d o n = Ok r -> exists r', read_at d' o n = Ok r').
Proof.
  intros Hw. revert d. induction W as [|[o bs] W IH]; intros d Ha Hf.
  { exists d. split_and!; eauto. intros x Hx. by apply not_elem_of_nil in Hx. }
  destruct Ha as [Hs Ha]. apply Forall_cons in Hf as [(Hb & Hz & r & Hr) Hf]. simpl in *.
  destruct (write_at_run d o bs r Hw Hz Hr) as [d1 H1].
  destruct (IH d1 Ha) as (d' & Hd' & Hin & Hk & Hrd).
  { eapply Forall_impl; [exact Hf|]. intros x (? & ? & r' & Hr'). split; [done|]. split; [done|].
    by eapply write_at_readable. }
  exists d'. split; [unfold mbnd; by rewrite H1|]. split_and!.
  - intros x Hx. apply elem_of_cons in Hx as [->|Hx]; [|by apply Hin]. simpl.
    apply Hk; [|by eapply write_read_same]. eapply Forall_impl; [exact Hs|]. intros y Hy. exact Hy.
  - intros o' n r' Hsep Hr'. apply Forall_cons in Hsep as [Hs1 Hs2]. apply Hk; [done|].
    eapply write_read_ne; [exact H1|done|exact Hr'|]. exact Hs1.
  - intros o' n r' Hr'. destruct (write_at_readable _ _ _ _ _ _ _ H1 Hr') as [r2 Hr2]. by eapply Hrd.
Qed.

(** What is known of a range is known of its parts. *)
Lemma read_sub (d : D) o n bs a m r :
  read_at d o n = Ok bs -> 0 <= a -> 0 <= m -> a + m <= n -> read_at d (o + a) m = Ok r -> r = zslice bs a m.
Proof.
  intros Hr Ha Hm Hn Hr'. apply read_at_Ok in Hr as ->. apply read_at_Ok in Hr' as ->. by rewrite zslice_bytes_of by lia.
Qed.

End writes.

(** * The layout *)

Ltac fmt := unfold fmtBlockSize, fmtLogBlockSize, fmtInodeSize, fmtInodesPerGroup, fmtBlocksPerGroup, fmtDescSize,
  fmtReservedInodes in *; change (fmtInodeTableBlocks) with 16 in *.

(** A block count [Format] can lay out: the groups can be counted, and the last
    one has room for its metadata. *)
Definition sup (nb g : Z) : Z :=
  match groupIsSparseBackup 32 g with Some true => 1 + bgdtBlocks nb | _ => 0 end.
Definition head_blocks (nb g : Z) : Z := sup nb g + 18 + (if g =? 0 then 1 else 0).

Definition formattable (nb : Z) : Prop :=
  minBlocks <= nb /\ nb + fmtBlocksPerGroup <= 2 ^ 32 /\
  head_blocks nb (nGroups nb - 1) <= nb - (nGroups nb - 1) * fmtBlocksPerGroup.

Section layout.
Context (nb : Z) (Hfmt : formattable nb).

Lemma fmt_groups : 1 <= nGroups nb < 2 ^ 17 /\ (nGroups nb - 1) * 32768 < nb <= nGroups nb * 32768.
Proof.
  destruct Hfmt as (H1 & H2 & _). unfold nGroups, minBlocks in *. fmt.
  destruct (decide (nb + 32768 = 2 ^ 32)) as [E|E].
  { replace nb with (2 ^ 32 - 32768) by lia. split; vm_compute; split; congruence. }
  rewrite (w32_small (nb + 32768)), w32_small by lia. dlia.
Qed.

Lemma fmt_table : 1 <= bgdtBlocks nb <= 1024 /\ nGroups nb * 32 <= bgdtBlocks nb * 4096.
Proof.
  pose proof fmt_groups. unfold bgdtBlocks. fmt. rewrite (w32_small (_ * 32 + 4096)), w32_small by lia. dlia.
Qed.

Lemma sup_range g : 0 <= sup nb g <= 1025.
Proof. pose proof fmt_table. unfold sup. destruct (groupIsSparseBackup 32 g) as [[]|]; lia. Qed.

Lemma sup_0 : sup nb 0 = 1 + bgdtBlocks nb.
Proof. done. Qed.

Lemma super_run g : 0 <= g < nGroups nb -> groupSuperBlocks nb g = Ok (sup nb g).
Proof.
  intros Hg. pose proof fmt_groups. pose proof fmt_table. unfold groupSuperBlocks, sup.
  destruct (groupIsSparseBackup_spec g) as (r & -> & _); [lia|]. destruct r; [|done]. by rewrite w32_small by lia.
Qed.

Lemma meta_run g : 0 <= g < nGroups nb -> groupMetaBlocks nb g = Ok (head_blocks nb g).
Proof.
  intros Hg. pose proof (sup_range g). unfold groupMetaBlocks, head_blocks. rewrite super_run by done. cbn [rbind]. fmt.
  rewrite (w32_small (_ + 16)) by lia. destruct (g =? 0); rewrite ?w32_small by lia; f_equal; lia.
Qed.

Lemma head_range g : sup nb g + 18 <= head_blocks nb g <= sup nb g + 19.
Proof. unfold head_blocks. destruct (g =? 0); lia. Qed.

Lemma blocks_run g : 0 <= g < nGroups nb ->
  head_blocks nb g <= groupBlocks nb g <= 32768 /\ g * 32768 + groupBlocks nb g <= nb /\
  (g < nGroups nb - 1 -> groupBlocks nb g = 32768).
Proof.
  intros Hg. pose proof fmt_groups as [[G1 G2] G3]. pose proof (sup_range g). pose proof (head_range g).
  destruct Hfmt as (_ & H2 & H3). unfold groupBlocks in *. fmt. rewrite (w32_small (_ - 1)) by lia.
  destruct (decide (g = nGroups nb - 1)) as [->|Hne].
  - rewrite Z.eqb_refl, (w32_small (_ * _)), w32_small by lia. lia.
  - rewrite eqb_false by lia. lia.
Qed.

Lemma g0_run : g0BitmapBlock nb = 1 + bgdtBlocks nb /\ g0InodeTable nb = 3 + bgdtBlocks nb /\
  g0RootDirDataBlock nb = 19 + bgdtBlocks nb.
Proof.
  pose proof fmt_table. unfold g0RootDirDataBlock, g0InodeTable, g0BitmapBlock. fmt. rewrite !w32_small by lia. lia.
Qed.

(** The free blocks of the groups from [g] on. *)
Fixpoint free_sum (n : nat) (g : Z) : Z :=
  match n with O => 0 | S n' => (groupBlocks nb g - head_blocks nb g) + free_sum n' (g + 1) end.

Lemma free_sum_range n g : 0 <= g -> g + Z.of_nat n <= nGroups nb -> 0 <= free_sum n g <= 32768 * Z.of_nat n.
Proof.
  revert g. induction n as [|n IH]; intros g Hg Hn; cbn [free_sum]; [lia|].
  specialize (IH (g + 1) ltac:(lia) ltac:(lia)). pose proof (blocks_run g ltac:(lia)).
  pose proof (sup_range g). pose proof (head_range g). lia.
Qed.

Lemma total_run n g acc : 0 <= g -> g + Z.of_nat n <= nGroups nb -> 0 <= acc <= 2 ^ 40 ->
  totalFreeBlocks nb n g acc = Ok (acc + free_sum n g).
Proof.
  pose proof fmt_groups as [[G1 G2] _].
  assert (forall n g acc, 0 <= g -> g + Z.of_nat n <= nGroups nb -> 0 <= acc <= 2 ^ 40 + 32768 * g ->
    totalFreeBlocks nb n g acc = Ok (acc + free_sum n g)) as Hgen; [|intros; apply Hgen; lia].
  clear n g acc. induction n as [|n IH]; intros g acc Hg Hn Ha; cbn [totalFreeBlocks free_sum]; [f_equal; lia|].
  rewrite meta_run by lia. cbn [rbind]. pose proof (blocks_run g ltac:(lia)) as (B & _ & _).
  pose proof (sup_range g). pose proof (head_range g).
  destruct (_ <? _) eqn:E; zbool.
  - rewrite (w32_small (_ - _)), w64_small by lia. rewrite IH by lia. f_equal. lia.
  - rewrite IH by lia. f_equal. lia.
Qed.

End layout.

(** * The structures *)

(** The superblock [Format] describes. *)
Definition fmt_sb (nb free : Z) (raw uuid : list Z) : superblock :=
  Superblock raw (256 * nGroups nb) nb free (256 * nGroups nb - 10) 0 4096 32768 256 0xEF53
    0x42 1 uuid (decodeNullPadded (zslice raw 120 16)) 256 32 0 0 0 0 0.

Section structures.
Context (nb : Z) (Hfmt : formattable nb).

Lemma label_short (label : list Z) : zlen (zslice label 0 (Z.min 16 (zlen label))) <= 16.
Proof.
  pose proof (zlen_nonneg label). pose proof (zlen_zslice_le label 0 (Z.min 16 (zlen label)) ltac:(lia)). lia.
Qed.

Lemma super_zlen now free uuid label : zlen (format_super nb now free uuid label) = 1024.
Proof. unfold format_super. zl. Qed.

Lemma super_bytes now free uuid label :
  bytes_ok uuid -> bytes_ok label -> bytes_ok (format_super nb now free uuid label).
Proof. intros. unfold format_super. auto 60 with bytes. Qed.

Lemma super_fields now free uuid label :
  zlen uuid = 16 -> 0 <= free < 2 ^ 32 ->
  let raw := format_super nb now free uuid label in
  (u16 raw 56 = 0xEF53 /\ u32 raw 0 = 256 * nGroups nb /\ u32 raw 4 = nb /\ u32 raw 0x150 = 0 /\ u32 raw 12 = free) /\
  (u32 raw 0x158 = 0 /\ u32 raw 16 = 256 * nGroups nb - 10 /\ u32 raw 20 = 0 /\ u32 raw 24 = 2 /\ u32 raw 32 = 32768) /\
  (u32 raw 40 = 256 /\ u32 raw 96 = 0x42 /\ u32 raw 100 = 1 /\ zslice raw 104 16 = uuid /\ u16 raw 88 = 256) /\
  u16 raw 0xFE = 32 /\ u8 raw 0x174 = 0 /\ u8 raw 0x175 = 0 /\ u32 raw 0x270 = 0.
Proof.
  intros Hu Hf raw. pose proof (label_short label) as Hl. pose proof (fmt_groups nb Hfmt) as [[G1 G2] _].
  destruct Hfmt as (F1 & F2 & _). unfold minBlocks in F1. fmt.
  assert (totalInodes nb = 256 * nGroups nb) as Ht by (unfold totalInodes; fmt; rewrite w32_small; lia).
  assert (totalFreeInodes nb = 256 * nGroups nb - 10) as Ht' by (unfold totalFreeInodes; fmt; rewrite Ht, w32_small; lia).
  unfold raw, format_super. fmt. rewrite Ht, Ht'. change 4294967295 with (Z.ones 32). rewrite !Z.land_ones by lia.
  split_and!; bytes; change (256 ^ Z.of_nat 2) with 65536; change (256 ^ Z.of_nat 4) with (2 ^ 32);
    rewrite ?Z.mod_mod, ?Z.mod_small by lia; try reflexivity.
  rewrite <- Hu. apply zslice_zsplice_same; zl.
Qed.

Lemma super_label now free uuid label : zlen uuid = 16 ->
  zslice (format_super nb now free uuid label) 120 16 =
    zslice label 0 (Z.min 16 (zlen label)) ++ zeros (16 - zlen (zslice label 0 (Z.min 16 (zlen label)))).
Proof.
  intros Hu. unfold format_super. cbv zeta. pose proof (label_short label) as Hl.
  pose proof (zlen_nonneg (zslice label 0 (Z.min 16 (zlen label)))). set (l := zslice label 0 (Z.min 16 (zlen label))) in *. clearbody l.
  rewrite zslice_setN_ne by zl.
  match goal with |- zslice (zsplice ?x 120 l) _ _ = _ => assert (zlen x = 1024) as Hx by zl; assert (zslice x 120 16 = zeros 16) as Hz end.
  { bytes. apply zslice_zeros; lia. }
  match goal with |- zslice (zsplice ?x 120 l) _ _ = _ => revert Hx Hz; generalize x; intros y Hx Hz end.
  replace 16 with (zlen l + (16 - zlen l)) at 1 by lia. rewrite zslice_app by lia.
  rewrite zslice_zsplice_same by lia. rewrite zslice_zsplice_ne by lia. f_equal.
  rewrite <- (zslice_zslice y 120 16) by lia. rewrite Hz. apply zslice_zeros; lia.
Qed.

Lemma super_decode now free uuid label :
  zlen uuid = 16 -> 0 <= free < 2 ^ 32 ->
  decodeSuperblock (format_super nb now free uuid label) = Ok (fmt_sb nb free (format_super nb now free uuid label) uuid).
Proof.
  intros Hu Hf. pose proof (super_zlen now free uuid label) as Hz.
  destruct (super_fields now free uuid label Hu Hf) as ((A1 & A2 & A3 & A4 & A5) & (B1 & B2 & B3 & B4 & B5) &
    (C1 & C2 & C3 & C4 & C5) & D1 & D2 & D3 & D4).
  set (raw := format_super nb now free uuid label) in *. clearbody raw. unfold decodeSuperblock, check_geometry, check_inode_size.
  bytes. rewrite A1, A2, A3, A4, A5, B1, B2, B3, B4, B5, C1, C2, C3. cbn. bytes.
  change (120 - 104) with 16. rewrite C4, C5, D1, D2, D3, D4. cbn. unfold fmt_sb. rewrite ?Z.lor_0_l. done.
Qed.


(** ** Descriptors *)

(** The descriptor of group [g]. *)
Definition fmt_bgd (g : Z) (raw : list Z) : bgd :=
  let start := g * 32768 + sup nb g in
  Bgd raw start (start + 1) (start + 2) (groupBlocks nb g - head_blocks nb g)
    (if g =? 0 then 246 else 256) (if g =? 0 then 1 else 0) 0.

Lemma desc_run g : 0 <= g < nGroups nb ->
  exists raw, format_desc nb g = Ok raw /\ zlen raw = 32 /\ bytes_ok raw /\
    forall sb, wide sb = false -> decodeBGD raw sb = Ok (fmt_bgd g raw).
Proof.
  intros Hg. pose proof (fmt_groups nb Hfmt) as [[G1 G2] G3]. pose proof (sup_range nb Hfmt g).
  pose proof (blocks_run nb Hfmt g Hg) as (B1 & B2 & _). pose proof (head_range nb g). destruct Hfmt as (_ & F2 & _). fmt.
  unfold format_desc. rewrite super_run, meta_run by done. cbn [rbind]. fmt. rewrite leb_true by lia.
  rewrite !(w32_small (_ + _)), w16_small by lia. eexists. split; [reflexivity|]. split; [zl|].
  split; [auto 12 with bytes|]. intros sb Hw. unfold decodeBGD. bytes. rewrite Hw. unfold fmt_bgd.
  change (256 ^ Z.of_nat 2) with 65536. change (256 ^ Z.of_nat 4) with (2 ^ 32).
  rewrite ?Z.mod_mod, ?Z.mod_small by (destruct (g =? 0); lia). destruct (g =? 0); reflexivity.
Qed.

Definition okv {A} (a : A) (r : res A) : A := match r with Ok x => x | _ => a end.

Definition desc_raw (g : Z) : list Z := okv [] (format_desc nb g).

Lemma table_run n g : 0 <= g -> g + Z.of_nat n <= nGroups nb ->
  exists t, format_table nb n g = Ok t /\ zlen t = 32 * Z.of_nat n /\ bytes_ok t /\
    forall i, g <= i < g + Z.of_nat n -> zslice t (32 * (i - g)) 32 = desc_raw i.
Proof.
  revert g. induction n as [|n IH]; intros g Hg Hn; cbn [format_table].
  { exists []. split_and!; [done|done|constructor|]. intros i Hi. lia. }
  destruct (desc_run g ltac:(lia)) as (raw & Hd & Hz & Hb & _).
  destruct (IH (g + 1) ltac:(lia) ltac:(lia)) as (t & Ht & Htz & Htb & Hs). rewrite Hd, Ht. cbn [rbind].
  exists (raw ++ t). split_and!; [done|zl|by apply Forall_app|]. intros i Hi.
  destruct (decide (i = g)) as [->|Hne].
  - replace (32 * (g - g)) with 0 by lia. unfold desc_raw. rewrite Hd. cbn. unfold zslice. rewrite drop_0.
    apply take_app_length'. unfold zlen in Hz. lia.
  - rewrite <- Hs by lia. unfold zslice. rewrite drop_app_ge by (unfold zlen in Hz; lia). do 2 f_equal. unfold zlen in Hz. lia.
Qed.

(** ** Bitmaps *)

Lemma filter_used_none (r : list Z) lo n :
  (forall j, lo <= j < lo + n -> used r j = true) -> filter (fun i => used r i = false) (seqZ lo n) = [].
Proof.
  intros Hu. rewrite (filter_ext_in (used r) (fun _ => true)).
  - induction (seqZ lo n) as [|x l IH]; [done|]. by rewrite filter_cons_False.
  - intros j Hj%elem_of_seqZ. by apply Hu.
Qed.

Lemma filter_used_all (r : list Z) lo n :
  (forall j, lo <= j < lo + n -> used r j = false) -> filter (fun i => used r i = false) (seqZ lo n) = seqZ lo n.
Proof.
  intros Hu. rewrite (filter_ext_in (used r) (fun _ => false)).
  - induction (seqZ lo n) as [|x l IH]; [done|]. rewrite filter_cons_True by done. by rewrite IH.
  - intros j Hj%elem_of_seqZ. by apply Hu.
Qed.

(** A map with everything in use outside [[a, b)]. *)
Lemma marked_map n m a b :
  0 <= n -> m = 8 * n -> 0 <= a <= b -> b <= m ->
  exists r, rbind (setBits (zeros n) (seqZ 0 a)) (fun bm => setBits bm (seqZ b (m - b))) = Ok r /\
    zlen r = n /\ bytes_ok r /\ (forall j, 0 <= j < m -> used r j = false <-> a <= j < b) /\
    forall k, b <= k <= m -> zlen (free_bits r k) = b - a.
Proof.
  intros Hn Hm Ha Hb. pose proof (zlen_zeros n Hn) as Hz.
  destruct (setBits_spec (zeros n) (seqZ 0 a) m) as (r & -> & Hl & Hr & Hu & _); [apply bytes_ok_zeros|lia|apply NoDup_seqZ| |].
  { intros i Hi%elem_of_seqZ. split; [apply used_zeros|lia]. }
  cbn [rbind]. destruct (setBits_spec r (seqZ b (m - b)) m) as (r' & -> & Hl' & Hr' & Hu' & _); [done|lia|apply NoDup_seqZ| |].
  { intros i Hi%elem_of_seqZ. split; [|lia]. rewrite Hu, used_zeros, orb_false_r by lia. apply bool_decide_eq_false.
    rewrite elem_of_seqZ. lia. }
  assert (forall j, 0 <= j < m -> used r' j = false <-> a <= j < b) as Hfree.
  { intros j Hj. rewrite Hu', Hu, used_zeros, orb_false_r by lia. rewrite orb_false_iff, !bool_decide_eq_false, !elem_of_seqZ. lia. }
  exists r'. split; [done|]. split; [lia|]. split; [done|]. split; [done|]. intros k Hk. unfold free_bits.
  replace k with (a + ((b - a) + (k - b))) by lia. rewrite (seqZ_app 0 a), (seqZ_app (0 + a) (b - a)) by lia.
  rewrite !filter_app, filter_used_none, filter_used_all, filter_used_none, app_nil_r, app_nil_l.
  - unfold zlen. rewrite length_seqZ. lia.
  - intros j Hj. apply not_false_is_true. rewrite Hfree; lia.
  - intros j Hj. apply Hfree; lia.
  - intros j Hj. apply not_false_is_true. rewrite Hfree; lia.
Qed.

Lemma bmap_run g : 0 <= g < nGroups nb ->
  exists b, format_bmap nb g = Ok b /\ zlen b = 4096 /\ bytes_ok b /\
    (forall j, 0 <= j < 32768 -> used b j = false <-> head_blocks nb g <= j < groupBlocks nb g) /\
    zlen (free_bits b 32768) = groupBlocks nb g - head_blocks nb g.
Proof.
  intros Hg. pose proof (sup_range nb Hfmt g). pose proof (blocks_run nb Hfmt g Hg) as (B1 & B2 & _). pose proof (head_range nb g).
  destruct (marked_map 4096 32768 (head_blocks nb g) (groupBlocks nb g)) as (b & Hr & Hz & Hb & Hu & Hf); [lia..|].
  exists b. split; [unfold format_bmap; rewrite meta_run by done; exact Hr|].
  split; [done|]. split; [done|]. split; [done|]. apply Hf. lia.
Qed.

Lemma imap_run g :
  exists b, format_imap g = Ok b /\ zlen b = 4096 /\ bytes_ok b /\ zlen (free_bits b 256) = if g =? 0 then 246 else 256.
Proof.
  destruct (marked_map 4096 32768 (if g =? 0 then 10 else 0) 256) as (b & Hr & Hz & Hb & Hu & Hf); [lia|lia|destruct (g =? 0); lia|lia|].
  exists b. split; [unfold format_imap; destruct (g =? 0); exact Hr|].
  split; [done|]. split; [done|]. rewrite Hf by lia. destruct (g =? 0); lia.
Qed.

End structures.

(** ** The root directory *)

Lemma CheckBounds_eq `{Safeio} off n len : CheckBounds off n len = @CheckBounds gset_Safeio off n len.
Proof. apply eq_true_iff_eq. by rewrite !CheckBounds_spec. Qed.

Lemma parseDirBlock_eq `{Safeio} buf : parseDirBlock buf = @parseDirBlock gset_Safeio buf.
Proof.
  unfold parseDirBlock. generalize 0. generalize (S (length buf)). intros fuel. induction fuel as [|fuel IH]; intros off; [done|].
  cbn [parseDir_from]. destruct (zlen buf <? off + 8); [done|].
  repeat (match goal with |- rbind ?m _ = rbind ?m _ => destruct m; [|done..]; cbn [rbind] end).
  destruct (_ || _); [done|]. rewrite CheckBounds_eq, IH. done.
Qed.

Lemma root_block_entries `{Safeio} : parseDirBlock root_block = Ok [Dirent 2 [46] FtDir; Dirent 2 [46; 46] FtDir].
Proof. rewrite parseDirBlock_eq. vm_compute. reflexivity. Qed.
