(* ===== verification/FormatCorrect.v ===== *)
(** [Format] runs and what it leaves on the device ([src/format.go]); the formatted
    image satisfies the invariant of a mounted file system. *)

From S2P Require Import Prelude Bytes Crc Device Superblock Bgd Bitmap GoLib Extent Limits Inode Inline FileRead BlockMap Dir Alloc Image AllocSpec Journal JournalSpec JournalWrite Lookup Namespace NamespaceSpec Fsck FsInv Fs Format FormatSpec.

Section run.
Context {D : Type} `{BlockDevLaws D}.

Lemma do_writes_cons o bs W (d d' : D) :
  do_writes ((o, bs) :: W) d = (Ok tt, d') -> exists d1, write_at o bs d = (Ok tt, d1) /\ do_writes W d1 = (Ok tt, d').
Proof. simpl. unfold mbnd. destruct (write_at o bs d) as [[[]| |] d1]; [|done..]. eauto. Qed.

Lemma do_writes_app W1 W2 (d d' : D) :
  do_writes (W1 ++ W2) d = (Ok tt, d') -> exists d1, do_writes W1 d = (Ok tt, d1) /\ do_writes W2 d1 = (Ok tt, d').
Proof.
  revert d. induction W1 as [|[o bs] W1 IH]; intros d; [by exists d|]. intros (d1 & Hw & Hr)%do_writes_cons.
  apply IH in Hr as (d2 & H1 & H2). exists d2. split; [|done]. simpl. unfold mbnd. by rewrite Hw.
Qed.

Lemma formatWriteAt_run msg o bs (d d' : D) :
  write_at o bs d = (Ok tt, d') -> mwrap msg (formatWriteAt o bs) d = (Ok tt, d').
Proof. intros Hw. unfold mwrap, formatWriteAt. by rewrite Hw. Qed.

Context (nb : Z) (Hfmt : formattable nb).
Context (raw tbl : list Z).

Definition bm (g : Z) : list Z := okv [] (format_bmap nb g).
Definition im (g : Z) : list Z := okv [] (format_imap g).

Definition group_writes (g : Z) : list (Z * list Z) :=
  (if (0 <? g) && (0 <? sup nb g) then [(g * 32768 * 4096, set16 raw 90 (w16 g)); ((g * 32768 + 1) * 4096, tbl)] else []) ++
  [((g * 32768 + sup nb g) * 4096, bm g); ((g * 32768 + sup nb g + 1) * 4096, im g)].

Fixpoint group_list (n : nat) (g : Z) : list (Z * list Z) :=
  match n with O => [] | S n' => group_writes g ++ group_list n' (g + 1) end.

Lemma elem_of_group_list n g x :
  x ∈ group_list n g <-> exists i, g <= i < g + Z.of_nat n /\ x ∈ group_writes i.
Proof.
  revert g. induction n as [|n IH]; intros g; cbn [group_list].
  - split; [intros Hx; by apply not_elem_of_nil in Hx|]. intros (i & Hi & _). lia.
  - rewrite elem_of_app, IH. split.
    + intros [Hx|(i & Hi & Hx)]; [exists g|exists i]; (split; [lia|done]).
    + intros (i & Hi & Hx). destruct (decide (i = g)) as [->|Hne]; [by left|]. right. exists i. split; [lia|done].
Qed.

Lemma format_group_run g (d d' : D) :
  0 <= g < nGroups nb -> do_writes (group_writes g) d = (Ok tt, d') -> format_group nb raw tbl g d = (Ok tt, d').
Proof.
  intros Hg Hw. unfold format_group, fmtBlocksPerGroup, fmtBlockSize. run (super_run nb Hfmt g Hg).
  destruct (bmap_run nb Hfmt g Hg) as (b & Hb & _). destruct (imap_run g) as (i & Hi & _).
  apply do_writes_app in Hw as (d1 & H1 & H2).
  assert ((if (0 <? g) && (0 <? sup nb g)
     then do! _ := mwrap "ext4: format: write backup superblock" (formatWriteAt (g * 32768 * 4096) (set16 raw 90 (w16 g))) in
          mwrap "ext4: format: write backup GDT" (formatWriteAt ((g * 32768 + 1) * 4096) tbl)
     else ret tt) d = (Ok tt, d1)) as Hback.
  { destruct (_ && _); [|simpl in H1; unfold ret in H1 |- *; congruence].
    apply do_writes_cons in H1 as (d2 & Ha & (d3 & Hb' & Hc)%do_writes_cons). simpl in Hc. injection Hc as <-.
    run Ha. by apply formatWriteAt_run. }
  run Hback. run Hb. apply do_writes_cons in H2 as (d2 & Ha & (d3 & Hb' & Hc)%do_writes_cons). injection Hc as <-.
  unfold bm in Ha. rewrite Hb in Ha. unfold im in Hb'. rewrite Hi in Hb'. cbn [okv] in Ha, Hb'.
  run Ha. run Hi. by apply formatWriteAt_run.
Qed.

Lemma format_groups_run n g (d d' : D) :
  0 <= g -> g + Z.of_nat n <= nGroups nb -> do_writes (group_list n g) d = (Ok tt, d') ->
  format_groups nb raw tbl n g d = (Ok tt, d').
Proof.
  revert g d. induction n as [|n IH]; intros g d Hg Hn Hw; cbn [format_groups group_list] in *; [done|].
  apply do_writes_app in Hw as (d1 & H1 & H2). run (format_group_run g d d1 ltac:(lia) H1). apply IH; [lia..|done].
Qed.


(** ** The writes do not meet *)

Context (Htbl : zlen tbl = 32 * nGroups nb) (Htblb : bytes_ok tbl) (Hraw : zlen raw = 1024) (Hrawb : bytes_ok raw).

Lemma bm_ok g : 0 <= g < nGroups nb -> format_bmap nb g = Ok (bm g) /\ zlen (bm g) = 4096 /\ bytes_ok (bm g) /\
  (forall j, 0 <= j < 32768 -> used (bm g) j = false <-> head_blocks nb g <= j < groupBlocks nb g) /\
  zlen (free_bits (bm g) 32768) = groupBlocks nb g - head_blocks nb g.
Proof. intros Hg. destruct (bmap_run nb Hfmt g Hg) as (b & Hb & Hrest). unfold bm. by rewrite Hb. Qed.

Lemma im_ok g : format_imap g = Ok (im g) /\ zlen (im g) = 4096 /\ bytes_ok (im g) /\
  zlen (free_bits (im g) 256) = if g =? 0 then 246 else 256.
Proof. destruct (imap_run g) as (b & Hb & Hrest). unfold im. by rewrite Hb. Qed.

(** Where the metadata of a group begins. *)
Definition group_lo (g : Z) : Z := if g =? 0 then (1 + bgdtBlocks nb) * 4096 else g * 32768 * 4096.
Definition group_hi (g : Z) : Z := (g * 32768 + sup nb g + 2) * 4096.

Lemma group_chain g : 0 <= g < nGroups nb -> chain (group_lo g) (group_writes g) (group_hi g).
Proof.
  intros Hg. destruct (bm_ok g Hg) as (_ & Hz & _). destruct (im_ok g) as (_ & Hz' & _).
  pose proof (fmt_table nb Hfmt). pose proof (sup_range nb Hfmt g) as Hs.
  unfold group_writes, group_lo, group_hi. destruct (g =? 0) eqn:E; zbool.
  - subst g. rewrite sup_0. cbn [andb Z.ltb Z.compare app chain fst snd]. rewrite Hz, Hz'. lia.
  - rewrite (ltb_true 0 g) by lia. destruct (0 <? sup nb g) eqn:Es; zbool; cbn [andb app chain fst snd]; rewrite Hz, Hz'.
    + assert (sup nb g = 1 + bgdtBlocks nb) as Hsup by (unfold sup in *; destruct (groupIsSparseBackup 32 g) as [[]|]; lia).
      rewrite zlen_setN, Hraw, Htbl. lia.
    + lia.
Qed.

Lemma group_hi_le g : 0 <= g < nGroups nb ->
  group_hi g <= nb * 4096 /\ (g + 1 < nGroups nb -> group_hi g <= group_lo (g + 1)).
Proof.
  intros Hg. pose proof (blocks_run nb Hfmt g Hg) as (B1 & B2 & B3). pose proof (head_range nb g).
  unfold group_hi, group_lo. rewrite (eqb_false (g + 1)) by lia. split; [lia|]. intros Hn. lia.
Qed.

Lemma list_chain n g : 0 <= g -> g + Z.of_nat n = nGroups nb -> 0 < Z.of_nat n ->
  chain (group_lo g) (group_list n g) (nb * 4096).
Proof.
  revert g. induction n as [|n IH]; intros g Hg Hn Hn0; [lia|]. cbn [group_list].
  destruct (group_hi_le g ltac:(lia)) as [H1 H2]. destruct n as [|n].
  - apply (chain_app _ _ (group_hi g)); [apply group_chain; lia|]. exact H1.
  - apply (chain_app _ _ (group_lo (g + 1))); [|apply IH; lia].
    rewrite <- (app_nil_r (group_writes g)). apply (chain_app _ _ (group_hi g)); [apply group_chain; lia|]. apply H2. lia.
Qed.

Context (now : Z).

Definition root_writes : list (Z * list Z) :=
  [((3 + bgdtBlocks nb) * 4096 + 256, root_inode nb now); ((19 + bgdtBlocks nb) * 4096, root_block)].
Definition all_writes : list (Z * list Z) :=
  ((1024, raw) :: (4096, tbl) :: group_list (Z.to_nat (nGroups nb)) 0) ++ root_writes.

Lemma root_zlen : zlen (root_inode nb now) = 256 /\ zlen root_block = 4096.
Proof. unfold root_inode, root_block. fmt. split; zl. Qed.
Lemma root_bytes : bytes_ok (root_inode nb now) /\ bytes_ok root_block.
Proof.
  unfold root_inode, root_block. fmt. split; [auto 40 with bytes|]. repeat apply bytes_ok_zsplice; auto 12 with bytes.
  all: repeat constructor; unfold byte_ok, FtDir; lia.
Qed.

Lemma head_chain : chain 1024 ((1024, raw) :: (4096, tbl) :: group_list (Z.to_nat (nGroups nb)) 0) (nb * 4096).
Proof.
  pose proof (fmt_groups nb Hfmt). pose proof (fmt_table nb Hfmt). cbn [chain fst snd]. rewrite Hraw, Htbl.
  split; [lia|]. split; [lia|]. rewrite <- (app_nil_l (group_list _ _)). apply (chain_app _ _ (group_lo 0)); [|apply list_chain; lia].
  change (group_lo 0) with ((1 + bgdtBlocks nb) * 4096). simpl. lia.
Qed.

(** The root directory lies behind the metadata of the first group. *)
Lemma root_place x : x ∈ root_writes ->
  group_hi 0 <= x.1 /\ x.1 + zlen x.2 <= (20 + bgdtBlocks nb) * 4096 /\ bytes_ok x.2 /\ 0 < zlen x.2.
Proof.
  destruct root_zlen as [Z1 Z2]. destruct root_bytes as [Y1 Y2]. pose proof (fmt_table nb Hfmt). unfold group_hi. rewrite sup_0.
  unfold root_writes. generalize dependent root_block. generalize dependent (root_inode nb now). intros ri Z1 Y1 rb Z2 Y2.
  rewrite !elem_of_cons. intros [->|[->|Hx]]; [| |by apply not_elem_of_nil in Hx]; cbn [fst snd];
    rewrite ?Z1, ?Z2; (split; [lia|]); (split; [lia|]); (split; [assumption|lia]).
Qed.

Lemma all_apart : apart all_writes.
Proof.
  pose proof (fmt_groups nb Hfmt) as [[G1 G2] G3]. pose proof (fmt_table nb Hfmt) as [T1 T2].
  apply apart_app; [eapply chain_apart, head_chain| |].
  - destruct root_zlen as [Z1 Z2]. unfold root_writes. cbn [apart]. split; [|split; [constructor|done]].
    apply Forall_singleton. left. cbn [fst snd]. rewrite Z1. lia.
  - intros x y Hx Hy. destruct (root_place y Hy) as (R1 & R2 & _). unfold group_hi in R1. rewrite sup_0 in R1.
    assert (x.1 + zlen x.2 <= (3 + bgdtBlocks nb) * 4096 \/ 32768 * 4096 <= x.1) as [?|?]; [|left; lia|right; lia].
    apply elem_of_cons in Hx as [->|Hx]; [left; cbn [fst snd]; rewrite Hraw; lia|].
    apply elem_of_cons in Hx as [->|Hx]; [left; cbn [fst snd]; rewrite Htbl; lia|].
    apply elem_of_group_list in Hx as (i & Hi & Hx). pose proof (chain_in _ _ _ _ (group_chain i ltac:(lia)) Hx) as [Hlo Hhi].
    unfold group_lo, group_hi in *. destruct (i =? 0) eqn:E; zbool; [subst i; rewrite sup_0 in Hhi; lia|lia].
Qed.

Lemma all_in_range x : x ∈ all_writes -> 0 <= x.1 /\ x.1 + zlen x.2 <= nb * 4096 /\ bytes_ok x.2 /\ 0 < zlen x.2.
Proof.
  pose proof (fmt_groups nb Hfmt) as [[G1 G2] G3]. pose proof (fmt_table nb Hfmt) as [T1 T2].
  pose proof (blocks_run nb Hfmt 0 ltac:(lia)) as (B1 & B2 & _). unfold head_blocks in B1. rewrite sup_0 in B1. cbn [Z.eqb] in B1.
  unfold all_writes. rewrite elem_of_app. intros [Hx|Hx].
  - pose proof (chain_in _ _ _ _ head_chain Hx) as [C1 C2]. split; [lia|]. split; [lia|].
    apply elem_of_cons in Hx as [->|Hx]; [cbn [snd]; split; [done|lia]|].
    apply elem_of_cons in Hx as [->|Hx]; [cbn [snd]; split; [done|lia]|].
    apply elem_of_group_list in Hx as (i & Hi & Hx). destruct (bm_ok i ltac:(lia)) as (_ & Hz & Hb & _).
    destruct (im_ok i) as (_ & Hz' & Hb' & _). unfold group_writes in Hx. apply elem_of_app in Hx as [Hx|Hx].
    + destruct (_ && _); [|by apply not_elem_of_nil in Hx]. rewrite !elem_of_cons in Hx.
      destruct Hx as [->|[->|Hx]]; [| |by apply not_elem_of_nil in Hx]; cbn [snd]; [|split; [done|lia]].
      split; [auto with bytes|]. rewrite zlen_setN. lia.
    + rewrite !elem_of_cons in Hx. destruct Hx as [->|[->|Hx]]; [| |by apply not_elem_of_nil in Hx]; cbn [snd]; (split; [done|lia]).
  - destruct (root_place x Hx) as (R1 & R2 & R3 & R4). unfold group_hi in R1. rewrite sup_0 in R1. split; [lia|]. split; [lia|done].
Qed.

End run.

(** * The image *)

(** The superblock of the image and its descriptor table. *)
Definition super_raw (nb now : Z) (uuid label : list Z) : list Z :=
  format_super nb now (free_sum nb (Z.to_nat (nGroups nb)) 0) uuid label.
Definition table_raw (nb : Z) : list Z := okv [] (format_table nb (Z.to_nat (nGroups nb)) 0).

Section image.
Context {D : Type} `{BlockDevLaws D}.
Context (nb : Z) (Hfmt : formattable nb).
Context (now : Z) (uuid label : list Z) (Huuid : zlen uuid = 16) (Huuidb : bytes_ok uuid) (Hlabel : bytes_ok label).

Notation raw := (super_raw nb now uuid label).
Notation tbl := (table_raw nb).

(** What the formatted device holds. *)
Record image (d : D) : Prop := {
  im_boot : read_at d 0 1024 = Ok (zeros 1024);
  im_super : read_at d 1024 1024 = Ok raw;
  im_desc : forall g, 0 <= g < nGroups nb -> read_at d (4096 + g * 32) 32 = Ok (desc_raw nb g);
  im_bmap : forall g, 0 <= g < nGroups nb -> read_at d ((g * 32768 + sup nb g) * 4096) 4096 = Ok (bm nb g);
  im_imap : forall g, 0 <= g < nGroups nb -> read_at d ((g * 32768 + sup nb g + 1) * 4096) 4096 = Ok (im g);
  im_root : read_at d ((3 + bgdtBlocks nb) * 4096 + 256) 256 = Ok (root_inode nb now);
  im_dir : read_at d ((19 + bgdtBlocks nb) * 4096) 4096 = Ok root_block;
  im_cov : forall o n, 0 <= o -> 0 <= n -> o + n <= nb * 4096 -> exists r, read_at d o n = Ok r
}.

Lemma table_ok : format_table nb (Z.to_nat (nGroups nb)) 0 = Ok tbl /\ zlen tbl = 32 * nGroups nb /\ bytes_ok tbl /\
  forall g, 0 <= g < nGroups nb -> zslice tbl (32 * g) 32 = desc_raw nb g.
Proof.
  pose proof (fmt_groups nb Hfmt). destruct (table_run nb Hfmt (Z.to_nat (nGroups nb)) 0 ltac:(lia) ltac:(lia)) as (t & Ht & Hz & Hb & Hs).
  unfold table_raw. rewrite Ht. cbn [okv]. split; [done|]. split; [lia|]. split; [done|].
  intros g Hg. rewrite <- (Z.sub_0_r g) at 1. apply Hs. lia.
Qed.

Lemma super_ok : zlen raw = 1024 /\ bytes_ok raw.
Proof. unfold super_raw. split; [apply super_zlen|apply super_bytes; [exact Huuidb|exact Hlabel]]. Qed.

#[local] Opaque super_raw table_raw root_block root_inode.

(** The writes on a device of zeros make the image. *)
Lemma writes_image (d : D) :
  dev_writable D -> (forall i, 0 <= i < 1024 -> dev_byte d i = 0) ->
  (forall o n, 0 <= o -> 0 <= n -> o + n <= nb * 4096 -> exists r, read_at d o n = Ok r) ->
  exists d', do_writes (all_writes nb raw tbl now) d = (Ok tt, d') /\ image d'.
Proof.
  intros Hw Hzero Hcov. destruct table_ok as (_ & Ht & Htb & Hslice). destruct super_ok as [Hr Hrb].
  pose proof (fmt_groups nb Hfmt) as [[G1 G2] G3].
  destruct (do_writes_run (all_writes nb raw tbl now) d Hw) as (d' & Hd & Hin & Hkeep & Hrd).
  { by apply all_apart. }
  { apply Forall_forall. intros x Hx. destruct (all_in_range nb Hfmt raw tbl Ht Htb Hr Hrb now x Hx) as (R1 & R2 & R3 & R4).
    split; [done|]. split; [done|]. apply Hcov; [done|lia|done]. }
  exists d'. split; [done|].
  assert (forall o bs n, (o, bs) ∈ all_writes nb raw tbl now -> zlen bs = n -> read_at d' o n = Ok bs) as Hat.
  { intros o bs n Hx <-. exact (Hin _ Hx). }
  assert (forall g, 0 <= g < nGroups nb -> forall x, x ∈ group_writes nb raw tbl g -> x ∈ all_writes nb raw tbl now) as Hgrp.
  { intros g Hg x Hx. unfold all_writes. apply elem_of_app. left. do 2 right.
    apply elem_of_group_list. exists g. split; [lia|done]. }
  destruct (root_zlen nb now) as [Z1 Z2]. split.
  - destruct (Hcov 0 1024 ltac:(lia) ltac:(lia)) as [r Hr0].
    { pose proof (blocks_run nb Hfmt 0 ltac:(lia)) as (B1 & _). pose proof (head_range nb 0). pose proof (sup_range nb Hfmt 0).
      pose proof (blocks_run nb Hfmt 0 ltac:(lia)) as (_ & B2 & _). lia. }
    apply Hkeep.
    + apply Forall_forall. intros x Hx. left. unfold all_writes in Hx. apply elem_of_app in Hx as [Hx|Hx].
      * pose proof (chain_in _ _ _ _ (head_chain nb Hfmt raw tbl Ht Hr) Hx). lia.
      * pose proof (root_place nb Hfmt now x Hx) as (R1 & _). unfold group_hi in R1. rewrite sup_0 in R1. pose proof (fmt_table nb Hfmt). lia.
    + rewrite Hr0. f_equal. apply read_at_Ok in Hr0 as ->. apply list_u8_ext; [rewrite length_bytes_of; unfold zeros; rewrite length_replicate; reflexivity|].
      intros i Hi. rewrite zlen_bytes_of in Hi by lia. rewrite u8_bytes_of by lia. rewrite Hzero by lia.
      unfold u8, zeros. rewrite lookup_replicate_2 by lia. reflexivity.
  - apply Hat; [|exact Hr]. unfold all_writes. apply elem_of_app. left. by left.
  - intros g Hg. assert (read_at d' 4096 (32 * nGroups nb) = Ok tbl) as Hdt.
    { apply Hat; [|exact Ht]. unfold all_writes. apply elem_of_app. left. right. by left. }
    destruct (Hcov (4096 + g * 32) 32 ltac:(lia) ltac:(lia)) as [r Hr0].
    { pose proof (blocks_run nb Hfmt 0 ltac:(lia)) as (B1 & B2 & _). pose proof (head_range nb 0). pose proof (fmt_table nb Hfmt).
      rewrite sup_0 in *. lia. }
    destruct (Hrd _ _ _ Hr0) as [r' Hr']. rewrite Hr'. f_equal. rewrite <- Hslice by done.
    replace (32 * g) with (g * 32) by lia. eapply read_sub; [exact Hdt|lia..|exact Hr'].
  - intros g Hg. destruct (bm_ok nb Hfmt g Hg) as (_ & Hz & _). apply Hat; [|exact Hz].
    apply (Hgrp g Hg). unfold group_writes. apply elem_of_app. right. by left.
  - intros g Hg. destruct (im_ok g) as (_ & Hz & _). apply Hat; [|exact Hz].
    apply (Hgrp g Hg). unfold group_writes. apply elem_of_app. right. right. by left.
  - apply Hat; [|exact Z1]. unfold all_writes. apply elem_of_app. right. by left.
  - apply Hat; [|exact Z2]. unfold all_writes. apply elem_of_app. right. right. by left.
  - intros o n Ho Hn Hle. destruct (Hcov o n Ho Hn Hle) as [r Hr0]. by apply (Hrd _ _ _ Hr0).
Qed.

End image.

(** * The invariant *)

Section invariant.
Context {D : Type} `{BlockDevLaws D}.
Context (nb : Z) (Hfmt : formattable nb).
Context (now : Z) (uuid label : list Z) (Huuid : zlen uuid = 16) (Huuidb : bytes_ok uuid) (Hlabel : bytes_ok label).
Context (d : D) (Him : image nb now uuid label d) (size : Z).

Notation raw := (super_raw nb now uuid label).
#[local] Opaque super_raw table_raw root_block root_inode.

(** The mounted image. *)
Definition fresh_sb : superblock := with_deviceBytes (fmt_sb nb (free_sum nb (Z.to_nat (nGroups nb)) 0) raw uuid) size.
Definition fresh : fsys D := Fsys d fresh_sb 0 ∅.

Definition bg_of (g : Z) : bgd := fmt_bgd nb g (desc_raw nb g).

Lemma fresh_groups : numBlockGroups fresh_sb = nGroups nb.
Proof.
  pose proof (fmt_groups nb Hfmt) as [[G1 G2] G3]. destruct Hfmt as (F1 & F2 & _). fmt.
  unfold numBlockGroups. cbn [fresh_sb with_deviceBytes fmt_sb BlocksCount BlocksPerGroup].
  rewrite w64_small, w32_small by dlia. dlia.
Qed.

Lemma fresh_readBGD g : 0 <= g < nGroups nb -> readBGD d 0 fresh_sb g = Ok (bg_of g).
Proof.
  intros Hg. unfold readBGD. change (0 + bgd_offset fresh_sb g) with (4096 + g * 32).
  change (DescSize fresh_sb) with 32. rewrite (im_desc _ _ _ _ _ Him g Hg). cbn [rwrap rbind].
  destruct (desc_run nb Hfmt g Hg) as (r & Hr & _ & _ & Hd). unfold bg_of, desc_raw. rewrite Hr. cbn [okv]. by apply Hd.
Qed.

Lemma start_range g : 0 <= g < nGroups nb ->
  1 <= g * 32768 + sup nb g /\ (g * 32768 + sup nb g + 20) < 2 ^ 33 /\
  (1 + bgdtBlocks nb) <= g * 32768 + sup nb g.
Proof.
  intros Hg. pose proof (fmt_groups nb Hfmt) as [[G1 G2] G3]. pose proof (fmt_table nb Hfmt). pose proof (sup_range nb Hfmt g).
  destruct (decide (g = 0)) as [->|]; [rewrite sup_0; lia|lia].
Qed.

Lemma fresh_block blk : 0 <= blk < 2 ^ 40 -> read_block 0 d fresh_sb blk = read_at d (blk * 4096) 4096.
Proof. intros Hb. unfold read_block. change (BlockSize fresh_sb) with 4096. by rewrite i64_small by lia. Qed.

Lemma fresh_group_at g : 0 <= g < nGroups nb -> group_at 0 fresh g (bg_of g) (bm nb g) (im g).
Proof.
  intros Hg. pose proof (start_range g Hg). split; cbn [fresh fs_dev fs_sb].
  - by apply fresh_readBGD.
  - unfold bg_of. cbn [fmt_bgd BlockBitmapBlock]. rewrite fresh_block by lia. apply (im_bmap _ _ _ _ _ Him g Hg).
  - unfold bg_of. cbn [fmt_bgd InodeBitmapBlock]. rewrite fresh_block by lia. apply (im_imap _ _ _ _ _ Him g Hg).
  - unfold bg_of. cbn [fmt_bgd UsedDirsCount]. change (count_max fresh_sb) with 65536. destruct (g =? 0); lia.
Qed.

Lemma fresh_layout g : 0 <= g < nGroups nb ->
  layout 0 fresh_sb g (BlockBitmapBlock (bg_of g)) (InodeBitmapBlock (bg_of g)).
Proof.
  intros Hg. pose proof (start_range g Hg). pose proof (fmt_table nb Hfmt). unfold bg_of. cbn [fmt_bgd BlockBitmapBlock InodeBitmapBlock].
  split; change (count_max fresh_sb) with 65536; change (bgd_offset fresh_sb g) with (4096 + g * 32);
    change (BlockSize fresh_sb) with 4096; change (DescSize fresh_sb) with 32; change (BlocksPerGroup fresh_sb) with 32768;
    change (InodesPerGroup fresh_sb) with 256; unfold sep; lia.
Qed.

Lemma fresh_readable g : 0 <= g < nGroups nb -> readable 0 d fresh_sb g.
Proof.
  intros Hg. split.
  - eexists. change (0 + bgd_offset fresh_sb g) with (4096 + g * 32). change (DescSize fresh_sb) with 32.
    apply (im_desc _ _ _ _ _ Him g Hg).
  - eexists. apply (im_super _ _ _ _ _ Him).
Qed.

Lemma fresh_ok : fs_ok 0 fresh.
Proof.
  pose proof (fmt_groups nb Hfmt) as [[G1 G2] G3]. destruct (super_ok nb now uuid label Huuidb Hlabel) as [Hz Hb].
  split; [split; [reflexivity|]; split; [exact Hz|exact Hb]|].
  cbn [fresh fs_dev fs_sb]. rewrite fresh_groups. split; [lia|]. intros g Hg. exists (bg_of g), (bm nb g), (im g).
  split; [by apply fresh_group_at|]. split; [by apply fresh_layout|]. split; [by apply fresh_readable|].
  unfold bg_of. cbn [fmt_bgd UsedDirsCount fresh fs_sb]. change (count_max fresh_sb) with 65536. destruct (g =? 0); lia.
Qed.

Lemma fresh_bgd g bg : 0 <= g < numBlockGroups fresh_sb -> readBGD d 0 fresh_sb g = Ok bg -> bg = bg_of g.
Proof. rewrite fresh_groups. intros Hg. rewrite fresh_readBGD by done. by intros [= ->]. Qed.

Lemma fresh_free_in g : 0 <= g < nGroups nb ->
  free_in 0 d fresh_sb g true = groupBlocks nb g - head_blocks nb g /\
  free_in 0 d fresh_sb g false = if g =? 0 then 246 else 256.
Proof.
  intros Hg. destruct (fresh_group_at g Hg) as [G1 G2 G3 _]. cbn [fresh fs_dev fs_sb] in G1, G2, G3.
  destruct (bm_ok nb Hfmt g Hg) as (_ & Hz & _ & _ & Hf). destruct (im_ok g) as (_ & Hz' & _ & Hf').
  unfold free_in, disk_map. rewrite G1, G2, G3. unfold free_count, max_bits. rewrite Hz, Hz'.
  change (BlocksPerGroup fresh_sb) with 32768. change (InodesPerGroup fresh_sb) with 256.
  rewrite !Z.min_l by lia. split; [exact Hf|exact Hf'].
Qed.

Lemma fresh_counted_group g : 0 <= g < nGroups nb -> group_counted 0 d fresh_sb g.
Proof.
  intros Hg. exists (bg_of g). split; [by apply fresh_readBGD|]. destruct (fresh_free_in g Hg) as [-> ->]. done.
Qed.

Lemma fresh_totals n g tb ti :
  0 <= g -> g + Z.of_nat n <= nGroups nb -> 0 <= tb <= 32768 * g -> 0 <= ti <= 256 * g ->
  total_free 0 d fresh_sb n g tb ti = (tb + free_sum nb n g, ti + 256 * Z.of_nat n - (if (g =? 0) && (0 <? Z.of_nat n) then 10 else 0)).
Proof.
  pose proof (fmt_groups nb Hfmt) as [[G1 G2] _].
  revert g tb ti. induction n as [|n IH]; intros g tb ti Hg Hn Htb Hti; cbn [total_free free_sum].
  { rewrite andb_false_r. f_equal; lia. }
  destruct (fresh_free_in g ltac:(lia)) as [-> ->]. pose proof (blocks_run nb Hfmt g ltac:(lia)) as (B1 & _).
  pose proof (head_range nb g). pose proof (sup_range nb Hfmt g).
  rewrite w64_small, w32_small by (destruct (g =? 0); lia). rewrite IH by (try lia; destruct (g =? 0); lia).
  rewrite (eqb_false (g + 1)) by lia. rewrite (ltb_true 0 (Z.of_nat (S n))) by lia. cbn [andb]. rewrite andb_true_r.
  destruct (g =? 0); f_equal; lia.
Qed.

Lemma fresh_counted : counted 0 fresh.
Proof.
  pose proof (fmt_groups nb Hfmt) as [[G1 G2] _]. unfold counted. cbn [fresh fs_dev fs_sb]. rewrite fresh_groups.
  split; [intros g Hg; by apply fresh_counted_group|]. rewrite fresh_totals by lia. rewrite ltb_true by lia. cbn [andb Z.eqb].
  cbn [fresh_sb with_deviceBytes fmt_sb sb_FreeBlocksCount sb_FreeInodesCount]. f_equal. lia.
Qed.

Lemma fresh_off_meta g b : 0 <= g < nGroups nb -> head_blocks nb g <= b < groupBlocks nb g ->
  off_meta 0 fresh (0 + (g * 32768 + b) * 4096) 4096.
Proof.
  intros Hg Hb. pose proof (start_range g Hg). pose proof (fmt_table nb Hfmt) as [T1 T2]. pose proof (head_range nb g).
  pose proof (blocks_run nb Hfmt g Hg) as (B1 & B2 & B3). pose proof (sup_range nb Hfmt g) as S0.
  split; [unfold sep; lia|]. cbn [fresh fs_dev fs_sb]. intros g' bg Hg' Hr. rewrite (fresh_bgd g' bg Hg' Hr). rewrite fresh_groups in Hg'.
  pose proof (start_range g' Hg'). pose proof (sup_range nb Hfmt g') as S1.
  change (bgd_offset fresh_sb g') with (4096 + g' * 32). change (DescSize fresh_sb) with 32. unfold off_block, sep.
  unfold bg_of. cbn [fmt_bgd BlockBitmapBlock InodeBitmapBlock]. change (BlockSize fresh_sb) with 4096.
  assert (g = g' \/ g + 1 <= g' \/ g' + 1 <= g) as [<-|[Hlt|Hlt]] by lia; lia.
Qed.

Lemma fresh_inv : fs_inv 0 fresh.
Proof.
  pose proof (fmt_groups nb Hfmt) as [[G1 G2] G3]. destruct Hfmt as (F1 & F2 & _). unfold minBlocks in F1. fmt.
  split; cbn [fresh fs_dev fs_sb].
  - apply fresh_ok.
  - unfold fs_fits. change (BlockSize fresh_sb) with 4096. change (BlocksCount fresh_sb) with nb. lia.
  - change (FirstDataBlock fresh_sb) with 0. change (BlocksPerGroup fresh_sb) with 32768. lia.
  - change (BlocksCount fresh_sb) with nb. lia.
  - intros o n Ho Hn Hl. change (BlockSize fresh_sb) with 4096 in Hl. change (BlocksCount fresh_sb) with nb in Hl.
    by apply (im_cov _ _ _ _ _ Him).
  - split; cbn [fresh fs_dev fs_sb].
    + intros g g' bg Hg Hg' Hr. rewrite (fresh_bgd g bg Hg Hr). rewrite fresh_groups in Hg, Hg'.
      pose proof (start_range g Hg). pose proof (fmt_table nb Hfmt). unfold bg_of. cbn [fmt_bgd BlockBitmapBlock InodeBitmapBlock].
      change (bgd_offset fresh_sb g') with (4096 + g' * 32). change (DescSize fresh_sb) with 32.
      change (BlockSize fresh_sb) with 4096. unfold sep. lia.
    + intros g g' bg bg' Hg Hg' Hne Hr Hr' b b'. rewrite (fresh_bgd g bg Hg Hr), (fresh_bgd g' bg' Hg' Hr').
      unfold bg_of. cbn [fmt_bgd BlockBitmapBlock InodeBitmapBlock]. rewrite !elem_of_cons, !elem_of_nil.
      pose proof (sup_range nb Hfmt g). pose proof (sup_range nb Hfmt g'). lia.
  - intros g bg bmap imap b. rewrite fresh_groups. intros Hg Hga Hb Hu.
    destruct (group_at_det _ _ _ _ _ _ _ _ _ (fresh_group_at g Hg) Hga) as (-> & -> & ->).
    change (BlocksPerGroup fresh_sb) with 32768 in Hb. destruct (bm_ok nb Hfmt g Hg) as (_ & _ & _ & Hfr & _). apply Hfr in Hu; [|done].
    pose proof (blocks_run nb Hfmt g Hg) as (B1 & B2 & B3). pose proof (sup_range nb Hfmt g). pose proof (head_range nb g).
    unfold data_block, block_no. cbn [fresh fs_dev fs_sb]. change (BlocksPerGroup fresh_sb) with 32768.
    change (FirstDataBlock fresh_sb) with 0. rewrite Z.add_0_r. change (BlocksCount fresh_sb) with nb.
    change (BlockSize fresh_sb) with 4096. split; [lia|]. split; [by apply fresh_off_meta|]. right.
    change (w64 (InodesPerGroup fresh_sb * InodeSize fresh_sb + 4096 - 1) / 4096) with 16.
    unfold bg_of. cbn [fmt_bgd InodeTableBlock]. pose proof (start_range g Hg). rewrite w64_small by lia. lia.
  - intros g. rewrite fresh_groups. apply fresh_counted_group.
Qed.

Lemma fresh_check : CheckImage 0 fresh = (Ok tt, fresh).
Proof.
  destruct (CheckImage_run 0 fresh fresh_ok) as (r & Hr & _ & Hc). rewrite Hr. f_equal. apply Hc, fresh_counted.
Qed.

(** ** The root directory *)

Context `{SortSlice} `{Safeio}.

Notation P := (19 + bgdtBlocks nb).

Lemma root_P : g0RootDirDataBlock nb = P.
Proof. apply (g0_run nb Hfmt). Qed.

Lemma root_leaf : leaf_node (zslice (root_inode nb now) 40 60) [Leaf 0 P 1].
Proof.
  pose proof (fmt_table nb Hfmt). destruct (root_zlen nb now) as [Hz _].
  assert (forall n off, 0 <= off -> off + Z.of_nat n <= 60 -> uN n (zslice (root_inode nb now) 40 60) off = uN n (root_inode nb now) (40 + off)) as Hs
    by (intros; apply uN_zslice; lia).
  split.
  - rewrite zlen_zslice by lia. done.
  - rewrite Hs by lia. reflexivity.
  - rewrite Hs by lia. reflexivity.
  - rewrite Hs by lia. reflexivity.
  - intros [|i] e Hi; [|done]. injection Hi as <-. rewrite zslice_zslice by lia. unfold leaf_bytes. cbn [LogBlock PhysBlock Count].
    change 4294967295 with (Z.ones 32). rewrite Z.land_ones, (Z.mod_small P), Z.shiftr_div_pow2, (Z.div_small P) by lia.
    rewrite <- root_P. reflexivity.
Qed.

Lemma root_read : readInode d 0 fresh_sb RootIno = Ok (Inode (root_inode nb now) 2 4096 0x41ED).
Proof.
  pose proof (fmt_groups nb Hfmt) as [[G1 G2] G3]. pose proof (fmt_table nb Hfmt).
  unfold readInode, RootIno. cbn [Z.eqb]. change (InodesCount fresh_sb) with (256 * nGroups nb). rewrite ltb_false by lia.
  change (inode_group fresh_sb 2) with (Ok (0, 1)). cbn [rbind readInode_attempts]. rewrite fresh_readBGD by lia. cbn [rbind].
  rewrite Z.eqb_refl. cbn [negb]. change (InodeTableBlock (bg_of 0)) with (0 * 32768 + sup nb 0 + 2). rewrite sup_0.
  change (BlockSize fresh_sb) with 4096. change (InodeSize fresh_sb) with 256. rewrite i64_small by lia.
  replace (0 + ((0 * 32768 + (1 + bgdtBlocks nb) + 2) * 4096 + 1 * 256)) with ((3 + bgdtBlocks nb) * 4096 + 256) by lia.
  rewrite (im_root _ _ _ _ _ Him). cbn [rwrap rbind]. reflexivity.
Qed.

Lemma root_list : readDir d 0 fresh_sb (Inode (root_inode nb now) 2 4096 0x41ED) =
  Ok [Dirent 2 [46] FtDir; Dirent 2 [46; 46] FtDir].
Proof.
  pose proof (fmt_table nb Hfmt). destruct (root_zlen nb now) as [Hz _].
  unfold readDir, isInline, readExtents, flags. cbn [in_raw]. rewrite !getN_ok by (unfold inodeOffFlags; lia). cbn [rbind].
  assert (u32 (root_inode nb now) inodeOffFlags = 0x80000) as -> by reflexivity. cbn [rbind].
  change (has_flag 524288 InodeFlagInlineData) with false. change (has_flag 524288 InodeFlagExtents) with true. cbn [negb].
  rewrite subslice_ok by (unfold inodeOffBlock; lia). cbn [rbind]. change (inodeOffBlock + 60 - inodeOffBlock) with 60.
  rewrite (parseExtentRoot_leaf_node d 0 fresh_sb _ _ root_leaf).
  - cbn [rbind readDir_extents Count PhysBlock]. change (Z.to_nat 1) with 1%nat. cbn [readDir_blocks].
    unfold readRawBlock. change (BlockSize fresh_sb) with 4096. rewrite w64_small, i64_small by lia.
    rewrite Z.add_0_l, (im_dir _ _ _ _ _ Him). cbn [rwrap rbind].
    rewrite root_block_entries. reflexivity.
  - apply Forall_singleton. unfold leaf_ok. cbn. lia.
  - repeat constructor.
  - repeat constructor.
Qed.

End invariant.

(** * Format *)

Lemma random_uuid_ok r : zlen r = 16 -> bytes_ok r -> zlen (random_uuid r) = 16 /\ bytes_ok (random_uuid r).
Proof.
  intros Hz Hb. unfold random_uuid. split; [zl|].
  assert (forall l i m k, bytes_ok l -> 0 <= m < 256 -> 0 <= k < 256 -> byte_ok (Z.lor (Z.land (u8 l i) m) k)) as Hby.
  { intros l i m k Hl Hm Hk. pose proof (u8_range l i Hl). unfold byte_ok. split.
    - apply Z.lor_nonneg. split; [apply Z.land_nonneg; lia|lia].
    - assert (Z.lor (Z.land (u8 l i) m) k = Z.lor (Z.land (u8 l i) m) k mod 2 ^ 8) as ->; [|apply Z.mod_pos_bound; lia].
      symmetry. apply Z.bits_inj'. intros n Hn. rewrite Z.testbit_mod_pow2 by lia. destruct (n <? 8) eqn:E; zbool; [done|].
      cbn [andb]. symmetry. rewrite Z.lor_spec, Z.land_spec.
      assert (forall x, 0 <= x < 256 -> Z.testbit x n = false) as Hx; [|rewrite !Hx by lia; done].
      intros x Hxr. destruct (decide (x = 0)) as [->|]; [apply Z.bits_0|]. apply Z.bits_above_log2; [lia|].
      assert (Z.log2 x < 8) by (apply Z.log2_lt_pow2; lia). lia. }
  assert (bytes_ok (zsplice r 6 [Z.lor (Z.land (u8 r 6) 15) 64])) as H1 by (apply bytes_ok_zsplice; [done|]; constructor; [apply Hby; [done|lia..]|constructor]).
  apply bytes_ok_zsplice; [done|]. constructor; [apply Hby; [done|lia..]|constructor].
Qed.

Lemma trim_zeros_pad l n : trim_zeros (l ++ zeros n) = trim_zeros l.
Proof.
  assert (trim_zeros (zeros n) = []) as Hz.
  { unfold zeros. induction (Z.to_nat n) as [|k IH]; [done|]. cbn [replicate trim_zeros]. by rewrite IH. }
  induction l as [|b l IH]; [exact Hz|]. cbn [app trim_zeros]. by rewrite IH.
Qed.

Section format.
Context {D : Type} `{BlockDevLaws D}.

Lemma super_raw_eq nb now uuid label :
  super_raw nb now uuid label = format_super nb now (free_sum nb (Z.to_nat (nGroups nb)) 0) uuid label.
Proof. reflexivity. Qed.

#[local] Opaque super_raw table_raw root_block root_inode format_super.

Lemma format_image_run (d d0 : D) nb cfg rand now uuid :
  formattable nb -> dev_writable D -> dev_Truncate d (nb * 4096) = (None, d0) ->
  (forall i, 0 <= i < nb * 4096 -> dev_byte d0 i = 0) ->
  (forall o n, 0 <= o -> 0 <= n -> o + n <= nb * 4096 -> exists r, read_at d0 o n = Ok r) ->
  (if bool_decide (cfg_UUID cfg = zeros 16) then let! r := rand in Ok (random_uuid r) else Ok (cfg_UUID cfg)) = Ok uuid ->
  zlen uuid = 16 -> bytes_ok uuid -> bytes_ok (cfg_Label cfg) ->
  exists d', format_image (nb * 4096) cfg rand now d = (Ok tt, d') /\ image nb now uuid (cfg_Label cfg) d'.
Proof.
  intros Hf Hw Htr Hzero Hcov Huu Hz Hb Hl. pose proof Hf as (F1 & F2 & _). unfold minBlocks in F1. fmt.
  pose proof (fmt_groups nb Hf) as [[G1 G2] G3].
  destruct (writes_image nb Hf now uuid (cfg_Label cfg) Hb Hl d0 Hw) as (d' & Hd & Him); [intros i Hi; apply Hzero; lia|exact Hcov|].
  exists d'. split; [|exact Him]. unfold format_image. fmt. unfold minBlocks. fmt.
  rewrite Z.rem_mul by lia. cbn [Z.eqb negb]. rewrite ltb_false by lia. rewrite Z.div_mul by lia. cbv zeta. rewrite ltb_false by lia.
  assert (truncate_file (nb * 4096) d = (Ok tt, d0)) as Ht by (unfold truncate_file; by rewrite Htr). run Ht.
  rewrite (w32_small nb) by lia.
  assert ((if bool_decide (cfg_UUID cfg = zeros 16) then mwrap "ext4: format: generate UUID" (mlift (let! r := rand in Ok (random_uuid r)))
    else ret (cfg_UUID cfg)) d0 = (Ok uuid, d0)) as Hu.
  { destruct (bool_decide _); [|unfold ret; congruence]. apply mwrap_run. unfold mlift. by rewrite Huu. }
  run Hu. run (total_run nb Hf (Z.to_nat (nGroups nb)) 0 0 ltac:(lia) ltac:(lia) ltac:(lia)). rewrite Z.add_0_l.
  rewrite <- super_raw_eq. destruct (table_ok nb Hf) as (Htab & _).
  unfold all_writes in Hd. cbn [app] in Hd. apply do_writes_cons in Hd as (d1 & H1 & (d2 & H2 & Hd)%do_writes_cons).
  run H1. run Htab. run H2. apply do_writes_app in Hd as (d3 & H3 & Hd).
  run (format_groups_run nb Hf _ _ (Z.to_nat (nGroups nb)) 0 d2 d3 ltac:(lia) ltac:(lia) H3).
  destruct (g0_run nb Hf) as (_ & -> & ->). unfold root_writes in Hd.
  apply do_writes_cons in Hd as (d4 & H4 & (d5 & H5 & Hd)%do_writes_cons). injection Hd as <-.
  run H4. apply mwrap_run. exact H5.
Qed.


Lemma image_super nb now uuid label (d : D) :
  formattable nb -> zlen uuid = 16 -> image nb now uuid label d ->
  readSuperblock d 0 = Ok (fmt_sb nb (free_sum nb (Z.to_nat (nGroups nb)) 0) (super_raw nb now uuid label) uuid).
Proof.
  intros Hf Hu Him. pose proof (fmt_groups nb Hf) as [[G1 G2] G3]. unfold readSuperblock.
  change (0 + 1024) with 1024. change superblockSize with 1024. rewrite (im_super _ _ _ _ _ Him). cbn [rwrap rbind].
  rewrite super_raw_eq. apply super_decode; [done..|]. pose proof (free_sum_range nb Hf (Z.to_nat (nGroups nb)) 0 ltac:(lia) ltac:(lia)). lia.
Qed.

Lemma image_boot nb now uuid label (d : D) i : image nb now uuid label d -> 0 <= i < 1024 -> dev_byte d i = 0.
Proof.
  intros Him Hi. pose proof (im_boot _ _ _ _ _ Him) as Hr. apply read_at_Ok in Hr.
  replace i with (0 + i) by lia. rewrite <- (u8_bytes_of (dev_byte d) 0 1024 i) by lia. rewrite <- Hr.
  unfold u8, zeros. rewrite lookup_replicate_2 by lia. reflexivity.
Qed.

Lemma image_label nb now uuid label :
  zlen uuid = 16 ->
  zslice (super_raw nb now uuid label) 120 16 =
    zslice label 0 (Z.min 16 (zlen label)) ++ zeros (16 - zlen (zslice label 0 (Z.min 16 (zlen label)))).
Proof. intros Hu. rewrite super_raw_eq. by apply super_label. Qed.

Context {F : Type} `{SidecarLaws F} `{Gpt D}.
Context `{SortSlice} `{Safeio}.

(** What is relied on of the package gpt: a device whose first 1024 bytes are zero
    has no partition table. *)
Definition gpt_no_table : Prop :=
  forall (d : D) n, (forall i, 0 <= i < 1024 -> dev_byte d i = 0) -> gpt_List d n = inr ErrNoTable.

(** A file that was cut to a length reads zeros up to it. *)
Definition reads_zeros (d : D) (n : Z) : Prop :=
  (forall i, 0 <= i < n -> dev_byte d i = 0) /\
  forall o m, 0 <= o -> 0 <= m -> o + m <= n -> exists r, read_at d o m = Ok r.

(** The configuration: a UUID of 16 bytes, or random bytes for it, and a label. *)
Definition config_ok (cfg : FormatConfig) (rand : res (list Z)) (uuid : list Z) : Prop :=
  bytes_ok (cfg_Label cfg) /\
  if bool_decide (cfg_UUID cfg = zeros 16)
  then exists r, rand = Ok r /\ zlen r = 16 /\ bytes_ok r /\ uuid = random_uuid r
  else zlen (cfg_UUID cfg) = 16 /\ bytes_ok (cfg_UUID cfg) /\ uuid = cfg_UUID cfg.

Lemma config_uuid cfg rand uuid : config_ok cfg rand uuid ->
  (if bool_decide (cfg_UUID cfg = zeros 16) then let! r := rand in Ok (random_uuid r) else Ok (cfg_UUID cfg)) = Ok uuid /\
  zlen uuid = 16 /\ bytes_ok uuid.
Proof.
  intros [_ Hc]. destruct (bool_decide _).
  - destruct Hc as (r & -> & Hz & Hb & ->). split; [done|]. by apply random_uuid_ok.
  - destruct Hc as (Hz & Hb & ->). done.
Qed.

(** Up to the open, whatever the sidecar holds. *)
Lemma Format_open nb cfg rand now uuid (js : F) (d d0 : D) :
  formattable nb -> config_ok cfg rand uuid -> dev_writable D -> gpt_no_table ->
  dev_Truncate d (nb * 4096) = (None, d0) -> reads_zeros d0 (nb * 4096) ->
  exists d' size, image nb now uuid (cfg_Label cfg) d' /\
    Format (nb * 4096) cfg rand now js d =
      match ReplayOnOpen 0 (OpenJournal js 4096) (fresh nb now uuid (cfg_Label cfg) d' size) with
      | (Ok j, s) => (Ok (s, j), fs_dev s)
      | (Err e, s) => (Err (ErrWrap "ext4: format: open formatted image" (ErrWrap "ext4: journal replay" e)), fs_dev s)
      | (Panic, s) => (Panic, fs_dev s)
      end.
Proof.
  intros Hf Hc Hw Hg Htr [Hz Hcov]. destruct (config_uuid _ _ _ Hc) as (Hu & Hul & Hub). destruct Hc as [Hl _].
  destruct (format_image_run d d0 nb cfg rand now uuid Hf Hw Htr Hz Hcov Hu Hul Hub Hl) as (d' & Hr & Him).
  set (n := match dev_Size d' with Ok n => n | _ => 0 end).
  exists d', (if 0 <? n then n - 0 else 0). split; [exact Him|]. unfold Format. rewrite Hr. fold n.
  assert (partitionOffset d' (-1) n = Ok 0) as ->.
  { unfold partitionOffset. cbn [Z.leb Z.compare]. rewrite Hg; [done|]. intros i Hi. exact (image_boot _ _ _ _ _ i Him Hi). }
  unfold openFromDevice. rewrite (image_super nb now uuid (cfg_Label cfg) d' Hf Hul Him). fold n.
  unfold fresh, fresh_sb. set (sb := fmt_sb _ _ _ _).
  assert ((if 0 <? n then with_deviceBytes sb (n - 0) else sb) = with_deviceBytes sb (if 0 <? n then n - 0 else 0)) as ->
    by (destruct (0 <? n); reflexivity).
  change (BlockSize (with_deviceBytes sb _)) with 4096.
  destruct (ReplayOnOpen _ _ _) as [[j|e|] s']; reflexivity.
Qed.

(** C5: [Format] of a block count that can be laid out always succeeds on an empty
    file with no journal beside it.  The file system it returns satisfies the
    invariant every operation relies on, passes the check, has the blocks, the
    label and the UUID that were asked for, and its root directory is empty. *)
Theorem Format_correct nb cfg rand now uuid (js : F) (d d0 : D) :
  formattable nb -> config_ok cfg rand uuid -> dev_writable D -> gpt_no_table ->
  dev_Truncate d (nb * 4096) = (None, d0) -> reads_zeros d0 (nb * 4096) -> js_content js = [] ->
  exists s j, Format (nb * 4096) cfg rand now js d = (Ok (s, j), fs_dev s) /\
    fs_inv 0 s /\ CheckImage 0 s = (Ok tt, s) /\
    BlocksCount (fs_sb s) = nb /\ UUID (fs_sb s) = uuid /\
    sb_Label (fs_sb s) = trim_zeros (zslice (cfg_Label cfg) 0 (Z.min 16 (zlen (cfg_Label cfg)))) /\
    ListDir (fs_dev s) 0 (fs_sb s) [slash] = Ok [].
Proof.
  intros Hf Hc Hw Hg Htr Hz Hjs. destruct (Format_open nb cfg rand now uuid js d d0 Hf Hc Hw Hg Htr Hz) as (d' & size & Him & ->).
  destruct (config_uuid _ _ _ Hc) as (_ & Hul & Hub). destruct Hc as [Hl _].
  assert (ReplayOnOpen 0 (OpenJournal js 4096) (fresh nb now uuid (cfg_Label cfg) d' size) =
    (Ok (MkJournal js true 1 1 0 4096), fresh nb now uuid (cfg_Label cfg) d' size)) as ->.
  { unfold OpenJournal, initNextSeq, ReplayOnOpen. cbn [j_js]. rewrite Hjs. cbn. rewrite Hjs. reflexivity. }
  eexists _, _. split; [reflexivity|]. split; [by apply fresh_inv|]. split; [by apply fresh_check|].
  split; [reflexivity|]. split; [reflexivity|]. split.
  - change (sb_Label _) with (trim_zeros (zslice (super_raw nb now uuid (cfg_Label cfg)) 120 16)). rewrite image_label by done. apply trim_zeros_pad.
  - cbn [fresh fs_dev fs_sb]. unfold ListDir.
    assert (lookupPath d' 0 (fresh_sb nb now uuid (cfg_Label cfg) size) [slash] = Ok (Inode (root_inode nb now) 2 4096 0x41ED)) as ->
      by exact (root_read nb Hf now uuid (cfg_Label cfg) d' Him size).
    cbn [rbind]. change (isDir (Inode (root_inode nb now) 2 4096 0x41ED)) with true. cbn [negb].
    rewrite (root_list nb Hf now uuid (cfg_Label cfg) d' Him size). reflexivity.
Qed.


(** C35: [Format] leaves the sidecar journal of the file that was there before, and
    opening replays it: the transactions of the old file system are applied to the
    new one.  The last block of the log reads as the old journal has it. *)
Theorem Format_replays_old_journal nb cfg rand now uuid (js : F) (d d0 : D) txs es e :
  formattable nb -> config_ok cfg rand uuid -> dev_writable D -> dev_syncable D -> gpt_no_table ->
  dev_Truncate d (nb * 4096) = (None, d0) -> reads_zeros d0 (nb * 4096) ->
  Forall tx_ok txs -> max_seq 0 txs + 1 < 2 ^ 64 -> js_content js = log_bytes txs -> log_entries txs = es ++ [e] ->
  Forall (fun e => 0 < zlen (je_Data e) /\ je_Block e * 4096 + zlen (je_Data e) <= nb * 4096) (log_entries txs) ->
  exists s j, Format (nb * 4096) cfg rand now js d = (Ok (s, j), fs_dev s) /\
    read_at (fs_dev s) (je_Block e * 4096) (zlen (je_Data e)) = Ok (je_Data e).
Proof.
  intros Hf Hc Hw Hsy Hg Htr Hz Htx Hseq Hjs He Hfit.
  destruct (Format_open nb cfg rand now uuid js d d0 Hf Hc Hw Hg Htr Hz) as (d' & size & Him & ->). pose proof Hf as (_ & F2 & _). fmt.
  set (s0 := fresh nb now uuid (cfg_Label cfg) d' size).
  assert (Forall (fits 0 s0 4096) (log_entries txs)) as Hfits.
  { rewrite Forall_forall in Hfit. apply Forall_forall. intros x Hx. destruct (Hfit x Hx) as [Hx1 Hx2].
    assert (entry_ok x) as Hok.
    { unfold log_entries in Hx. assert (In x (concat (snd <$> txs))) as Hi by by apply list_elem_of_In.
      apply in_concat in Hi as (l & Hl%list_elem_of_In & Hxl%list_elem_of_In).
      apply list_elem_of_fmap in Hl as (p & -> & Hp). rewrite Forall_forall in Htx. destruct (Htx p Hp) as (_ & _ & Hes).
      rewrite Forall_forall in Hes. by apply Hes. }
    pose proof Hok as ([Hb0 _] & _). split; [done|]. split; [done|]. change (BlocksCount (fs_sb s0)) with nb. split; [lia|]. split; [lia|].
    apply (im_cov _ _ _ _ _ Him); lia. }
  destruct (recover_store 0 Hw Hsy js (dev_byte d') 4096 txs s0 Htx Hseq Hjs) as (s & j & Hr & _ & _ & Hbs & Hst).
  { split; [change (DescSize (fs_sb s0)) with 32; lia|]. split; [done|]. intros i. by right. }
  exists s, j. rewrite Hr. split; [done|]. pose proof (jst_fits _ _ _ _ Hst) as Hfs. cbn [fst snd] in Hfs. rewrite Hbs, He in Hfs.
  apply Forall_app in Hfs as [_ Hfe]. apply Forall_cons in Hfe as [Hfe _]. destruct Hfe as (_ & _ & _ & _ & r & Hread). cbn [fst] in Hread.
  rewrite Z.add_0_l in Hread. rewrite Hread. f_equal. apply read_at_Ok in Hread as ->.
  rewrite (bytes_of_ext _ (upd_bytes (log_view 0 4096 (dev_byte d') es) (je_Block e * 4096) (je_Data e))); [apply bytes_of_upd_same|].
  intros i _. pose proof (jst_view _ _ _ _ Hst i) as Hv. cbn [fst snd] in Hv. rewrite Hbs, He, log_view_app in Hv. exact Hv.
Qed.

End format.

(** * An image of 21 blocks *)

#[local] Instance no_gpt : Gpt memdev := {
  gpt_ByIndex := fun _ _ _ => inr ErrNoTable;
  gpt_List := fun _ _ => inr ErrNoTable;
  LinuxFilesystemGUID := []
}.

Lemma no_gpt_ok : gpt_no_table (D := memdev).
Proof. intros d n _. reflexivity. Qed.

Definition some_config : FormatConfig := MkFormatConfig (replicate 16 7) [100; 97; 116; 97].

Lemma some_config_ok : config_ok some_config (Err EOF) (replicate 16 7).
Proof.
  split; [repeat constructor; unfold byte_ok; lia|]. change (bool_decide (cfg_UUID some_config = zeros 16)) with false.
  cbv iota. split; [done|]. split; [repeat constructor; unfold byte_ok; lia|done].
Qed.

Lemma small_formattable : formattable 21.
Proof. split_and!; vm_compute; congruence. Qed.

Definition cut_file (n : Z) : memdev := MemDev (zeros n).

Lemma cut_file_ok n : 0 <= n -> dev_Truncate (MemDev []) n = (None, cut_file n) /\ reads_zeros (cut_file n) n.
Proof.
  intros Hn. split.
  - cbn. unfold cut_file. change (zlen (@nil Z)) with 0. rewrite Z.sub_0_r. unfold zslice. by rewrite drop_nil, take_nil.
  - split.
    + intros i Hi. cbn. unfold mem_byte, cut_file. cbn. rewrite ltb_false by lia. unfold u8, zeros. by rewrite lookup_replicate_2 by lia.
    + intros o m Ho Hm Hl. unfold read_at. cbn. unfold mem_ReadAt, cut_file. cbn. rewrite ltb_false by lia.
      rewrite zlen_fmap, zlen_zslice by (rewrite ?zlen_zeros by lia; lia). rewrite ltb_false by lia. eauto.
Qed.

Lemma Format_correct_witness :
  exists s j, Format (21 * 4096) some_config (Err EOF) 0 (GrowFile []) (MemDev []) = (Ok (s, j), fs_dev s) /\
    fs_inv 0 s /\ CheckImage 0 s = (Ok tt, s) /\ ListDir (fs_dev s) 0 (fs_sb s) [slash] = Ok [].
Proof.
  destruct (cut_file_ok (21 * 4096) ltac:(lia)) as [Ht Hz].
  assert (js_content (GrowFile []) = []) as Hj by reflexivity.
  destruct (Format_correct 21 some_config (Err EOF) 0 (replicate 16 7) (GrowFile []) (MemDev []) (cut_file (21 * 4096))
    small_formattable some_config_ok memdev_writable no_gpt_ok Ht Hz Hj) as (s & j & Hr & Hi & Hc & _ & _ & _ & Hl).
  exists s, j. split; [exact Hr|]. split; [exact Hi|]. split; [exact Hc|exact Hl].
Defined.

(** The old file system had written its last block. *)
Definition old_entry : journalEntry := JEntry 20 [1; 2; 3].
Definition old_txs : list (Z * list journalEntry) := [(1, [old_entry])].

Lemma Format_replays_old_journal_witness :
  exists s j, Format (21 * 4096) some_config (Err EOF) 0 (GrowFile (log_bytes old_txs)) (MemDev []) = (Ok (s, j), fs_dev s) /\
    read_at (fs_dev s) (20 * 4096) 3 = Ok [1; 2; 3].
Proof.
  destruct (cut_file_ok (21 * 4096) ltac:(lia)) as [Ht Hz].
  assert (entry_ok old_entry) as He by (split; [cbn; lia|]; split; [vm_compute; reflexivity|]; repeat constructor; cbn; lia).
  refine (Format_replays_old_journal 21 some_config (Err EOF) 0 (replicate 16 7) (GrowFile (log_bytes old_txs)) (MemDev []) (cut_file (21 * 4096))
    old_txs [] old_entry small_formattable some_config_ok memdev_writable memdev_syncable no_gpt_ok Ht Hz _ _ _ eq_refl _).
  - apply Forall_singleton. split; [cbn; lia|]. split; [vm_compute; reflexivity|]. by apply Forall_singleton.
  - vm_compute. reflexivity.
  - vm_compute. reflexivity.
  - apply Forall_singleton. split; vm_compute; congruence.
Defined.
